(** * The retrieval-augmented orchestration route (frontend/app/api/RAG/route.ts)

    A shallow embedding of the route handler: name sanitisation and namespace
    derivation, the embedding adapter, the provisioning coordinator, the
    ingest / query / analyze / overview branches of [POST], the [GET] and
    [DELETE] handlers, and the parts of the explore and overview pages
    (frontend/app/explore/page.tsx) that compute what is sent to the route
    and what is shown of its answers.

    Conventions of the model.
    - In the handlers a JS string is a [string], a sequence of code units
      below 256, and a JS number used as an identifier or a count is a [Z]
      that prints in decimal, as the integers below 10^21 in magnitude do.
      The sanitiser and [trim] are also given on sequences of UTF-16 code
      units and on all numbers, with [toLowerCase] and the printing of
      numbers as parameters ([Wide]); [sanitize_agrees] and [trim_wide]
      relate the two.
    - A number that is only stored, compared or subtracted (timestamp,
      score, embedding component) is a rational [Q], which orders finite
      doubles exactly.
    - The body of a request is an object with optional fields; [null], the
      other values and a body that is not JSON are told apart in
      [RequestBody].
    - [undefined]/[null] is [None].
    - An awaited external call is answered by an oracle that sees the whole
      history of calls and answers; every call and its answer is appended to
      a trace.  A handler is a function from the process state to a response
      and the state after it.
    - The requests of [embedTexts] are issued in order before any answer is
      looked at; of several rejections the one of the least index is the one
      reported.
    - The provisioning coordinator is modelled twice: as part of a handler
      that runs alone, and as a pool of attempts that interleave at their
      awaits and with the evictions of [DELETE].  [run_initializer] relates
      the two. *)

From Stdlib Require Import ZArith QArith Qminmax Lia Ascii String DecimalString.
From Stdlib Require Import Sorted Permutation.
From stdpp Require Import base option list strings gmap.

Local Open Scope string_scope.
Local Open Scope list_scope.

(** ** Characters and strings *)

Module Chars.

Definition code (c : ascii) : N := N_of_ascii c.

Definition is_lower (c : ascii) : bool := ((97 <=? code c) && (code c <=? 122))%N.
Definition is_upper (c : ascii) : bool := ((65 <=? code c) && (code c <=? 90))%N.
Definition is_digit (c : ascii) : bool := ((48 <=? code c) && (code c <=? 57))%N.
Definition is_dash (c : ascii) : bool := (code c =? 45)%N.

(** The letters and digits of the class [[a-z0-9-]]. *)
Definition is_alnum (c : ascii) : bool := is_lower c || is_digit c.

(** Membership in the character class [[a-z0-9-]]. *)
Definition in_class (c : ascii) : bool := is_alnum c || is_dash c.

(** The negated class [[^a-z0-9-]]. *)
Definition not_in_class (c : ascii) : bool := negb (in_class c).

Definition lower (c : ascii) : ascii :=
  if is_upper c then ascii_of_N (code c + 32) else c.

Definition dash : ascii := "-"%char.

End Chars.

(** [s.toLowerCase()] on the ASCII letters.  What it does to the other
    code units is covered by [Wide]. *)
Definition toLowerCase (s : list ascii) : list ascii := map Chars.lower s.

(** [s.replace(/[p]+/g, "-")]: every maximal run of characters satisfying [p]
    becomes one dash.  [in_run] tells that the previous character belonged to
    the run being replaced. *)
Fixpoint replace_runs (p : ascii -> bool) (in_run : bool) (s : list ascii) : list ascii :=
  match s with
  | [] => []
  | c :: s' =>
      if p c
      then (if in_run then replace_runs p true s' else Chars.dash :: replace_runs p true s')
      else c :: replace_runs p false s'
  end.

(** The longest prefix of dashes removed: the [^-+] alternative. *)
Fixpoint drop_dashes (s : list ascii) : list ascii :=
  match s with
  | [] => []
  | c :: s' => if Chars.is_dash c then drop_dashes s' else s
  end.

(** The longest suffix of dashes removed: the [-+$] alternative. *)
Definition strip_trailing (s : list ascii) : list ascii := rev (drop_dashes (rev s)).

(** [s.replace(/^-+|-+$/g, "")] *)
Definition trim_dashes (s : list ascii) : list ascii :=
  strip_trailing (drop_dashes s).

(** ** Configuration read from the process environment *)

Record Config := {
  PINECONE_INDEX : option string;
  PINECONE_CLOUD : option string;
  PINECONE_REGION : option string;
  PINECONE_API_KEY : option string;
  GOOGLE_API_KEY : option string
}.

Definition EMBEDDING_DIMENSION : Z := 3072.
Definition DEFAULT_NAMESPACE : string := "frames".
Definition DEFAULT_INDEX_NAME (cfg : Config) : string :=
  default "video-frames" (PINECONE_INDEX cfg).

(** A value of type [string | number]. *)
Inductive JsId :=
| IdStr (s : string)
| IdNum (n : Z).

(** [n.toString()] for an integer below 10^21 in magnitude, which prints
    in decimal.  The other numbers are covered by [Wide]. *)
Definition Z_toString (n : Z) : string := NilZero.string_of_int (Z.to_int n).

(** JS truthiness of a [string | number]: the empty string and zero are falsy. *)
Definition truthy_id (v : JsId) : bool :=
  match v with
  | IdStr s => negb (String.eqb s "")
  | IdNum n => negb (n =? 0)%Z
  end.

(** The constant [trimmed] of [sanitizeIndexName], from its [candidate]. *)
Definition sanitize_trimmed (candidate : string) : list ascii :=
  let lowered := toLowerCase (list_ascii_of_string candidate) in
  let replaced := replace_runs Chars.not_in_class false lowered in
  let collapsed := replace_runs Chars.is_dash false replaced in
  trim_dashes collapsed.

(** The constant [candidate] of [sanitizeIndexName]. *)
Definition candidate_of (cfg : Config) (raw : option JsId) : string :=
  match raw with
  | Some (IdNum n) => Z_toString n
  | Some (IdStr s) => s
  | None => DEFAULT_INDEX_NAME cfg
  end.

Definition sanitizeIndexName (cfg : Config) (raw : option JsId) : string :=
  let fallback := DEFAULT_INDEX_NAME cfg in
  let candidate := candidate_of cfg raw in
  let trimmed := sanitize_trimmed candidate in
  let safe := match trimmed with [] => fallback | _ => string_of_list_ascii trimmed end in
  string_of_list_ascii (take 45 (list_ascii_of_string safe)).

Definition resolveIndexName (cfg : Config) (raw : option JsId) : string :=
  sanitizeIndexName cfg raw.

Definition getNamespace (cfg : Config) (videoId : option JsId) : string :=
  match videoId with
  | None => DEFAULT_NAMESPACE
  | Some v =>
      if truthy_id v then "video-" ++ sanitizeIndexName cfg (Some v)
      else DEFAULT_NAMESPACE
  end.

(** The sanitised name read off the text of the input: its maximal runs of
    lower-case letters and digits, joined by single dashes. *)
Module NameSpec.

(** The maximal runs of letters and digits of [s], in order; [cur] is the
    run being read. *)
Fixpoint runs (cur : list ascii) (s : list ascii) : list (list ascii) :=
  match s with
  | [] => match cur with [] => [] | _ => [cur] end
  | c :: s' =>
      if Chars.is_alnum c then runs (cur ++ [c]) s'
      else match cur with [] => runs [] s' | _ => cur :: runs [] s' end
  end.

Definition dash_joined (ws : list (list ascii)) : list ascii :=
  match ws with
  | [] => []
  | w :: ws' => w ++ flat_map (fun w' => Chars.dash :: w') ws'
  end.

Definition cleaned (candidate : string) : list ascii :=
  dash_joined (runs [] (toLowerCase (list_ascii_of_string candidate))).

(** No two dashes in a row. *)
Fixpoint no_double_dash (s : list ascii) : bool :=
  match s with
  | c1 :: (c2 :: _) as rest =>
      negb (Chars.is_dash c1 && Chars.is_dash c2) && no_double_dash rest
  | _ => true
  end.

(** Neither the first nor the last character is a dash. *)
Definition no_outer_dash (s : list ascii) : bool :=
  match head s, last s with
  | Some c1, Some c2 => negb (Chars.is_dash c1) && negb (Chars.is_dash c2)
  | _, _ => true
  end.

End NameSpec.

(** ** JavaScript values and the built-ins taken as given *)

(** What a vector's metadata may hold: numbers, strings, booleans and lists
    of strings. *)
Inductive JsValue :=
| JNum (q : Q)
| JStr (s : string)
| JBool (b : bool)
| JList (l : list string).

(** Built-ins whose results depend on floating-point printing and parsing:
    [ToNumber] on a value that is not a number ([None] is NaN),
    [Number.prototype.toFixed(1)] and [String(n)]. *)
Record JsRuntime := {
  toNumber : JsValue -> option Q;
  toFixed1 : Q -> string;
  numberToString : Q -> string
}.

(** A thrown value: an [Error] with its message, or anything else. *)
Inductive Thrown :=
| Error (message : string)
| NonError.

Definition newline : string := String (ascii_of_nat 10) EmptyString.
Definition dquote : string := String (ascii_of_nat 34) EmptyString.

(** [xs.join(sep)] *)
Definition join (sep : string) (xs : list string) : string := String.concat sep xs.

(** Truthiness of an optional string: [undefined] and [""] are falsy. *)
Definition truthy_str (s : option string) : bool :=
  match s with
  | Some s => negb (String.eqb s "")
  | None => false
  end.

Definition truthy_flag (b : option bool) : bool := default false b.

Definition js_truthy (v : JsValue) : bool :=
  match v with
  | JNum q => negb (Qeq_bool q 0)
  | JStr s => negb (String.eqb s "")
  | JBool b => b
  | JList _ => true
  end.

(** [typeof v === "number"] *)
Definition is_number (v : option JsValue) : bool :=
  match v with
  | Some (JNum _) => true
  | _ => false
  end.

(** The numeric value an operand of [-] takes. *)
Definition js_number (rt : JsRuntime) (v : option JsValue) : option Q :=
  match v with
  | Some (JNum q) => Some q
  | Some other => toNumber rt other
  | None => None
  end.

(** [a - b]; [None] is NaN. *)
Definition js_sub (rt : JsRuntime) (a b : option JsValue) : option Q :=
  match js_number rt a, js_number rt b with
  | Some x, Some y => Some (x - y)%Q
  | _, _ => None
  end.

(** [String(v)] *)
Definition js_string (rt : JsRuntime) (v : JsValue) : string :=
  match v with
  | JNum q => numberToString rt q
  | JStr s => s
  | JBool b => if b then "true" else "false"
  | JList l => join "," l
  end.

Definition id_toString (v : JsId) : string :=
  match v with
  | IdStr s => s
  | IdNum n => Z_toString n
  end.

Definition id_value (v : JsId) : JsValue :=
  match v with
  | IdStr s => JStr s
  | IdNum n => JNum (inject_Z n)
  end.

(** White space removed by [trim], among the code units below 256 that a
    [string] is made of; [Wide.is_space] has the whole set. *)
Definition is_space (c : ascii) : bool :=
  let n := Chars.code c in
  (((9 <=? n) && (n <=? 13)) || (n =? 32) || (n =? 160))%N.

Fixpoint drop_spaces (s : list ascii) : list ascii :=
  match s with
  | [] => []
  | c :: s' => if is_space c then drop_spaces s' else s
  end.

(** [s.trim()] *)
Definition js_trim (s : string) : string :=
  string_of_list_ascii (rev (drop_spaces (rev (drop_spaces (list_ascii_of_string s))))).

(** The comparator's verdict "greater than zero"; NaN counts as zero. *)
Definition cmp_positive (c : option Q) : bool :=
  match c with
  | Some q => if Qlt_le_dec 0 q then true else false
  | None => false
  end.

(** [Array.prototype.sort(cmp)] is a stable sort: an element moves behind a
    later one only when the comparator calls it greater.  For a comparator
    that orders its arguments consistently every stable sort returns this
    list. *)
Fixpoint sort_insert {A} (cmp : A -> A -> option Q) (x : A) (l : list A) : list A :=
  match l with
  | [] => [x]
  | y :: l' => if cmp_positive (cmp x y) then y :: sort_insert cmp x l' else x :: l
  end.

Definition js_sort {A} (cmp : A -> A -> option Q) (l : list A) : list A :=
  foldr (sort_insert cmp) [] l.

(** ** Data of the route *)

Record Frame := {
  frameId : JsId;
  timestamp : Q;
  description : option string;
  path : string
}.

Record RustFrameRecord := {
  frame_id : JsId;
  record_timestamp : Q;
  record_description : option string;
  record_path : string
}.

Record Vector := {
  vector_id : string;
  vector_values : option (list Q);
  vector_metadata : gmap string JsValue
}.

(** A scored record returned by a similarity query. *)
Record Match := {
  match_id : string;
  match_score : option Q;
  match_values : list Q;
  match_metadata : option (gmap string JsValue)
}.

Record Citation := {
  citation_id : string;
  citation_score : option Q;
  citation_metadata : option (gmap string JsValue)
}.

Record OverviewFrame := {
  of_id : string;
  of_score : option Q;
  of_frame_id : option JsValue;
  of_timestamp : option JsValue;
  of_description : option JsValue;
  of_path : option JsValue
}.

(** The JSON body of a request: one object, every field optional. *)
Record RoutePayload := {
  action : option string;
  indexName : option JsId;
  videoFile : option string;
  videoId : option JsId;
  videoFilename : option string;
  summary : option string;
  skipEnsure : option bool;
  records : option (list RustFrameRecord);
  frames : option (list Frame);
  question : option string;
  topK : option Z
}.

Inductive Body :=
| ErrorBody (message : string)
| IngestBody (upserted : nat) (namespace index : string) (includedSummary : option bool)
| QueryBody (matches : list Match) (index : string)
| AnalyzeBody (answer : string) (citations : list Citation) (index : string)
| OverviewBody (summary_text : option JsValue) (frames_out : list OverviewFrame)
               (index namespace : string).

(** [NextResponse.json(body, { status })] *)
Record Response := {
  status : Z;
  body : Body
}.

(** What [request.json()] settles to: a rejection when the body is not
    JSON, and otherwise the value read, which is [null], a boolean, number
    or string, or an object; an array is an object without the fields of a
    payload. *)
Inductive RequestBody :=
| BodyUnreadable (e : Thrown)
| BodyNull
| BodyScalar
| BodyObject (payload : RoutePayload).

(** The payload read off a value that has none of the fields. *)
Definition no_fields : RoutePayload :=
  {| action := None; indexName := None; videoFile := None; videoId := None;
     videoFilename := None; summary := None; skipEnsure := None; records := None;
     frames := None; question := None; topK := None |}.

(** ** External services *)

Inductive IndexItem :=
| ItemStr (s : string)
| ItemObj (name : option string).

(** What [listIndexes] may resolve to. *)
Inductive IndexListing :=
| ListingArray (items : list IndexItem)
| ListingObject (indexes : option (list IndexItem))
| ListingOther.

Record CreateIndexRequest := {
  create_name : string;
  create_dimension : Z;
  create_metric : string;
  create_cloud : string;
  create_region : string
}.

(** [description?.status] *)
Record IndexStatus := {
  ready : option bool;
  state : option string
}.

Record QueryRequest := {
  query_vector : option (list Q);
  query_topK : Z;
  includeMetadata : bool
}.

Record FetchedRecord := {
  fetched_metadata : option (gmap string JsValue)
}.

Record FetchResponse := {
  fetch_records : option (gmap string FetchedRecord);
  fetch_vectors : option (gmap string FetchedRecord);
  fetch_own : gmap string FetchedRecord
}.

Record Part := { part_text : option string }.

(** [candidate.content?.parts] *)
Record Candidate := { candidate_parts : option (list Part) }.

(** [resp.response]: its [text] method (absent, throwing, or returning) and
    its candidates. *)
Record GenResponse := {
  response_text : option (Thrown + option string);
  candidates : option (list Candidate)
}.

(** One awaited call together with what it settled to. *)
Inductive Event :=
| EvListIndexes (r : Thrown + IndexListing)
| EvCreateIndex (req : CreateIndexRequest) (r : Thrown + unit)
| EvDescribeIndex (name : string) (r : Thrown + option IndexStatus)
| EvSleep (ms : Z)
| EvEmbed (text : string) (r : Thrown + option (list Q))
| EvUpsert (index namespace : string) (vectors : list Vector) (r : Thrown + unit)
| EvQuery (index namespace : string) (req : QueryRequest) (r : Thrown + option (list Match))
| EvFetch (index namespace : string) (ids : list string) (r : Thrown + option FetchResponse)
| EvGenerate (prompt : string) (r : Thrown + option GenResponse).

(** The services answer each call knowing the history so far. *)
Record Services := {
  listIndexes : list Event -> Thrown + IndexListing;
  createIndex : list Event -> CreateIndexRequest -> Thrown + unit;
  describeIndex : list Event -> string -> Thrown + option IndexStatus;
  embedContent : list Event -> string -> Thrown + option (list Q);
  upsert : list Event -> string -> string -> list Vector -> Thrown + unit;
  query : list Event -> string -> string -> QueryRequest -> Thrown + option (list Match);
  fetch : list Event -> string -> string -> list string -> Thrown + option FetchResponse;
  generateContent : list Event -> string -> Thrown + option GenResponse
}.

(** The calls of the provisioning coordinator. *)
Definition is_provisioning (ev : Event) : bool :=
  match ev with
  | EvListIndexes _ | EvCreateIndex _ _ | EvDescribeIndex _ _ | EvSleep _ => true
  | _ => false
  end.

(** ** Process state and the handler monad *)

Inductive LogLevel := LogInfo | LogWarn.

Record LogEntry := {
  log_level : LogLevel;
  log_text : string;
  log_error : option Thrown
}.

(** [indexInitPromises] maps a name to the outcome its promise settles to. *)
Record State := {
  trace : list Event;
  indexInitPromises : gmap string (Thrown + unit);
  console : list LogEntry
}.

Definition M (A : Type) : Type := State -> (Thrown + A) * State.

#[global] Instance M_ret : MRet M := fun A a st => (inr a, st).

#[global] Instance M_bind : MBind M := fun A B f m st =>
  match m st with
  | (inl e, st') => (inl e, st')
  | (inr a, st') => f a st'
  end.

Definition throw {A} (e : Thrown) : M A := fun st => (inl e, st).

(** [try { m } catch (e) { ... }]: the outcome of [m] as a value. *)
Definition try_ {A} (m : M A) : M (Thrown + A) :=
  fun st => let '(r, st') := m st in (inr r, st').

(** [await p] for a promise known by its outcome. *)
Definition await {A} (p : Thrown + A) : M A := fun st => (p, st).

Definition gets {A} (f : State -> A) : M A := fun st => (inr (f st), st).

Definition record_event (ev : Event) (st : State) : State :=
  {| trace := trace st ++ [ev]; indexInitPromises := indexInitPromises st; console := console st |}.

Definition set_promises (f : gmap string (Thrown + unit) -> gmap string (Thrown + unit)) : M unit :=
  fun st => (inr tt, {| trace := trace st; indexInitPromises := f (indexInitPromises st);
                        console := console st |}).

Definition console_write (l : LogLevel) (text : string) (e : option Thrown) : M unit :=
  fun st => (inr tt, {| trace := trace st; indexInitPromises := indexInitPromises st;
                        console := console st ++ [{| log_level := l; log_text := text; log_error := e |}] |}).

(** An awaited service call: ask, record, and resume with the answer. *)
Definition call {A} (ask : list Event -> Thrown + A) (ev : Thrown + A -> Event) : M A :=
  fun st => let r := ask (trace st) in (r, record_event (ev r) st).

Definition sleep (ms : Z) : M unit := fun st => (inr tt, record_event (EvSleep ms) st).

Fixpoint mapM {A B} (f : A -> M B) (l : list A) : M (list B) :=
  match l with
  | [] => mret []
  | x :: l' => y ← f x; ys ← mapM f l'; mret (y :: ys)
  end.

(** ** The route *)

Section Route.

Variable cfg : Config.
Variable rt : JsRuntime.
Variable env : Services.

Definition has_client (key : option string) : bool := truthy_str key.

Definition missing_pinecone : Thrown :=
  Error "Missing Pinecone client. Ensure PINECONE_API_KEY is set.".
Definition missing_gemini : Thrown :=
  Error "Missing Gemini client. Ensure GOOGLE_API_KEY is set.".

Definition getPineconeClient : M unit :=
  if has_client (PINECONE_API_KEY cfg) then mret tt else throw missing_pinecone.

Definition getEmbeddingModel : M unit :=
  if has_client (GOOGLE_API_KEY cfg) then mret tt else throw missing_gemini.

Definition getGenerationModel : M unit :=
  if has_client (GOOGLE_API_KEY cfg) then mret tt else throw missing_gemini.

Definition requireClients : M unit :=
  if has_client (PINECONE_API_KEY cfg)
  then (if has_client (GOOGLE_API_KEY cfg) then mret tt else throw missing_gemini)
  else throw missing_pinecone.

Definition checkEmbeddingDimensions (values : list Q) : M unit :=
  if bool_decide (Z.of_nat (length values) = EMBEDDING_DIMENSION) then mret tt
  else console_write LogWarn
         ("Gemini embedding dimension mismatch: expected " ++ Z_toString EMBEDDING_DIMENSION
            ++ ", received " ++ Z_toString (Z.of_nat (length values)) ++ ".") None.

(** The names of the entries that carry a non-empty name. *)
Definition normalize_items (items : list IndexItem) : list string :=
  omap (fun item =>
          let name := match item with ItemStr s => Some s | ItemObj n => n end in
          if truthy_str name then name else None) items.

Definition normalizeIndexList (indexes : IndexListing) : list string :=
  match indexes with
  | ListingArray items => normalize_items items
  | ListingObject (Some items) => normalize_items items
  | ListingObject None => []
  | ListingOther => []
  end.

(** *** Embedding adapter *)

Definition no_text : Thrown := Error "No text provided for embedding.".
Definition no_vector : Thrown := Error "Gemini did not return an embedding vector.".

(** The body of the callback mapped over the texts, up to its settling: the
    request is issued, and the promise settles to the values or to what
    was thrown. *)
Definition embedOne (text : string) : M (Thrown + list Q) :=
  response ← try_ (call (fun h => embedContent env h text) (EvEmbed text));
  match response with
  | inl e => mret (inl e)
  | inr (Some (v :: values)) =>
      checkEmbeddingDimensions (v :: values);; mret (inr (v :: values))
  | inr _ => mret (inl no_vector)
  end.

(** [Promise.all]: all the values in order, or a rejection.  Of several
    rejections the one of the least index is reported. *)
Fixpoint promise_all {A} (settled : list (Thrown + A)) : Thrown + list A :=
  match settled with
  | [] => inr []
  | inl e :: _ => inl e
  | inr a :: rest =>
      match promise_all rest with
      | inl e => inl e
      | inr l => inr (a :: l)
      end
  end.

Definition embedTexts (texts : list string) : M (list (list Q)) :=
  match texts with
  | [] => throw no_text
  | _ =>
      getEmbeddingModel;;
      settled ← mapM embedOne texts;
      await (promise_all settled)
  end.

(** *** Provisioning coordinator *)

Definition maxAttempts : nat := 150.

Definition timed_out (indexName : string) : Thrown :=
  Error ("Timed out waiting for Pinecone index " ++ dquote ++ indexName ++ dquote
           ++ " to become ready.").

Definition is_ready (description : Thrown + option IndexStatus) : bool :=
  match description with
  | inr (Some s) =>
      match ready s with Some true => true | _ => false end
      || match state s with Some t => String.eqb t "Ready" | None => false end
  | _ => false
  end.

(** The polling loop with [remaining] iterations left. *)
Fixpoint poll (indexName : string) (remaining : nat) : M unit :=
  match remaining with
  | O => throw (timed_out indexName)
  | S remaining' =>
      description ← try_ (call (fun h => describeIndex env h indexName)
                               (EvDescribeIndex indexName));
      if is_ready description then mret tt
      else sleep 2000;; poll indexName remaining'
  end.

Definition create_request (indexName : string) : CreateIndexRequest :=
  {| create_name := indexName;
     create_dimension := EMBEDDING_DIMENSION;
     create_metric := "cosine";
     create_cloud := default "aws" (PINECONE_CLOUD cfg);
     create_region := default "us-east-1" (PINECONE_REGION cfg) |}.

(** The body of the [initializer] promise. *)
Definition initializer (indexName : string) : M unit :=
  listing ← call (listIndexes env) EvListIndexes;
  let indexes := normalizeIndexList listing in
  (if existsb (String.eqb indexName) indexes then mret tt
   else call (fun h => createIndex env h (create_request indexName))
             (EvCreateIndex (create_request indexName)));;
  poll indexName maxAttempts.

(** One request running alone: the initializer is stored and awaited; its
    [catch] handler evicts the entry before the rejection reaches the
    caller. *)
Definition ensureIndexReady (indexName : string) : M unit :=
  getPineconeClient;;
  existing ← gets (fun st => indexInitPromises st !! indexName);
  match existing with
  | Some outcome => await outcome
  | None =>
      outcome ← try_ (initializer indexName);
      set_promises (insert indexName outcome);;
      match outcome with
      | inl e => set_promises (delete indexName);; throw e
      | inr _ => mret tt
      end
  end.

(** *** Building vectors *)

(** An object literal: the fields that are defined. *)
Definition object (fields : list (string * option JsValue)) : gmap string JsValue :=
  list_to_map (omap (fun kv => pair kv.1 <$> kv.2) fields).

(** [videoId?.toString() ?? "1"] *)
Definition video_id_text (videoId : option JsId) : string :=
  default "1" (id_toString <$> videoId).

(** [...(videoFilename ? { video_filename: videoFilename } : {})] *)
Definition filename_field (videoFilename : option string) : option JsValue :=
  if truthy_str videoFilename then JStr <$> videoFilename else None.

Definition frame_metadata (videoId : option JsId) (videoFilename : option string)
    (frame : Frame) : gmap string JsValue :=
  object [ ("video_id", Some (JStr (video_id_text videoId)));
           ("frame_id", Some (id_value (frameId frame)));
           ("timestamp", Some (JNum (timestamp frame)));
           ("description", JStr <$> description frame);
           ("path", Some (JStr (path frame)));
           ("video_filename", filename_field videoFilename) ].

Definition frame_vector_id (videoId : option JsId) (frame : Frame) : string :=
  getNamespace cfg videoId ++ "::" ++ id_toString (frameId frame).

Definition summary_vector (videoId : option JsId) (text : string)
    (sumVec : option (list Q)) : Vector :=
  {| vector_id := getNamespace cfg videoId ++ "::summary";
     vector_values := sumVec;
     vector_metadata :=
       object [ ("video_id", Some (JStr (video_id_text videoId)));
                ("summary", Some (JBool true));
                ("text", Some (JStr text)) ] |}.

Definition manifest_metadata (videoId : option JsId) (videoFilename : option string)
    (frames : list Frame) : gmap string JsValue :=
  object [ ("video_id", Some (JStr (video_id_text videoId)));
           ("manifest", Some (JBool true));
           ("count", Some (JNum (inject_Z (Z.of_nat (length frames)))));
           ("first_timestamp", Some (JNum (default 0%Q (timestamp <$> head frames))));
           ("last_timestamp", Some (JNum (default 0%Q (timestamp <$> last frames))));
           ("video_filename", filename_field videoFilename) ].

Definition manifest_vector (videoId : option JsId) (videoFilename : option string)
    (frames : list Frame) (manVec : option (list Q)) : Vector :=
  {| vector_id := getNamespace cfg videoId ++ "::manifest";
     vector_values := manVec;
     vector_metadata := manifest_metadata videoId videoFilename frames |}.

Definition json (code : Z) (b : Body) : Response := {| status := code; body := b |}.

Definition flag_text (b : option bool) : string :=
  match b with
  | Some true => "true"
  | Some false => "false"
  | None => "undefined"
  end.

Definition frame_of_record (r : RustFrameRecord) : Frame :=
  {| frameId := frame_id r; timestamp := record_timestamp r;
     description := record_description r; path := record_path r |}.

(** [summary && summary.trim().length > 0] *)
Definition summary_given (summary : option string) : bool :=
  match summary with
  | Some s => negb (String.eqb s "") && negb (String.eqb (js_trim s) "")
  | None => false
  end.

(** The summary block: [extraVectors] after it. *)
Definition add_summary (videoId : option JsId) (summary : option string)
    (extraVectors : list Vector) : M (list Vector) :=
  match summary with
  | Some text =>
      if summary_given summary
      then vs ← embedTexts [text];
           mret (extraVectors ++ [summary_vector videoId text (head vs)])
      else mret extraVectors
  | None => mret extraVectors
  end.

(** The manifest block with its [try]/[catch]: [extraVectors] after it. *)
Definition add_manifest (videoId : option JsId) (videoFilename : option string)
    (frames : list Frame) (extraVectors : list Vector) : M (list Vector) :=
  r ← try_ (embedTexts [("manifest video " ++ video_id_text videoId)%string]);
  match r with
  | inr vs => mret (extraVectors ++ [manifest_vector videoId videoFilename frames (head vs)])
  | inl e => console_write LogWarn "Failed to add manifest vector:" (Some e);;
             mret extraVectors
  end.

Definition ensure_unless_skipped (payload : RoutePayload) (indexName : string) : M unit :=
  if truthy_flag (skipEnsure payload) then mret tt else ensureIndexReady indexName.

(** *** [action === "ingest_final"] *)
Definition post_ingest_final (payload : RoutePayload) : M Response :=
  let requested :=
    match indexName payload with
    | Some i => Some i
    | None => IdStr <$> videoFile payload
    end in
  let indexName := resolveIndexName cfg requested in
  console_write LogInfo
    ("[ingest_final] indexName=" ++ dquote ++ indexName ++ dquote ++ ", skipEnsure="
       ++ flag_text (skipEnsure payload)) None;;
  (if truthy_flag (skipEnsure payload)
   then console_write LogInfo
          ("[ingest_final] Skipping ensureIndexReady for " ++ dquote ++ indexName ++ dquote) None
   else console_write LogInfo
          ("[ingest_final] Calling ensureIndexReady for " ++ dquote ++ indexName ++ dquote) None;;
        ensureIndexReady indexName);;
  let frames :=
    match frames payload with
    | Some (f :: fs) => f :: fs
    | _ => map frame_of_record (default [] (records payload))
    end in
  match frames with
  | [] => mret (json 400 (ErrorBody "No frames/records provided for final ingestion."))
  | _ =>
      let namespace := getNamespace cfg (videoId payload) in
      let descriptions := map (fun f => default "" (description f)) frames in
      embeddings ← embedTexts descriptions;
      let vectors :=
        imap (fun index frame =>
                {| vector_id := frame_vector_id (videoId payload) frame;
                   vector_values := embeddings !! index;
                   vector_metadata :=
                     frame_metadata (videoId payload) (videoFilename payload) frame |})
             frames in
      extraVectors ← add_summary (videoId payload) (summary payload) [];
      extraVectors ← add_manifest (videoId payload) (videoFilename payload) frames extraVectors;
      getPineconeClient;;
      call (fun h => upsert env h indexName namespace (vectors ++ extraVectors))
           (EvUpsert indexName namespace (vectors ++ extraVectors));;
      mret (json 200 (IngestBody (length vectors + length extraVectors) namespace indexName
                        (Some (negb (Nat.eqb (length extraVectors) 0)))))
  end.

(** The vectors of [action === "ingest"]: a missing embedding throws. *)
Fixpoint ingest_vectors (videoId : option JsId) (embeddings : list (list Q))
    (index : nat) (frames : list Frame) : Thrown + list Vector :=
  match frames with
  | [] => inr []
  | frame :: rest =>
      match embeddings !! index with
      | Some embedding =>
          match ingest_vectors videoId embeddings (S index) rest with
          | inl err => inl err
          | inr vs =>
              inr ({| vector_id := frame_vector_id videoId frame;
                      vector_values := Some embedding;
                      vector_metadata := frame_metadata videoId None frame |} :: vs)
          end
      | None => inl (Error ("Failed to create embedding for frame "
                           ++ id_toString (frameId frame) ++ "."))
      end
  end.

(** *** [action === "ingest"] *)
Definition post_ingest (payload : RoutePayload) : M Response :=
  let indexName := resolveIndexName cfg (indexName payload) in
  ensure_unless_skipped payload indexName;;
  match frames payload with
  | None | Some [] => mret (json 400 (ErrorBody "No frames provided for ingestion."))
  | Some frames =>
      let namespace := getNamespace cfg (videoId payload) in
      let descriptions := map (fun frame => default "" (description frame)) frames in
      embeddings ← embedTexts descriptions;
      vectors ← await (ingest_vectors (videoId payload) embeddings 0 frames);
      getPineconeClient;;
      call (fun h => upsert env h indexName namespace vectors)
           (EvUpsert indexName namespace vectors);;
      mret (json 200 (IngestBody (length vectors) namespace indexName None))
  end.

(** *** [action === "query"] *)
Definition post_query (payload : RoutePayload) : M Response :=
  let indexName := resolveIndexName cfg (indexName payload) in
  ensure_unless_skipped payload indexName;;
  if truthy_str (question payload) then
    let namespace := getNamespace cfg (videoId payload) in
    vs ← embedTexts [default "" (question payload)];
    match head vs with
    | Some queryVector =>
        getPineconeClient;;
        let req := {| query_vector := Some queryVector;
                      query_topK := Z.min (default 3%Z (topK payload)) 50;
                      includeMetadata := true |} in
        result ← call (fun h => query env h indexName namespace req)
                      (EvQuery indexName namespace req);
        mret (json 200 (QueryBody (default [] result) indexName))
    | None => throw (Error "Failed to generate embedding for the query.")
    end
  else mret (json 400 (ErrorBody "Question is required for query.")).

(** [(m.metadata as any)?.timestamp ?? 0] *)
Definition timestamp_or_zero (m : Match) : JsValue :=
  default (JNum 0) (match_metadata m ≫= fun meta => meta !! "timestamp").

(** The comparator of the chronological sort: [tsA - tsB]. *)
Definition by_timestamp (a b : Match) : option Q :=
  js_sub rt (Some (timestamp_or_zero a)) (Some (timestamp_or_zero b)).

(** One block of the context, for the match at position [i]. *)
Definition context_block (i : nat) (m : Match) : string :=
  let meta : gmap string JsValue := default ∅ (match_metadata m) in
  let ts : string :=
    match meta !! "timestamp" with
    | Some (JNum q) => (toFixed1 rt q ++ "s")%string
    | other => default "" (js_string rt <$> other)
    end in
  let shown_path : string :=
    match meta !! "path" with
    | Some p => if js_truthy p then ("(" ++ js_string rt p ++ ")")%string else ""
    | None => ""
    end in
  ("#" ++ Z_toString (Z.of_nat (i + 1)) ++ " [t=" ++ ts ++ "] id="
    ++ default "?" (js_string rt <$> meta !! "frame_id") ++ " " ++ shown_path
    ++ newline ++ default "" (js_string rt <$> meta !! "description"))%string.

Definition build_prompt (question context : string) : string :=
  join newline
    [ "You are a video analysis assistant. Your task is to answer questions about a video by analyzing frames in CHRONOLOGICAL ORDER.";
      "";
      "IMPORTANT INSTRUCTIONS:";
      "1. The frames below are sorted by timestamp - use this to understand the SEQUENCE and TIMELINE of events";
      "2. Connect the frames together to build a coherent narrative of what happened over time";
      "3. Pay close attention to WHEN things happen (timestamps) to understand cause and effect";
      "4. Infer relationships between frames based on their temporal proximity";
      "5. If events happen across multiple frames, explain the progression and timeline";
      "6. Use ONLY the provided frames - do not make up information";
      "7. Cite 2-3 most relevant frames by frame_id and timestamp in square brackets (e.g., [frame 5 at 2.5s])";
      "8. If you cannot determine the answer from the frames, clearly state what information is missing";
      "";
      ("Question: " ++ question)%string;
      "";
      "Frames (in chronological order):";
      context;
      "";
      "Remember: Consider how the frames connect temporally to form a complete picture of the events." ].

(** [resp?.response?.text?.() ?? resp?.response?.candidates?.[0]?.content?.parts
      ?.map((p) => p.text ?? "").join("\n") ?? ""] *)
Definition extract_answer (response : option GenResponse) : Thrown + string :=
  let from_candidates (r : GenResponse) : string :=
    match candidates r with
    | Some (first :: _) =>
        match candidate_parts first with
        | Some parts => join newline (map (fun p => default "" (part_text p)) parts)
        | None => ""
        end
    | _ => ""
    end in
  match response with
  | None => inr ""
  | Some r =>
      match response_text r with
      | Some (inl e) => inl e
      | Some (inr (Some text)) => inr text
      | Some (inr None) | None => inr (from_candidates r)
      end
  end.

Definition citation_of (m : Match) : Citation :=
  {| citation_id := match_id m; citation_score := match_score m;
     citation_metadata := match_metadata m |}.

(** *** [action === "analyze"] *)
Definition post_analyze (payload : RoutePayload) : M Response :=
  let indexName := resolveIndexName cfg (indexName payload) in
  ensure_unless_skipped payload indexName;;
  if truthy_str (question payload) then
    let question := default "" (question payload) in
    let namespace := getNamespace cfg (videoId payload) in
    vs ← embedTexts [question];
    let top := Z.min (default 10%Z (topK payload)) 50 in
    getPineconeClient;;
    let req := {| query_vector := head vs; query_topK := top; includeMetadata := true |} in
    result ← call (fun h => query env h indexName namespace req)
                  (EvQuery indexName namespace req);
    let matches := default [] result in
    let sortedMatches := js_sort by_timestamp matches in
    let context := join (newline ++ newline)%string (imap context_block sortedMatches) in
    let prompt := build_prompt question context in
    getGenerationModel;;
    resp ← call (fun h => generateContent env h prompt) (EvGenerate prompt);
    answer ← await (extract_answer resp);
    mret (json 200 (AnalyzeBody answer (map citation_of sortedMatches) indexName))
  else mret (json 400 (ErrorBody "Question is required for analyze.")).

(** [(fetchRes?.records ?? fetchRes?.vectors ?? fetchRes)?.[id]], then
    [rec?.metadata?.text ?? rec?.metadata?.summary ?? undefined]. *)
Definition read_summary (id : string) (fetchRes : option FetchResponse) : option JsValue :=
  r ← fetchRes;
  let container :=
    match fetch_records r with
    | Some c => c
    | None => default (fetch_own r) (fetch_vectors r)
    end in
  rec ← container !! id;
  meta ← fetched_metadata rec;
  match meta !! "text" with
  | Some t => Some t
  | None => meta !! "summary"
  end.

(** The summary block with its [try]/[catch]. *)
Definition fetch_summary (indexName namespace : string) : M (option JsValue) :=
  let id : string := (namespace ++ "::summary")%string in
  r ← try_ (getPineconeClient;;
            call (fun h => fetch env h indexName namespace [id])
                 (EvFetch indexName namespace [id]));
  match r with
  | inr fetchRes => mret (read_summary id fetchRes)
  | inl _ => mret None
  end.

Definition overview_frame (m : Match) : OverviewFrame :=
  let field (k : string) := match_metadata m ≫= fun meta => meta !! k in
  {| of_id := match_id m; of_score := match_score m;
     of_frame_id := field "frame_id"; of_timestamp := field "timestamp";
     of_description := field "description"; of_path := field "path" |}.

(** [(a.timestamp as number) - (b.timestamp as number)] *)
Definition by_frame_timestamp (a b : OverviewFrame) : option Q :=
  js_sub rt (of_timestamp a) (of_timestamp b).

Definition overview_frames (matches : list Match) : list OverviewFrame :=
  js_sort by_frame_timestamp
    (List.filter (fun f => is_number (of_timestamp f)) (map overview_frame matches)).

(** *** [action === "overview"] *)
Definition post_overview (payload : RoutePayload) : M Response :=
  let indexName := resolveIndexName cfg (indexName payload) in
  ensure_unless_skipped payload indexName;;
  let namespace := getNamespace cfg (videoId payload) in
  summary ← fetch_summary indexName namespace;
  vs ← embedTexts ["overview of this video frames"];
  getPineconeClient;;
  let req := {| query_vector := head vs;
                query_topK := Z.min (default 200%Z (topK payload)) 1000;
                includeMetadata := true |} in
  result ← call (fun h => query env h indexName namespace req)
                (EvQuery indexName namespace req);
  let frames := overview_frames (default [] result) in
  mret (json 200 (OverviewBody summary frames indexName namespace)).

Definition action_is (payload : RoutePayload) (name : string) : bool :=
  match action payload with
  | Some a => String.eqb a name
  | None => false
  end.

Definition dispatch (payload : RoutePayload) : M Response :=
  if action_is payload "ingest_final" then post_ingest_final payload
  else if action_is payload "ingest" then post_ingest payload
  else if action_is payload "query" then post_query payload
  else if action_is payload "analyze" then post_analyze payload
  else if action_is payload "overview" then post_overview payload
  else mret (json 400 (ErrorBody "Unsupported action requested.")).

(** [error instanceof Error ? error.message : "Unexpected error occurred."] *)
Definition message_of (e : Thrown) : string :=
  match e with
  | Error message => message
  | NonError => "Unexpected error occurred."
  end.

(** The exported handler: anything thrown becomes a 500 response. *)
Definition POST (payload : RoutePayload) (st : State) : Response * State :=
  match (requireClients;; dispatch payload) st with
  | (inr response, st') => (response, st')
  | (inl e, st') => (json 500 (ErrorBody (message_of e)), st')
  end.

(** The exported handler from the body of the request.  The guards of
    [ingest_final] and [ingest] read [payload?.action], which is undefined
    on [null]; the guard of [query] reads [payload.action], which on [null]
    throws a [TypeError] with the engine's message [null_read]. *)
Definition POST_request (null_read : string) (request : RequestBody) (st : State)
    : Response * State :=
  let handler : M Response :=
    requireClients;;
    match request with
    | BodyUnreadable e => throw e
    | BodyNull => throw (Error null_read)
    | BodyScalar => dispatch no_fields
    | BodyObject payload => dispatch payload
    end in
  match handler st with
  | (inr response, st') => (response, st')
  | (inl e, st') => (json 500 (ErrorBody (message_of e)), st')
  end.

End Route.

(** ** The provisioning coordinator under concurrent callers

    Request handlers interleave at their [await]s only.  An attempt is the
    [initializer] promise of one [ensureIndexReady] call; between two awaits
    it runs without interruption.  The pool records, for every attempt ever
    started, where it is suspended, and which calls were issued for it. *)

Module Pool.

(** Where an attempt is suspended, or how it settled.  [attempt] is the
    loop counter of the polling loop. *)
Inductive Pc :=
| AwaitList
| AwaitCreate
| AwaitDescribe (attempt : nat)
| AwaitSleep (attempt : nat)
| Fulfilled
| Rejected (e : Thrown).

Inductive StoreCall :=
| CallList
| CallCreate (req : CreateIndexRequest)
| CallDescribe (name : string)
| CallSleep (ms : Z).

(** What an awaited operation settles to. *)
Inductive Answer :=
| Listed (r : Thrown + IndexListing)
| Created (r : Thrown + unit)
| Described (r : Thrown + option IndexStatus)
| Woke.

Record Attempt := {
  attempt_name : string;
  attempt_pc : Pc
}.

(** [promises] is [indexInitPromises]; a promise is named by the position
    of its attempt in [attempts]. *)
Record t := {
  promises : gmap string nat;
  attempts : list Attempt;
  issued : list (nat * StoreCall)
}.

Definition empty : t := {| promises := ∅; attempts := []; issued := [] |}.

Definition in_flight (pc : Pc) : bool :=
  match pc with
  | Fulfilled | Rejected _ => false
  | _ => true
  end.

Definition is_rejected (pc : Pc) : bool :=
  match pc with
  | Rejected _ => true
  | _ => false
  end.

(** The head of the [for] loop with counter [attempt]. *)
Definition loop_head (name : string) (attempt : nat) : Pc * option StoreCall :=
  if (attempt <? maxAttempts)%nat
  then (AwaitDescribe attempt, Some (CallDescribe name))
  else (Rejected (timed_out name), None).

(** The initializer resumed with the answer to what it awaits: its next
    suspension point and the call it issues on the way.  [None] when the
    answer is not the one awaited. *)
Definition resume (cfg : Config) (name : string) (pc : Pc) (a : Answer)
    : option (Pc * option StoreCall) :=
  match pc, a with
  | AwaitList, Listed (inl e) => Some (Rejected e, None)
  | AwaitList, Listed (inr listing) =>
      if existsb (String.eqb name) (normalizeIndexList listing)
      then Some (loop_head name 0)
      else Some (AwaitCreate, Some (CallCreate (create_request cfg name)))
  | AwaitCreate, Created (inl e) => Some (Rejected e, None)
  | AwaitCreate, Created (inr _) => Some (loop_head name 0)
  | AwaitDescribe attempt, Described d =>
      if is_ready d then Some (Fulfilled, None)
      else Some (AwaitSleep attempt, Some (CallSleep 2000))
  | AwaitSleep attempt, Woke => Some (loop_head name (S attempt))
  | _, _ => None
  end.

(** A caller runs [ensureIndexReady(name)] up to its [await]: the promise
    it then awaits, or what [getPineconeClient] threw. *)
Definition invoke (cfg : Config) (name : string) (s : t) : (Thrown + nat) * t :=
  if has_client (PINECONE_API_KEY cfg) then
    match promises s !! name with
    | Some existing => (inr existing, s)
    | None =>
        let p := length (attempts s) in
        (inr p,
         {| promises := <[name := p]> (promises s);
            attempts := attempts s ++ [{| attempt_name := name; attempt_pc := AwaitList |}];
            issued := issued s ++ [(p, CallList)] |})
    end
  else (inl missing_pinecone, s).

(** The operation attempt [p] awaits settles to [a]: the attempt runs to
    its next [await]; when its body rejects, the [catch] handler deletes
    the entry of its name. *)
Definition deliver (cfg : Config) (p : nat) (a : Answer) (s : t) : option t :=
  match attempts s !! p with
  | Some att =>
      match resume cfg (attempt_name att) (attempt_pc att) a with
      | Some (pc', next) =>
          Some {| promises :=
                    if is_rejected pc' then delete (attempt_name att) (promises s)
                    else promises s;
                  attempts := <[p := {| attempt_name := attempt_name att; attempt_pc := pc' |}]>
                                (attempts s);
                  issued := issued s ++ match next with Some c => [(p, c)] | None => [] end |}
      | None => None
      end
  | None => None
  end.

(** What the services answer to the operation an attempt awaits, after
    history [h], and the event this adds to the history. *)
Definition ask (cfg : Config) (env : Services) (h : list Event) (name : string) (pc : Pc)
    : option (Answer * Event) :=
  match pc with
  | AwaitList =>
      let r := listIndexes env h in Some (Listed r, EvListIndexes r)
  | AwaitCreate =>
      let r := createIndex env h (create_request cfg name) in
      Some (Created r, EvCreateIndex (create_request cfg name) r)
  | AwaitDescribe _ =>
      let r := describeIndex env h name in Some (Described r, EvDescribeIndex name r)
  | AwaitSleep _ => Some (Woke, EvSleep 2000)
  | Fulfilled | Rejected _ => None
  end.

(** An attempt running with no other task in between, for at most [fuel]
    awaits: where it ends up, and the history then. *)
Fixpoint run (cfg : Config) (env : Services) (name : string) (fuel : nat)
    (pc : Pc) (h : list Event) : Pc * list Event :=
  match fuel with
  | O => (pc, h)
  | S fuel' =>
      match ask cfg env h name pc with
      | Some (a, ev) =>
          match resume cfg name pc a with
          | Some (pc', _) => run cfg env name fuel' pc' (h ++ [ev])
          | None => (pc, h)
          end
      | None => (pc, h)
      end
  end.

Definition settled (r : Thrown + unit) : Pc :=
  match r with
  | inl e => Rejected e
  | inr _ => Fulfilled
  end.

(** What a caller awaiting promise [p] observes once [p] has settled. *)
Definition outcome (s : t) (p : nat) : option (Thrown + unit) :=
  match attempts s !! p with
  | Some att =>
      match attempt_pc att with
      | Fulfilled => Some (inr tt)
      | Rejected e => Some (inl e)
      | _ => None
      end
  | None => None
  end.

(** The pools that the requests of the route, interleaved in any way, can
    produce: calls of [ensureIndexReady], attempts resumed by the answers
    they await, and [indexInitPromises.delete(indexName)] as [DELETE] runs
    it after deleting an index, which removes the entry while the attempt it
    named keeps running.  [deleted] tells the names [DELETE] is called
    with. *)
Inductive reachable (cfg : Config) (deleted : string -> bool) : t -> Prop :=
| reachable_empty : reachable cfg deleted empty
| reachable_invoke name s :
    reachable cfg deleted s -> reachable cfg deleted (invoke cfg name s).2
| reachable_deliver p a s s' :
    reachable cfg deleted s -> deliver cfg p a s = Some s' -> reachable cfg deleted s'
| reachable_evict name s :
    deleted name = true -> reachable cfg deleted s ->
    reachable cfg deleted
      {| promises := delete name (promises s); attempts := attempts s; issued := issued s |}.

(** Every name is open to [DELETE], and none is. *)
Definition any_name (name : string) : bool := true.
Definition no_name (name : string) : bool := false.

(** The answer [a] is of the kind the suspension point [pc] awaits. *)
Definition awaited (pc : Pc) (a : Answer) : bool :=
  match pc, a with
  | AwaitList, Listed _ | AwaitCreate, Created _
  | AwaitDescribe _, Described _ | AwaitSleep _, Woke => true
  | _, _ => false
  end.

(** Every cached promise is an attempt for its name that has not failed,
    and every attempt still in flight is the cached one of its name. *)
Definition consistent (s : t) : Prop :=
  (forall name p, promises s !! name = Some p ->
     exists att, attempts s !! p = Some att /\ attempt_name att = name
                 /\ is_rejected (attempt_pc att) = false)
  /\ (forall p att, attempts s !! p = Some att -> in_flight (attempt_pc att) = true ->
        promises s !! attempt_name att = Some p).

(** The first half of [consistent]: every cached promise is an attempt for
    its name that has not failed. *)
Definition cached_sound (s : t) : Prop :=
  forall name p, promises s !! name = Some p ->
    exists att, attempts s !! p = Some att /\ attempt_name att = name
                /\ is_rejected (attempt_pc att) = false.

(** The second half, for the names [DELETE] is not called with: an attempt
    still in flight for such a name is the cached one of its name. *)
Definition shared (deleted : string -> bool) (s : t) : Prop :=
  forall p att, attempts s !! p = Some att -> in_flight (attempt_pc att) = true ->
    deleted (attempt_name att) = false -> promises s !! attempt_name att = Some p.

End Pool.

(** ** Observations on a run *)

Module Obs.

(** What the promise of one embedding request settles to, given the
    service's answer. *)
Definition settle (a : Thrown + option (list Q)) : Thrown + list Q :=
  match a with
  | inl e => inl e
  | inr (Some (v :: values)) => inr (v :: values)
  | inr _ => inl no_vector
  end.

(** The console line [checkEmbeddingDimensions] writes, if any. *)
Definition dimension_warning (values : list Q) : list LogEntry :=
  if bool_decide (Z.of_nat (length values) = EMBEDDING_DIMENSION) then []
  else [ {| log_level := LogWarn;
            log_text := "Gemini embedding dimension mismatch: expected "
                          ++ Z_toString EMBEDDING_DIMENSION ++ ", received "
                          ++ Z_toString (Z.of_nat (length values)) ++ ".";
            log_error := None |} ].

Definition settled_warning (s : Thrown + list Q) : list LogEntry :=
  match s with
  | inr values => dimension_warning values
  | inl _ => []
  end.

(** The service's answers to the texts, asked in order from history [h]. *)
Fixpoint embed_answers (env : Services) (h : list Event) (texts : list string)
    : list (Thrown + option (list Q)) :=
  match texts with
  | [] => []
  | t :: texts' =>
      let a := embedContent env h t in
      a :: embed_answers env (h ++ [EvEmbed t a]) texts'
  end.

(** The events a run added to the trace. *)
Definition new_events (st st' : State) : list Event :=
  drop (length (trace st)) (trace st').

(** Ascending order of the keys. *)
Definition key_le {A} (key : A -> Q) (a b : A) : Prop := (key a <= key b)%Q.

(** The timestamp a match is sorted by: its own when it is a number, 0
    when it has none. *)
Definition timestamp_key (m : Match) : Q :=
  match timestamp_or_zero m with
  | JNum q => q
  | _ => 0%Q
  end.

Definition citation_key (c : Citation) : Q :=
  match citation_metadata c with
  | Some meta => match meta !! "timestamp" with Some (JNum q) => q | _ => 0%Q end
  | None => 0%Q
  end.

(** The timestamp of the match is a number or is missing. *)
Definition timestamp_numeric (m : Match) : Prop :=
  exists q, timestamp_or_zero m = JNum q.

Definition frame_key (f : OverviewFrame) : Q :=
  match of_timestamp f with
  | Some (JNum q) => q
  | _ => 0%Q
  end.

(** The id of the summary vector of a namespace. *)
Definition summary_id (ns : string) : string := (ns ++ "::summary")%string.

(** [typeof f.timestamp === "number"] holds. *)
Definition numeric_frame (f : OverviewFrame) : Prop := is_number (of_timestamp f) = true.

(** The frames [ingest_final] ingests: the [frames] of the request when
    there are some, its [records] otherwise. *)
Definition final_frames (payload : RoutePayload) : list Frame :=
  match frames payload with
  | Some (f :: fs) => f :: fs
  | _ => map frame_of_record (default [] (records payload))
  end.

Definition final_index (cfg : Config) (payload : RoutePayload) : string :=
  resolveIndexName cfg
    match indexName payload with
    | Some i => Some i
    | None => IdStr <$> videoFile payload
    end.

(** The text embedded for the manifest vector. *)
Definition manifest_text (payload : RoutePayload) : string :=
  ("manifest video " ++ video_id_text (videoId payload))%string.

Definition manifest_failed (e : Thrown) : LogEntry :=
  {| log_level := LogWarn; log_text := "Failed to add manifest vector:";
     log_error := Some e |}.

Definition is_upsert (ev : Event) : bool :=
  match ev with
  | EvUpsert _ _ _ _ => true
  | _ => false
  end.

(** One if the promise settled to a value, zero if it was rejected. *)
Definition built {A} (s : Thrown + A) : nat :=
  match s with
  | inr _ => 1
  | inl _ => 0
  end.

Definition count_if (b : bool) : nat := if b then 1 else 0.

(** The first candidate of the response has no parts to read. *)
Definition no_candidate_text (r : GenResponse) : bool :=
  match candidates r with
  | Some (first :: _) =>
      match candidate_parts first with
      | Some _ => false
      | None => true
      end
  | _ => true
  end.

(** A generation response that carries no usable text: its [text] method
    returns the empty string, or it has no such method (or one that returns
    nothing) and no parts in a first candidate. *)
Definition no_usable_text (response : option GenResponse) : bool :=
  match response with
  | None => true
  | Some r =>
      match response_text r with
      | Some (inr (Some text)) => String.eqb text ""
      | Some (inr None) | None => no_candidate_text r
      | Some (inl _) => false
      end
  end.

(** A run that added provisioning calls only. *)
Definition only_provisioning (st st' : State) : Prop :=
  exists evs, trace st' = trace st ++ evs
              /\ Forall (fun ev => is_provisioning ev = true) evs.

Definition no_frames (payload : RoutePayload) : bool :=
  match frames payload with
  | None | Some [] => true
  | Some _ => false
  end.

(** An [ingest] request without frames, or a [query] or [analyze] request
    without a question. *)
Definition empty_input (payload : RoutePayload) : bool :=
  match action payload with
  | Some a =>
      (String.eqb a "ingest" && no_frames payload)
      || ((String.eqb a "query" || String.eqb a "analyze")
          && negb (truthy_str (question payload)))
  | None => false
  end.

(** The response that rejects such a request. *)
Definition validation_error (payload : RoutePayload) : Response :=
  json 400
    (ErrorBody
       match action payload with
       | Some "ingest" => "No frames provided for ingestion."
       | Some "query" => "Question is required for query."
       | _ => "Question is required for analyze."
       end).

Definition clients_configured (cfg : Config) : bool :=
  has_client (PINECONE_API_KEY cfg) && has_client (GOOGLE_API_KEY cfg).

(** The citation shows the [id], the [score] and the [metadata] of the
    match, as the store returned them. *)
Definition cites (c : Citation) (m : Match) : Prop :=
  citation_id c = match_id m
  /\ citation_score c = match_score m
  /\ citation_metadata c = match_metadata m.

(** [(m.metadata as any)?.k] read off the match. *)
Definition metadata_field (m : Match) (k : string) : option JsValue :=
  match match_metadata m with
  | Some meta => meta !! k
  | None => None
  end.

(** The frame shows the [id] and the [score] of the match and the
    [frame_id], [timestamp], [description] and [path] of its metadata. *)
Definition shows (f : OverviewFrame) (m : Match) : Prop :=
  of_id f = match_id m
  /\ of_score f = match_score m
  /\ of_frame_id f = metadata_field m "frame_id"
  /\ of_timestamp f = metadata_field m "timestamp"
  /\ of_description f = metadata_field m "description"
  /\ of_path f = metadata_field m "path".

(** The metadata of the match has a [timestamp] that is a number. *)
Definition numeric_match (m : Match) : bool := is_number (metadata_field m "timestamp").

End Obs.

(** ** Concrete scenarios *)

Module Scenario.

Definition config : Config :=
  {| PINECONE_INDEX := None; PINECONE_CLOUD := None; PINECONE_REGION := None;
     PINECONE_API_KEY := Some "pc-key"; GOOGLE_API_KEY := Some "g-key" |}.

Definition runtime : JsRuntime :=
  {| toNumber := fun v => match v with
                          | JBool true => Some 1%Q
                          | JBool false => Some 0%Q
                          | _ => None
                          end;
     toFixed1 := fun _ => "0.0";
     numberToString := fun _ => "0" |}.

Definition frame_match (id : string) (ts : Q) : Match :=
  {| match_id := id; match_score := Some (1 # 2); match_values := [];
     match_metadata := Some {[ "timestamp" := JNum ts ]} |}.

(** A summary record: no [timestamp]. *)
Definition summary_match : Match :=
  {| match_id := "video-42::summary"; match_score := Some (1 # 3); match_values := [];
     match_metadata := Some {[ "summary" := JBool true ]} |}.

Definition ready_status : IndexStatus := {| ready := Some true; state := None |}.

(** A generation response without usable text: there is no candidate and
    [text()] returns the empty string. *)
Definition silent_response : GenResponse :=
  {| response_text := Some (inr (Some "")); candidates := Some [] |}.

Definition is_manifest_text (text : string) : bool :=
  String.prefix "manifest video" text.

(** The index exists and is ready; embeddings have two components, except
    that the manifest text is refused; the store returns three frames out
    of order and a summary record; fetching fails; generation is silent. *)
Definition services : Services :=
  {| listIndexes := fun _ => inr (ListingArray [ItemObj (Some "video-frames")]);
     createIndex := fun _ _ => inr tt;
     describeIndex := fun _ _ => inr (Some ready_status);
     embedContent := fun _ text =>
       if String.eqb text "" then inr None
       else if is_manifest_text text then inl (Error "quota exceeded")
       else inr (Some [1%Q; 2%Q]);
     upsert := fun _ _ _ _ => inr tt;
     query := fun _ _ _ _ =>
       inr (Some [frame_match "a" 5; frame_match "b" 1; summary_match; frame_match "c" 3]);
     fetch := fun _ _ _ _ => inl (Error "fetch failed");
     generateContent := fun _ _ => inr (Some silent_response) |}.

Definition start : State := {| trace := []; indexInitPromises := ∅; console := [] |}.

Definition request (a : string) (skip : option bool) (fs : option (list Frame))
    (q : option string) (sm : option string) : RoutePayload :=
  {| action := Some a; indexName := None; videoFile := None;
     videoId := Some (IdNum 42); videoFilename := None; summary := sm;
     skipEnsure := skip; records := None; frames := fs; question := q; topK := None |}.

Definition analyze_request : RoutePayload :=
  request "analyze" None None (Some "what happens?") None.

Definition store_matches : list Match :=
  [frame_match "a" 5; frame_match "b" 1; summary_match; frame_match "c" 3].

(** The citations in chronological order, the summary record counting as
    timestamp 0. *)
Definition sorted_citations : list Citation :=
  map citation_of [summary_match; frame_match "b" 1; frame_match "c" 3; frame_match "a" 5].

(** The prompt [analyze] sends for [analyze_request]. *)
Definition analyze_prompt : string :=
  build_prompt "what happens?"
    (join (newline ++ newline)%string
       (imap (context_block runtime) (js_sort (by_timestamp runtime) store_matches))).

Definition overview_request : RoutePayload := request "overview" None None None None.

(** The probe query [overview] sends. *)
Definition probe_request : QueryRequest :=
  {| query_vector := Some [1%Q; 2%Q]; query_topK := 200; includeMetadata := true |}.

Definition frame1 : Frame :=
  {| frameId := IdNum 1; timestamp := 3 # 2; description := Some "a car"; path := "f1.png" |}.


(** A final ingestion of one frame with a summary. *)
Definition ingest_request : RoutePayload :=
  request "ingest_final" None (Some [frame1]) None (Some "A car drives by.").

(** The same with a summary of one space. *)
Definition blank_summary_request : RoutePayload :=
  request "ingest_final" None (Some [frame1]) None (Some " ").

Definition frame1_vector : Vector :=
  {| vector_id := "video-42::1";
     vector_values := Some [1%Q; 2%Q];
     vector_metadata := frame_metadata (Some (IdNum 42)) None frame1 |}.

Definition upserted_vectors : list Vector :=
  [ frame1_vector;
    summary_vector config (Some (IdNum 42)) "A car drives by." (Some [1%Q; 2%Q]) ].


(** The pool after one call of [ensureIndexReady("video-frames")]. *)
Definition one_attempt : Pool.t := (Pool.invoke config "video-frames" Pool.empty).2.

(** The same after the listing of the indexes has failed. *)
Definition failed_attempt : option Pool.t :=
  Pool.deliver config 0 (Pool.Listed (inl (Error "unreachable"))) one_attempt.

End Scenario.

(** ** The index administration handlers ([GET] and [DELETE])

    The two handlers make two calls that [POST] never makes,
    [describeIndexStats] and [deleteIndex]; these are recorded in a log of
    their own, next to the process state that [POST] works on.  What
    [console.error] prints is kept in [errors]. *)

Module Admin.

(** The answer of [describeIndexStats]: [stats?.namespaces], as the keys
    [Object.keys] lists. *)
Record IndexStats := { stats_namespaces : option (list string) }.

Inductive Call :=
| DeleteIndex (name : string) (r : Thrown + unit)
| DescribeIndexStats (name : string) (r : Thrown + option IndexStats).

(** The two services answer knowing both histories. *)
Record Store := {
  deleteIndex : list Event -> list Call -> string -> Thrown + unit;
  describeIndexStats : list Event -> list Call -> string -> Thrown + option IndexStats
}.

(** [request.nextUrl.searchParams]: [get] gives [null] for an absent
    parameter. *)
Record Params := {
  list_param : option string;
  indexName_param : option string
}.

(** The bodies of the answers.  The entries of a listing are given by
    their names. *)
Inductive Reply :=
| Failure (message : string)
| Indexes (indexes : list string)
| Namespaces (index : string) (namespaces : list string)
| Probe (index : string) (dimension : Z) (embeddingModel generationModel : string)
| Deleted (message deletedIndex : string).

Record Answer := {
  code : Z;
  reply : Reply
}.

Record St := {
  core : State;
  calls : list Call;
  errors : list (string * Thrown)
}.

Definition T (A : Type) : Type := St -> (Thrown + A) * St.

Definition ret {A} (a : A) : T A := fun s => (inr a, s).

Definition bind {A B} (m : T A) (f : A -> T B) : T B := fun s =>
  match m s with
  | (inl e, s') => (inl e, s')
  | (inr a, s') => f a s'
  end.

(** A step of the route's own monad, on the process state. *)
Definition lift {A} (m : M A) : T A := fun s =>
  let '(r, st') := m (core s) in
  (r, {| core := st'; calls := calls s; errors := errors s |}).

(** An awaited call of one of the two services. *)
Definition ask {A} (answer : list Event -> list Call -> Thrown + A)
    (entry : Thrown + A -> Call) : T A := fun s =>
  let r := answer (trace (core s)) (calls s) in
  (r, {| core := core s; calls := calls s ++ [entry r]; errors := errors s |}).

Definition console_error (text : string) (e : Thrown) (s : St) : St :=
  {| core := core s; calls := calls s; errors := errors s ++ [(text, e)] |}.

Definition EMBEDDING_MODEL : string := "gemini-embedding-001".

(** [process.env.GEMINI_TEXT_MODEL ?? "gemini-2.5-flash"] *)
Definition GENERATION_MODEL (GEMINI_TEXT_MODEL : option string) : string :=
  default "gemini-2.5-flash" GEMINI_TEXT_MODEL.

Definition respond (status : Z) (r : Reply) : Answer := {| code := status; reply := r |}.

Section Handlers.

Variable cfg : Config.
Variable GEMINI_TEXT_MODEL : option string.
Variable env : Services.
Variable store : Store.

Definition is_param (p : option string) (value : string) : bool :=
  match p with
  | Some s => String.eqb s value
  | None => false
  end.

(** The [try] block of [GET]. *)
Definition get (params : Params) : T Answer :=
  bind (lift (requireClients cfg)) (fun _ =>
  let requestedIndexName := indexName_param params in
  if is_param (list_param params) "indexes" then
    bind (lift (getPineconeClient cfg)) (fun _ =>
    bind (lift (call (listIndexes env) EvListIndexes)) (fun listing =>
    ret (respond 200 (Indexes (normalizeIndexList listing)))))
  else if is_param (list_param params) "namespaces" then
    if truthy_str requestedIndexName then
      let indexName := resolveIndexName cfg (IdStr <$> requestedIndexName) in
      bind (lift (getPineconeClient cfg)) (fun _ =>
      bind (ask (fun h c => describeIndexStats store h c indexName)
                (DescribeIndexStats indexName)) (fun stats =>
      let namespaces := default [] (stats ≫= stats_namespaces) in
      ret (respond 200 (Namespaces indexName namespaces))))
    else ret (respond 400 (Failure "indexName is required to list namespaces"))
  else
    let indexName := resolveIndexName cfg (IdStr <$> requestedIndexName) in
    bind (lift (ensureIndexReady cfg env indexName)) (fun _ =>
    ret (respond 200 (Probe indexName EMBEDDING_DIMENSION EMBEDDING_MODEL
                        (GENERATION_MODEL GEMINI_TEXT_MODEL))))).

Definition GET (params : Params) (s : St) : Answer * St :=
  match get params s with
  | (inr answer, s') => (answer, s')
  | (inl e, s') => (respond 500 (Failure (message_of e)), s')
  end.

Definition deleted_message (indexName : string) : string :=
  ("Index " ++ dquote ++ indexName ++ dquote ++ " deleted successfully")%string.

(** The [try] block of [DELETE]. *)
Definition delete_index (params : Params) : T Answer :=
  bind (lift (requireClients cfg)) (fun _ =>
  let requestedIndexName := indexName_param params in
  if truthy_str requestedIndexName then
    let indexName := resolveIndexName cfg (IdStr <$> requestedIndexName) in
    bind (lift (getPineconeClient cfg)) (fun _ =>
    bind (lift (console_write LogInfo ("Deleting Pinecone index: " ++ indexName) None)) (fun _ =>
    bind (ask (fun h c => deleteIndex store h c indexName) (DeleteIndex indexName)) (fun _ =>
    bind (lift (set_promises (delete indexName))) (fun _ =>
    ret (respond 200 (Deleted (deleted_message indexName) indexName))))))
  else ret (respond 400 (Failure "indexName is required to delete an index"))).

Definition DELETE (params : Params) (s : St) : Answer * St :=
  match delete_index params s with
  | (inr answer, s') => (answer, s')
  | (inl e, s') =>
      (respond 500 (Failure (message_of e)), console_error "Delete index error:" e s')
  end.

End Handlers.

(** [indexInitPromises.delete(indexName)] as [DELETE] runs it, on the pool
    of attempts: the entry goes, the attempt it named keeps running. *)
Definition evict (name : string) (s : Pool.t) : Pool.t :=
  {| Pool.promises := delete name (Pool.promises s);
     Pool.attempts := Pool.attempts s;
     Pool.issued := Pool.issued s |}.

Definition start : St := {| core := Scenario.start; calls := []; errors := [] |}.

End Admin.

(** ** The pages that call the route (frontend/app/page.tsx and
    frontend/app/explore/page.tsx) *)

Module Pages.

(** [s.slice(n)] *)
Definition slice_from (n : nat) (s : string) : string :=
  string_of_list_ascii (drop n (list_ascii_of_string s)).

(** The explore page: [videoId ? `video-${videoId}` : "frames"] *)
Definition namespaceFromVideoId (videoId : string) : string :=
  if negb (String.eqb videoId "") then ("video-" ++ videoId)%string else "frames".

(** The explore page, on choosing a namespace:
    [ns.startsWith("video-") ? ns.slice(6) : ns] becomes the [videoId]. *)
Definition select_namespace (ns : string) : string :=
  if String.prefix "video-" ns then slice_from 6 ns else ns.

(** The overview page: [params.get("namespace") || "video-1"] *)
Definition initial_namespace (namespace_param : option string) : string :=
  if truthy_str namespace_param then default "" namespace_param else "video-1".

(** The overview page: [params.get("videoId") ||
    (namespace.startsWith("video-") ? namespace.slice(6) : "1")] *)
Definition initial_videoId (videoId_param namespace_param : option string) : string :=
  if truthy_str videoId_param then default "" videoId_param
  else
    let namespace := initial_namespace namespace_param in
    if String.prefix "video-" namespace then slice_from 6 namespace else "1".

(** The upload page: the final ingestion it requests for the processed
    video. *)
Definition upload_payload (fileName videoFilename : option string)
    (records : list RustFrameRecord) (summary : option string) : RoutePayload :=
  {| action := Some "ingest_final"; indexName := None;
     videoFile := Some (default "video" fileName);
     videoId := Some (IdNum 1); videoFilename := videoFilename; summary := summary;
     skipEnsure := None; records := Some records; frames := None;
     question := None; topK := None |}.

(** The upload page, after the ingestion: [ingestData.index || "video-frames"]
    names the overview it opens. *)
Definition redirect_index (index : string) : string :=
  if negb (String.eqb index "") then index else "video-frames".

(** [ingestData.videoId || "1"]: the response has no [videoId]. *)
Definition redirect_videoId : string := "1".

(** The overview page: the request for the index of its path and its
    [videoId]. *)
Definition overview_payload (index videoId : string) : RoutePayload :=
  {| action := Some "overview"; indexName := Some (IdStr index); videoFile := None;
     videoId := Some (IdStr videoId); videoFilename := None; summary := None;
     skipEnsure := Some true; records := None; frames := None;
     question := None; topK := Some 200%Z |}.

Section Frames.

Variable rt : JsRuntime.

(** [${v ?? ""}] *)
Definition text_or_empty (v : option JsValue) : string :=
  default "" (js_string rt <$> v).

(** The key under which the overview page remembers a frame. *)
Definition frame_key (frame : OverviewFrame) : string :=
  (text_or_empty (of_frame_id frame) ++ "-" ++ text_or_empty (of_timestamp frame)
     ++ "-" ++ text_or_empty (of_path frame))%string.

(** The loop over [data.frames]: [unique] collects the frames whose key is
    not in [seen]. *)
Fixpoint unique_frames (seen : gset string) (frames : list OverviewFrame)
    : list OverviewFrame :=
  match frames with
  | [] => []
  | frame :: rest =>
      let key := frame_key frame in
      if bool_decide (key ∈ seen) then unique_frames seen rest
      else frame :: unique_frames ({[ key ]} ∪ seen) rest
  end.

(** [Number.MAX_VALUE] *)
Definition MAX_VALUE : Q := inject_Z ((2 ^ 53 - 1) * 2 ^ 971).

(** [typeof frame.timestamp === "number" ? frame.timestamp : Number.MAX_VALUE] *)
Definition sort_timestamp (frame : OverviewFrame) : Q :=
  match of_timestamp frame with
  | Some (JNum q) => q
  | _ => MAX_VALUE
  end.

Definition by_sort_timestamp (a b : OverviewFrame) : option Q :=
  Some (sort_timestamp a - sort_timestamp b)%Q.

(** The frames the overview page shows for the [frames] of a response. *)
Definition shown_frames (frames : list OverviewFrame) : list OverviewFrame :=
  js_sort by_sort_timestamp (unique_frames ∅ frames).

End Frames.

End Pages.

(** ** Further observations *)

Module View.

(** One round of the polling loop that did not find the index ready. *)
Definition poll_round (name : string) (r : Thrown + option IndexStatus) : list Event :=
  [EvDescribeIndex name r; EvSleep 2000].

(** The events before the polling loop of a fresh attempt: the listing, and
    the creation when the name is not listed. *)
Definition attempt_prefix (cfg : Config) (name : string) (listing : IndexListing)
    : list Event :=
  EvListIndexes (inr listing)
    :: (if existsb (String.eqb name) (normalizeIndexList listing) then []
        else [EvCreateIndex (create_request cfg name) (inr tt)]).

(** A call of the polling loop for [name]. *)
Definition is_poll_event (name : string) (ev : Event) : bool :=
  match ev with
  | EvDescribeIndex n _ => String.eqb n name
  | EvSleep ms => (ms =? 2000)%Z
  | _ => false
  end.

(** The time spent in [setTimeout], in milliseconds. *)
Definition slept (evs : list Event) : Z :=
  foldr (fun ev acc => match ev with EvSleep ms => (ms + acc)%Z | _ => acc end) 0%Z evs.

Definition is_create (ev : Event) : bool :=
  match ev with
  | EvCreateIndex _ _ => true
  | _ => false
  end.

(** The name an entry of a listing carries, if any. *)
Definition item_name (item : IndexItem) : option string :=
  match item with
  | ItemStr s => Some s
  | ItemObj n => n
  end.

(** The entries of a listing, whatever its shape. *)
Definition listed_items (listing : IndexListing) : list IndexItem :=
  match listing with
  | ListingArray items => items
  | ListingObject (Some items) => items
  | _ => []
  end.

(** A run that touched neither the provisioning services nor the cache. *)
Definition no_provisioning (st st' : State) : Prop :=
  indexInitPromises st' = indexInitPromises st
  /\ exists evs, trace st' = trace st ++ evs
                 /\ Forall (fun ev => is_provisioning ev = false) evs.

(** The vector [ingest] builds for a frame and its embedding. *)
Definition ingest_vector (cfg : Config) (videoId : option JsId) (frame : Frame)
    (embedding : list Q) : Vector :=
  {| vector_id := frame_vector_id cfg videoId frame;
     vector_values := Some embedding;
     vector_metadata := frame_metadata videoId None frame |}.

(** The embedding request for the description of a frame, answered. *)
Definition embedded (frame : Frame) (embedding : list Q) : Event :=
  EvEmbed (default "" (description frame)) (inr (Some embedding)).

(** A handler step that, when it returns a response, returns status 200. *)
Definition answers_200 (m : M Response) : Prop :=
  forall st, match (m st).1 with
             | inr response => status response = 200%Z
             | inl _ => True
             end.

(** The messages of the 400 responses of [POST]. *)
Definition rejections : list string :=
  [ "No frames/records provided for final ingestion.";
    "No frames provided for ingestion.";
    "Question is required for query.";
    "Question is required for analyze.";
    "Unsupported action requested." ].

(** A handler step whose responses have status 200, or status 400 with one
    of these messages after nothing but provisioning calls. *)
Definition validates (m : M Response) : Prop :=
  forall st response,
    (m st).1 = inr response ->
    status response = 200%Z
    \/ (status response = 400%Z
        /\ Obs.only_provisioning st (m st).2
        /\ exists message, body response = ErrorBody message /\ message ∈ rejections).

(** A stored vector as a query returns it with [includeMetadata]. *)
Definition as_match (score : option Q) (v : Vector) : Match :=
  {| match_id := vector_id v; match_score := score; match_values := [];
     match_metadata := Some (vector_metadata v) |}.

(** The vector [ingest_final] builds for a frame. *)
Definition final_vector (cfg : Config) (payload : RoutePayload) (frame : Frame)
    (embedding : option (list Q)) : Vector :=
  {| vector_id := frame_vector_id cfg (videoId payload) frame;
     vector_values := embedding;
     vector_metadata := frame_metadata (videoId payload) (videoFilename payload) frame |}.

(** The frame the overview shows for a frame that [ingest_final] stored. *)
Definition stored_frame (cfg : Config) (payload : RoutePayload) (score : option Q)
    (frame : Frame) : OverviewFrame :=
  {| of_id := frame_vector_id cfg (videoId payload) frame;
     of_score := score;
     of_frame_id := Some (id_value (frameId frame));
     of_timestamp := Some (JNum (timestamp frame));
     of_description := JStr <$> description frame;
     of_path := Some (JStr (path frame)) |}.

(** Where [read_summary] looks for a record: under [records], else under
    [vectors], else in the response itself. *)
Definition fetched (response : FetchResponse) : gmap string FetchedRecord :=
  match fetch_records response with
  | Some c => c
  | None => default (fetch_own response) (fetch_vectors response)
  end.

(** A step of a handler all of whose calls satisfy [P]. *)
Definition emits (P : Event -> Prop) {A} (m : M A) : Prop :=
  forall st, exists evs, trace (m st).2 = trace st ++ evs /\ Forall P evs.

(** The actions that only read from the store. *)
Definition reads_only (payload : RoutePayload) : bool :=
  action_is payload "query" || action_is payload "analyze" || action_is payload "overview".

(** The default and the cap of [topK] in the branch of a request. *)
Definition topK_bounds (payload : RoutePayload) : Z * Z :=
  if action_is payload "overview" then (200, 1000)%Z
  else if action_is payload "analyze" then (10, 50)%Z
  else (3, 50)%Z.

(** A step of a handler that does so from every state. *)
Definition quiet {A} (m : M A) : Prop := forall st, no_provisioning st (m st).2.

(** A name that [sanitizeIndexName] returns whole: something is left of
    the input after cleaning, and it fits in 45 characters. *)
Definition kept_whole (cfg : Config) (raw : option JsId) : bool :=
  let trimmed := sanitize_trimmed (candidate_of cfg raw) in
  negb (Nat.eqb (length trimmed) 0) && (length trimmed <=? 45)%nat.

Definition known_action (payload : RoutePayload) : bool :=
  action_is payload "ingest_final" || action_is payload "ingest"
  || action_is payload "query" || action_is payload "analyze"
  || action_is payload "overview".

(** The state with another console. *)
Definition with_console (c : list LogEntry) (st : State) : State :=
  {| trace := trace st; indexInitPromises := indexInitPromises st; console := c |}.

(** A step of a handler that neither reads nor writes the console. *)
Definition console_blind {A} (m : M A) : Prop :=
  forall c st, m (with_console c st) = ((m st).1, with_console c (m st).2).

(** The texts [ingest_final] embeds before the manifest text: the
    descriptions of the frames, then the summary when it is not blank. *)
Definition final_texts (payload : RoutePayload) : list string :=
  map (fun f => default "" (description f)) (Obs.final_frames payload)
  ++ (if summary_given (summary payload) then [default "" (summary payload)] else []).

(** The vectors [ingest_final] upserts when these texts were embedded to
    [vs] and the manifest text was answered by [ma]: one per frame, the
    summary vector when the summary is not blank, and the manifest vector
    when [ma] carries a vector. *)
Definition final_vectors (cfg : Config) (payload : RoutePayload) (vs : list (list Q))
    (ma : Thrown + option (list Q)) : list Vector :=
  let frames := Obs.final_frames payload in
  zip_with (fun f v => final_vector cfg payload f (Some v)) frames vs
  ++ (if summary_given (summary payload)
      then [summary_vector cfg (videoId payload) (default "" (summary payload))
              (head (drop (length frames) vs))]
      else [])
  ++ match Obs.settle ma with
     | inr v => [manifest_vector cfg (videoId payload) (videoFilename payload) frames (Some v)]
     | inl _ => []
     end.

End View.

(** ** Further scenarios *)

Module Cases.

Definition initializing : IndexStatus :=
  {| ready := Some false; state := Some "Initializing" |}.

(** The index is listed but never becomes ready. *)
Definition never_ready : Services :=
  {| listIndexes := fun _ => inr (ListingObject (Some [ItemObj (Some "video-frames")]));
     createIndex := fun _ _ => inr tt;
     describeIndex := fun _ _ => inr (Some initializing);
     embedContent := fun _ _ => inr (Some [1%Q; 2%Q]);
     upsert := fun _ _ _ _ => inr tt;
     query := fun _ _ _ _ => inr None;
     fetch := fun _ _ _ _ => inr None;
     generateContent := fun _ _ => inr None |}.

(** No index exists yet; one that is created is ready at once. *)
Definition no_index : Services :=
  {| listIndexes := fun _ => inr (ListingArray []);
     createIndex := fun _ _ => inr tt;
     describeIndex := fun _ _ => inr (Some Scenario.ready_status);
     embedContent := fun _ _ => inr (Some [1%Q; 2%Q]);
     upsert := fun _ _ _ _ => inr tt;
     query := fun _ _ _ _ => inr None;
     fetch := fun _ _ _ _ => inr None;
     generateContent := fun _ _ => inr None |}.

(** The listing fails. *)
Definition unreachable : Services :=
  {| listIndexes := fun _ => inl (Error "unreachable");
     createIndex := fun _ _ => inr tt;
     describeIndex := fun _ _ => inr (Some Scenario.ready_status);
     embedContent := fun _ _ => inr (Some [1%Q; 2%Q]);
     upsert := fun _ _ _ _ => inr tt;
     query := fun _ _ _ _ => inr None;
     fetch := fun _ _ _ _ => inr None;
     generateContent := fun _ _ => inr None |}.

(** Deleting is refused for the index [locked]; every index has the two
    namespaces [video-1] and [frames]. *)
Definition store : Admin.Store :=
  {| Admin.deleteIndex := fun _ _ name =>
       if String.eqb name "locked" then inl (Error "forbidden") else inr tt;
     Admin.describeIndexStats := fun _ _ _ =>
       inr (Some {| Admin.stats_namespaces := Some ["video-1"; "frames"] |}) |}.

(** The process after a successful readiness check of [video-frames]. *)
Definition checked : Admin.St :=
  {| Admin.core :=
       (ensureIndexReady Scenario.config Scenario.services "video-frames" Scenario.start).2;
     Admin.calls := [];
     Admin.errors := [] |}.

Definition named (requested : string) : Admin.Params :=
  {| Admin.list_param := None; Admin.indexName_param := Some requested |}.

Definition listing_of (what : string) (requested : option string) : Admin.Params :=
  {| Admin.list_param := Some what; Admin.indexName_param := requested |}.

(** One processed frame, as the video service reports it. *)
Definition record1 : RustFrameRecord :=
  {| frame_id := IdNum 1; record_timestamp := 3 # 2; record_description := Some "a car";
     record_path := "frames/f1.png" |}.

(** No API key is configured. *)
Definition no_keys : Config :=
  {| PINECONE_INDEX := None; PINECONE_CLOUD := None; PINECONE_REGION := None;
     PINECONE_API_KEY := None; GOOGLE_API_KEY := Some "g-key" |}.

End Cases.

(** ** Names as JavaScript holds them

    A JavaScript string is a sequence of UTF-16 code units and a number is a
    double.  [Wide] has the sanitiser on these values.  The two built-ins
    whose results depend on the Unicode case tables and on the printing of
    doubles are taken as given: any functions may stand for them. *)

Module Wide.

(** The code unit of a character of a [string], and a [string] as code
    units. *)
Definition code_unit (c : ascii) : N := N_of_ascii c.

Definition of_list (s : list ascii) : list N := map code_unit s.

Definition of_string (s : string) : list N := of_list (list_ascii_of_string s).

(** A code unit read as a character.  Above 255 it reads as NUL, which like
    it is neither a letter, a digit nor a dash. *)
Definition narrow (u : N) : ascii := if (u <? 256)%N then ascii_of_N u else zero.

(** A number: a finite double, which is a rational, or NaN, or one of the
    two infinities. *)
Inductive Number :=
| Finite (q : Q)
| NotANumber
| Infinite (negative : bool).

(** What a caller passes for [raw]; the payload is not validated, so it
    may be a value of another type. *)
Inductive Raw :=
| RawUndefined
| RawNull
| RawString (s : list N)
| RawNumber (n : Number)
| RawOther.

(** [String.prototype.toLowerCase] and [Number.prototype.toString] of a
    finite number, whose result is made of ASCII characters. *)
Record Builtins := {
  toLowerCase : list N -> list N;
  toString : Q -> string
}.

Definition is_lower (u : N) : bool := ((97 <=? u) && (u <=? 122))%N.
Definition is_digit (u : N) : bool := ((48 <=? u) && (u <=? 57))%N.
Definition is_dash (u : N) : bool := (u =? 45)%N.
Definition is_alnum (u : N) : bool := is_lower u || is_digit u.

(** Membership in the character class [[a-z0-9-]]; the expressions have no
    [u] flag, so they read code units. *)
Definition in_class (u : N) : bool := is_alnum u || is_dash u.

Definition not_in_class (u : N) : bool := negb (in_class u).

Definition dash : N := 45.

(** [s.replace(/[p]+/g, "-")] *)
Fixpoint replace_runs (p : N -> bool) (in_run : bool) (s : list N) : list N :=
  match s with
  | [] => []
  | u :: s' =>
      if p u
      then (if in_run then replace_runs p true s' else dash :: replace_runs p true s')
      else u :: replace_runs p false s'
  end.

Fixpoint drop_dashes (s : list N) : list N :=
  match s with
  | [] => []
  | u :: s' => if is_dash u then drop_dashes s' else s
  end.

(** [s.replace(/^-+|-+$/g, "")] *)
Definition trim_dashes (s : list N) : list N :=
  rev (drop_dashes (rev (drop_dashes s))).

(** The constant [candidate] of [sanitizeIndexName]: a finite number
    printed, a string as it is, and the fallback for anything else. *)
Definition candidate (b : Builtins) (fallback : list N) (raw : Raw) : list N :=
  match raw with
  | RawNumber (Finite q) => of_string (toString b q)
  | RawString s => s
  | _ => fallback
  end.

(** The constant [trimmed]. *)
Definition trimmed (b : Builtins) (fallback : list N) (raw : Raw) : list N :=
  let lowered := toLowerCase b (candidate b fallback raw) in
  let replaced := replace_runs not_in_class false lowered in
  let collapsed := replace_runs is_dash false replaced in
  trim_dashes collapsed.

(** [fallback] is [DEFAULT_INDEX_NAME]. *)
Definition sanitizeIndexName (b : Builtins) (fallback : list N) (raw : Raw) : list N :=
  let safe := match trimmed b fallback raw with [] => fallback | t => t end in
  take 45 safe.

(** The white space and line terminators that [trim] removes. *)
Definition is_space (u : N) : bool :=
  (((9 <=? u) && (u <=? 13)) || (u =? 32) || (u =? 160) || (u =? 5760)
   || ((8192 <=? u) && (u <=? 8202)) || (u =? 8232) || (u =? 8233) || (u =? 8239)
   || (u =? 8287) || (u =? 12288) || (u =? 65279))%N.

Fixpoint drop_spaces (s : list N) : list N :=
  match s with
  | [] => []
  | u :: s' => if is_space u then drop_spaces s' else s
  end.

(** [s.trim()] *)
Definition trim (s : list N) : list N := rev (drop_spaces (rev (drop_spaces s))).

(** The values that the [string | number] identifiers of the route stand
    for. *)
Definition raw_of (raw : option JsId) : Raw :=
  match raw with
  | None => RawUndefined
  | Some (IdStr s) => RawString (of_string s)
  | Some (IdNum n) => RawNumber (Finite (inject_Z n))
  end.

(** On a string of code units below 256 [toLowerCase] keeps the length,
    lowers the ASCII letters and leaves or puts outside the class every other
    code unit. *)
Definition lowers_latin1 (b : Builtins) : Prop :=
  forall s : list ascii,
    Forall2 (fun u c => if (code_unit c <? 128)%N then u = code_unit (Chars.lower c)
                        else in_class u = false)
            (toLowerCase b (of_list s)) s.

(** The integer [n] is printed in decimal, as every integer below 10^21 in
    magnitude is. *)
Definition prints_decimal (b : Builtins) (n : Z) : Prop :=
  toString b (inject_Z n) = Z_toString n.

(** Built-ins for the examples: the ASCII letters are lowered and the
    numerator of a number is printed in decimal. *)
Definition plain : Builtins :=
  {| toLowerCase :=
       map (fun u => if ((65 <=? u) && (u <=? 90))%N then (u + 32)%N else u);
     toString := fun q => Z_toString (Qnum q) |}.

End Wide.

(** * Properties *)

(** ** Name sanitisation *)

Section Sanitize.

Implicit Types (s l : list ascii) (c : ascii).

Lemma alnum_not_dash c : Chars.is_alnum c = true -> Chars.is_dash c = false.
Proof.
  destruct c as [[] [] [] [] [] [] [] []]; vm_compute; congruence.
Qed.

Lemma is_dash_eq c : Chars.is_dash c = true -> c = Chars.dash.
Proof.
  destruct c as [[] [] [] [] [] [] [] []]; vm_compute; congruence.
Qed.

Lemma not_in_class_alnum c :
  Chars.not_in_class c || Chars.is_dash c = negb (Chars.is_alnum c).
Proof.
  destruct c as [[] [] [] [] [] [] [] []]; reflexivity.
Qed.

(** Replacing the runs outside the class and then collapsing the dashes is
    replacing the runs of everything that is not a letter or a digit. *)
Lemma collapse_replace s : forall b1 b2,
  (b1 = true -> b2 = true) ->
  replace_runs Chars.is_dash b2 (replace_runs Chars.not_in_class b1 s)
  = replace_runs (fun c => negb (Chars.is_alnum c)) b2 s.
Proof.
  induction s as [|c s IH]; intros b1 b2 Hb; [reflexivity|].
  cbn [replace_runs]. rewrite <- not_in_class_alnum.
  destruct (Chars.not_in_class c) eqn:Hn; cbn [orb].
  - destruct b1.
    + rewrite Hb by reflexivity. apply IH; auto.
    + cbn [replace_runs]. change (Chars.is_dash Chars.dash) with true. cbn iota.
      destruct b2; [apply IH; auto | f_equal; apply IH; auto].
  - cbn [replace_runs]. destruct (Chars.is_dash c) eqn:Hd.
    + destruct b2; [apply IH; auto | f_equal; apply IH; auto].
    + f_equal. apply IH. discriminate.
Qed.

Lemma drop_dashes_snoc l c :
  drop_dashes (l ++ [c]) =
    match drop_dashes l with
    | [] => drop_dashes [c]
    | d => d ++ [c]
    end.
Proof.
  induction l as [|x l IH]; [reflexivity|].
  cbn [app drop_dashes]. destruct (Chars.is_dash x); [exact IH | reflexivity].
Qed.

Lemma strip_trailing_cons c l :
  strip_trailing (c :: l) =
    match strip_trailing l with
    | [] => if Chars.is_dash c then [] else [c]
    | t => c :: t
    end.
Proof.
  unfold strip_trailing. cbn [rev]. rewrite drop_dashes_snoc.
  destruct (drop_dashes (rev l)) as [|d ds] eqn:Hd.
  - cbn. destruct (Chars.is_dash c); reflexivity.
  - rewrite rev_app_distr. cbn [rev app].
    destruct (rev ds ++ [d]) eqn:He; [|reflexivity].
    destruct (rev ds); discriminate.
Qed.

Lemma strip_trailing_keep c l :
  Chars.is_dash c = false -> strip_trailing (c :: l) = c :: strip_trailing l.
Proof.
  intros H. rewrite strip_trailing_cons, H. destruct (strip_trailing l); reflexivity.
Qed.

Abbreviation sep := (fun c => negb (Chars.is_alnum c)).

Lemma runs_nonempty s : forall cur, cur <> [] -> NameSpec.runs cur s <> [].
Proof.
  induction s as [|c s IH]; intros cur Hc; cbn [NameSpec.runs].
  - destruct cur; congruence.
  - destruct (Chars.is_alnum c).
    + apply IH. destruct cur; discriminate.
    + destruct cur; congruence.
Qed.

Lemma flat_map_joined (ws : list (list ascii)) :
  ws <> [] ->
  flat_map (fun w => Chars.dash :: w) ws = Chars.dash :: NameSpec.dash_joined ws.
Proof. destruct ws; [congruence | reflexivity]. Qed.

(** After a letter or digit, and after a separator. *)
Lemma joined_runs s :
  (forall cur, cur <> [] ->
     NameSpec.dash_joined (NameSpec.runs cur s)
     = cur ++ strip_trailing (replace_runs sep false s))
  /\ strip_trailing (Chars.dash :: replace_runs sep true s)
     = flat_map (fun w => Chars.dash :: w) (NameSpec.runs [] s).
Proof.
  induction s as [|c s [IHa IHb]]; split.
  - intros cur Hc. destruct cur; [congruence|]. cbn. now rewrite app_nil_r.
  - reflexivity.
  - intros cur Hc. cbn [NameSpec.runs replace_runs].
    destruct (Chars.is_alnum c) eqn:Hc'; cbn [negb].
    + rewrite IHa by (destruct cur; discriminate).
      rewrite strip_trailing_keep by (now apply alnum_not_dash).
      now rewrite <- app_assoc.
    + destruct cur as [|x cur]; [congruence|].
      cbn [NameSpec.dash_joined]. now rewrite IHb.
  - cbn [NameSpec.runs replace_runs app].
    destruct (Chars.is_alnum c) eqn:Hc'; cbn [negb].
    + rewrite flat_map_joined by (apply runs_nonempty; discriminate).
      rewrite (IHa [c]) by discriminate.
      rewrite strip_trailing_cons.
      rewrite (strip_trailing_keep c) by (now apply alnum_not_dash).
      reflexivity.
    + exact IHb.
Qed.

Lemma drop_dashes_flag s :
  drop_dashes (replace_runs sep true s) = drop_dashes (replace_runs sep false s).
Proof.
  destruct s as [|c s]; [reflexivity|]. cbn [replace_runs].
  destruct (negb (Chars.is_alnum c)); reflexivity.
Qed.

Lemma trim_replace s :
  trim_dashes (replace_runs sep false s) = NameSpec.dash_joined (NameSpec.runs [] s).
Proof.
  unfold trim_dashes.
  induction s as [|c s IH]; [reflexivity|].
  cbn [NameSpec.runs replace_runs app].
  destruct (Chars.is_alnum c) eqn:Hc; cbn [negb].
  - cbn [drop_dashes]. rewrite (alnum_not_dash c Hc).
    rewrite strip_trailing_keep by (now apply alnum_not_dash).
    now rewrite (proj1 (joined_runs s) [c]) by discriminate.
  - cbn [drop_dashes]. change (Chars.is_dash Chars.dash) with true. cbn iota.
    now rewrite drop_dashes_flag.
Qed.

Lemma sanitize_trimmed_cleaned (candidate : string) :
  sanitize_trimmed candidate = NameSpec.cleaned candidate.
Proof.
  unfold sanitize_trimmed, NameSpec.cleaned.
  rewrite collapse_replace by discriminate. apply trim_replace.
Qed.

End Sanitize.

Lemma string_length_of_list (l : list ascii) :
  String.length (string_of_list_ascii l) = length l.
Proof. induction l as [|c l IH]; cbn; [reflexivity | now rewrite IH]. Qed.

Lemma runs_alnum (s : list ascii) : forall cur,
  Forall (fun c => Chars.is_alnum c = true) cur ->
  Forall (Forall (fun c => Chars.is_alnum c = true)) (NameSpec.runs cur s).
Proof.
  induction s as [|c s IH]; intros cur Hcur; cbn [NameSpec.runs].
  - destruct cur; auto.
  - destruct (Chars.is_alnum c) eqn:Hc.
    + apply IH. apply Forall_app; auto.
    + destruct cur; auto.
Qed.

Lemma dash_joined_in_class (ws : list (list ascii)) :
  Forall (Forall (fun c => Chars.is_alnum c = true)) ws ->
  Forall (fun c => Chars.in_class c = true) (NameSpec.dash_joined ws).
Proof.
  assert (Hal : forall w, Forall (fun c => Chars.is_alnum c = true) w ->
                          Forall (fun c => Chars.in_class c = true) w).
  { intros w Hw. eapply Forall_impl; [exact Hw|].
    intros c Hc. unfold Chars.in_class. cbn beta in Hc. now rewrite Hc. }
  destruct ws as [|w ws]; intros Hws; [constructor|].
  cbn [NameSpec.dash_joined]. inversion Hws as [|? ? Hw Hrest]; subst.
  apply Forall_app; split; [auto|].
  clear Hws. induction Hrest as [|w' ws' Hw' _ IH]; [constructor|].
  cbn [flat_map app]. constructor; [reflexivity|].
  apply Forall_app; split; auto.
Qed.

Abbreviation alnum_word := (fun w : list ascii =>
  w <> [] /\ Forall (fun c => Chars.is_alnum c = true) w).

Lemma runs_words (s : list ascii) : forall cur,
  Forall (fun c => Chars.is_alnum c = true) cur ->
  Forall alnum_word (NameSpec.runs cur s).
Proof.
  induction s as [|c s IH]; intros cur Hcur; cbn [NameSpec.runs].
  - destruct cur; [constructor|].
    constructor; [split; [discriminate | exact Hcur] | constructor].
  - destruct (Chars.is_alnum c) eqn:Hc.
    + apply IH. apply Forall_app; auto.
    + destruct cur; [apply IH; constructor|].
      constructor; [split; [discriminate | exact Hcur]|]. apply IH. constructor.
Qed.

Lemma no_double_dash_alnum (w l : list ascii) :
  Forall (fun c => Chars.is_alnum c = true) w ->
  NameSpec.no_double_dash (w ++ l) = NameSpec.no_double_dash l.
Proof.
  induction 1 as [|c w Hc _ IH]; [reflexivity|].
  cbn [app]. rewrite <- IH. cbn [NameSpec.no_double_dash].
  rewrite (alnum_not_dash c Hc). cbn [andb negb]. now destruct (w ++ l).
Qed.

Lemma no_double_dash_words (ws : list (list ascii)) :
  Forall alnum_word ws ->
  NameSpec.no_double_dash (flat_map (fun w => Chars.dash :: w) ws) = true.
Proof.
  induction 1 as [|w ws [Hne Hw] _ IH]; [reflexivity|].
  cbn [flat_map app]. destruct w as [|c w]; [congruence|].
  inversion Hw as [|? ? Hc Hw']; subst.
  cbn [app NameSpec.no_double_dash]. rewrite (alnum_not_dash c Hc).
  rewrite andb_false_r. cbn [negb andb].
  destruct (w ++ flat_map (fun w0 => Chars.dash :: w0) ws) eqn:E; [reflexivity|].
  rewrite <- E, no_double_dash_alnum by assumption. exact IH.
Qed.

Lemma last_flat_map_words (ws : list (list ascii)) (c : ascii) :
  Forall alnum_word ws ->
  exists c', last (c :: flat_map (fun w => Chars.dash :: w) ws) = Some c'
             /\ (c' = c \/ Chars.is_alnum c' = true).
Proof.
  intros H. revert c. induction H as [|w ws [Hne Hw] _ IH]; intros c.
  - exists c. split; [reflexivity | now left].
  - cbn [flat_map app].
    destruct (exists_last Hne) as (w' & x & ->).
    apply Forall_app in Hw as [_ Hx]. inversion Hx as [|? ? Hxa _]; subst.
    destruct (IH x) as (c' & Hl & Hc').
    exists c'. split; [|right; destruct Hc' as [->|]; assumption].
    rewrite <- Hl, <- app_assoc. cbn [app].
    change (c :: Chars.dash :: w' ++ x :: flat_map (fun w0 => Chars.dash :: w0) ws)
      with ((c :: Chars.dash :: w') ++ x :: flat_map (fun w0 => Chars.dash :: w0) ws).
    now rewrite last_app_cons.
Qed.

(** What [dash_joined] builds from words of letters and digits. *)
Lemma dash_joined_shape (ws : list (list ascii)) :
  Forall alnum_word ws ->
  NameSpec.no_double_dash (NameSpec.dash_joined ws) = true
  /\ NameSpec.no_outer_dash (NameSpec.dash_joined ws) = true.
Proof.
  intros H. destruct H as [|w ws [Hne Hw] Hws]; [split; reflexivity|].
  cbn [NameSpec.dash_joined]. split.
  - rewrite no_double_dash_alnum by assumption. now apply no_double_dash_words.
  - unfold NameSpec.no_outer_dash.
    assert (Hhead : exists c, head (w ++ flat_map (fun w0 => Chars.dash :: w0) ws) = Some c
                              /\ Chars.is_alnum c = true).
    { destruct w as [|c w]; [congruence|]. inversion Hw; subst. exists c. auto. }
    destruct Hhead as (c & -> & Hc).
    destruct (exists_last Hne) as (w' & x & ->).
    apply Forall_app in Hw as [_ Hxa]. inversion Hxa as [|? ? Hxa' _]; subst.
    rewrite <- app_assoc. cbn [app].
    destruct (last_flat_map_words ws x Hws) as (c' & Hl & Hc').
    rewrite last_app_cons, Hl. rewrite (alnum_not_dash c Hc).
    destruct Hc' as [->|Hc']; [rewrite (alnum_not_dash x Hxa')|rewrite (alnum_not_dash c' Hc')];
      reflexivity.
Qed.

Lemma runs_concat (s : list ascii) : forall cur,
  concat (NameSpec.runs cur s) = cur ++ List.filter Chars.is_alnum s.
Proof.
  induction s as [|c s IH]; intros cur; cbn [NameSpec.runs List.filter].
  - destruct cur; cbn; now rewrite ?app_nil_r.
  - destruct (Chars.is_alnum c).
    + rewrite IH. now rewrite <- app_assoc.
    + destruct cur; [apply IH|]. cbn [concat]. now rewrite IH.
Qed.

Lemma filter_alnum_word (w : list ascii) :
  Forall (fun c => Chars.is_alnum c = true) w -> List.filter Chars.is_alnum w = w.
Proof.
  induction 1 as [|c w Hc _ IH]; [reflexivity|]. cbn. now rewrite Hc, IH.
Qed.

(** The letters and digits of the joined words are those of the words. *)
Lemma filter_dash_joined (ws : list (list ascii)) :
  Forall alnum_word ws -> List.filter Chars.is_alnum (NameSpec.dash_joined ws) = concat ws.
Proof.
  intros H. destruct H as [|w ws [_ Hw] Hws]; [reflexivity|].
  cbn [NameSpec.dash_joined concat]. rewrite List.filter_app, filter_alnum_word by assumption.
  f_equal. induction Hws as [|w' ws' [_ Hw'] _ IH]; [reflexivity|].
  cbn [flat_map concat app List.filter]. change (Chars.is_alnum Chars.dash) with false.
  cbn iota. now rewrite List.filter_app, filter_alnum_word, IH.
Qed.

(** ** The sanitiser on code units *)

Section WideNames.

(** The code unit and the character are in the class together, and a code
    unit of the class is that of the character. *)
Abbreviation same_class := (fun (u : N) (c : ascii) =>
  Wide.in_class u = Chars.in_class c
  /\ (Wide.in_class u = true -> u = Wide.code_unit c)).

Lemma unit_narrow (u : N) : (u < 256)%N -> Wide.code_unit (Wide.narrow u) = u.
Proof.
  intros H. unfold Wide.narrow, Wide.code_unit.
  rewrite (proj2 (N.ltb_lt u 256) H). now apply N_ascii_embedding.
Qed.

Lemma in_class_small (u : N) : Wide.in_class u = true -> (u < 256)%N.
Proof.
  unfold Wide.in_class, Wide.is_alnum, Wide.is_lower, Wide.is_digit, Wide.is_dash.
  intros H. repeat (apply orb_prop in H as [H|H]).
  - apply andb_prop in H as [_ H]. apply N.leb_le in H. lia.
  - apply andb_prop in H as [_ H]. apply N.leb_le in H. lia.
  - apply N.eqb_eq in H. lia.
Qed.

Lemma in_class_large (u : N) : (256 <= u)%N -> Wide.in_class u = false.
Proof.
  intros H. destruct (Wide.in_class u) eqn:E; [|reflexivity].
  apply in_class_small in E. lia.
Qed.

Lemma narrow_in_class (u : N) : Chars.in_class (Wide.narrow u) = Wide.in_class u.
Proof.
  destruct (N.ltb_spec u 256) as [H|H].
  - unfold Chars.in_class, Chars.is_alnum, Chars.is_lower, Chars.is_digit, Chars.is_dash,
      Chars.code.
    change (N_of_ascii (Wide.narrow u)) with (Wide.code_unit (Wide.narrow u)).
    now rewrite unit_narrow.
  - rewrite in_class_large by assumption. unfold Wide.narrow.
    rewrite (proj2 (N.ltb_ge u 256) H). reflexivity.
Qed.

Lemma narrow_is_alnum (u : N) : Chars.is_alnum (Wide.narrow u) = Wide.is_alnum u.
Proof.
  destruct (N.ltb_spec u 256) as [H|H].
  - unfold Chars.is_alnum, Chars.is_lower, Chars.is_digit, Chars.code.
    change (N_of_ascii (Wide.narrow u)) with (Wide.code_unit (Wide.narrow u)).
    now rewrite unit_narrow.
  - unfold Wide.narrow. rewrite (proj2 (N.ltb_ge u 256) H).
    pose proof (in_class_large u H) as E. unfold Wide.in_class in E.
    apply orb_false_elim in E as [-> _]. reflexivity.
Qed.

Lemma same_class_narrow (l : list N) : Forall2 same_class l (map Wide.narrow l).
Proof.
  induction l as [|u l IH]; cbn [map]; constructor; [|exact IH].
  split; [symmetry; apply narrow_in_class|].
  intros H. symmetry. apply unit_narrow. now apply in_class_small.
Qed.

Lemma replace_outside_wide (l16 : list N) (l8 : list ascii) :
  Forall2 same_class l16 l8 ->
  forall b, Wide.replace_runs Wide.not_in_class b l16
            = Wide.of_list (replace_runs Chars.not_in_class b l8).
Proof.
  induction 1 as [|u c l16 l8 [Hc Hu] _ IH]; intros b; [reflexivity|].
  cbn [Wide.replace_runs replace_runs].
  change (Wide.not_in_class u) with (negb (Wide.in_class u)).
  change (Chars.not_in_class c) with (negb (Chars.in_class c)).
  rewrite <- Hc. destruct (Wide.in_class u) eqn:E; cbn [negb].
  - rewrite (IH false). cbn [Wide.of_list map]. now rewrite <- (Hu eq_refl).
  - destruct b; rewrite (IH true); reflexivity.
Qed.

Lemma replace_dashes_wide (s : list ascii) : forall b,
  Wide.replace_runs Wide.is_dash b (Wide.of_list s)
  = Wide.of_list (replace_runs Chars.is_dash b s).
Proof.
  induction s as [|c s IH]; intros b; [reflexivity|].
  change (Wide.of_list (c :: s)) with (Wide.code_unit c :: Wide.of_list s).
  cbn [Wide.replace_runs replace_runs].
  change (Wide.is_dash (Wide.code_unit c)) with (Chars.is_dash c).
  destruct (Chars.is_dash c).
  - destruct b; rewrite (IH true); reflexivity.
  - rewrite (IH false). reflexivity.
Qed.

Lemma drop_dashes_wide (s : list ascii) :
  Wide.drop_dashes (Wide.of_list s) = Wide.of_list (drop_dashes s).
Proof.
  induction s as [|c s IH]; [reflexivity|].
  change (Wide.of_list (c :: s)) with (Wide.code_unit c :: Wide.of_list s).
  cbn [Wide.drop_dashes drop_dashes].
  change (Wide.is_dash (Wide.code_unit c)) with (Chars.is_dash c).
  destruct (Chars.is_dash c); [exact IH | reflexivity].
Qed.

Lemma trim_dashes_wide (s : list ascii) :
  Wide.trim_dashes (Wide.of_list s) = Wide.of_list (trim_dashes s).
Proof.
  unfold Wide.trim_dashes, trim_dashes, strip_trailing.
  rewrite drop_dashes_wide. unfold Wide.of_list at 1.
  rewrite <- map_rev. fold (Wide.of_list (rev (drop_dashes s))).
  rewrite drop_dashes_wide. unfold Wide.of_list. now rewrite map_rev.
Qed.

(** The three replacements leave the runs of letters and digits joined by
    single dashes. *)
Lemma wide_pipeline (l16 : list N) (l8 : list ascii) :
  Forall2 same_class l16 l8 ->
  Wide.trim_dashes
    (Wide.replace_runs Wide.is_dash false (Wide.replace_runs Wide.not_in_class false l16))
  = Wide.of_list (NameSpec.dash_joined (NameSpec.runs [] l8)).
Proof.
  intros H. rewrite (replace_outside_wide l16 l8 H), replace_dashes_wide, trim_dashes_wide.
  rewrite collapse_replace by discriminate. now rewrite trim_replace.
Qed.

Lemma filter_alnum_wide (s : list ascii) :
  List.filter Wide.is_alnum (Wide.of_list s) = Wide.of_list (List.filter Chars.is_alnum s).
Proof.
  induction s as [|c s IH]; [reflexivity|].
  change (Wide.of_list (c :: s)) with (Wide.code_unit c :: Wide.of_list s).
  cbn [List.filter].
  change (Wide.is_alnum (Wide.code_unit c)) with (Chars.is_alnum c).
  destruct (Chars.is_alnum c); [|exact IH].
  change (Wide.of_list (c :: List.filter Chars.is_alnum s))
    with (Wide.code_unit c :: Wide.of_list (List.filter Chars.is_alnum s)).
  now rewrite IH.
Qed.

Lemma filter_alnum_narrow (l : list N) :
  Wide.of_list (List.filter Chars.is_alnum (map Wide.narrow l)) = List.filter Wide.is_alnum l.
Proof.
  induction l as [|u l IH]; [reflexivity|]. cbn [map List.filter].
  rewrite narrow_is_alnum. destruct (Wide.is_alnum u) eqn:E; [|exact IH].
  change (Wide.of_list (Wide.narrow u :: List.filter Chars.is_alnum (map Wide.narrow l)))
    with (Wide.code_unit (Wide.narrow u)
          :: Wide.of_list (List.filter Chars.is_alnum (map Wide.narrow l))).
  rewrite IH. f_equal.
  apply unit_narrow, in_class_small. unfold Wide.in_class. now rewrite E.
Qed.

Lemma in_class_wide (s : list ascii) :
  Forall (fun c => Chars.in_class c = true) s ->
  Forall (fun u => Wide.in_class u = true) (Wide.of_list s).
Proof.
  induction 1 as [|c s Hc _ IH]; cbn [Wide.of_list map]; constructor; [exact Hc | exact IH].
Qed.

Lemma of_string_of_list (l : list ascii) :
  Wide.of_string (string_of_list_ascii l) = Wide.of_list l.
Proof. unfold Wide.of_string. now rewrite list_ascii_of_string_of_list_ascii. Qed.

(** A character of a [string] that is not ASCII is outside the class, and
    lowering leaves it there. *)
Lemma lower_outside (c : ascii) :
  (Wide.code_unit c <? 128)%N = false -> Chars.in_class (Chars.lower c) = false.
Proof.
  destruct c as [[|] [|] [|] [|] [|] [|] [|] [|]]; vm_compute; congruence.
Qed.

(** On the identifiers of the route, with built-ins that behave on them as
    those of JavaScript do, the sanitiser on code units is the sanitiser on
    [string]s. *)
Lemma sanitize_agrees (cfg : Config) (b : Wide.Builtins) (raw : option JsId) :
  Wide.lowers_latin1 b ->
  (forall n, raw = Some (IdNum n) -> Wide.prints_decimal b n) ->
  Wide.sanitizeIndexName b (Wide.of_string (DEFAULT_INDEX_NAME cfg)) (Wide.raw_of raw)
  = Wide.of_string (sanitizeIndexName cfg raw).
Proof.
  intros Hlow Hnum.
  assert (Hcand : Wide.candidate b (Wide.of_string (DEFAULT_INDEX_NAME cfg)) (Wide.raw_of raw)
                  = Wide.of_string (candidate_of cfg raw)).
  { destruct raw as [[s|n]|]; cbn; try reflexivity.
    now rewrite (Hnum n eq_refl). }
  unfold Wide.sanitizeIndexName, Wide.trimmed, sanitizeIndexName, sanitize_trimmed.
  rewrite Hcand. cbv zeta. unfold Wide.of_string at 1.
  set (cs := list_ascii_of_string (candidate_of cfg raw)).
  rewrite (wide_pipeline _ (toLowerCase cs)).
  2:{ unfold toLowerCase. apply Forall2_fmap_r.
      eapply Forall2_impl; [apply (Hlow cs)|].
      intros u c H. unfold compose. cbn beta in H |- *.
      destruct (Wide.code_unit c <? 128)%N eqn:E.
      - subst u. split; [reflexivity | auto].
      - rewrite (lower_outside c E). split; [exact H | congruence]. }
  rewrite collapse_replace by discriminate. rewrite trim_replace.
  rewrite of_string_of_list.
  destruct (NameSpec.dash_joined (NameSpec.runs [] (toLowerCase cs))) as [|c t] eqn:Hn.
  - cbn [Wide.of_list map]. unfold Wide.of_string, Wide.of_list. now rewrite firstn_map.
  - rewrite list_ascii_of_string_of_list_ascii.
    cbn [Wide.of_list map]. unfold Wide.of_list.
    change (Wide.code_unit c :: map Wide.code_unit t) with (map Wide.code_unit (c :: t)).
    now rewrite firstn_map.
Qed.

End WideNames.

(** ** White space on code units *)

Lemma is_space_wide (c : ascii) : Wide.is_space (Wide.code_unit c) = is_space c.
Proof.
  destruct c as [[|] [|] [|] [|] [|] [|] [|] [|]]; vm_compute; reflexivity.
Qed.

Lemma drop_spaces_wide (s : list ascii) :
  Wide.drop_spaces (Wide.of_list s) = Wide.of_list (drop_spaces s).
Proof.
  induction s as [|c s IH]; [reflexivity|].
  change (Wide.of_list (c :: s)) with (Wide.code_unit c :: Wide.of_list s).
  cbn [Wide.drop_spaces drop_spaces]. rewrite is_space_wide.
  destruct (is_space c); [exact IH | reflexivity].
Qed.

(** On a [string], whose code units are below 256, [js_trim] is [trim]. *)
Lemma trim_wide (s : string) : Wide.trim (Wide.of_string s) = Wide.of_string (js_trim s).
Proof.
  unfold Wide.trim, js_trim, Wide.of_string.
  rewrite list_ascii_of_string_of_list_ascii, drop_spaces_wide.
  unfold Wide.of_list at 1. rewrite <- map_rev.
  fold (Wide.of_list (rev (drop_spaces (list_ascii_of_string s)))).
  rewrite drop_spaces_wide. unfold Wide.of_list. now rewrite map_rev.
Qed.

(** [summary && summary.trim().length > 0] read on code units. *)
Lemma summary_given_wide (s : string) :
  summary_given (Some s) = true
  <-> Wide.of_string s <> [] /\ Wide.trim (Wide.of_string s) <> [].
Proof.
  rewrite trim_wide. unfold summary_given.
  assert (Hempty : forall t : string, String.eqb t "" = true <-> Wide.of_string t = []).
  { intros [|c t]; cbn; split; (reflexivity || discriminate). }
  rewrite andb_true_iff, !negb_true_iff.
  rewrite <- !not_true_iff_false, !Hempty. reflexivity.
Qed.

(** C9.  For every raw value, with any [toLowerCase] and any printing of
    numbers: the candidate is the string itself, the printed number when it
    is finite, and the default name otherwise; [sanitizeIndexName] lowercases
    the candidate, keeps its maximal runs of letters and digits and joins
    them by single dashes: every run of other code units, dashes included,
    shrinks to one dash and none is left at either end, so the outcome is
    made of [[a-z0-9-]] without two dashes in a row, and its letters and
    digits are those of the lowercased candidate in order.  An empty outcome
    is replaced by the default name, and the result is cut to 45 code units.
    "My Video!!.mp4" gives "my-video-mp4"; a number printed as 1e+21 gives
    "1e-21"; the Kelvin sign, lowered to k, gives "k".  On the identifiers
    of the route (strings of code units below 256, integers printed in
    decimal) the result is the one of [sanitizeIndexName] on [string]s. *)
Theorem sanitizeIndexName_spec (b : Wide.Builtins) (fallback : list N) (raw : Wide.Raw) :
  let candidate := Wide.candidate b fallback raw in
  let lowered := Wide.toLowerCase b candidate in
  let name := Wide.trimmed b fallback raw in
  let result := Wide.sanitizeIndexName b fallback raw in
  (match raw with
   | Wide.RawString s => candidate = s
   | Wide.RawNumber (Wide.Finite q) => candidate = Wide.of_string (Wide.toString b q)
   | _ => candidate = fallback
   end)
  /\ (exists text : list ascii,
        name = Wide.of_list text
        /\ text = NameSpec.dash_joined (NameSpec.runs [] (map Wide.narrow lowered))
        /\ Forall (fun c => Chars.in_class c = true) text
        /\ NameSpec.no_double_dash text = true
        /\ NameSpec.no_outer_dash text = true)
  /\ Forall (fun u => Wide.in_class u = true) name
  /\ List.filter Wide.is_alnum name = List.filter Wide.is_alnum lowered
  /\ result = take 45 (match name with [] => fallback | _ => name end)
  /\ (length result <= 45)%nat
  /\ (Wide.toLowerCase b (Wide.of_string "My Video!!.mp4") = Wide.of_string "my video!!.mp4" ->
      Wide.sanitizeIndexName b fallback (Wide.RawString (Wide.of_string "My Video!!.mp4"))
      = Wide.of_string "my-video-mp4")
  /\ (forall q, Wide.toString b q = "1e+21" ->
                Wide.toLowerCase b (Wide.of_string "1e+21") = Wide.of_string "1e+21" ->
                Wide.sanitizeIndexName b fallback (Wide.RawNumber (Wide.Finite q))
                = Wide.of_string "1e-21")
  /\ (Wide.toLowerCase b [8490%N] = Wide.of_string "k" ->
      Wide.sanitizeIndexName b fallback (Wide.RawString [8490%N]) = Wide.of_string "k")
  /\ (Wide.toLowerCase b [304%N] = [105%N; 775%N] ->
      Wide.sanitizeIndexName b fallback (Wide.RawString [304%N]) = Wide.of_string "i")
  /\ (forall cfg id,
        raw = Wide.raw_of id -> fallback = Wide.of_string (DEFAULT_INDEX_NAME cfg) ->
        Wide.lowers_latin1 b ->
        (forall n, id = Some (IdNum n) -> Wide.prints_decimal b n) ->
        result = Wide.of_string (sanitizeIndexName cfg id)).
Proof.
  intros candidate lowered name result.
  pose proof (runs_words (map Wide.narrow lowered) [] (Forall_nil_2 _)) as Hwords.
  assert (Hname : name = Wide.of_list (NameSpec.dash_joined
                                         (NameSpec.runs [] (map Wide.narrow lowered)))).
  { apply wide_pipeline, same_class_narrow. }
  assert (Hclass : Forall (fun c => Chars.in_class c = true)
                     (NameSpec.dash_joined (NameSpec.runs [] (map Wide.narrow lowered))))
    by (apply dash_joined_in_class, runs_alnum; constructor).
  split; [destruct raw as [| |s|[q| |neg]|]; reflexivity|].
  split.
  { eexists. split; [exact Hname|]. split; [reflexivity|]. split; [exact Hclass|].
    now apply dash_joined_shape. }
  split; [rewrite Hname; now apply in_class_wide|].
  split.
  { rewrite Hname, filter_alnum_wide, filter_dash_joined by assumption.
    rewrite runs_concat. apply filter_alnum_narrow. }
  split.
  { unfold result, Wide.sanitizeIndexName. fold name. now destruct name. }
  split; [unfold result, Wide.sanitizeIndexName; rewrite length_take; lia|].
  split.
  { intros H. unfold Wide.sanitizeIndexName, Wide.trimmed, Wide.candidate. rewrite H.
    vm_compute. reflexivity. }
  split.
  { intros q Hq H. unfold Wide.sanitizeIndexName, Wide.trimmed, Wide.candidate.
    rewrite Hq, H. vm_compute. reflexivity. }
  split.
  { intros H. unfold Wide.sanitizeIndexName, Wide.trimmed, Wide.candidate. rewrite H.
    vm_compute. reflexivity. }
  split.
  { intros H. unfold Wide.sanitizeIndexName, Wide.trimmed, Wide.candidate. rewrite H.
    vm_compute. reflexivity. }
  intros cfg id -> -> Hlow Hnum. now apply sanitize_agrees.
Qed.

Lemma sanitizeIndexName_spec_witness :
  Wide.lowers_latin1 Wide.plain
  /\ Wide.prints_decimal Wide.plain 42
  /\ Wide.sanitizeIndexName Wide.plain (Wide.of_string "video-frames")
       (Wide.RawString (Wide.of_string "My Video!!.mp4"))
     = Wide.of_string "my-video-mp4"
  /\ Wide.sanitizeIndexName Wide.plain (Wide.of_string "video-frames")
       (Wide.RawNumber (Wide.Finite 42))
     = Wide.of_string (sanitizeIndexName Scenario.config (Some (IdNum 42)))
  /\ Wide.sanitizeIndexName Wide.plain (Wide.of_string "video-frames")
       (Wide.RawNumber Wide.NotANumber)
     = Wide.of_string "video-frames".
Proof.
  assert (Hlow : Wide.lowers_latin1 Wide.plain).
  { intros s. induction s as [|c s IH]; [constructor|].
    cbn [Wide.plain Wide.toLowerCase Wide.of_list map] in *. constructor; [|exact IH].
    destruct c as [[|] [|] [|] [|] [|] [|] [|] [|]]; vm_compute; reflexivity. }
  split; [exact Hlow|]. split; [reflexivity|].
  pose proof (sanitizeIndexName_spec Wide.plain (Wide.of_string "video-frames")
                (Wide.RawString (Wide.of_string "My Video!!.mp4")))
    as (_ & _ & _ & _ & _ & _ & Hex & _).
  split; [exact (Hex eq_refl)|].
  pose proof (sanitizeIndexName_spec Wide.plain (Wide.of_string "video-frames")
                (Wide.RawNumber (Wide.Finite 42)))
    as (_ & _ & _ & _ & _ & _ & _ & _ & _ & _ & Hagree).
  split; [|reflexivity].
  apply (Hagree Scenario.config (Some (IdNum 42)) eq_refl eq_refl Hlow).
  intros n [= <-]. reflexivity.
Defined.

(** ** Namespace derivation *)

(** C8, as the code has it.  A truthy [videoId] (a non-empty string or a
    number other than zero) gives "video-" followed by its sanitised form; an
    absent one gives "frames"; 42 gives "video-42". *)
Theorem getNamespace_truthy (cfg : Config) (v : JsId) :
  truthy_id v = true ->
  getNamespace cfg (Some v) = ("video-" ++ sanitizeIndexName cfg (Some v))%string
  /\ getNamespace cfg None = "frames"
  /\ getNamespace cfg (Some (IdNum 42)) = "video-42".
Proof.
  intros Hv. unfold getNamespace. rewrite Hv. repeat split.
Qed.

Lemma getNamespace_truthy_witness :
  truthy_id (IdStr "clip 7") = true
  /\ getNamespace Scenario.config (Some (IdStr "clip 7")) = "video-clip-7".
Proof.
  split; [reflexivity|].
  exact (proj1 (getNamespace_truthy Scenario.config (IdStr "clip 7") eq_refl)).
Defined.

(** C8 as stated fails for the identifier 0: the namespace is not "video-"
    followed by its sanitised form "0". *)
Lemma getNamespace_zero_not_video :
  sanitizeIndexName Scenario.config (Some (IdNum 0)) = "0"
  /\ getNamespace Scenario.config (Some (IdNum 0))
     <> ("video-" ++ sanitizeIndexName Scenario.config (Some (IdNum 0)))%string.
Proof. split; [reflexivity | discriminate]. Qed.

(** C10.  A [videoId] that is present but falsy, the number 0 or the empty
    string, gives the default namespace "frames", the one an absent
    [videoId] gives, and not a "video-..." namespace of its own. *)
Theorem getNamespace_falsy (cfg : Config) :
  getNamespace cfg (Some (IdNum 0)) = "frames"
  /\ getNamespace cfg (Some (IdStr "")) = "frames"
  /\ getNamespace cfg (Some (IdNum 0)) = getNamespace cfg None
  /\ getNamespace cfg (Some (IdStr "")) = getNamespace cfg None
  /\ getNamespace cfg (Some (IdNum 0)) <> "video-0"
  /\ forall v, truthy_id v = false -> getNamespace cfg (Some v) = DEFAULT_NAMESPACE.
Proof.
  repeat split; try discriminate.
  intros v Hv. unfold getNamespace. now rewrite Hv.
Qed.

(** ** The handler monad *)

Lemma run_bind {A B} (m : M A) (f : A -> M B) (st : State) :
  (m ≫= f) st =
    match m st with
    | (inl e, st') => (inl e, st')
    | (inr a, st') => f a st'
    end.
Proof. reflexivity. Qed.

Lemma run_ret {A} (a : A) (st : State) : (mret a : M A) st = (inr a, st).
Proof. reflexivity. Qed.

Lemma new_events_app (st st' : State) (evs : list Event) :
  trace st' = trace st ++ evs -> Obs.new_events st st' = evs.
Proof.
  intros H. unfold Obs.new_events. rewrite H. now rewrite drop_app_length.
Qed.

(** ** Embedding adapter *)

Section Embedding.

Variable cfg : Config.
Variable env : Services.

Lemma checkEmbeddingDimensions_run (values : list Q) (st : State) :
  checkEmbeddingDimensions values st
  = (inr tt, {| trace := trace st; indexInitPromises := indexInitPromises st;
                console := console st ++ Obs.dimension_warning values |}).
Proof.
  unfold checkEmbeddingDimensions, Obs.dimension_warning.
  destruct (bool_decide _); cbn; [|reflexivity].
  rewrite app_nil_r. now destruct st.
Qed.

Lemma embedOne_run (text : string) (st : State) :
  let a := embedContent env (trace st) text in
  embedOne env text st
  = (inr (Obs.settle a),
     {| trace := trace st ++ [EvEmbed text a];
        indexInitPromises := indexInitPromises st;
        console := console st ++ Obs.settled_warning (Obs.settle a) |}).
Proof.
  intros a. unfold embedOne. rewrite run_bind. unfold try_, call. fold a.
  destruct a as [e | [[|v values]|]]; cbn -[checkEmbeddingDimensions];
    try (now rewrite app_nil_r).
  rewrite run_bind, checkEmbeddingDimensions_run. reflexivity.
Qed.

Lemma mapM_embedOne_run (texts : list string) : forall st,
  let answers := Obs.embed_answers env (trace st) texts in
  mapM (embedOne env) texts st
  = (inr (map Obs.settle answers),
     {| trace := trace st ++ zip_with EvEmbed texts answers;
        indexInitPromises := indexInitPromises st;
        console := console st ++ flat_map Obs.settled_warning (map Obs.settle answers) |}).
Proof.
  induction texts as [|t texts IH]; intros st; cbn [mapM Obs.embed_answers].
  - cbn. rewrite !app_nil_r. now destruct st.
  - rewrite run_bind, embedOne_run. cbn zeta. rewrite run_bind, IH. cbn.
    now rewrite <- !app_assoc.
Qed.

Lemma embed_answers_length (texts : list string) : forall h,
  length (Obs.embed_answers env h texts) = length texts.
Proof. induction texts; intros h; cbn; auto. Qed.

Lemma promise_all_inr {A} (settled : list (Thrown + A)) (vs : list A) :
  promise_all settled = inr vs <-> settled = map inr vs.
Proof.
  revert vs. induction settled as [|[e|a] rest IH]; intros vs; cbn.
  - split; [intros [= <-]; reflexivity | destruct vs; [reflexivity | discriminate]].
  - split; [discriminate | destruct vs; discriminate].
  - destruct (promise_all rest) as [e|l] eqn:Hr.
    + split; [discriminate|]. destruct vs as [|v vs]; [discriminate|].
      intros [= -> Hrest]. apply IH in Hrest. discriminate.
    + split.
      * intros [= <-]. cbn. f_equal. now apply IH.
      * destruct vs as [|v vs]; [discriminate|]. intros [= -> Hrest].
        apply IH in Hrest. congruence.
Qed.

Lemma settle_inr (a : Thrown + option (list Q)) (v : list Q) :
  Obs.settle a = inr v <-> a = inr (Some v) /\ v <> [].
Proof.
  destruct a as [e | [[|x xs]|]]; cbn; split;
    try discriminate; try (intros [[=] _]; fail).
  - intros [[= <-] H]. congruence.
  - intros [= <-]. split; [reflexivity | discriminate].
  - intros [[= <-] _]. reflexivity.
Qed.

Lemma map_settle_inr (answers : list (Thrown + option (list Q))) (vs : list (list Q)) :
  map Obs.settle answers = map inr vs <->
  answers = map (fun v => inr (Some v)) vs /\ Forall (fun v => v <> []) vs.
Proof.
  revert vs. induction answers as [|a answers IH]; intros [|v vs]; cbn;
    try (split; [discriminate | intros [[=] _]]).
  - split; [intros _; split; [reflexivity | constructor] | reflexivity].
  - split.
    + intros [= Ha Hrest]. apply settle_inr in Ha as [-> Hv].
      apply IH in Hrest as [-> Hvs]. split; [reflexivity | now constructor].
    + intros [[= -> ->] Hall]. inversion Hall as [|? ? Hv Hvs]; subst.
      f_equal.
      * apply settle_inr. auto.
      * apply IH. auto.
Qed.

Lemma promise_all_inl {A} (settled : list (Thrown + A)) (e : Thrown) :
  inl e ∈ settled -> exists e', promise_all settled = inl e'.
Proof.
  induction settled as [|[e0|a] rest IH]; intros Hin.
  - inversion Hin.
  - cbn. eauto.
  - apply elem_of_cons in Hin as [Heq|Hin]; [discriminate|].
    cbn. destruct (IH Hin) as [e' ->]. eauto.
Qed.

Lemma zip_with_embed_in (texts : list string) answers t a :
  EvEmbed t a ∈ zip_with EvEmbed texts answers -> a ∈ answers.
Proof.
  revert answers. induction texts as [|t0 texts IH]; intros [|a0 answers] Hin;
    cbn in Hin; try (now inversion Hin).
  apply elem_of_cons in Hin as [[= _ ->]|Hin]; [left | right; eauto].
Qed.

Lemma flat_map_warning_inr (vs : list (list Q)) :
  flat_map Obs.settled_warning (map inr vs) = flat_map Obs.dimension_warning vs.
Proof. induction vs as [|v vs IH]; cbn; [reflexivity | now rewrite IH]. Qed.

Lemma zip_with_embed_map (texts : list string) (vs : list (list Q)) :
  zip_with EvEmbed texts (map (fun v => inr (Some v)) vs)
  = zip_with (fun t v => EvEmbed t (inr (Some v))) texts vs.
Proof.
  revert vs. induction texts as [|t texts IH]; intros [|v vs]; cbn; auto.
  now rewrite IH.
Qed.

(** The whole of [embedTexts] on a non-empty list with a configured client. *)
Lemma embedTexts_run (texts : list string) (st : State) :
  texts <> [] -> has_client (GOOGLE_API_KEY cfg) = true ->
  let answers := Obs.embed_answers env (trace st) texts in
  embedTexts cfg env texts st
  = (promise_all (map Obs.settle answers),
     {| trace := trace st ++ zip_with EvEmbed texts answers;
        indexInitPromises := indexInitPromises st;
        console := console st ++ flat_map Obs.settled_warning (map Obs.settle answers) |}).
Proof.
  intros Hne Hcl answers. unfold embedTexts.
  destruct texts as [|t texts]; [congruence|].
  unfold getEmbeddingModel. rewrite Hcl.
  rewrite run_bind, run_ret, run_bind, mapM_embedOne_run. reflexivity.
Qed.

Lemma embedTexts_no_client (texts : list string) (st : State) :
  texts <> [] -> has_client (GOOGLE_API_KEY cfg) = false ->
  embedTexts cfg env texts st = (inl missing_gemini, st).
Proof.
  intros Hne Hcl. unfold embedTexts. destruct texts; [congruence|].
  unfold getEmbeddingModel. rewrite Hcl. reflexivity.
Qed.

End Embedding.

(** The answers of a service that answers each text by itself. *)
Lemma embed_answers_pointwise (env : Services) (f : string -> Thrown + option (list Q))
    (texts : list string) :
  (forall h t, t ∈ texts -> embedContent env h t = f t) ->
  forall h, Obs.embed_answers env h texts = map f texts.
Proof.
  induction texts as [|t texts IH]; intros Hf h; cbn [Obs.embed_answers map]; [reflexivity|].
  rewrite Hf by left. f_equal. apply IH. intros h' t' Ht'. apply Hf. now right.
Qed.

(** One warning for a vector of another length, none for the right one. *)
Lemma dimension_warning_cases (values : list Q) :
  (Z.of_nat (length values) = EMBEDDING_DIMENSION -> Obs.dimension_warning values = [])
  /\ (Z.of_nat (length values) <> EMBEDDING_DIMENSION ->
      exists text, Obs.dimension_warning values
                   = [{| log_level := LogWarn; log_text := text; log_error := None |}]).
Proof.
  unfold Obs.dimension_warning. destruct (bool_decide_reflect
    (Z.of_nat (length values) = EMBEDDING_DIMENSION)); split; intros H;
    try contradiction; eauto.
Qed.

(** C6.  [embedTexts] asks the service once per text, in order.  When it
    returns, it returns one vector per text, the [i]-th being the service's
    answer to the [i]-th text.  It throws on an empty list (asking nothing)
    and whenever some answer carries no vector or an empty one, or is a
    rejection.  With a configured client and a non-empty list, when the
    service answers every text with a non-empty vector, [embedTexts] returns
    exactly these vectors, in the order of the texts, whatever their
    lengths: a vector of a length other than [EMBEDDING_DIMENSION] only adds
    one warning to the console, a vector of that length adds nothing. *)
Theorem embedTexts_spec (cfg : Config) (env : Services) (texts : list string) (st : State) :
  let r := (embedTexts cfg env texts st).1 in
  let st' := (embedTexts cfg env texts st).2 in
  let new := Obs.new_events st st' in
  let answers := Obs.embed_answers env (trace st) texts in
  trace st' = trace st ++ new
  /\ (texts = [] -> r = inl no_text /\ new = [])
  /\ (forall vs, r = inr vs ->
        length vs = length texts
        /\ new = zip_with (fun t v => EvEmbed t (inr (Some v))) texts vs)
  /\ (forall t, EvEmbed t (inr None) ∈ new \/ EvEmbed t (inr (Some [])) ∈ new ->
        exists e, r = inl e)
  /\ (has_client (GOOGLE_API_KEY cfg) = true -> texts <> [] ->
      (forall ev, ev ∈ new -> exists t v, ev = EvEmbed t (inr (Some v)) /\ v <> []) ->
      exists vs, r = inr vs
                 /\ console st' = console st ++ flat_map Obs.dimension_warning vs
                 /\ Forall (fun entry => log_level entry = LogWarn)
                           (flat_map Obs.dimension_warning vs))
  /\ (has_client (GOOGLE_API_KEY cfg) = true -> texts <> [] ->
      new = zip_with EvEmbed texts answers
      /\ forall vs,
           answers = map (fun v => inr (Some v)) vs -> Forall (fun v => v <> []) vs ->
           r = inr vs
           /\ length vs = length texts
           /\ console st' = console st ++ flat_map Obs.dimension_warning vs)
  /\ (has_client (GOOGLE_API_KEY cfg) = true -> texts <> [] ->
      forall f : string -> list Q,
        (forall h t, t ∈ texts -> embedContent env h t = inr (Some (f t)) /\ f t <> []) ->
        r = inr (map f texts))
  /\ (texts <> [] ->
      forall a, a ∈ answers ->
        (a = inr None \/ a = inr (Some []) \/ exists e, a = inl e) ->
        exists e, r = inl e)
  /\ (forall values,
        (Z.of_nat (length values) = EMBEDDING_DIMENSION -> Obs.dimension_warning values = [])
        /\ (Z.of_nat (length values) <> EMBEDDING_DIMENSION ->
            exists text, Obs.dimension_warning values
                         = [{| log_level := LogWarn; log_text := text;
                               log_error := None |}])).
Proof.
  intros r st' new answers. subst r st' new answers.
  assert (Hdim := dimension_warning_cases).
  destruct texts as [|t0 texts0] eqn:Htexts.
  { cbn. unfold Obs.new_events. cbn. rewrite drop_all, app_nil_r.
    repeat split; try discriminate; try congruence; try apply Hdim;
      try (intros t [H|H]; inversion H). }
  rewrite <- Htexts in *. assert (Hne : texts <> []) by (subst; discriminate).
  clear Htexts t0 texts0.
  destruct (has_client (GOOGLE_API_KEY cfg)) eqn:Hcl.
  2:{ rewrite embedTexts_no_client by assumption. cbn.
      unfold Obs.new_events. rewrite drop_all, app_nil_r.
      repeat split; try discriminate; try congruence; try apply Hdim; eauto;
        try (intros t [H|H]; inversion H). }
  rewrite embedTexts_run by assumption. cbn [fst snd].
  set (answers := Obs.embed_answers env (trace st) texts).
  assert (Hlen : length answers = length texts) by apply embed_answers_length.
  rewrite (new_events_app st _ (zip_with EvEmbed texts answers)) by reflexivity.
  cbn [trace console].
  assert (Hgood : forall vs,
             answers = map (fun v => inr (Some v)) vs -> Forall (fun v => v <> []) vs ->
             promise_all (map Obs.settle answers) = inr vs
             /\ length vs = length texts
             /\ console st ++ flat_map Obs.settled_warning (map Obs.settle answers)
                = console st ++ flat_map Obs.dimension_warning vs).
  { intros vs Ha Hvs.
    assert (Hs : map Obs.settle answers = map inr vs) by (apply map_settle_inr; auto).
    rewrite Hs. split; [now apply promise_all_inr|].
    split; [rewrite <- Hlen, Ha; now rewrite length_map|].
    now rewrite flat_map_warning_inr. }
  split; [reflexivity|]. split; [congruence|].
  split; [|split; [|split; [|split; [|split; [|split]]]]].
  - intros vs Hr. apply promise_all_inr, map_settle_inr in Hr as [Ha _].
    rewrite Ha in *. rewrite length_map in Hlen.
    split; [assumption | apply zip_with_embed_map].
  - intros t Hin.
    assert (Hs : inl no_vector ∈ map Obs.settle answers).
    { destruct Hin as [Hin|Hin]; apply zip_with_embed_in in Hin;
        apply list_elem_of_In, (in_map Obs.settle) in Hin;
        apply list_elem_of_In; exact Hin. }
    eapply promise_all_inl; eassumption.
  - intros _ _ Hall.
    assert (Hvs : exists vs, answers = map (fun v => inr (Some v)) vs
                             /\ Forall (fun v => v <> []) vs).
    { clearbody answers. clear -Hall Hlen. revert texts Hlen Hall.
      induction answers as [|a answers IH]; intros [|t texts] Hlen Hall;
        try discriminate.
      - exists []. split; [reflexivity | constructor].
      - cbn in Hall.
        destruct (Hall (EvEmbed t a)) as (t' & v & [= _ ->] & Hv); [left|].
        destruct (IH texts) as (vs & -> & Hvs).
        + now injection Hlen.
        + intros ev Hev. apply Hall. now right.
        + exists (v :: vs). split; [reflexivity | now constructor]. }
    destruct Hvs as (vs & Ha & Hvs). exists vs.
    destruct (Hgood vs Ha Hvs) as (Hr & _ & Hcon).
    split; [exact Hr|]. split; [exact Hcon|].
    clear. induction vs as [|v vs IH]; cbn; [constructor|].
    apply Forall_app; split; [|exact IH].
    unfold Obs.dimension_warning. destruct (bool_decide _); repeat constructor.
  - intros _ _. split; [reflexivity | exact Hgood].
  - intros _ _ f Hf.
    assert (Ha : answers = map (fun v => inr (Some v)) (map f texts)).
    { unfold answers. rewrite map_map.
      apply (embed_answers_pointwise env (fun t => inr (Some (f t)))).
      intros h t Ht. apply Hf, Ht. }
    apply (Hgood (map f texts) Ha).
    apply Forall_forall. intros v Hv.
    apply list_elem_of_In, in_map_iff in Hv as (t & <- & Ht).
    apply (Hf [] t). now apply list_elem_of_In.
  - intros _ a Ha Hbad.
    assert (Hs : exists e, inl e ∈ map Obs.settle answers).
    { destruct Hbad as [->|[->|[e ->]]];
        apply list_elem_of_In, (in_map Obs.settle) in Ha; cbn in Ha;
        eexists; apply list_elem_of_In; exact Ha. }
    destruct Hs as [e Hs]. eapply promise_all_inl; eassumption.
  - exact Hdim.
Qed.

Lemma embedTexts_spec_witness :
  let texts := ["a car"; "a dog"] in
  let out := embedTexts Scenario.config Scenario.services texts Scenario.start in
  out.1 = inr [[1%Q; 2%Q]; [1%Q; 2%Q]]
  /\ trace out.2 = [EvEmbed "a car" (inr (Some [1%Q; 2%Q]));
                    EvEmbed "a dog" (inr (Some [1%Q; 2%Q]))]
  /\ map log_level (console out.2) = [LogWarn; LogWarn]
  /\ (exists e, (embedTexts Scenario.config Scenario.services ["a car"; ""] Scenario.start).1
                = inl e).
Proof.
  pose proof (embedTexts_spec Scenario.config Scenario.services ["a car"; "a dog"]
                Scenario.start) as (Htrace & _ & _ & _ & _ & Hrun & _).
  destruct (Hrun eq_refl ltac:(discriminate)) as [Hnew Hgood].
  destruct (Hgood [[1%Q; 2%Q]; [1%Q; 2%Q]] eq_refl ltac:(repeat constructor; discriminate))
    as (Hr & _ & Hcon).
  split; [exact Hr|]. split; [rewrite Htrace, Hnew; reflexivity|].
  split; [rewrite Hcon; reflexivity|].
  pose proof (embedTexts_spec Scenario.config Scenario.services ["a car"; ""]
                Scenario.start) as (_ & _ & _ & _ & _ & _ & _ & Hbad & _).
  apply (Hbad ltac:(discriminate) (inr None)); [|now left].
  right. left.
Defined.

(** ** Provisioning, one request at a time *)

Section Provisioning.

Variable cfg : Config.
Variable env : Services.

Lemma only_provisioning_refl (st : State) : Obs.only_provisioning st st.
Proof. exists []. split; [now rewrite app_nil_r | constructor]. Qed.

Lemma only_provisioning_trans (st1 st2 st3 : State) :
  Obs.only_provisioning st1 st2 -> Obs.only_provisioning st2 st3 ->
  Obs.only_provisioning st1 st3.
Proof.
  intros (e1 & H1 & F1) (e2 & H2 & F2). exists (e1 ++ e2). split.
  - now rewrite H2, H1, app_assoc.
  - apply Forall_app; auto.
Qed.

Lemma only_provisioning_event (ev : Event) (st : State) :
  is_provisioning ev = true -> Obs.only_provisioning st (record_event ev st).
Proof. intros H. exists [ev]. split; [reflexivity | repeat constructor; exact H]. Qed.

Lemma only_provisioning_new (st st' : State) :
  Obs.only_provisioning st st' ->
  Forall (fun ev => is_provisioning ev = true) (Obs.new_events st st').
Proof. intros (evs & H & F). now rewrite (new_events_app _ _ _ H). Qed.

Lemma poll_only_provisioning (name : string) (n : nat) : forall st,
  Obs.only_provisioning st (poll env name n st).2.
Proof.
  induction n as [|n IH]; intros st; cbn [poll].
  - apply only_provisioning_refl.
  - rewrite run_bind. unfold try_, call.
    set (d := describeIndex env (trace st) name).
    set (st1 := record_event (EvDescribeIndex name d) st).
    assert (H1 : Obs.only_provisioning st st1)
      by (apply only_provisioning_event; reflexivity).
    destruct (is_ready d); [exact H1|].
    rewrite run_bind. unfold sleep.
    eapply only_provisioning_trans; [exact H1|].
    eapply only_provisioning_trans; [|apply IH].
    apply only_provisioning_event. reflexivity.
Qed.

Lemma initializer_only_provisioning (name : string) (st : State) :
  Obs.only_provisioning st (initializer cfg env name st).2.
Proof.
  unfold initializer. rewrite run_bind. unfold call at 1.
  set (l := listIndexes env (trace st)).
  set (st1 := record_event (EvListIndexes l) st).
  assert (H1 : Obs.only_provisioning st st1)
    by (apply only_provisioning_event; reflexivity).
  destruct l as [e|listing]; [exact H1|].
  rewrite run_bind.
  destruct (existsb (String.eqb name) (normalizeIndexList listing)).
  - rewrite run_ret. eapply only_provisioning_trans; [exact H1|].
    apply poll_only_provisioning.
  - unfold call.
    set (c := createIndex env (trace st1) (create_request cfg name)).
    set (st2 := record_event (EvCreateIndex (create_request cfg name) c) st1).
    assert (H2 : Obs.only_provisioning st st2).
    { eapply only_provisioning_trans; [exact H1|].
      apply only_provisioning_event. reflexivity. }
    destruct c as [e|[]]; [exact H2|].
    eapply only_provisioning_trans; [exact H2|]. apply poll_only_provisioning.
Qed.

Lemma ensureIndexReady_only_provisioning (name : string) (st : State) :
  Obs.only_provisioning st (ensureIndexReady cfg env name st).2.
Proof.
  unfold ensureIndexReady, getPineconeClient.
  destruct (has_client (PINECONE_API_KEY cfg)); [|apply only_provisioning_refl].
  rewrite run_bind, run_ret, run_bind. unfold gets.
  destruct (indexInitPromises st !! name) as [outcome|].
  - unfold await. apply only_provisioning_refl.
  - rewrite run_bind. unfold try_.
    pose proof (initializer_only_provisioning name st) as H.
    destruct (initializer cfg env name st) as [outcome st1]. cbn [snd] in H.
    rewrite run_bind. unfold set_promises at 1.
    destruct outcome as [e|[]]; cbn; exact H.
Qed.

Lemma ensure_unless_skipped_only_provisioning payload (name : string) (st : State) :
  Obs.only_provisioning st (ensure_unless_skipped cfg env payload name st).2.
Proof.
  unfold ensure_unless_skipped. destruct (truthy_flag (skipEnsure payload)).
  - apply only_provisioning_refl.
  - apply ensureIndexReady_only_provisioning.
Qed.

Lemma ensure_skipped payload (name : string) (st : State) :
  truthy_flag (skipEnsure payload) = true ->
  ensure_unless_skipped cfg env payload name st = (inr tt, st).
Proof. intros H. unfold ensure_unless_skipped. now rewrite H. Qed.

Lemma requireClients_run (st : State) :
  Obs.clients_configured cfg = true -> requireClients cfg st = (inr tt, st).
Proof.
  unfold Obs.clients_configured, requireClients. intros H.
  apply andb_prop in H as [-> ->]. reflexivity.
Qed.

Lemma requireClients_fail (st : State) :
  Obs.clients_configured cfg = false ->
  exists e, requireClients cfg st = (inl e, st).
Proof.
  unfold Obs.clients_configured, requireClients. intros H.
  destruct (has_client (PINECONE_API_KEY cfg)); [|eauto].
  destruct (has_client (GOOGLE_API_KEY cfg)); [discriminate | eauto].
Qed.

End Provisioning.

(** ** Rejection of empty input *)

Section Validation.

Variable cfg : Config.
Variable rt : JsRuntime.
Variable env : Services.

Lemma POST_empty_input (payload : RoutePayload) (st : State) :
  Obs.clients_configured cfg = true ->
  Obs.empty_input payload = true ->
  POST cfg rt env payload st =
    let out := ensure_unless_skipped cfg env payload
                 (resolveIndexName cfg (indexName payload)) st in
    (match out.1 with
     | inl e => json 500 (ErrorBody (message_of e))
     | inr _ => Obs.validation_error payload
     end, out.2).
Proof.
  intros Hcl Hempty. unfold POST. rewrite run_bind, requireClients_run by assumption.
  unfold Obs.empty_input in Hempty. unfold dispatch, action_is, Obs.validation_error.
  destruct (action payload) as [a|]; [|discriminate].
  destruct (String.eqb a "ingest") eqn:Hi; cbn [andb orb] in Hempty.
  - apply String.eqb_eq in Hi. subst a. cbn [String.eqb Ascii.eqb Bool.eqb].
    assert (Hf : Obs.no_frames payload = true).
    { destruct (Obs.no_frames payload); [reflexivity | discriminate]. }
    unfold post_ingest. rewrite run_bind.
    destruct (ensure_unless_skipped _ _ _ _ _) as [[e|[]] st1]; cbn [fst snd]; [reflexivity|].
    unfold Obs.no_frames in Hf. destruct (frames payload) as [[|f fs]|]; try discriminate;
      reflexivity.
  - destruct (String.eqb a "query") eqn:Hq; cbn [andb orb] in Hempty.
    + apply String.eqb_eq in Hq. subst a. cbn [String.eqb Ascii.eqb Bool.eqb].
      unfold post_query. rewrite run_bind.
      destruct (ensure_unless_skipped _ _ _ _ _) as [[e|[]] st1]; cbn [fst snd]; [reflexivity|].
      destruct (truthy_str (question payload)); [discriminate | reflexivity].
    + destruct (String.eqb a "analyze") eqn:Ha; [|discriminate].
      apply String.eqb_eq in Ha. subst a. cbn [String.eqb Ascii.eqb Bool.eqb].
      unfold post_analyze. rewrite run_bind.
      destruct (ensure_unless_skipped _ _ _ _ _) as [[e|[]] st1]; cbn [fst snd]; [reflexivity|].
      destruct (truthy_str (question payload)); [discriminate | reflexivity].
Qed.

Lemma POST_no_clients (payload : RoutePayload) (st : State) :
  Obs.clients_configured cfg = false ->
  exists e, POST cfg rt env payload st = (json 500 (ErrorBody (message_of e)), st).
Proof.
  intros H. destruct (requireClients_fail cfg st H) as [e He].
  exists e. unfold POST. rewrite run_bind, He. reflexivity.
Qed.

End Validation.

(** C1, as the code has it.  An [ingest] request without frames and a
    [query] or [analyze] request without a question never reach the
    embedding service, the vector data calls or the generation service: the
    only calls made are those of the readiness check, which runs first unless
    [skipEnsure] is set.  The response is never a success.  With both clients
    configured, it is the validation error (status 400) whenever the
    readiness check is skipped, and then no call at all is made, or returns
    normally. *)
Theorem empty_input_rejected (cfg : Config) (rt : JsRuntime) (env : Services)
    (payload : RoutePayload) (st : State) :
  Obs.empty_input payload = true ->
  let out := POST cfg rt env payload st in
  let new := Obs.new_events st out.2 in
  Forall (fun ev => is_provisioning ev = true) new
  /\ (status out.1 = 400%Z \/ status out.1 = 500%Z)
  /\ (Obs.clients_configured cfg = true ->
      truthy_flag (skipEnsure payload) = true ->
      out.1 = Obs.validation_error payload /\ new = [])
  /\ (Obs.clients_configured cfg = true ->
      (ensureIndexReady cfg env (resolveIndexName cfg (indexName payload)) st).1 = inr tt ->
      out.1 = Obs.validation_error payload).
Proof.
  intros Hempty out new. subst out new.
  destruct (Obs.clients_configured cfg) eqn:Hcl.
  - rewrite POST_empty_input by assumption. cbn zeta. cbn [fst snd].
    pose proof (ensure_unless_skipped_only_provisioning cfg env payload
                  (resolveIndexName cfg (indexName payload)) st) as Hprov.
    split; [now apply only_provisioning_new|].
    split.
    { destruct (ensure_unless_skipped _ _ _ _ _).1; [right | left]; reflexivity. }
    split.
    + intros _ Hskip. rewrite ensure_skipped by assumption. cbn [fst snd].
      split; [reflexivity|]. apply new_events_app. now rewrite app_nil_r.
    + intros _ Hok. unfold ensure_unless_skipped.
      destruct (truthy_flag (skipEnsure payload)); [reflexivity|].
      now rewrite Hok.
  - destruct (POST_no_clients cfg rt env payload st Hcl) as [e ->]. cbn [fst snd].
    split; [|split; [right; reflexivity | split; discriminate]].
    rewrite (new_events_app st st []) by (now rewrite app_nil_r). constructor.
Qed.

Lemma empty_input_rejected_witness :
  let payload := Scenario.request "query" (Some true) None (Some "") None in
  let out := POST Scenario.config Scenario.runtime Scenario.services payload Scenario.start in
  Obs.empty_input payload = true
  /\ out.1 = json 400 (ErrorBody "Question is required for query.")
  /\ Obs.new_events Scenario.start out.2 = [].
Proof.
  split; [reflexivity|].
  exact (proj1 (proj2 (proj2
           (empty_input_rejected Scenario.config Scenario.runtime Scenario.services
              (Scenario.request "query" (Some true) None (Some "") None)
              Scenario.start eq_refl))) eq_refl eq_refl).
Defined.

(** C1 as stated fails: without [skipEnsure], an [ingest] request with no
    frames is rejected only after the readiness check has listed and
    described the index. *)
Lemma ingest_empty_provisions_first :
  let payload := Scenario.request "ingest" None (Some []) None None in
  let out := POST Scenario.config Scenario.runtime Scenario.services payload Scenario.start in
  out.1 = json 400 (ErrorBody "No frames provided for ingestion.")
  /\ trace out.2
     = [ EvListIndexes (inr (ListingArray [ItemObj (Some "video-frames")]));
         EvDescribeIndex "video-frames" (inr (Some Scenario.ready_status)) ]
  /\ trace out.2 <> trace Scenario.start.
Proof. vm_compute. repeat split; discriminate. Qed.

(** ** The stable sort *)

Section Sorting.

Context {A : Type}.
Variable key : A -> Q.
Variable cmp : A -> A -> option Q.
Variable dom : A -> Prop.

(** On [dom] the comparator is the difference of the keys. *)
Hypothesis cmp_key : forall a b, dom a -> dom b -> cmp a b = Some (key a - key b)%Q.

Abbreviation key_le := (Obs.key_le key).

Lemma cmp_positive_lt (a b : A) :
  dom a -> dom b -> cmp_positive (cmp a b) = true <-> (key b < key a)%Q.
Proof using cmp_key.
  intros Ha Hb. rewrite cmp_key by assumption. unfold cmp_positive.
  destruct (Qlt_le_dec 0 (key a - key b)) as [H|H]; split; intros H'; try reflexivity.
  - apply Qlt_minus_iff. exact H.
  - discriminate.
  - apply Qlt_minus_iff in H'. exfalso. apply (Qlt_not_le _ _ H'). exact H.
Qed.

Lemma sort_insert_perm (x : A) (l : list A) :
  Permutation (sort_insert cmp x l) (x :: l).
Proof using Type.
  induction l as [|y l IH]; cbn [sort_insert]; [reflexivity|].
  destruct (cmp_positive (cmp x y)); [|reflexivity].
  rewrite IH. apply perm_swap.
Qed.

Lemma js_sort_perm (l : list A) : Permutation (js_sort cmp l) l.
Proof using Type.
  induction l as [|x l IH]; [reflexivity|].
  unfold js_sort in *. cbn [foldr]. rewrite sort_insert_perm. now constructor.
Qed.

Lemma js_sort_length (l : list A) : length (js_sort cmp l) = length l.
Proof using Type. apply Permutation_length, js_sort_perm. Qed.

Lemma js_sort_dom (l : list A) : Forall dom l -> Forall dom (js_sort cmp l).
Proof using Type.
  intros H. eapply Permutation_Forall; [|exact H]. symmetry. apply js_sort_perm.
Qed.

Lemma sort_insert_sorted (x : A) (l : list A) :
  dom x -> Forall dom l ->
  StronglySorted key_le l -> StronglySorted key_le (sort_insert cmp x l).
Proof using cmp_key.
  intros Hx Hl Hs. induction Hs as [|y l Hs IH Hy]; cbn [sort_insert].
  - repeat constructor.
  - inversion Hl as [|? ? Hdy Hdl]; subst.
    destruct (cmp_positive (cmp x y)) eqn:Hc.
    + apply cmp_positive_lt in Hc; [|assumption..].
      constructor; [now apply IH|].
      eapply Permutation_Forall; [symmetry; apply sort_insert_perm|].
      constructor; [|exact Hy]. unfold Obs.key_le. now apply Qlt_le_weak.
    + assert (Hle : key_le x y).
      { unfold Obs.key_le. apply Qnot_lt_le. intros Hlt.
        apply cmp_positive_lt in Hlt; [|assumption..]. congruence. }
      constructor; [now constructor|].
      constructor; [exact Hle|].
      eapply Forall_impl; [exact Hy|]. intros z Hz. unfold Obs.key_le in *.
      eapply Qle_trans; eassumption.
Qed.

Lemma js_sort_sorted (l : list A) :
  Forall dom l -> StronglySorted key_le (js_sort cmp l).
Proof using cmp_key.
  induction l as [|x l IH]; intros Hl; [constructor|].
  inversion Hl; subst. unfold js_sort in *. cbn [foldr].
  apply sort_insert_sorted; auto. now apply js_sort_dom.
Qed.

(** Elements with equal keys keep their order. *)
Lemma sort_insert_stable (q : Q) (x : A) (l : list A) :
  dom x -> Forall dom l ->
  List.filter (fun a => Qeq_bool (key a) q) (sort_insert cmp x l)
  = List.filter (fun a => Qeq_bool (key a) q) (x :: l).
Proof using cmp_key.
  intros Hx Hl. induction Hl as [|y l Hy Hl IH]; cbn [sort_insert]; [reflexivity|].
  destruct (cmp_positive (cmp x y)) eqn:Hc; [|reflexivity].
  apply cmp_positive_lt in Hc; [|assumption..].
  cbn [List.filter] in *. rewrite IH.
  destruct (Qeq_bool (key x) q) eqn:Ex; [|reflexivity].
  destruct (Qeq_bool (key y) q) eqn:Ey; [|reflexivity].
  apply Qeq_bool_iff in Ex, Ey. exfalso.
  rewrite Ex, Ey in Hc. exact (Qlt_irrefl _ Hc).
Qed.

Lemma js_sort_stable (q : Q) (l : list A) :
  Forall dom l ->
  List.filter (fun a => Qeq_bool (key a) q) (js_sort cmp l)
  = List.filter (fun a => Qeq_bool (key a) q) l.
Proof using cmp_key.
  induction l as [|x l IH]; intros Hl; [reflexivity|].
  inversion Hl; subst.
  change (js_sort cmp (x :: l)) with (sort_insert cmp x (js_sort cmp l)).
  rewrite sort_insert_stable by (auto using js_sort_dom).
  cbn [List.filter]. now rewrite IH.
Qed.

End Sorting.

(** ** The analyze branch *)

Section Analyze.

Variable cfg : Config.
Variable rt : JsRuntime.
Variable env : Services.

Lemma has_clients :
  Obs.clients_configured cfg = true ->
  has_client (PINECONE_API_KEY cfg) = true /\ has_client (GOOGLE_API_KEY cfg) = true.
Proof. unfold Obs.clients_configured. intros H. now apply andb_prop in H. Qed.

Lemma embedTexts_single (text : string) (st : State) :
  has_client (GOOGLE_API_KEY cfg) = true ->
  let a := embedContent env (trace st) text in
  embedTexts cfg env [text] st
  = (match Obs.settle a with inl e => inl e | inr v => inr [v] end,
     {| trace := trace st ++ [EvEmbed text a];
        indexInitPromises := indexInitPromises st;
        console := console st ++ Obs.settled_warning (Obs.settle a) |}).
Proof.
  intros Hcl a. rewrite embedTexts_run by (assumption || discriminate).
  cbn [Obs.embed_answers map promise_all zip_with flat_map]. fold a.
  rewrite app_nil_r. reflexivity.
Qed.

(** The analyze branch, step by step, as a function of what the services
    answer. *)
Lemma post_analyze_run (payload : RoutePayload) (st : State) :
  Obs.clients_configured cfg = true ->
  truthy_str (question payload) = true ->
  let idx := resolveIndexName cfg (indexName payload) in
  let ns := getNamespace cfg (videoId payload) in
  let q := default "" (question payload) in
  let out1 := ensure_unless_skipped cfg env payload idx st in
  let st1 := out1.2 in
  let a := embedContent env (trace st1) q in
  let st2 := {| trace := trace st1 ++ [EvEmbed q a];
                indexInitPromises := indexInitPromises st1;
                console := console st1 ++ Obs.settled_warning (Obs.settle a) |} in
  post_analyze cfg rt env payload st =
    match out1.1 with
    | inl e => (inl e, st1)
    | inr _ =>
        match Obs.settle a with
        | inl e => (inl e, st2)
        | inr v =>
            let req := {| query_vector := Some v;
                          query_topK := Z.min (default 10%Z (topK payload)) 50;
                          includeMetadata := true |} in
            let result := query env (trace st2) idx ns req in
            let st3 := record_event (EvQuery idx ns req result) st2 in
            match result with
            | inl e => (inl e, st3)
            | inr res =>
                let sorted := js_sort (by_timestamp rt) (default [] res) in
                let prompt :=
                  build_prompt q (join (newline ++ newline)%string
                                       (imap (context_block rt) sorted)) in
                let g := generateContent env (trace st3) prompt in
                let st4 := record_event (EvGenerate prompt g) st3 in
                match g with
                | inl e => (inl e, st4)
                | inr resp =>
                    match extract_answer resp with
                    | inl e => (inl e, st4)
                    | inr answer =>
                        (inr (json 200 (AnalyzeBody answer (map citation_of sorted) idx)),
                         st4)
                    end
                end
            end
        end
    end.
Proof.
  intros Hcl Hq. destruct (has_clients Hcl) as [Hp Hg].
  cbv zeta. unfold post_analyze. rewrite run_bind.
  destruct (ensure_unless_skipped _ _ _ _ _) as [[e|[]] st1]; cbn [fst snd]; [reflexivity|].
  rewrite Hq. rewrite run_bind, embedTexts_single by assumption.
  destruct (Obs.settle _) as [e|v]; [reflexivity|].
  unfold getPineconeClient, getGenerationModel. rewrite Hp, Hg.
  rewrite run_bind, run_ret, run_bind. unfold call at 1. cbn [head].
  destruct (query env _ _ _ _) as [e|res]; [reflexivity|].
  rewrite run_bind, run_ret, run_bind. unfold call at 1.
  destruct (generateContent env _ _) as [e|resp]; [reflexivity|].
  rewrite run_bind. unfold await.
  destruct (extract_answer resp); reflexivity.
Qed.

Lemma POST_analyze (payload : RoutePayload) (st : State) :
  action payload = Some "analyze" ->
  Obs.clients_configured cfg = true ->
  POST cfg rt env payload st =
    match post_analyze cfg rt env payload st with
    | (inr response, st') => (response, st')
    | (inl e, st') => (json 500 (ErrorBody (message_of e)), st')
    end.
Proof.
  intros Ha Hcl. unfold POST. rewrite run_bind, requireClients_run by assumption.
  unfold dispatch, action_is. rewrite Ha. reflexivity.
Qed.

Lemma timestamp_key_cmp (a b : Match) :
  Obs.timestamp_numeric a -> Obs.timestamp_numeric b ->
  by_timestamp rt a b = Some (Obs.timestamp_key a - Obs.timestamp_key b)%Q.
Proof.
  intros [qa Ha] [qb Hb]. unfold by_timestamp, Obs.timestamp_key.
  rewrite Ha, Hb. reflexivity.
Qed.

Lemma citation_key_of (m : Match) :
  Obs.citation_key (citation_of m) = Obs.timestamp_key m.
Proof.
  unfold Obs.citation_key, Obs.timestamp_key, timestamp_or_zero, citation_of.
  cbn [citation_metadata]. destruct (match_metadata m) as [meta|]; cbn; [|reflexivity].
  destruct (meta !! "timestamp") as [[]|]; reflexivity.
Qed.

Lemma cites_map (l : list Match) : Forall2 Obs.cites (map citation_of l) l.
Proof.
  induction l as [|m l IH]; cbn [map]; constructor; [|exact IH].
  repeat split.
Qed.

Lemma sorted_map_citation (l : list Match) :
  StronglySorted (Obs.key_le Obs.timestamp_key) l ->
  StronglySorted (Obs.key_le Obs.citation_key) (map citation_of l).
Proof.
  induction 1 as [|m l Hs IH Hm]; cbn [map]; constructor; [exact IH|].
  apply Forall_forall. intros c Hc.
  apply list_elem_of_In, in_map_iff in Hc as (m' & <- & Hin).
  unfold Obs.key_le. rewrite !citation_key_of.
  rewrite Forall_forall in Hm. now apply Hm, list_elem_of_In.
Qed.

End Analyze.

(** A response of one status is not a response of another. *)
Ltac absurd_response :=
  match goal with
  | H : _ = json _ _ |- _ => cbn [fst snd] in H; unfold json in H; discriminate H
  end.

(** C3.  When [analyze] answers with status 200, the request made exactly
    one embedding call, one query and one generation call after the
    readiness check, and the citations are the matches the query returned,
    in the order of the stable sort by [metadata.timestamp] with a missing
    timestamp counted as 0: citation by citation, the [id], the [score] and
    the [metadata] are those of the match at the same place of the sorted
    matches; the citations are a permutation of the matches, ascending in
    the timestamp whenever the timestamps present are numbers, matches of
    equal timestamp keeping their similarity order.  Timestamps 5, 1, 3
    come out as 1, 3, 5. *)
Theorem analyze_citations (cfg : Config) (rt : JsRuntime) (env : Services)
    (payload : RoutePayload) (st : State)
    (answer : string) (citations : list Citation) (index : string) :
  action payload = Some "analyze" ->
  (POST cfg rt env payload st).1 = json 200 (AnalyzeBody answer citations index) ->
  (exists prov ea ns req result prompt ga,
     Obs.new_events st (POST cfg rt env payload st).2
     = prov ++ [ EvEmbed (default "" (question payload)) ea;
                 EvQuery index ns req (inr result);
                 EvGenerate prompt ga ]
     /\ Forall (fun ev => is_provisioning ev = true) prov
     /\ citations = map citation_of (js_sort (by_timestamp rt) (default [] result))
     /\ Forall2 Obs.cites citations (js_sort (by_timestamp rt) (default [] result))
     /\ Permutation citations (map citation_of (default [] result))
     /\ (Forall Obs.timestamp_numeric (default [] result) ->
         StronglySorted (Obs.key_le Obs.citation_key) citations
         /\ forall q,
              List.filter (fun m => Qeq_bool (Obs.timestamp_key m) q)
                          (js_sort (by_timestamp rt) (default [] result))
              = List.filter (fun m => Qeq_bool (Obs.timestamp_key m) q) (default [] result)))
  /\ map Obs.citation_key
       (map citation_of
          (js_sort (by_timestamp rt)
             [Scenario.frame_match "a" 5; Scenario.frame_match "b" 1;
              Scenario.frame_match "c" 3]))
     = [1%Q; 3%Q; 5%Q].
Proof.
  intros Ha Hresp. split; [|reflexivity].
  destruct (Obs.clients_configured cfg) eqn:Hcl.
  2:{ destruct (POST_no_clients cfg rt env payload st Hcl) as [e He].
      rewrite He in Hresp. absurd_response. }
  rewrite POST_analyze in * by assumption.
  destruct (truthy_str (question payload)) eqn:Hq.
  2:{ unfold post_analyze in Hresp. rewrite run_bind in Hresp.
      destruct (ensure_unless_skipped _ _ _ _ _) as [[e|[]] st1];
        cbn [fst snd] in Hresp; [absurd_response|].
      rewrite Hq in Hresp. absurd_response. }
  rewrite post_analyze_run in * by assumption. cbv zeta in *.
  pose proof (ensure_unless_skipped_only_provisioning cfg env payload
                (resolveIndexName cfg (indexName payload)) st) as (prov & Hprov & Fprov).
  destruct (ensure_unless_skipped _ _ _ _ _) as [[e|[]] st1]; cbn [fst snd] in *;
    [absurd_response|].
  set (a := embedContent env (trace st1) (default "" (question payload))) in *.
  destruct (Obs.settle a) as [e|v]; [absurd_response|].
  match type of Hresp with context [query env ?h ?i ?n ?r] =>
    set (req := r) in *; destruct (query env h i n req) as [e|res]
  end; [absurd_response|].
  match type of Hresp with context [generateContent env ?h ?p] =>
    set (prompt := p) in *; destruct (generateContent env h prompt) as [e|resp]
  end; [absurd_response|].
  destruct (extract_answer resp) as [e|ans]; [absurd_response|].
  cbn [fst snd] in *. unfold json in Hresp. injection Hresp as _ Hc Hi.
  subst citations index.
  exists prov, a, (getNamespace cfg (videoId payload)), req, res, prompt, (inr resp).
  split.
  { apply new_events_app. cbn [record_event trace]. rewrite Hprov.
    now rewrite <- !app_assoc. }
  split; [exact Fprov|]. split; [reflexivity|]. split.
  { apply cites_map. }
  split.
  { apply Permutation_map, js_sort_perm. }
  intros Hnum. split.
  - apply sorted_map_citation.
    apply (js_sort_sorted Obs.timestamp_key (by_timestamp rt) Obs.timestamp_numeric);
      [apply timestamp_key_cmp | exact Hnum].
  - intros q.
    apply (js_sort_stable Obs.timestamp_key (by_timestamp rt) Obs.timestamp_numeric);
      [apply timestamp_key_cmp | exact Hnum].
Qed.

Lemma analyze_citations_witness :
  let out := POST Scenario.config Scenario.runtime Scenario.services
               Scenario.analyze_request Scenario.start in
  action Scenario.analyze_request = Some "analyze"
  /\ out.1 = json 200 (AnalyzeBody "" Scenario.sorted_citations "video-frames")
  /\ map Obs.citation_key Scenario.sorted_citations = [0%Q; 1%Q; 3%Q; 5%Q]
  /\ map citation_id Scenario.sorted_citations = ["video-42::summary"; "b"; "c"; "a"]
  /\ map citation_score Scenario.sorted_citations
     = [Some (1 # 3); Some (1 # 2); Some (1 # 2); Some (1 # 2)]
  /\ map citation_metadata Scenario.sorted_citations
     = [Some {[ "summary" := JBool true ]}; Some {[ "timestamp" := JNum 1 ]};
        Some {[ "timestamp" := JNum 3 ]}; Some {[ "timestamp" := JNum 5 ]}]
  /\ exists result,
       Forall2 Obs.cites Scenario.sorted_citations
         (js_sort (by_timestamp Scenario.runtime) (default [] result))
       /\ Permutation Scenario.sorted_citations (map citation_of (default [] result)).
Proof.
  assert (H : (POST Scenario.config Scenario.runtime Scenario.services
                 Scenario.analyze_request Scenario.start).1
              = json 200 (AnalyzeBody "" Scenario.sorted_citations "video-frames"))
    by (vm_compute; reflexivity).
  split; [reflexivity|]. split; [exact H|]. split; [reflexivity|].
  split; [reflexivity|]. split; [reflexivity|]. split; [reflexivity|].
  destruct (analyze_citations Scenario.config Scenario.runtime Scenario.services
              Scenario.analyze_request Scenario.start _ _ _ eq_refl H)
    as [(prov & ea & ns & req & result & prompt & ga & _ & _ & _ & Hcites & Hperm & _) _].
  exists result. split; [exact Hcites | exact Hperm].
Defined.

(** ** The generated answer *)

Lemma extract_answer_silent (response : option GenResponse) :
  Obs.no_usable_text response = true -> extract_answer response = inr "".
Proof.
  unfold Obs.no_usable_text, Obs.no_candidate_text, extract_answer.
  destruct response as [r|]; [|reflexivity].
  destruct (response_text r) as [[e|[text|]]|]; try discriminate.
  - intros H. apply String.eqb_eq in H. now subst text.
  - destruct (candidates r) as [[|first rest]|]; try reflexivity.
    destruct (candidate_parts first); (discriminate || reflexivity).
  - destruct (candidates r) as [[|first rest]|]; try reflexivity.
    destruct (candidate_parts first); (discriminate || reflexivity).
Qed.

Lemma extract_answer_throws (response : option GenResponse) (e : Thrown) :
  extract_answer response = inl e <->
  exists r, response = Some r /\ response_text r = Some (inl e).
Proof.
  unfold extract_answer. destruct response as [r|].
  - destruct (response_text r) as [[e'|[text|]]|] eqn:Ht; split;
      try discriminate; try (intros (r' & [= <-] & H); congruence).
    intros [= <-]. eauto.
  - split; [discriminate | intros (r & H & _); discriminate].
Qed.

Lemma not_provisioning_generate (prov : list Event) prompt g :
  Forall (fun ev => is_provisioning ev = true) prov -> EvGenerate prompt g ∈ prov -> False.
Proof.
  intros F Hin. rewrite Forall_forall in F. apply F in Hin. discriminate.
Qed.

(** C7, as the code has it.  In [analyze], once the generation call has
    returned a response, the request succeeds with the answer
    [extract_answer] reads from it, and fails only when the response's
    [text()] throws: the answer is what [text()] returns when it returns a
    string, otherwise the texts of the first candidate's parts joined by
    newlines, and the empty string when the response carries no usable
    text. *)
Theorem analyze_answer (cfg : Config) (rt : JsRuntime) (env : Services)
    (payload : RoutePayload) (st : State) (prompt : string) (resp : option GenResponse) :
  action payload = Some "analyze" ->
  EvGenerate prompt (inr resp) ∈ Obs.new_events st (POST cfg rt env payload st).2 ->
  (exists citations index,
     (POST cfg rt env payload st).1
     = match extract_answer resp with
       | inr answer => json 200 (AnalyzeBody answer citations index)
       | inl e => json 500 (ErrorBody (message_of e))
       end)
  /\ (Obs.no_usable_text resp = true -> extract_answer resp = inr "")
  /\ (forall e, extract_answer resp = inl e <->
                exists r, resp = Some r /\ response_text r = Some (inl e))
  /\ (forall r text, resp = Some r -> response_text r = Some (inr (Some text)) ->
                     extract_answer resp = inr text)
  /\ (forall r first rest parts,
        resp = Some r ->
        response_text r = None \/ response_text r = Some (inr None) ->
        candidates r = Some (first :: rest) -> candidate_parts first = Some parts ->
        extract_answer resp = inr (join newline (map (fun p => default "" (part_text p)) parts))).
Proof.
  intros Ha Hin.
  split; [|split; [apply extract_answer_silent|split; [apply extract_answer_throws|split]]].
  2:{ intros r text -> Ht. unfold extract_answer. now rewrite Ht. }
  2:{ intros r first rest parts -> Ht Hc Hp. unfold extract_answer.
      destruct Ht as [-> | ->]; now rewrite Hc, Hp. }
  destruct (Obs.clients_configured cfg) eqn:Hcl.
  2:{ destruct (POST_no_clients cfg rt env payload st Hcl) as [e He].
      rewrite He in Hin. cbn [snd] in Hin.
      rewrite (new_events_app st st []) in Hin by (now rewrite app_nil_r). inversion Hin. }
  rewrite POST_analyze in * by assumption.
  pose proof (ensure_unless_skipped_only_provisioning cfg env payload
                (resolveIndexName cfg (indexName payload)) st) as (prov & Hprov & Fprov).
  destruct (truthy_str (question payload)) eqn:Hq.
  2:{ exfalso. unfold post_analyze in Hin. rewrite run_bind in Hin.
      destruct (ensure_unless_skipped _ _ _ _ _) as [[e|[]] st1]; cbn [fst snd] in *.
      - rewrite (new_events_app _ _ _ Hprov) in Hin.
        eapply not_provisioning_generate; eassumption.
      - rewrite Hq in Hin. unfold mret, M_ret in Hin. cbn [snd] in Hin.
        rewrite (new_events_app _ _ _ Hprov) in Hin.
        eapply not_provisioning_generate; eassumption. }
  rewrite post_analyze_run in * by assumption. cbv zeta in *.
  destruct (ensure_unless_skipped _ _ _ _ _) as [[e|[]] st1]; cbn [fst snd] in *.
  { exfalso. rewrite (new_events_app _ _ _ Hprov) in Hin.
    eapply not_provisioning_generate; eassumption. }
  set (a := embedContent env (trace st1) (default "" (question payload))) in *.
  destruct (Obs.settle a) as [e|v].
  { exfalso. cbn [snd] in Hin.
    rewrite (new_events_app st _ (prov ++ [EvEmbed (default "" (question payload)) a])) in Hin
      by (cbn [trace]; rewrite Hprov; now rewrite <- app_assoc).
    apply elem_of_app in Hin as [Hin|Hin];
      [eapply not_provisioning_generate; eassumption|].
    apply elem_of_cons in Hin as [Hin|Hin]; [discriminate | inversion Hin]. }
  match type of Hin with context [query env ?h ?i ?n ?r] =>
    set (req := r) in *; destruct (query env h i n req) as [e|res] eqn:Hres
  end.
  { exfalso. cbn [snd] in Hin.
    rewrite (new_events_app st _
               (prov ++ [EvEmbed (default "" (question payload)) a;
                         EvQuery (resolveIndexName cfg (indexName payload))
                                 (getNamespace cfg (videoId payload)) req (inl e)])) in Hin
      by (cbn [record_event trace]; rewrite Hprov; now rewrite <- !app_assoc).
    apply elem_of_app in Hin as [Hin|Hin];
      [eapply not_provisioning_generate; eassumption|].
    repeat (apply elem_of_cons in Hin as [Hin|Hin]; [discriminate|]). inversion Hin. }
  match type of Hin with context [generateContent env ?h ?p] =>
    set (prompt' := p) in *; destruct (generateContent env h prompt') as [e|resp'] eqn:Hgen
  end.
  { exfalso. cbn [snd] in Hin.
    rewrite (new_events_app st _
               (prov ++ [EvEmbed (default "" (question payload)) a;
                         EvQuery (resolveIndexName cfg (indexName payload))
                                 (getNamespace cfg (videoId payload)) req (inr res);
                         EvGenerate prompt' (inl e)])) in Hin
      by (cbn [record_event trace]; rewrite Hprov; now rewrite <- !app_assoc).
    apply elem_of_app in Hin as [Hin|Hin];
      [eapply not_provisioning_generate; eassumption|].
    repeat (apply elem_of_cons in Hin as [Hin|Hin]; [discriminate|]). inversion Hin. }
  assert (Hresp : resp = resp').
  { assert (Hin' : EvGenerate prompt (inr resp)
                   ∈ prov ++ [EvEmbed (default "" (question payload)) a;
                              EvQuery (resolveIndexName cfg (indexName payload))
                                      (getNamespace cfg (videoId payload)) req (inr res);
                              EvGenerate prompt' (inr resp')]).
    { destruct (extract_answer resp'); cbn [snd] in Hin;
        rewrite (new_events_app st _
                   (prov ++ [EvEmbed (default "" (question payload)) a;
                             EvQuery (resolveIndexName cfg (indexName payload))
                                     (getNamespace cfg (videoId payload)) req (inr res);
                             EvGenerate prompt' (inr resp')])) in Hin
          by (cbn [record_event trace]; rewrite Hprov; now rewrite <- !app_assoc);
        exact Hin. }
    apply elem_of_app in Hin' as [Hin'|Hin'];
      [exfalso; eapply not_provisioning_generate; eassumption|].
    apply elem_of_cons in Hin' as [Hin'|Hin']; [discriminate|].
    apply elem_of_cons in Hin' as [Hin'|Hin']; [discriminate|].
    apply elem_of_cons in Hin' as [Hin'|Hin']; [|inversion Hin'].
    now injection Hin'. }
  subst resp'. eexists _, _.
  destruct (extract_answer resp); reflexivity.
Qed.

Lemma analyze_answer_witness :
  let out := POST Scenario.config Scenario.runtime Scenario.services
               Scenario.analyze_request Scenario.start in
  action Scenario.analyze_request = Some "analyze"
  /\ EvGenerate Scenario.analyze_prompt (inr (Some Scenario.silent_response))
     ∈ Obs.new_events Scenario.start out.2
  /\ exists citations index, out.1 = json 200 (AnalyzeBody "" citations index).
Proof.
  assert (Hin : EvGenerate Scenario.analyze_prompt (inr (Some Scenario.silent_response))
                ∈ Obs.new_events Scenario.start
                    (POST Scenario.config Scenario.runtime Scenario.services
                       Scenario.analyze_request Scenario.start).2).
  { apply list_elem_of_In. vm_compute. do 4 right. left. reflexivity. }
  split; [reflexivity|]. split; [exact Hin|].
  destruct (analyze_answer Scenario.config Scenario.runtime Scenario.services
              Scenario.analyze_request Scenario.start _ _ eq_refl Hin)
    as [(citations & index & Hr) _].
  exists citations, index. exact Hr.
Defined.

(** C7 as stated fails: the generation service answers with a response that
    has no candidate and whose [text()] is empty, and [analyze] returns
    status 200 with the empty string as its answer. *)
Lemma analyze_silent_generation_succeeds :
  let out := POST Scenario.config Scenario.runtime Scenario.services
               Scenario.analyze_request Scenario.start in
  Obs.no_usable_text (Some Scenario.silent_response) = true
  /\ last (trace out.2)
     = Some (EvGenerate Scenario.analyze_prompt (inr (Some Scenario.silent_response)))
  /\ out.1 = json 200 (AnalyzeBody "" Scenario.sorted_citations "video-frames").
Proof. split; [reflexivity|]. split; vm_compute; reflexivity. Qed.

(** ** The overview branch *)

Section Overview.

Variable cfg : Config.
Variable rt : JsRuntime.
Variable env : Services.

Abbreviation summary_id := Obs.summary_id.
Abbreviation numeric_frame := Obs.numeric_frame.

Lemma fetch_summary_run (idx ns : string) (st : State) :
  has_client (PINECONE_API_KEY cfg) = true ->
  let fa := fetch env (trace st) idx ns [summary_id ns] in
  fetch_summary cfg env idx ns st
  = (inr match fa with
         | inl _ => None
         | inr r => read_summary (summary_id ns) r
         end,
     record_event (EvFetch idx ns [summary_id ns] fa) st).
Proof.
  intros Hp fa. unfold fetch_summary, getPineconeClient. rewrite Hp.
  rewrite run_bind. unfold try_. rewrite run_bind, run_ret. unfold call.
  fold (Obs.summary_id ns). fold fa. destruct fa; reflexivity.
Qed.

Lemma post_overview_run (payload : RoutePayload) (st : State) :
  Obs.clients_configured cfg = true ->
  let idx := resolveIndexName cfg (indexName payload) in
  let ns := getNamespace cfg (videoId payload) in
  let out1 := ensure_unless_skipped cfg env payload idx st in
  let st1 := out1.2 in
  let fa := fetch env (trace st1) idx ns [summary_id ns] in
  let st2 := record_event (EvFetch idx ns [summary_id ns] fa) st1 in
  let text := "overview of this video frames" in
  let a := embedContent env (trace st2) text in
  let st3 := {| trace := trace st2 ++ [EvEmbed text a];
                indexInitPromises := indexInitPromises st2;
                console := console st2 ++ Obs.settled_warning (Obs.settle a) |} in
  post_overview cfg rt env payload st =
    match out1.1 with
    | inl e => (inl e, st1)
    | inr _ =>
        match Obs.settle a with
        | inl e => (inl e, st3)
        | inr v =>
            let req := {| query_vector := Some v;
                          query_topK := Z.min (default 200%Z (topK payload)) 1000;
                          includeMetadata := true |} in
            let result := query env (trace st3) idx ns req in
            let st4 := record_event (EvQuery idx ns req result) st3 in
            match result with
            | inl e => (inl e, st4)
            | inr res =>
                (inr (json 200
                        (OverviewBody
                           match fa with
                           | inl _ => None
                           | inr r => read_summary (summary_id ns) r
                           end
                           (overview_frames rt (default [] res)) idx ns)),
                 st4)
            end
        end
    end.
Proof.
  intros Hcl. destruct (has_clients cfg Hcl) as [Hp Hg].
  cbv zeta. unfold post_overview. rewrite run_bind.
  destruct (ensure_unless_skipped _ _ _ _ _) as [[e|[]] st1]; cbn [fst snd]; [reflexivity|].
  rewrite run_bind, fetch_summary_run by assumption. cbv zeta.
  rewrite run_bind, embedTexts_single by assumption.
  destruct (Obs.settle _) as [e|v]; [reflexivity|].
  unfold getPineconeClient. rewrite Hp.
  rewrite run_bind, run_ret, run_bind. unfold call. cbn [head].
  destruct (query env _ _ _ _) as [e|res]; reflexivity.
Qed.

Lemma POST_overview (payload : RoutePayload) (st : State) :
  action payload = Some "overview" ->
  Obs.clients_configured cfg = true ->
  POST cfg rt env payload st =
    match post_overview cfg rt env payload st with
    | (inr response, st') => (response, st')
    | (inl e, st') => (json 500 (ErrorBody (message_of e)), st')
    end.
Proof.
  intros Ha Hcl. unfold POST. rewrite run_bind, requireClients_run by assumption.
  unfold dispatch, action_is. rewrite Ha. reflexivity.
Qed.

Lemma frame_key_cmp (a b : OverviewFrame) :
  numeric_frame a -> numeric_frame b ->
  by_frame_timestamp rt a b = Some (Obs.frame_key a - Obs.frame_key b)%Q.
Proof.
  unfold Obs.numeric_frame, by_frame_timestamp, Obs.frame_key, js_sub, js_number.
  destruct (of_timestamp a) as [[]|]; try discriminate.
  destruct (of_timestamp b) as [[]|]; try discriminate. reflexivity.
Qed.

Lemma filter_numeric (l : list OverviewFrame) :
  Forall numeric_frame (List.filter (fun f => is_number (of_timestamp f)) l).
Proof.
  apply Forall_forall. intros f Hf.
  apply list_elem_of_In, filter_In in Hf as [_ Hf]. exact Hf.
Qed.

(** The frame list of [overview], from the matches of the probe query. *)
Lemma overview_frames_sorted (matches : list Match) :
  let candidates := List.filter (fun f => is_number (of_timestamp f))
                                (map overview_frame matches) in
  Permutation (overview_frames rt matches) candidates
  /\ StronglySorted (Obs.key_le Obs.frame_key) (overview_frames rt matches)
  /\ (forall f, In f (overview_frames rt matches) <->
                (exists m, In m matches /\ f = overview_frame m)
                /\ is_number (of_timestamp f) = true)
  /\ (forall q,
        List.filter (fun f => Qeq_bool (Obs.frame_key f) q) (overview_frames rt matches)
        = List.filter (fun f => Qeq_bool (Obs.frame_key f) q) candidates).
Proof.
  intros candidates. unfold overview_frames. fold candidates.
  split; [apply js_sort_perm|]. split; [|split].
  - apply (js_sort_sorted Obs.frame_key (by_frame_timestamp rt) numeric_frame);
      [apply frame_key_cmp | apply filter_numeric].
  - intros f. rewrite (Permutation_in' (eq_refl f) (js_sort_perm _ candidates)).
    unfold candidates. rewrite filter_In, in_map_iff. split.
    + intros [(m & <- & Hm) Hn]. eauto.
    + intros [(m & Hm & ->) Hn]. eauto.
  - intros q.
    apply (js_sort_stable Obs.frame_key (by_frame_timestamp rt) numeric_frame);
      [apply frame_key_cmp | apply filter_numeric].
Qed.

Lemma not_provisioning_query (prov : list Event) idx ns req r :
  Forall (fun ev => is_provisioning ev = true) prov -> EvQuery idx ns req r ∈ prov -> False.
Proof.
  intros F Hin. rewrite Forall_forall in F. apply F in Hin. discriminate.
Qed.

End Overview.

(** What [overview] answers once the probe query has returned. *)
Lemma overview_after_query (cfg : Config) (rt : JsRuntime) (env : Services)
    (payload : RoutePayload) (st : State)
    (index ns : string) (req : QueryRequest) (result : option (list Match)) :
  action payload = Some "overview" ->
  EvQuery index ns req (inr result) ∈ Obs.new_events st (POST cfg rt env payload st).2 ->
  let matches := default [] result in
  let frames := overview_frames rt matches in
  let candidates := List.filter (fun f => is_number (of_timestamp f))
                                (map overview_frame matches) in
  (exists prov fa ea,
     Obs.new_events st (POST cfg rt env payload st).2
     = prov ++ [ EvFetch index ns [Obs.summary_id ns] fa;
                 EvEmbed "overview of this video frames" ea;
                 EvQuery index ns req (inr result) ]
     /\ Forall (fun ev => is_provisioning ev = true) prov
     /\ (POST cfg rt env payload st).1
        = json 200 (OverviewBody
                      match fa with
                      | inl _ => None
                      | inr r => read_summary (Obs.summary_id ns) r
                      end
                      frames index ns))
  /\ Permutation frames candidates
  /\ StronglySorted (Obs.key_le Obs.frame_key) frames
  /\ (forall f, In f frames <->
                (exists m, In m matches /\ f = overview_frame m)
                /\ is_number (of_timestamp f) = true)
  /\ (forall q, List.filter (fun f => Qeq_bool (Obs.frame_key f) q) frames
                = List.filter (fun f => Qeq_bool (Obs.frame_key f) q) candidates).
Proof.
  intros Ha Hin matches frames candidates.
  split; [|apply overview_frames_sorted].
  destruct (Obs.clients_configured cfg) eqn:Hcl.
  2:{ destruct (POST_no_clients cfg rt env payload st Hcl) as [e He].
      rewrite He in Hin. cbn [snd] in Hin.
      rewrite (new_events_app st st []) in Hin by (now rewrite app_nil_r). inversion Hin. }
  rewrite POST_overview in * by assumption.
  pose proof (ensure_unless_skipped_only_provisioning cfg env payload
                (resolveIndexName cfg (indexName payload)) st) as (prov & Hprov & Fprov).
  rewrite post_overview_run in * by assumption. cbv zeta in *.
  destruct (ensure_unless_skipped _ _ _ _ _) as [[e|[]] st1]; cbn [fst snd] in *.
  { exfalso. rewrite (new_events_app _ _ _ Hprov) in Hin.
    eapply not_provisioning_query; eassumption. }
  set (idx := resolveIndexName cfg (indexName payload)) in *.
  set (ns0 := getNamespace cfg (videoId payload)) in *.
  set (fa := fetch env (trace st1) idx ns0 [Obs.summary_id ns0]) in *.
  match type of Hin with context [embedContent env ?h ?t] =>
    set (a := embedContent env h t) in *
  end.
  destruct (Obs.settle a) as [e|v].
  { exfalso. cbn [snd] in Hin.
    rewrite (new_events_app st _
               (prov ++ [EvFetch idx ns0 [Obs.summary_id ns0] fa;
                         EvEmbed "overview of this video frames" a])) in Hin
      by (cbn [record_event trace]; rewrite Hprov; now rewrite <- !app_assoc).
    apply elem_of_app in Hin as [Hin|Hin];
      [eapply not_provisioning_query; eassumption|].
    repeat (apply elem_of_cons in Hin as [Hin|Hin]; [discriminate|]). inversion Hin. }
  match type of Hin with context [query env ?h ?i ?n ?r] =>
    set (req0 := r) in *; destruct (query env h i n req0) as [e|res] eqn:Hres
  end.
  { exfalso. cbn [snd] in Hin.
    rewrite (new_events_app st _
               (prov ++ [EvFetch idx ns0 [Obs.summary_id ns0] fa;
                         EvEmbed "overview of this video frames" a;
                         EvQuery idx ns0 req0 (inl e)])) in Hin
      by (cbn [record_event trace]; rewrite Hprov; now rewrite <- !app_assoc).
    apply elem_of_app in Hin as [Hin|Hin];
      [eapply not_provisioning_query; eassumption|].
    repeat (apply elem_of_cons in Hin as [Hin|Hin]; [discriminate|]). inversion Hin. }
  cbn [fst snd] in *.
  assert (Hnew : Obs.new_events st
                   (record_event (EvQuery idx ns0 req0 (inr res))
                      {| trace := trace (record_event (EvFetch idx ns0 [Obs.summary_id ns0] fa) st1)
                                  ++ [EvEmbed "overview of this video frames" a];
                         indexInitPromises :=
                           indexInitPromises
                             (record_event (EvFetch idx ns0 [Obs.summary_id ns0] fa) st1);
                         console :=
                           console (record_event (EvFetch idx ns0 [Obs.summary_id ns0] fa) st1)
                           ++ Obs.settled_warning (inr v) |})
                 = prov ++ [EvFetch idx ns0 [Obs.summary_id ns0] fa;
                            EvEmbed "overview of this video frames" a;
                            EvQuery idx ns0 req0 (inr res)]).
  { apply new_events_app. cbn [record_event trace]. rewrite Hprov.
    now rewrite <- !app_assoc. }
  rewrite Hnew in *.
  apply elem_of_app in Hin as [Hin|Hin];
    [exfalso; eapply not_provisioning_query; eassumption|].
  apply elem_of_cons in Hin as [Hin|Hin]; [discriminate|].
  apply elem_of_cons in Hin as [Hin|Hin]; [discriminate|].
  apply elem_of_cons in Hin as [Hin|Hin]; [|inversion Hin].
  injection Hin as -> -> -> ->.
  exists prov, fa, a. split; [reflexivity|]. split; [exact Fprov|]. reflexivity.
Qed.

(** A successful [overview] response comes after a probe query that returned. *)
Lemma overview_success_queried (cfg : Config) (rt : JsRuntime) (env : Services)
    (payload : RoutePayload) (st : State)
    (summary : option JsValue) (frames : list OverviewFrame) (index ns : string) :
  action payload = Some "overview" ->
  (POST cfg rt env payload st).1 = json 200 (OverviewBody summary frames index ns) ->
  exists req result,
    EvQuery index ns req (inr result) ∈ Obs.new_events st (POST cfg rt env payload st).2.
Proof.
  intros Ha Hresp.
  destruct (Obs.clients_configured cfg) eqn:Hcl.
  2:{ destruct (POST_no_clients cfg rt env payload st Hcl) as [e He].
      rewrite He in Hresp. absurd_response. }
  rewrite POST_overview in * by assumption.
  pose proof (ensure_unless_skipped_only_provisioning cfg env payload
                (resolveIndexName cfg (indexName payload)) st) as (prov & Hprov & Fprov).
  rewrite post_overview_run in * by assumption. cbv zeta in *.
  destruct (ensure_unless_skipped _ _ _ _ _) as [[e|[]] st1]; cbn [fst snd] in *;
    [absurd_response|].
  match type of Hresp with context [embedContent env ?h ?t] =>
    set (a := embedContent env h t) in *
  end.
  destruct (Obs.settle a) as [e|v]; [absurd_response|].
  match type of Hresp with context [query env ?h ?i ?n ?r] =>
    set (req := r) in *; destruct (query env h i n req) as [e|res]
  end; [absurd_response|].
  cbn [fst snd] in *. unfold json in Hresp. injection Hresp as _ _ <- <-.
  exists req, res. unfold Obs.new_events. cbn [record_event trace].
  rewrite Hprov, <- !app_assoc, drop_app_length.
  apply elem_of_app. right. apply elem_of_app. right. apply elem_of_app. right.
  apply list_elem_of_here.
Qed.

(** Sorting the images of a list is sorting the list, when the comparators
    agree. *)
Lemma sort_insert_map {A B} (f : A -> B) (cmpA : A -> A -> option Q)
    (cmpB : B -> B -> option Q) (P : A -> Prop) (x : A) (l : list A) :
  (forall a b, P a -> P b -> cmpB (f a) (f b) = cmpA a b) ->
  P x -> Forall P l ->
  sort_insert cmpB (f x) (map f l) = map f (sort_insert cmpA x l).
Proof.
  intros Hcmp Hx Hl. induction Hl as [|y l Hy _ IH]; [reflexivity|].
  cbn [map sort_insert]. rewrite Hcmp by assumption.
  destruct (cmp_positive (cmpA x y)); [|reflexivity].
  cbn [map]. now rewrite IH.
Qed.

Lemma js_sort_map {A B} (f : A -> B) (cmpA : A -> A -> option Q)
    (cmpB : B -> B -> option Q) (P : A -> Prop) (l : list A) :
  (forall a b, P a -> P b -> cmpB (f a) (f b) = cmpA a b) ->
  Forall P l ->
  js_sort cmpB (map f l) = map f (js_sort cmpA l).
Proof.
  intros Hcmp Hl. induction Hl as [|x l Hx Hl IH]; [reflexivity|].
  unfold js_sort in *. cbn [map foldr]. rewrite IH.
  apply (sort_insert_map f cmpA cmpB P); [exact Hcmp | exact Hx|].
  eapply Permutation_Forall; [|exact Hl]. symmetry. apply js_sort_perm.
Qed.

Lemma overview_frame_shows (m : Match) : Obs.shows (overview_frame m) m.
Proof.
  unfold Obs.shows, Obs.metadata_field, overview_frame. cbn.
  destruct (match_metadata m); repeat split.
Qed.

Lemma overview_frame_timestamp (m : Match) :
  of_timestamp (overview_frame m) = Obs.metadata_field m "timestamp".
Proof. apply overview_frame_shows. Qed.

Lemma filter_overview_frames (l : list Match) :
  List.filter (fun f => is_number (of_timestamp f)) (map overview_frame l)
  = map overview_frame (List.filter Obs.numeric_match l).
Proof.
  induction l as [|m l IH]; [reflexivity|].
  cbn [map List.filter]. rewrite overview_frame_timestamp.
  unfold Obs.numeric_match at 1.
  destruct (is_number (Obs.metadata_field m "timestamp")); cbn [map]; now rewrite IH.
Qed.

(** The frames of [overview] are the matches with a numeric timestamp in
    the order of the chronological sort. *)
Lemma overview_frames_matches (rt : JsRuntime) (matches : list Match) :
  overview_frames rt matches
  = map overview_frame (js_sort (by_timestamp rt) (List.filter Obs.numeric_match matches)).
Proof.
  unfold overview_frames. rewrite filter_overview_frames.
  apply (js_sort_map overview_frame (by_timestamp rt) (by_frame_timestamp rt)
           (fun m => Obs.numeric_match m = true)).
  - intros a b Ha Hb. unfold by_frame_timestamp, by_timestamp, timestamp_or_zero.
    rewrite !overview_frame_timestamp.
    unfold Obs.numeric_match, Obs.metadata_field in *.
    destruct (match_metadata a) as [ma|]; [|discriminate].
    destruct (match_metadata b) as [mb|]; [|discriminate]. cbn.
    destruct (ma !! "timestamp") as [[]|]; try discriminate.
    destruct (mb !! "timestamp") as [[]|]; try discriminate. reflexivity.
  - apply Forall_forall. intros m Hm.
    apply list_elem_of_In, filter_In in Hm as [_ Hm]. exact Hm.
Qed.

Lemma shows_map (l : list Match) : Forall2 Obs.shows (map overview_frame l) l.
Proof.
  induction l as [|m l IH]; cbn [map]; constructor; [apply overview_frame_shows | exact IH].
Qed.

(** How an [overview] request runs once the index is ready: the summary is
    fetched, the probe text is embedded whatever the fetch answered, and the
    probe query decides the response. *)
Lemma overview_runs (cfg : Config) (rt : JsRuntime) (env : Services)
    (payload : RoutePayload) (st : State) :
  action payload = Some "overview" ->
  Obs.clients_configured cfg = true ->
  let out := POST cfg rt env payload st in
  let idx := resolveIndexName cfg (indexName payload) in
  let ns := getNamespace cfg (videoId payload) in
  let ready := ensure_unless_skipped cfg env payload idx st in
  let fa := fetch env (trace ready.2) idx ns [Obs.summary_id ns] in
  let h1 := trace ready.2 ++ [EvFetch idx ns [Obs.summary_id ns] fa] in
  let text := "overview of this video frames" in
  let a := embedContent env h1 text in
  let h2 := h1 ++ [EvEmbed text a] in
  ready.1 = inr tt ->
  forall v, Obs.settle a = inr v ->
    let req := {| query_vector := Some v;
                  query_topK := Z.min (default 200%Z (topK payload)) 1000;
                  includeMetadata := true |} in
    let result := query env h2 idx ns req in
    trace out.2 = h2 ++ [EvQuery idx ns req result]
    /\ out.1 = match result with
               | inl e => json 500 (ErrorBody (message_of e))
               | inr res =>
                   json 200
                     (OverviewBody
                        match fa with
                        | inl _ => None
                        | inr r => read_summary (Obs.summary_id ns) r
                        end
                        (overview_frames rt (default [] res)) idx ns)
               end.
Proof.
  intros Ha Hcl out idx ns ready fa h1 text a h2 Hready v Hv req result.
  subst out. rewrite POST_overview by assumption.
  rewrite post_overview_run by assumption. cbv zeta.
  fold idx. fold ns. fold ready. rewrite Hready.
  fold fa. cbn [record_event trace]. fold h1. fold text. fold a. rewrite Hv.
  fold h2. fold req. fold result.
  destruct result as [e|res]; split; reflexivity.
Qed.

(** C5.  A successful [overview] response comes after a probe query that
    returned; and once the probe query has returned, the request succeeds,
    whether or not fetching the summary vector failed.  The frames returned
    are exactly the query results whose metadata has a numeric [timestamp],
    so a summary or manifest record is left out, in ascending order of the
    timestamp, results of equal timestamp keeping their order; frame by
    frame, the [id] and [score] are those of the match and [frame_id],
    [timestamp], [description] and [path] those of its metadata.  With the
    clients configured and the index ready, whatever the fetch of the summary
    vector answers, a rejection included, the probe text is embedded next,
    and when that gives a vector the probe query is sent and alone decides
    the response: status 200 when it returns, with the summary undefined
    after a rejected fetch. *)
Theorem overview_spec (cfg : Config) (rt : JsRuntime) (env : Services)
    (payload : RoutePayload) (st : State) :
  action payload = Some "overview" ->
  let out := POST cfg rt env payload st in
  let new := Obs.new_events st out.2 in
  (forall summary frames index ns,
     out.1 = json 200 (OverviewBody summary frames index ns) ->
     exists req result, EvQuery index ns req (inr result) ∈ new)
  /\ (forall index ns req result,
        EvQuery index ns req (inr result) ∈ new ->
        let matches := default [] result in
        let frames := overview_frames rt matches in
        let candidates := List.filter (fun f => is_number (of_timestamp f))
                                      (map overview_frame matches) in
        (exists prov fa ea,
           new = prov ++ [ EvFetch index ns [Obs.summary_id ns] fa;
                           EvEmbed "overview of this video frames" ea;
                           EvQuery index ns req (inr result) ]
           /\ Forall (fun ev => is_provisioning ev = true) prov
           /\ out.1 = json 200 (OverviewBody
                                  match fa with
                                  | inl _ => None
                                  | inr r => read_summary (Obs.summary_id ns) r
                                  end
                                  frames index ns))
        /\ Forall2 Obs.shows frames
             (js_sort (by_timestamp rt) (List.filter Obs.numeric_match matches))
        /\ Permutation frames candidates
        /\ StronglySorted (Obs.key_le Obs.frame_key) frames
        /\ (forall f, In f frames <->
                      (exists m, In m matches /\ f = overview_frame m)
                      /\ is_number (of_timestamp f) = true)
        /\ (forall q, List.filter (fun f => Qeq_bool (Obs.frame_key f) q) frames
                      = List.filter (fun f => Qeq_bool (Obs.frame_key f) q) candidates))
  /\ (Obs.clients_configured cfg = true ->
      let idx := resolveIndexName cfg (indexName payload) in
      let ns := getNamespace cfg (videoId payload) in
      let ready := ensure_unless_skipped cfg env payload idx st in
      let fa := fetch env (trace ready.2) idx ns [Obs.summary_id ns] in
      let h1 := trace ready.2 ++ [EvFetch idx ns [Obs.summary_id ns] fa] in
      let text := "overview of this video frames" in
      let a := embedContent env h1 text in
      let h2 := h1 ++ [EvEmbed text a] in
      ready.1 = inr tt ->
      forall v, Obs.settle a = inr v ->
        let req := {| query_vector := Some v;
                      query_topK := Z.min (default 200%Z (topK payload)) 1000;
                      includeMetadata := true |} in
        let result := query env h2 idx ns req in
        trace out.2 = h2 ++ [EvQuery idx ns req result]
        /\ out.1 = match result with
                   | inl e => json 500 (ErrorBody (message_of e))
                   | inr res =>
                       json 200
                         (OverviewBody
                            match fa with
                            | inl _ => None
                            | inr r => read_summary (Obs.summary_id ns) r
                            end
                            (overview_frames rt (default [] res)) idx ns)
                   end).
Proof.
  intros Ha out new. subst out new. split; [|split].
  - intros summary frames index ns. now apply overview_success_queried.
  - intros index ns req result Hin.
    destruct (overview_after_query cfg rt env payload st index ns req result Ha Hin)
      as (Hrun & Hperm & Hsorted & Hin' & Hstable).
    cbv zeta. split; [exact Hrun|]. split; [|auto].
    rewrite overview_frames_matches. apply shows_map.
  - intros Hcl. now apply overview_runs.
Qed.

Lemma overview_spec_witness :
  let out := POST Scenario.config Scenario.runtime Scenario.services
               Scenario.overview_request Scenario.start in
  action Scenario.overview_request = Some "overview"
  /\ EvQuery "video-frames" "video-42" Scenario.probe_request (inr (Some Scenario.store_matches))
     ∈ Obs.new_events Scenario.start out.2
  /\ StronglySorted (Obs.key_le Obs.frame_key) (overview_frames Scenario.runtime Scenario.store_matches)
  /\ out.1 = json 200 (OverviewBody None
                         (map overview_frame [Scenario.frame_match "b" 1;
                                              Scenario.frame_match "c" 3;
                                              Scenario.frame_match "a" 5])
                         "video-frames" "video-42")
  /\ Forall2 Obs.shows (overview_frames Scenario.runtime Scenario.store_matches)
       [Scenario.frame_match "b" 1; Scenario.frame_match "c" 3; Scenario.frame_match "a" 5]
  /\ map of_id (overview_frames Scenario.runtime Scenario.store_matches) = ["b"; "c"; "a"]
  /\ map of_timestamp (overview_frames Scenario.runtime Scenario.store_matches)
     = [Some (JNum 1); Some (JNum 3); Some (JNum 5)]
  /\ trace out.2
     = [ EvListIndexes (inr (ListingArray [ItemObj (Some "video-frames")]));
         EvDescribeIndex "video-frames" (inr (Some Scenario.ready_status));
         EvFetch "video-frames" "video-42" ["video-42::summary"] (inl (Error "fetch failed"));
         EvEmbed "overview of this video frames" (inr (Some [1%Q; 2%Q]));
         EvQuery "video-frames" "video-42" Scenario.probe_request
           (inr (Some Scenario.store_matches)) ].
Proof.
  assert (Hin : EvQuery "video-frames" "video-42" Scenario.probe_request
                  (inr (Some Scenario.store_matches))
                ∈ Obs.new_events Scenario.start
                    (POST Scenario.config Scenario.runtime Scenario.services
                       Scenario.overview_request Scenario.start).2).
  { apply list_elem_of_In. vm_compute. do 4 right. left. reflexivity. }
  pose proof (overview_spec Scenario.config Scenario.runtime Scenario.services
                Scenario.overview_request Scenario.start eq_refl) as (_ & Hquery & Hrun).
  destruct (Hquery _ _ _ _ Hin) as (_ & Hshows & _ & Hsorted & _).
  destruct (Hrun eq_refl eq_refl [1%Q; 2%Q] eq_refl) as [Htrace Hout].
  split; [reflexivity|]. split; [exact Hin|]. split; [exact Hsorted|].
  split; [exact Hout|]. split; [exact Hshows|].
  split; [reflexivity|]. split; [reflexivity|]. exact Htrace.
Defined.

(** ** The final ingestion *)

Section IngestFinal.

Variable cfg : Config.
Variable rt : JsRuntime.
Variable env : Services.

Abbreviation no_upsert := (Forall (fun ev => Obs.is_upsert ev = false)).

Lemma provisioning_no_upsert (l : list Event) :
  Forall (fun ev => is_provisioning ev = true) l -> no_upsert l.
Proof.
  intros H. eapply Forall_impl; [exact H|]. intros [] Hev; (discriminate || reflexivity).
Qed.

Lemma embeds_no_upsert (texts : list string) answers :
  no_upsert (zip_with EvEmbed texts answers).
Proof.
  revert answers. induction texts as [|t texts IH]; intros [|a answers]; cbn;
    constructor; auto.
Qed.

Lemma no_upsert_elem (l : list Event) idx ns vs r :
  no_upsert l -> EvUpsert idx ns vs r ∈ l -> False.
Proof. intros F Hin. rewrite Forall_forall in F. apply F in Hin. discriminate. Qed.

Lemma final_ensure_only_provisioning payload (idx t1 t2 : string) (st : State) :
  Obs.only_provisioning st
    ((if truthy_flag (skipEnsure payload)
      then console_write LogInfo t1 None
      else console_write LogInfo t2 None;; ensureIndexReady cfg env idx) st).2.
Proof.
  destruct (truthy_flag (skipEnsure payload)).
  - exists []. split; [cbn; now rewrite app_nil_r | constructor].
  - rewrite run_bind. unfold console_write at 1.
    match goal with |- context [ensureIndexReady cfg env idx ?s] =>
      pose proof (ensureIndexReady_only_provisioning cfg env idx s) as H;
      destruct (ensureIndexReady cfg env idx s) as [[e|[]] st1]
    end; exact H.
Qed.

(** The summary block adds at most one embedding call and, when the
    summary is not blank, exactly one vector. *)
Lemma add_summary_run (vid : option JsId) (summary : option string) (st : State) :
  has_client (GOOGLE_API_KEY cfg) = true ->
  let out := add_summary cfg env vid summary [] st in
  exists events,
    trace out.2 = trace st ++ events
    /\ no_upsert events
    /\ forall extra, out.1 = inr extra ->
         length events = Obs.count_if (summary_given summary)
         /\ length extra = Obs.count_if (summary_given summary)
         /\ map vector_id extra
            = if summary_given summary
              then [(getNamespace cfg vid ++ "::summary")%string] else [].
Proof.
  intros Hg out. subst out. unfold add_summary.
  destruct summary as [text|].
  2:{ exists []. cbn. rewrite app_nil_r.
      split; [reflexivity|]. split; [constructor|]. intros extra [= <-]. auto. }
  destruct (summary_given (Some text)) eqn:Hs.
  2:{ exists []. cbn. rewrite app_nil_r.
      split; [reflexivity|]. split; [constructor|]. intros extra [= <-]. auto. }
  rewrite run_bind, embedTexts_single by assumption.
  set (a := embedContent env (trace st) text).
  exists [EvEmbed text a]. destruct (Obs.settle a) as [e|v]; cbn [fst snd trace].
  - split; [reflexivity|]. split; [repeat constructor | discriminate].
  - split; [reflexivity|]. split; [repeat constructor|].
    intros extra [= <-]. auto.
Qed.

(** The manifest block never throws: a failed embedding is logged and the
    vectors gathered so far are returned unchanged. *)
Lemma add_manifest_run (vid : option JsId) (fname : option string)
    (frames : list Frame) (extra : list Vector) (st : State) :
  has_client (GOOGLE_API_KEY cfg) = true ->
  let text := ("manifest video " ++ video_id_text vid)%string in
  let ma := embedContent env (trace st) text in
  add_manifest cfg env vid fname frames extra st
  = (inr (extra ++ match Obs.settle ma with
                   | inr v => [manifest_vector cfg vid fname frames (Some v)]
                   | inl _ => []
                   end),
     {| trace := trace st ++ [EvEmbed text ma];
        indexInitPromises := indexInitPromises st;
        console := (console st ++ Obs.settled_warning (Obs.settle ma))
                   ++ match Obs.settle ma with
                      | inr _ => []
                      | inl e => [Obs.manifest_failed e]
                      end |}).
Proof.
  intros Hg text ma. unfold add_manifest. rewrite run_bind. unfold try_.
  rewrite embedTexts_single by assumption. fold text. fold ma.
  destruct (Obs.settle ma) as [e|v]; cbn [head].
  - rewrite run_bind. unfold console_write. cbn. now rewrite !app_nil_r.
  - rewrite run_ret. now rewrite app_nil_r.
Qed.

Lemma POST_ingest_final (payload : RoutePayload) (st : State) :
  action payload = Some "ingest_final" ->
  Obs.clients_configured cfg = true ->
  POST cfg rt env payload st =
    match post_ingest_final cfg env payload st with
    | (inr response, st') => (response, st')
    | (inl e, st') => (json 500 (ErrorBody (message_of e)), st')
    end.
Proof.
  intros Ha Hcl. unfold POST. rewrite run_bind, requireClients_run by assumption.
  unfold dispatch, action_is. rewrite Ha. reflexivity.
Qed.

Lemma imap_length_ids {B} (f : nat -> Frame -> B) (g : B -> string) (h : Frame -> string)
    (l : list Frame) :
  (forall i x, g (f i x) = h x) -> map g (imap f l) = map h l.
Proof.
  revert f. induction l as [|x l IH]; intros f Hf; cbn; [reflexivity|].
  rewrite Hf. f_equal. apply IH. intros i y. apply Hf.
Qed.

End IngestFinal.

Section IngestFinalRun.

Variable cfg : Config.
Variable env : Services.

Abbreviation no_upsert := (Forall (fun ev => Obs.is_upsert ev = false)).

(** How a final ingestion runs: it stops before the upsert call, or it
    makes the upsert call with the frame vectors, the summary vector when
    the summary is not blank, and the manifest vector when its embedding
    succeeded. *)
Lemma post_ingest_final_cases (payload : RoutePayload) (st : State) :
  Obs.clients_configured cfg = true ->
  let out := post_ingest_final cfg env payload st in
  let frames := Obs.final_frames payload in
  let idx := Obs.final_index cfg payload in
  let ns := getNamespace cfg (videoId payload) in
  let given := summary_given (summary payload) in
  exists prov rest,
    trace out.2 = trace st ++ prov ++ rest
    /\ Forall (fun ev => is_provisioning ev = true) prov
    /\ ((no_upsert rest /\ forall response, out.1 = inr response -> status response = 400%Z)
        \/ exists embeddings sum_events ma vectors r,
             rest = zip_with (fun t v => EvEmbed t (inr (Some v)))
                             (map (fun f => default "" (description f)) frames) embeddings
                    ++ sum_events
                    ++ [EvEmbed (Obs.manifest_text payload) ma; EvUpsert idx ns vectors r]
             /\ no_upsert sum_events
             /\ length embeddings = length frames
             /\ length sum_events = Obs.count_if given
             /\ length vectors = length frames + Obs.count_if given + Obs.built (Obs.settle ma)
             /\ map vector_id vectors
                = map (frame_vector_id cfg (videoId payload)) frames
                  ++ (if given then [(ns ++ "::summary")%string] else [])
                  ++ match Obs.settle ma with
                     | inr _ => [(ns ++ "::manifest")%string]
                     | inl _ => []
                     end
             /\ (forall e, Obs.settle ma = inl e ->
                           last (console out.2) = Some (Obs.manifest_failed e))
             /\ out.1 = match r with
                        | inl e => inl e
                        | inr _ =>
                            inr (json 200
                                   (IngestBody
                                      (length frames + Obs.count_if given
                                       + Obs.built (Obs.settle ma))
                                      ns idx
                                      (Some (negb (Nat.eqb (Obs.count_if given
                                                            + Obs.built (Obs.settle ma)) 0)))))
                        end).
Proof.
  intros Hcl. destruct (has_clients cfg Hcl) as [Hp Hg]. cbv zeta.
  remember (post_ingest_final cfg env payload st) as out eqn:Hout.
  unfold post_ingest_final in Hout. fold (Obs.final_index cfg payload) in Hout.
  fold (Obs.final_frames payload) in Hout.
  set (idx := Obs.final_index cfg payload) in *.
  set (ns := getNamespace cfg (videoId payload)) in *.
  rewrite run_bind in Hout. unfold console_write at 1 in Hout. cbv beta iota in Hout.
  rewrite run_bind in Hout.
  match type of Hout with
    context [(if truthy_flag _ then console_write _ ?t1 _ else _) ?s0] =>
    pose proof (final_ensure_only_provisioning cfg env payload idx t1
                  ("[ingest_final] Calling ensureIndexReady for " ++ dquote ++ idx ++ dquote)
                  s0) as (prov & Hprov & Fprov);
    destruct ((if truthy_flag (skipEnsure payload) then console_write LogInfo t1 None
               else console_write LogInfo
                      ("[ingest_final] Calling ensureIndexReady for " ++ dquote ++ idx ++ dquote)
                      None;; ensureIndexReady cfg env idx) s0) as [[e|[]] st1]
  end; cbn [fst snd trace] in Hprov.
  { exists prov, []. subst out. cbn [fst snd]. rewrite app_nil_r.
    split; [exact Hprov|]. split; [exact Fprov|]. left. split; [constructor | discriminate]. }
  destruct (Obs.final_frames payload) as [|f fs] eqn:Hf.
  { exists prov, []. subst out. cbn [fst snd]. rewrite app_nil_r.
    split; [exact Hprov|]. split; [exact Fprov|]. left. split; [constructor|].
    intros response [= <-]. reflexivity. }
  rewrite <- Hf in *. set (frames := Obs.final_frames payload) in *.
  assert (Hne : map (fun f0 : Frame => default "" (description f0)) frames <> [])
    by (subst frames; rewrite Hf; discriminate).
  rewrite run_bind, embedTexts_run in Hout by assumption.
  set (descriptions := map (fun f0 : Frame => default "" (description f0)) frames) in *.
  set (answers := Obs.embed_answers env (trace st1) descriptions) in *.
  destruct (promise_all (map Obs.settle answers)) as [e|embeddings] eqn:Hpa.
  { exists prov, (zip_with EvEmbed descriptions answers). subst out. cbn [fst snd trace].
    split; [rewrite Hprov; now rewrite app_assoc|]. split; [exact Fprov|].
    left. split; [apply embeds_no_upsert | discriminate]. }
  apply promise_all_inr, map_settle_inr in Hpa as [Hans Hnonempty].
  assert (Hlen : length embeddings = length frames).
  { pose proof (embed_answers_length env descriptions (trace st1)) as H.
    fold answers in H. rewrite Hans in H. unfold descriptions in H.
    now rewrite !length_map in H. }
  clearbody answers. subst answers. rewrite zip_with_embed_map in Hout.
  rewrite run_bind in Hout.
  match type of Hout with context [add_summary cfg env _ _ [] ?s2] =>
    pose proof (add_summary_run cfg env (videoId payload) (summary payload) s2 Hg)
      as (sum_events & Hsum & Fsum & Hextra);
    cbv zeta in Hsum, Hextra;
    destruct (add_summary cfg env (videoId payload) (summary payload) [] s2)
      as [[e|extra] st3]
  end; cbn [fst snd trace] in Hsum.
  { exists prov, (zip_with (fun t v => EvEmbed t (inr (Some v))) descriptions embeddings
                  ++ sum_events).
    subst out. cbn [fst snd].
    split; [rewrite Hsum, Hprov; now rewrite <- !app_assoc|]. split; [exact Fprov|].
    left. split; [|discriminate]. apply Forall_app. split; [|exact Fsum].
    rewrite <- zip_with_embed_map. apply embeds_no_upsert. }
  destruct (Hextra extra eq_refl) as (Hse & Hle & Hids). clear Hextra.
  rewrite run_bind, add_manifest_run in Hout by assumption. cbv zeta in Hout.
  fold (Obs.manifest_text payload) in Hout.
  set (ma := embedContent env (trace st3) (Obs.manifest_text payload)) in *.
  unfold getPineconeClient in Hout. rewrite Hp in Hout.
  rewrite run_bind, run_ret, run_bind in Hout. unfold call in Hout.
  match type of Hout with context [upsert env ?h idx ns ?vs] =>
    set (vectors := vs) in *; destruct (upsert env h idx ns vectors) as [e|[]]
  end;
  [ pose (r := @inl Thrown unit e) | pose (r := @inr Thrown unit tt) ];
  rewrite ?run_ret in Hout; subst out; cbn [fst snd record_event trace console];
  (exists prov, (zip_with (fun t v => EvEmbed t (inr (Some v))) descriptions embeddings
                 ++ sum_events ++ [EvEmbed (Obs.manifest_text payload) ma;
                                   EvUpsert idx ns vectors r]);
   (split; [ rewrite Hsum, Hprov; rewrite <- !app_assoc; reflexivity |]);
   (split; [exact Fprov|]); right;
   exists embeddings, sum_events, ma, vectors, r;
   assert (Hvl : length vectors
                 = length frames + Obs.count_if (summary_given (summary payload))
                   + Obs.built (Obs.settle ma))
     by (unfold vectors; rewrite !length_app, length_imap, Hle;
         destruct (Obs.settle ma); cbn; lia);
   (split; [reflexivity|]); (split; [exact Fsum|]); (split; [exact Hlen|]);
   (split; [exact Hse|]); (split; [exact Hvl|]); split; [|split]).
  - unfold vectors. rewrite !map_app, Hids.
    rewrite (imap_length_ids _ vector_id (frame_vector_id cfg (videoId payload)))
      by reflexivity.
    do 2 f_equal. destruct (Obs.settle ma); reflexivity.
  - intros e' He. rewrite He. now rewrite last_snoc.
  - reflexivity.
  - unfold vectors. rewrite !map_app, Hids.
    rewrite (imap_length_ids _ vector_id (frame_vector_id cfg (videoId payload)))
      by reflexivity.
    do 2 f_equal. destruct (Obs.settle ma); reflexivity.
  - intros e' He. rewrite He. now rewrite last_snoc.
  - subst r. cbv iota. do 3 f_equal.
    + rewrite <- Hvl. unfold vectors. symmetry. apply length_app.
    + do 2 f_equal. rewrite length_app, Hle. destruct (Obs.settle ma); reflexivity.
Qed.

End IngestFinalRun.

Lemma POST_ingest_final_out (cfg : Config) (rt : JsRuntime) (env : Services)
    (payload : RoutePayload) (st : State) :
  action payload = Some "ingest_final" ->
  Obs.clients_configured cfg = true ->
  let out := post_ingest_final cfg env payload st in
  POST cfg rt env payload st
  = (match out.1 with
     | inl e => json 500 (ErrorBody (message_of e))
     | inr response => response
     end, out.2).
Proof.
  intros Ha Hcl out. rewrite POST_ingest_final by assumption. subst out.
  destruct (post_ingest_final cfg env payload st) as [[e|response] st']; reflexivity.
Qed.

(** What [ingest_final] answers once the upsert call has returned. *)
Lemma ingest_final_after_upsert (cfg : Config) (rt : JsRuntime) (env : Services)
    (payload : RoutePayload) (st : State)
    (index ns : string) (vectors : list Vector) :
  action payload = Some "ingest_final" ->
  EvUpsert index ns vectors (inr tt) ∈ Obs.new_events st (POST cfg rt env payload st).2 ->
  let frames := Obs.final_frames payload in
  let given := summary_given (summary payload) in
  exists prov embeddings sum_events ma included,
    Obs.new_events st (POST cfg rt env payload st).2
    = prov
      ++ zip_with (fun t v => EvEmbed t (inr (Some v)))
                  (map (fun f => default "" (description f)) frames) embeddings
      ++ sum_events
      ++ [EvEmbed (Obs.manifest_text payload) ma; EvUpsert index ns vectors (inr tt)]
    /\ Forall (fun ev => is_provisioning ev = true) prov
    /\ length embeddings = length frames
    /\ length sum_events = Obs.count_if given
    /\ (POST cfg rt env payload st).1
       = json 200 (IngestBody (length frames + Obs.count_if given + Obs.built (Obs.settle ma))
                              ns index included)
    /\ length vectors = length frames + Obs.count_if given + Obs.built (Obs.settle ma)
    /\ map vector_id vectors
       = map (frame_vector_id cfg (videoId payload)) frames
         ++ (if given then [(ns ++ "::summary")%string] else [])
         ++ match Obs.settle ma with
            | inr _ => [(ns ++ "::manifest")%string]
            | inl _ => []
            end
    /\ (forall e, Obs.settle ma = inl e ->
                  last (console (POST cfg rt env payload st).2) = Some (Obs.manifest_failed e)).
Proof.
  intros Ha Hin frames given.
  destruct (Obs.clients_configured cfg) eqn:Hcl.
  2:{ destruct (POST_no_clients cfg rt env payload st Hcl) as [e He].
      rewrite He in Hin. cbn [snd] in Hin.
      rewrite (new_events_app st st []) in Hin by (now rewrite app_nil_r). inversion Hin. }
  rewrite POST_ingest_final_out in * by assumption. cbv zeta in *. cbn [fst snd] in *.
  destruct (post_ingest_final_cases cfg env payload st Hcl)
    as (prov & rest & Htrace & Fprov & Hcases).
  cbv zeta in Htrace, Hcases.
  rewrite (new_events_app _ _ _ Htrace) in *.
  destruct Hcases as [[Hno _] | (embeddings & sum_events & ma & vectors0 & r & Hrest & Fsum
                                & Hlen & Hse & Hvl & Hids & Hwarn & Hout)].
  { exfalso. apply elem_of_app in Hin as [Hin|Hin].
    - eapply no_upsert_elem; [apply provisioning_no_upsert|]; eassumption.
    - eapply no_upsert_elem; eassumption. }
  subst rest.
  assert (Hlast : EvUpsert index ns vectors (inr tt)
                  = EvUpsert (Obs.final_index cfg payload)
                             (getNamespace cfg (videoId payload)) vectors0 r).
  { apply elem_of_app in Hin as [Hin|Hin];
      [exfalso; eapply no_upsert_elem; [apply provisioning_no_upsert|]; eassumption|].
    apply elem_of_app in Hin as [Hin|Hin];
      [exfalso; eapply no_upsert_elem; [|exact Hin];
       rewrite <- zip_with_embed_map; apply embeds_no_upsert|].
    apply elem_of_app in Hin as [Hin|Hin];
      [exfalso; eapply no_upsert_elem; eassumption|].
    apply elem_of_cons in Hin as [Hin|Hin]; [discriminate|].
    apply elem_of_cons in Hin as [Hin|Hin]; [exact Hin | inversion Hin]. }
  injection Hlast as -> -> -> <-.
  exists prov, embeddings, sum_events, ma. eexists.
  split; [reflexivity|]. split; [exact Fprov|]. split; [exact Hlen|].
  split; [exact Hse|]. split; [rewrite Hout; reflexivity|].
  split; [exact Hvl|]. split; [exact Hids | exact Hwarn].
Qed.

(** A successful [ingest_final] response comes after an upsert call that
    returned. *)
Lemma ingest_final_success_upserted (cfg : Config) (rt : JsRuntime) (env : Services)
    (payload : RoutePayload) (st : State)
    (upserted : nat) (ns index : string) (included : option bool) :
  action payload = Some "ingest_final" ->
  (POST cfg rt env payload st).1 = json 200 (IngestBody upserted ns index included) ->
  exists vectors,
    EvUpsert index ns vectors (inr tt) ∈ Obs.new_events st (POST cfg rt env payload st).2.
Proof.
  intros Ha Hresp.
  destruct (Obs.clients_configured cfg) eqn:Hcl.
  2:{ destruct (POST_no_clients cfg rt env payload st Hcl) as [e He].
      rewrite He in Hresp. absurd_response. }
  rewrite POST_ingest_final_out in * by assumption. cbv zeta in *. cbn [fst snd] in *.
  destruct (post_ingest_final_cases cfg env payload st Hcl)
    as (prov & rest & Htrace & Fprov & Hcases).
  cbv zeta in Htrace, Hcases. rewrite (new_events_app _ _ _ Htrace).
  destruct Hcases as [[_ H400] | (embeddings & sum_events & ma & vectors & r & Hrest & _
                                  & _ & _ & _ & _ & _ & Hout)].
  { exfalso. destruct (post_ingest_final cfg env payload st).1 as [e|response];
      [absurd_response|].
    specialize (H400 response eq_refl). rewrite Hresp in H400. discriminate. }
  rewrite Hout in Hresp. destruct r as [e|[]]; [absurd_response|].
  unfold json in Hresp. injection Hresp as _ <- <- _.
  exists vectors. subst rest.
  apply elem_of_app. right. apply elem_of_app. right. apply elem_of_app. right.
  apply list_elem_of_further, list_elem_of_here.
Qed.

(** ** The readiness check does not look at the console *)

Section ConsoleBlind.

Variable cfg : Config.
Variable env : Services.

Lemma blind_bind {A B} (m : M A) (f : A -> M B) :
  View.console_blind m -> (forall a, View.console_blind (f a)) ->
  View.console_blind (m ≫= f).
Proof.
  intros Hm Hf c st. rewrite !run_bind, Hm.
  destruct (m st) as [[e|a] st1]; cbn [fst snd]; [reflexivity | apply Hf].
Qed.

Lemma blind_ret {A} (a : A) : View.console_blind (mret a : M A).
Proof. intros c st. reflexivity. Qed.

Lemma blind_throw {A} (e : Thrown) : View.console_blind (throw e : M A).
Proof. intros c st. reflexivity. Qed.

Lemma blind_await {A} (p : Thrown + A) : View.console_blind (await p).
Proof. intros c st. reflexivity. Qed.

Lemma blind_call {A} (ask : list Event -> Thrown + A) (ev : Thrown + A -> Event) :
  View.console_blind (call ask ev).
Proof. intros c st. reflexivity. Qed.

Lemma blind_sleep (ms : Z) : View.console_blind (sleep ms).
Proof. intros c st. reflexivity. Qed.

Lemma blind_try {A} (m : M A) : View.console_blind m -> View.console_blind (try_ m).
Proof.
  intros Hm c st. unfold try_. rewrite Hm. destruct (m st) as [r st1]. reflexivity.
Qed.

Lemma blind_set_promises f : View.console_blind (set_promises f).
Proof. intros c st. reflexivity. Qed.

Lemma blind_poll (name : string) (n : nat) : View.console_blind (poll env name n).
Proof.
  induction n as [|n IH]; cbn [poll]; [apply blind_throw|].
  apply blind_bind; [apply blind_try, blind_call|]. intros d.
  destruct (is_ready d); [apply blind_ret|].
  apply blind_bind; [apply blind_sleep | intros _; exact IH].
Qed.

Lemma blind_initializer (name : string) : View.console_blind (initializer cfg env name).
Proof.
  unfold initializer. apply blind_bind; [apply blind_call|]. intros listing.
  apply blind_bind; [|intros _; apply blind_poll].
  destruct (existsb _ _); [apply blind_ret | apply blind_call].
Qed.

Lemma blind_ensureIndexReady (name : string) :
  View.console_blind (ensureIndexReady cfg env name).
Proof.
  unfold ensureIndexReady. apply blind_bind.
  { unfold getPineconeClient. destruct (has_client _); [apply blind_ret | apply blind_throw]. }
  intros _. apply blind_bind; [intros c st; reflexivity|]. intros [outcome|].
  - apply blind_await.
  - apply blind_bind; [apply blind_try, blind_initializer|]. intros outcome.
    apply blind_bind; [apply blind_set_promises|]. intros _.
    destruct outcome; [|apply blind_ret].
    apply blind_bind; [apply blind_set_promises | intros _; apply blind_throw].
Qed.

Lemma blind_ensure_unless_skipped payload (name : string) :
  View.console_blind (ensure_unless_skipped cfg env payload name).
Proof.
  unfold ensure_unless_skipped. destruct (truthy_flag _);
    [apply blind_ret | apply blind_ensureIndexReady].
Qed.

(** The logged readiness check of [ingest_final] settles as the plain one
    and leaves the same history and cache. *)
Lemma final_ensure_run payload (idx t1 t2 : string) (c : list LogEntry) (st : State) :
  let ready := ensure_unless_skipped cfg env payload idx st in
  exists c',
    (if truthy_flag (skipEnsure payload)
     then console_write LogInfo t1 None
     else console_write LogInfo t2 None;; ensureIndexReady cfg env idx)
      (View.with_console c st)
    = (ready.1, View.with_console c' ready.2).
Proof.
  intros ready. subst ready. unfold ensure_unless_skipped.
  destruct (truthy_flag (skipEnsure payload)).
  - eexists. unfold console_write, View.with_console. cbn. reflexivity.
  - rewrite run_bind. unfold console_write at 1. cbv beta iota.
    eexists.
    match goal with |- ensureIndexReady cfg env idx ?s = _ =>
      change s with (View.with_console (console s) st)
    end.
    apply blind_ensureIndexReady.
Qed.

End ConsoleBlind.

(** ** The final ingestion, step by step *)

Lemma embed_answers_app (env : Services) (l1 l2 : list string) : forall h,
  Obs.embed_answers env h (l1 ++ l2)
  = Obs.embed_answers env h l1
    ++ Obs.embed_answers env (h ++ zip_with EvEmbed l1 (Obs.embed_answers env h l1)) l2.
Proof.
  induction l1 as [|t l1 IH]; intros h; cbn [app Obs.embed_answers zip_with].
  - now rewrite app_nil_r.
  - rewrite IH. cbn. now rewrite <- !app_assoc.
Qed.

Lemma imap_lookup_zip {A B} (g : A -> option B -> Vector) (l : list B) :
  forall (xs : list A) (k : nat),
    length xs <= length (drop k l) ->
    imap (fun i x => g x (l !! (k + i))) xs
    = zip_with (fun x v => g x (Some v)) xs (drop k l).
Proof.
  induction xs as [|x xs IH]; intros k Hlen; [reflexivity|].
  cbn [imap length] in *.
  destruct (drop k l) as [|v rest] eqn:Hd; [cbn in Hlen; lia|].
  assert (Hk : l !! k = Some v).
  { rewrite <- (Nat.add_0_r k), <- lookup_drop, Hd. reflexivity. }
  rewrite Nat.add_0_r, Hk. cbn [zip_with]. f_equal.
  assert (Hrest : drop (S k) l = rest).
  { pose proof (drop_S l v k Hk) as E. rewrite Hd in E. now injection E. }
  rewrite <- Hrest, <- IH.
  - apply imap_ext. intros i y _. cbn. now rewrite Nat.add_succ_r.
  - rewrite Hrest. cbn in Hlen. lia.
Qed.

Section FinalRun.

Variable cfg : Config.
Variable rt : JsRuntime.
Variable env : Services.

(** How a final ingestion with frames runs once the index is ready and the
    descriptions and the summary are embedded: the manifest text is embedded,
    and whatever the answer, the upsert is called and decides the response. *)
Lemma ingest_final_runs (payload : RoutePayload) (st : State) :
  action payload = Some "ingest_final" ->
  Obs.clients_configured cfg = true ->
  let out := POST cfg rt env payload st in
  let frames := Obs.final_frames payload in
  let given := summary_given (summary payload) in
  let idx := Obs.final_index cfg payload in
  let ns := getNamespace cfg (videoId payload) in
  let ready := ensure_unless_skipped cfg env payload idx st in
  let texts := View.final_texts payload in
  let answers := Obs.embed_answers env (trace ready.2) texts in
  let h := trace ready.2 ++ zip_with EvEmbed texts answers in
  let ma := embedContent env h (Obs.manifest_text payload) in
  let h' := h ++ [EvEmbed (Obs.manifest_text payload) ma] in
  frames <> [] ->
  ready.1 = inr tt ->
  forall vs,
    answers = map (fun v => inr (Some v)) vs -> Forall (fun v => v <> []) vs ->
    let vectors := View.final_vectors cfg payload vs ma in
    let r := upsert env h' idx ns vectors in
    let n := length frames + Obs.count_if given + Obs.built (Obs.settle ma) in
    trace out.2 = h' ++ [EvUpsert idx ns vectors r]
    /\ length vectors = n
    /\ out.1 = match r with
               | inl e => json 500 (ErrorBody (message_of e))
               | inr _ =>
                   json 200
                     (IngestBody n ns idx
                        (Some (negb (Nat.eqb (Obs.count_if given
                                              + Obs.built (Obs.settle ma)) 0))))
               end
    /\ (forall e, Obs.settle ma = inl e ->
                  last (console out.2) = Some (Obs.manifest_failed e)).
Proof.
  intros Ha Hcl. cbv zeta. unfold View.final_texts, View.final_vectors. cbv zeta.
  rewrite POST_ingest_final_out by assumption. cbv zeta. cbn [fst snd].
  remember (post_ingest_final cfg env payload st) as out eqn:Hout.
  unfold post_ingest_final in Hout. fold (Obs.final_index cfg payload) in Hout.
  fold (Obs.final_frames payload) in Hout.
  intros Hne. destruct (Obs.final_frames payload) as [|f fs] eqn:Hfs; [congruence|].
  clear Hne. cbv iota in Hout. set (frames := f :: fs) in *.
  set (given := summary_given (summary payload)) in *.
  set (idx := Obs.final_index cfg payload) in *.
  set (ns := getNamespace cfg (videoId payload)) in *.
  set (ready := ensure_unless_skipped cfg env payload idx st) in *.
  set (descriptions := map (fun f => default "" (description f)) frames) in *.
  set (stexts := if given then [default "" (summary payload)] else []) in *.
  set (answers := Obs.embed_answers env (trace ready.2) (descriptions ++ stexts)) in *.
  set (h := trace ready.2 ++ zip_with EvEmbed (descriptions ++ stexts) answers) in *.
  set (ma := embedContent env h (Obs.manifest_text payload)) in *.
  set (h' := h ++ [EvEmbed (Obs.manifest_text payload) ma]) in *.
  intros Hready vs Hans Hvs.
  set (svec := if given
               then [summary_vector cfg (videoId payload) (default "" (summary payload))
                       (head (drop (length frames) vs))]
               else []).
  set (mvec := match Obs.settle ma with
               | inr v => [manifest_vector cfg (videoId payload) (videoFilename payload)
                             frames (Some v)]
               | inl _ => []
               end).
  set (vectors := zip_with (fun f v => View.final_vector cfg payload f (Some v)) frames vs
                  ++ svec ++ mvec).
  set (r := upsert env h' idx ns vectors).
  destruct (has_clients cfg Hcl) as [Hp Hg].
  (* the answers to the descriptions and to the summary *)
  set (a1 := Obs.embed_answers env (trace ready.2) descriptions).
  set (h1 := trace ready.2 ++ zip_with EvEmbed descriptions a1).
  set (a2 := Obs.embed_answers env h1 stexts).
  assert (Hsplit : answers = a1 ++ a2) by apply embed_answers_app.
  assert (Hl1 : length a1 = length frames).
  { unfold a1. rewrite embed_answers_length. apply length_map. }
  assert (Hl2 : length a2 = Obs.count_if given).
  { unfold a2. rewrite embed_answers_length. unfold stexts. now destruct given. }
  assert (Ha1 : a1 = map (fun v => inr (Some v)) (take (length frames) vs)).
  { rewrite <- firstn_map, <- Hans, Hsplit, <- Hl1. now rewrite take_app_length. }
  assert (Ha2 : a2 = map (fun v => inr (Some v)) (drop (length frames) vs)).
  { rewrite <- skipn_map, <- Hans, Hsplit, <- Hl1. now rewrite drop_app_length. }
  assert (Hlv : length vs = length frames + Obs.count_if given).
  { rewrite <- (length_map (fun v => inr (Some v) : Thrown + option (list Q)) vs).
    rewrite <- Hans, Hsplit, length_app. lia. }
  assert (Hh : h = h1 ++ zip_with EvEmbed stexts a2).
  { unfold h, h1. rewrite Hsplit.
    rewrite zip_with_app by (unfold descriptions; rewrite length_map; lia).
    now rewrite app_assoc. }
  assert (Hsl : length svec = Obs.count_if given) by (unfold svec; now destruct given).
  assert (Hml : length mvec = Obs.built (Obs.settle ma))
    by (unfold mvec; now destruct (Obs.settle ma)).
  assert (Hn : length vectors
               = length frames + Obs.count_if given + Obs.built (Obs.settle ma)).
  { unfold vectors. rewrite !length_app, length_zip_with, Hsl, Hml. lia. }
  (* the readiness check *)
  rewrite run_bind in Hout. unfold console_write at 1 in Hout. cbv beta iota in Hout.
  rewrite run_bind in Hout.
  match type of Hout with
    context [(if truthy_flag _ then console_write _ ?t1 _
              else console_write _ ?t2 _;; _) ?s0] =>
    change s0 with (View.with_console (console s0) st) in Hout;
    destruct (final_ensure_run cfg env payload idx t1 t2 (console s0) st) as [c0 Hens]
  end.
  cbv zeta in Hens. fold ready in Hens. rewrite Hens in Hout. rewrite Hready in Hout.
  clear Hens.
  clearbody ready. destruct ready as [r1 st1]. cbn [fst snd] in *. subst r1.
  assert (Hdne : descriptions <> []) by discriminate.
  (* the frames *)
  rewrite run_bind, embedTexts_run in Hout by assumption. cbv zeta in Hout.
  unfold View.with_console in Hout. cbn [trace indexInitPromises console] in Hout.
  fold a1 in Hout. fold h1 in Hout.
  assert (Hpa : promise_all (map Obs.settle a1) = inr (take (length frames) vs)).
  { apply promise_all_inr, map_settle_inr. split; [exact Ha1|]. now apply Forall_take. }
  rewrite Hpa in Hout. rewrite run_bind in Hout.
  (* the summary *)
  assert (Hsum : exists c1,
             add_summary cfg env (videoId payload) (summary payload) []
               {| trace := h1; indexInitPromises := indexInitPromises st1;
                  console := c0 ++ flat_map Obs.settled_warning (map Obs.settle a1) |}
             = (inr svec,
                {| trace := h; indexInitPromises := indexInitPromises st1;
                   console := c1 |})).
  { clear Hout. unfold add_summary. rewrite Hh. unfold svec.
    pose proof Ha2 as E. unfold a2, stexts in E |- *. unfold given in E |- *.
    destruct (summary payload) as [text|] eqn:Hs.
    2:{ cbn. rewrite app_nil_r. eauto. }
    fold given in E |- *. destruct given eqn:Hgiven.
    2:{ cbn. rewrite app_nil_r. eauto. }
    change (default "" (Some text)) with text in E |- *.
    cbn [Obs.embed_answers zip_with] in E |- *.
    destruct (drop (length frames) vs) as [|v rest] eqn:Hdrop; [discriminate|].
    cbn [map] in E. injection E as Hv _.
    assert (Hvne : v <> []).
    { apply (Forall_drop _ (length frames)) in Hvs. rewrite Hdrop in Hvs.
      now inversion Hvs. }
    assert (Hst : Obs.settle (inr (Some v)) = inr v) by (apply settle_inr; auto).
    rewrite run_bind, embedTexts_single by assumption. cbv zeta. cbn [trace].
    rewrite Hv, Hst. rewrite run_ret. cbn [head app indexInitPromises console].
    eexists. reflexivity. }
  destruct Hsum as [c1 Hsum]. rewrite Hsum in Hout. clear Hsum.
  (* the manifest and the upsert *)
  rewrite run_bind, add_manifest_run in Hout by assumption. cbv zeta in Hout.
  cbn [trace console indexInitPromises] in Hout.
  fold (Obs.manifest_text payload) in Hout. fold ma in Hout. fold h' in Hout.
  fold mvec in Hout.
  unfold getPineconeClient in Hout. rewrite Hp in Hout.
  rewrite run_bind, run_ret, run_bind in Hout. unfold call in Hout. cbn [trace] in Hout.
  set (fvs := imap _ frames) in Hout.
  assert (Hfv : fvs = zip_with (fun f0 v => View.final_vector cfg payload f0 (Some v))
                        frames vs).
  { unfold fvs.
    rewrite <- (zip_with_take_r _ frames vs).
    rewrite <- (drop_0 (take (length frames) vs)).
    rewrite <- (imap_lookup_zip
                  (fun f0 e => View.final_vector cfg payload f0 e)
                  (take (length frames) vs) frames 0)
      by (rewrite drop_0, length_take; lia).
    reflexivity. }
  assert (Hvec : fvs ++ svec ++ mvec = vectors) by (rewrite Hfv; reflexivity).
  rewrite Hvec in Hout. fold r in Hout.
  assert (Hlen : length fvs + length (svec ++ mvec) = length vectors)
    by (rewrite <- Hvec, (length_app fvs); reflexivity).
  assert (Hextra : length (svec ++ mvec) = Obs.count_if given + Obs.built (Obs.settle ma))
    by (rewrite length_app; lia).
  rewrite Hlen, Hextra, Hn in Hout.
  destruct r as [e|[]]; rewrite ?run_ret in Hout; subst out;
    cbn [fst snd record_event trace console].
  - split; [reflexivity|]. split; [exact Hn|]. split; [reflexivity|].
    intros e' He. rewrite He. apply last_snoc.
  - split; [reflexivity|]. split; [exact Hn|]. split; [reflexivity|].
    intros e' He. rewrite He. apply last_snoc.
Qed.

End FinalRun.

(** C4, as the code has it.  A successful [ingest_final] response comes
    after an upsert call that returned, and then [upserted] is the number of
    frames, plus one when the summary is not blank (not empty after trimming
    white space), plus one when the embedding of the manifest text succeeded.
    The vectors upserted are the frame vectors in the order of the frames,
    then the summary vector if any, then the manifest vector if built.  A
    failure of the manifest embedding never fails the ingestion: with the
    clients configured, the index ready and the descriptions and the summary
    embedded, the manifest text is embedded next and, whatever the service
    answers, a rejection included, the upsert is called with the vectors
    gathered and alone decides the response; a failed manifest embedding is
    written to the console as a warning.  The summary counts exactly when,
    read as code units, it is not empty and [trim] leaves something of
    it. *)
Theorem ingest_final_upserted (cfg : Config) (rt : JsRuntime) (env : Services)
    (payload : RoutePayload) (st : State) :
  action payload = Some "ingest_final" ->
  let out := POST cfg rt env payload st in
  let new := Obs.new_events st out.2 in
  let frames := Obs.final_frames payload in
  let given := summary_given (summary payload) in
  (forall upserted ns index included,
     out.1 = json 200 (IngestBody upserted ns index included) ->
     exists vectors, EvUpsert index ns vectors (inr tt) ∈ new)
  /\ (forall index ns vectors,
        EvUpsert index ns vectors (inr tt) ∈ new ->
        exists prov embeddings sum_events ma included,
          new = prov
                ++ zip_with (fun t v => EvEmbed t (inr (Some v)))
                            (map (fun f => default "" (description f)) frames) embeddings
                ++ sum_events
                ++ [EvEmbed (Obs.manifest_text payload) ma; EvUpsert index ns vectors (inr tt)]
          /\ Forall (fun ev => is_provisioning ev = true) prov
          /\ length embeddings = length frames
          /\ length sum_events = Obs.count_if given
          /\ out.1 = json 200 (IngestBody (length frames + Obs.count_if given
                                           + Obs.built (Obs.settle ma))
                                          ns index included)
          /\ length vectors = length frames + Obs.count_if given + Obs.built (Obs.settle ma)
          /\ map vector_id vectors
             = map (frame_vector_id cfg (videoId payload)) frames
               ++ (if given then [(ns ++ "::summary")%string] else [])
               ++ match Obs.settle ma with
                  | inr _ => [(ns ++ "::manifest")%string]
                  | inl _ => []
                  end
          /\ (forall e, Obs.settle ma = inl e ->
                        last (console out.2) = Some (Obs.manifest_failed e)))
  /\ (Obs.clients_configured cfg = true ->
      let idx := Obs.final_index cfg payload in
      let ns := getNamespace cfg (videoId payload) in
      let ready := ensure_unless_skipped cfg env payload idx st in
      let texts := View.final_texts payload in
      let answers := Obs.embed_answers env (trace ready.2) texts in
      let h := trace ready.2 ++ zip_with EvEmbed texts answers in
      let ma := embedContent env h (Obs.manifest_text payload) in
      let h' := h ++ [EvEmbed (Obs.manifest_text payload) ma] in
      frames <> [] ->
      ready.1 = inr tt ->
      forall vs,
        answers = map (fun v => inr (Some v)) vs -> Forall (fun v => v <> []) vs ->
        let vectors := View.final_vectors cfg payload vs ma in
        let r := upsert env h' idx ns vectors in
        let n := length frames + Obs.count_if given + Obs.built (Obs.settle ma) in
        trace out.2 = h' ++ [EvUpsert idx ns vectors r]
        /\ length vectors = n
        /\ out.1 = match r with
                   | inl e => json 500 (ErrorBody (message_of e))
                   | inr _ =>
                       json 200
                         (IngestBody n ns idx
                            (Some (negb (Nat.eqb (Obs.count_if given
                                                  + Obs.built (Obs.settle ma)) 0))))
                   end
        /\ (forall e, Obs.settle ma = inl e ->
                      last (console out.2) = Some (Obs.manifest_failed e)))
  /\ (forall s, summary payload = Some s ->
        (given = true
         <-> Wide.of_string s <> [] /\ Wide.trim (Wide.of_string s) <> [])).
Proof.
  intros Ha out new frames given. subst out new frames given. split; [|split; [|split]].
  - intros upserted ns index included. now apply ingest_final_success_upserted.
  - intros index ns vectors. now apply ingest_final_after_upsert.
  - intros Hcl. now apply ingest_final_runs.
  - intros s ->. apply summary_given_wide.
Qed.

Lemma ingest_final_upserted_witness :
  let out := POST Scenario.config Scenario.runtime Scenario.services
               Scenario.ingest_request Scenario.start in
  action Scenario.ingest_request = Some "ingest_final"
  /\ EvUpsert "video-frames" "video-42" Scenario.upserted_vectors (inr tt)
     ∈ Obs.new_events Scenario.start out.2
  /\ out.1 = json 200 (IngestBody 2 "video-42" "video-frames" (Some true))
  /\ last (console out.2) = Some (Obs.manifest_failed (Error "quota exceeded"))
  /\ (exists ma included,
        out.1 = json 200 (IngestBody (1 + 1 + Obs.built (Obs.settle ma))
                                     "video-42" "video-frames" included))
  /\ embedContent Scenario.services
       [ EvListIndexes (inr (ListingArray [ItemObj (Some "video-frames")]));
         EvDescribeIndex "video-frames" (inr (Some Scenario.ready_status));
         EvEmbed "a car" (inr (Some [1%Q; 2%Q]));
         EvEmbed "A car drives by." (inr (Some [1%Q; 2%Q])) ]
       (Obs.manifest_text Scenario.ingest_request)
     = inl (Error "quota exceeded")
  /\ trace out.2
     = [ EvListIndexes (inr (ListingArray [ItemObj (Some "video-frames")]));
         EvDescribeIndex "video-frames" (inr (Some Scenario.ready_status));
         EvEmbed "a car" (inr (Some [1%Q; 2%Q]));
         EvEmbed "A car drives by." (inr (Some [1%Q; 2%Q]));
         EvEmbed "manifest video 42" (inl (Error "quota exceeded"));
         EvUpsert "video-frames" "video-42" Scenario.upserted_vectors (inr tt) ].
Proof.
  assert (Hin : EvUpsert "video-frames" "video-42" Scenario.upserted_vectors (inr tt)
                ∈ Obs.new_events Scenario.start
                    (POST Scenario.config Scenario.runtime Scenario.services
                       Scenario.ingest_request Scenario.start).2).
  { apply list_elem_of_In. vm_compute. do 5 right. left. reflexivity. }
  pose proof (ingest_final_upserted Scenario.config Scenario.runtime Scenario.services
                Scenario.ingest_request Scenario.start eq_refl) as (_ & Hup & Hrun & _).
  destruct (Hrun eq_refl ltac:(discriminate) eq_refl [[1%Q; 2%Q]; [1%Q; 2%Q]] eq_refl
              ltac:(repeat constructor; discriminate))
    as (Htrace & _ & Hout & Hwarn).
  split; [reflexivity|]. split; [exact Hin|].
  split; [exact Hout|]. split; [exact (Hwarn (Error "quota exceeded") eq_refl)|].
  split.
  - destruct (Hup _ _ _ Hin)
      as (prov & embeddings & sum_events & ma & included & _ & _ & _ & _ & Hr & _).
    exists ma, included. exact Hr.
  - split; [reflexivity|]. exact Htrace.
Defined.

(** C4 as stated fails: a summary of one space is not empty, yet it adds no
    vector.  One frame is ingested, the manifest is not built, and
    [upserted] is 1, not 2. *)
Lemma ingest_final_blank_summary_not_counted :
  let out := POST Scenario.config Scenario.runtime Scenario.services
               Scenario.blank_summary_request Scenario.start in
  summary Scenario.blank_summary_request = Some " "
  /\ String.length " " = 1%nat
  /\ Obs.final_frames Scenario.blank_summary_request = [Scenario.frame1]
  /\ last (trace out.2)
     = Some (EvUpsert "video-frames" "video-42" [Scenario.frame1_vector] (inr tt))
  /\ out.1 = json 200 (IngestBody 1 "video-42" "video-frames" (Some false)).
Proof. repeat split; vm_compute; reflexivity. Qed.

(** ** Provisioning under concurrent callers *)

Section PoolProofs.

Variable cfg : Config.
Hypothesis client : has_client (PINECONE_API_KEY cfg) = true.

Lemma resume_in_flight (name : string) (pc pc' : Pool.Pc) (a : Pool.Answer) next :
  Pool.resume cfg name pc a = Some (pc', next) -> Pool.in_flight pc = true.
Proof using Type. destruct pc, a; cbn; congruence. Qed.

Lemma resume_awaited (name : string) (pc : Pool.Pc) (a : Pool.Answer) :
  Pool.awaited pc a = true <-> is_Some (Pool.resume cfg name pc a).
Proof using Type.
  assert (Hloop : forall n, is_Some (Some (Pool.loop_head name n))) by eauto.
  destruct pc, a; cbn;
    try (split; [discriminate | intros [x Hx]; discriminate]);
    (split; [intros _ | reflexivity]).
  - destruct r; [eauto|]. destruct (existsb _ _); eauto.
  - destruct r; eauto.
  - destruct (is_ready r); eauto.
  - apply Hloop.
Qed.

(** Whatever the services answer to the operation an attempt in flight
    awaits is of the awaited kind. *)
Lemma ask_awaited (env : Services) (h : list Event) (name : string) (pc : Pool.Pc) :
  Pool.in_flight pc = true ->
  exists a ev, Pool.ask cfg env h name pc = Some (a, ev) /\ Pool.awaited pc a = true.
Proof using Type. destruct pc; cbn; intros H; try discriminate; eauto. Qed.

Lemma invoke_cached (name : string) (p : nat) (s : Pool.t) :
  Pool.promises s !! name = Some p -> Pool.invoke cfg name s = (inr p, s).
Proof using client. intros H. unfold Pool.invoke. now rewrite client, H. Qed.

Lemma invoke_fresh (name : string) (s : Pool.t) :
  Pool.promises s !! name = None ->
  Pool.invoke cfg name s
  = (inr (length (Pool.attempts s)),
     {| Pool.promises := <[name := length (Pool.attempts s)]> (Pool.promises s);
        Pool.attempts := Pool.attempts s
                         ++ [{| Pool.attempt_name := name; Pool.attempt_pc := Pool.AwaitList |}];
        Pool.issued := Pool.issued s ++ [(length (Pool.attempts s), Pool.CallList)] |}).
Proof using client. intros H. unfold Pool.invoke. now rewrite client, H. Qed.

Lemma sound_invoke (name : string) (s : Pool.t) :
  Pool.cached_sound s -> Pool.cached_sound (Pool.invoke cfg name s).2.
Proof using client.
  intros Hi. destruct (Pool.promises s !! name) as [p|] eqn:Hn.
  - now rewrite (invoke_cached name p s Hn).
  - rewrite (invoke_fresh name s Hn). cbn [snd].
    intros name' p' H. cbn [Pool.promises Pool.attempts] in *.
    destruct (decide (name = name')) as [<-|Hne].
    + rewrite lookup_insert_eq in H. injection H as <-.
      eexists. split; [apply list_lookup_middle; reflexivity|]. auto.
    + rewrite lookup_insert_ne in H by assumption.
      destruct (Hi name' p' H) as (att & Ha & Hname & Hr).
      exists att. split; [now apply lookup_app_l_Some | auto].
Qed.

Lemma shared_invoke (deleted : string -> bool) (name : string) (s : Pool.t) :
  Pool.shared deleted s -> Pool.shared deleted (Pool.invoke cfg name s).2.
Proof using client.
  intros Hii. destruct (Pool.promises s !! name) as [p|] eqn:Hn.
  - now rewrite (invoke_cached name p s Hn).
  - rewrite (invoke_fresh name s Hn). cbn [snd].
    intros p' att H Hfl Hdel. cbn [Pool.promises Pool.attempts] in *.
    apply lookup_app_Some in H as [H | [Hge H]].
    + pose proof (Hii p' att H Hfl Hdel) as Hp.
      destruct (decide (name = Pool.attempt_name att)) as [Heq|Hne]; [congruence|].
      now rewrite lookup_insert_ne.
    + destruct (p' - length (Pool.attempts s)) as [|k] eqn:Hk; [|discriminate].
      injection H as <-. cbn. rewrite lookup_insert_eq. f_equal. lia.
Qed.

Lemma sound_deliver (p : nat) (a : Pool.Answer) (s s' : Pool.t) :
  Pool.cached_sound s -> Pool.deliver cfg p a s = Some s' -> Pool.cached_sound s'.
Proof using Type.
  intros Hi Hd. unfold Pool.deliver in Hd.
  destruct (Pool.attempts s !! p) as [att|] eqn:Hp; [|discriminate].
  destruct (Pool.resume cfg (Pool.attempt_name att) (Pool.attempt_pc att) a)
    as [[pc' next]|] eqn:Hr; [|discriminate].
  injection Hd as <-.
  pose proof (lookup_lt_Some _ _ _ Hp) as Hlt.
  intros name q H. cbn [Pool.promises Pool.attempts] in *.
  assert (Hq : Pool.promises s !! name = Some q
               /\ (Pool.is_rejected pc' = true -> name <> Pool.attempt_name att)).
  { destruct (Pool.is_rejected pc'); [|split; [exact H | discriminate]].
    apply lookup_delete_Some in H as [Hne H]. split; [exact H | intros _; congruence]. }
  destruct Hq as [Hq Hrej]. destruct (Hi name q Hq) as (att_q & Ha & Hname & Hnr).
  destruct (decide (p = q)) as [<-|Hne].
  - rewrite list_lookup_insert_eq by assumption. eexists. split; [reflexivity|].
    cbn. assert (att_q = att) by congruence. subst att_q. split; [exact Hname|].
    destruct (Pool.is_rejected pc') eqn:E; [|reflexivity].
    exfalso. apply Hrej; congruence.
  - rewrite list_lookup_insert_ne by assumption. eauto.
Qed.

Lemma shared_deliver (deleted : string -> bool) (p : nat) (a : Pool.Answer) (s s' : Pool.t) :
  Pool.shared deleted s -> Pool.deliver cfg p a s = Some s' -> Pool.shared deleted s'.
Proof using Type.
  intros Hii Hd. unfold Pool.deliver in Hd.
  destruct (Pool.attempts s !! p) as [att|] eqn:Hp; [|discriminate].
  destruct (Pool.resume cfg (Pool.attempt_name att) (Pool.attempt_pc att) a)
    as [[pc' next]|] eqn:Hr; [|discriminate].
  injection Hd as <-.
  pose proof (resume_in_flight _ _ _ _ _ Hr) as Hfl.
  pose proof (lookup_lt_Some _ _ _ Hp) as Hlt.
  intros q att_q H Hflq Hdel. cbn [Pool.promises Pool.attempts] in *.
  destruct (decide (p = q)) as [<-|Hne].
  - rewrite list_lookup_insert_eq in H by assumption. injection H as <-.
    cbn in *. pose proof (Hii p att Hp Hfl Hdel) as Hcached.
    destruct pc'; try discriminate; exact Hcached.
  - rewrite list_lookup_insert_ne in H by assumption.
    pose proof (Hii q att_q H Hflq Hdel) as Hq.
    destruct (Pool.is_rejected pc'); [|exact Hq].
    rewrite lookup_delete_ne; [exact Hq|]. intros Heq.
    rewrite <- Heq in Hq, Hdel. pose proof (Hii p att Hp Hfl Hdel) as Hcached. congruence.
Qed.

Lemma sound_evict (name : string) (s : Pool.t) :
  Pool.cached_sound s ->
  Pool.cached_sound {| Pool.promises := delete name (Pool.promises s);
                       Pool.attempts := Pool.attempts s; Pool.issued := Pool.issued s |}.
Proof using Type.
  intros Hi name' p H. cbn [Pool.promises Pool.attempts] in *.
  apply lookup_delete_Some in H as [_ H]. now apply Hi.
Qed.

Lemma shared_evict (deleted : string -> bool) (name : string) (s : Pool.t) :
  deleted name = true -> Pool.shared deleted s ->
  Pool.shared deleted {| Pool.promises := delete name (Pool.promises s);
                         Pool.attempts := Pool.attempts s; Pool.issued := Pool.issued s |}.
Proof using Type.
  clear client. intros Hd Hii p att H Hfl Hdel. cbn [Pool.promises Pool.attempts] in *.
  rewrite lookup_delete_ne; [now apply Hii|]. intros ->. congruence.
Qed.

Lemma reachable_sound (deleted : string -> bool) (s : Pool.t) :
  Pool.reachable cfg deleted s -> Pool.cached_sound s /\ Pool.shared deleted s.
Proof using client.
  induction 1 as [|name s _ [IH1 IH2]|p a s s' _ [IH1 IH2] Hd|name s Hdel _ [IH1 IH2]].
  - split.
    + intros name p H. cbn in H. now rewrite lookup_empty in H.
    + intros p att H. destruct p; discriminate.
  - split; [now apply sound_invoke | now apply shared_invoke].
  - split; [eapply sound_deliver | eapply shared_deliver]; eassumption.
  - split; [now apply sound_evict | now apply shared_evict].
Qed.

Lemma consistent_empty : Pool.consistent Pool.empty.
Proof using Type.
  split.
  - intros name p H. cbn in H. now rewrite lookup_empty in H.
  - intros p att H. destruct p; discriminate.
Qed.

Lemma consistent_shared (s : Pool.t) :
  Pool.consistent s <-> Pool.cached_sound s /\ Pool.shared Pool.no_name s.
Proof using Type.
  split; intros [Hi Hii]; (split; [exact Hi|]).
  - intros p att H Hfl _. now apply Hii.
  - intros p att H Hfl. now apply Hii.
Qed.

Lemma consistent_invoke (name : string) (s : Pool.t) :
  Pool.consistent s -> Pool.consistent (Pool.invoke cfg name s).2.
Proof using client.
  rewrite !consistent_shared. intros [Hi Hii].
  split; [now apply sound_invoke | now apply shared_invoke].
Qed.

Lemma consistent_deliver (p : nat) (a : Pool.Answer) (s s' : Pool.t) :
  Pool.consistent s -> Pool.deliver cfg p a s = Some s' -> Pool.consistent s'.
Proof using Type.
  rewrite !consistent_shared. intros [Hi Hii] Hd.
  split; [eapply sound_deliver | eapply shared_deliver]; eassumption.
Qed.

(** The eviction of [DELETE] is a step of the pool. *)
Lemma reachable_delete (deleted : string -> bool) (name : string) (s : Pool.t) :
  deleted name = true -> Pool.reachable cfg deleted s ->
  Pool.reachable cfg deleted (Admin.evict name s).
Proof using Type. apply Pool.reachable_evict. Qed.

(** Without [DELETE] every reachable pool is consistent. *)
Lemma reachable_consistent (s : Pool.t) :
  Pool.reachable cfg Pool.no_name s -> Pool.consistent s.
Proof using client.
  intros H. apply consistent_shared. now apply reachable_sound.
Qed.

(** A settled promise keeps its outcome. *)
Lemma outcome_stable (p q : nat) (a : Pool.Answer) (s s' : Pool.t) o :
  Pool.outcome s p = Some o -> Pool.deliver cfg q a s = Some s' ->
  Pool.outcome s' p = Some o.
Proof using Type.
  unfold Pool.outcome, Pool.deliver. intros Ho Hd.
  destruct (Pool.attempts s !! q) as [att|] eqn:Hq; [|discriminate].
  destruct (Pool.resume cfg (Pool.attempt_name att) (Pool.attempt_pc att) a)
    as [[pc' next]|] eqn:Hr; [|discriminate].
  injection Hd as <-. cbn [Pool.attempts].
  destruct (decide (q = p)) as [->|Hne].
  - rewrite Hq in Ho. apply resume_in_flight in Hr.
    destruct (Pool.attempt_pc att); discriminate.
  - now rewrite list_lookup_insert_ne.
Qed.

Lemma outcome_invoke (p : nat) (name : string) (s : Pool.t) o :
  Pool.outcome s p = Some o -> Pool.outcome (Pool.invoke cfg name s).2 p = Some o.
Proof using client.
  intros Ho. destruct (Pool.promises s !! name) as [q|] eqn:Hn.
  - now rewrite (invoke_cached name q s Hn).
  - rewrite (invoke_fresh name s Hn). cbn [snd]. unfold Pool.outcome in *.
    cbn [Pool.attempts]. destruct (Pool.attempts s !! p) as [att|] eqn:Hp; [|discriminate].
    now rewrite (lookup_app_l_Some _ _ _ _ Hp).
Qed.

(** The answer an attempt awaits always resumes it. *)
Lemma deliver_awaited (p : nat) (att : Pool.Attempt) (a : Pool.Answer) (s : Pool.t) :
  Pool.attempts s !! p = Some att -> Pool.awaited (Pool.attempt_pc att) a = true ->
  exists s', Pool.deliver cfg p a s = Some s'.
Proof using Type.
  intros Hp Ha. unfold Pool.deliver. rewrite Hp.
  apply (resume_awaited (Pool.attempt_name att)) in Ha as [[pc' next] ->]. eauto.
Qed.

(** A rejected listing or creation rejects the attempt and removes the
    entry of its name. *)
Lemma deliver_failure (p : nat) (att : Pool.Attempt) (a : Pool.Answer) (e : Thrown)
    (s : Pool.t) :
  Pool.attempts s !! p = Some att ->
  (Pool.attempt_pc att = Pool.AwaitList /\ a = Pool.Listed (inl e))
  \/ (Pool.attempt_pc att = Pool.AwaitCreate /\ a = Pool.Created (inl e)) ->
  exists s', Pool.deliver cfg p a s = Some s'
             /\ Pool.outcome s' p = Some (inl e)
             /\ Pool.promises s' !! Pool.attempt_name att = None
             /\ Pool.issued s' = Pool.issued s.
Proof using Type.
  intros Hp Hcase. pose proof (lookup_lt_Some _ _ _ Hp) as Hlt.
  unfold Pool.deliver. rewrite Hp.
  destruct Hcase as [[-> ->]|[-> ->]]; cbn [Pool.resume Pool.is_rejected];
    (eexists; split; [reflexivity|]); unfold Pool.outcome;
    cbn [Pool.attempts Pool.promises Pool.issued];
    rewrite list_lookup_insert_eq by assumption; cbn;
    (split; [reflexivity|]); (split; [apply lookup_delete_eq | apply app_nil_r]).
Qed.

(** The polling loop gives up after the last sleep. *)
Lemma deliver_timeout (p : nat) (att : Pool.Attempt) (s : Pool.t) :
  Pool.attempts s !! p = Some att ->
  Pool.attempt_pc att = Pool.AwaitSleep (maxAttempts - 1) ->
  exists s', Pool.deliver cfg p Pool.Woke s = Some s'
             /\ Pool.outcome s' p = Some (inl (timed_out (Pool.attempt_name att)))
             /\ Pool.promises s' !! Pool.attempt_name att = None.
Proof using Type.
  intros Hp Hpc. pose proof (lookup_lt_Some _ _ _ Hp) as Hlt.
  unfold Pool.deliver. rewrite Hp, Hpc.
  eexists. split; [reflexivity|]. unfold Pool.outcome.
  cbn [Pool.attempts Pool.promises].
  rewrite list_lookup_insert_eq by assumption. cbn.
  split; [reflexivity | apply lookup_delete_eq].
Qed.

End PoolProofs.

(** C2.  In every pool that the requests of the route can produce, calls of
    [ensureIndexReady] interleaved in any way with the answers the attempts
    await and with the evictions of [DELETE]: the map holds for a name at
    most one attempt, an attempt of that name that has not failed; for a
    name [DELETE] is not called with, an attempt in flight is the cached
    one, so two attempts in flight for it are the same attempt (without
    [DELETE] the pool is consistent); a call that finds a cached attempt
    awaits that attempt and changes nothing, so it issues no call to the
    store; an attempt in flight is resumed by whatever the services answer
    to the operation it awaits; the outcome a settled attempt shows never
    changes; a rejected listing, a rejected creation and the end of the
    polling loop reject the attempt; and when an attempt fails its name is
    no longer in the map, so the next call for that name starts a new
    attempt, which lists the indexes again. *)
Theorem ensureIndexReady_single_attempt (cfg : Config) (deleted : string -> bool)
    (s : Pool.t) :
  has_client (PINECONE_API_KEY cfg) = true ->
  Pool.reachable cfg deleted s ->
  Pool.cached_sound s
  /\ Pool.shared deleted s
  /\ (forall p q a b,
        Pool.attempts s !! p = Some a -> Pool.attempts s !! q = Some b ->
        Pool.in_flight (Pool.attempt_pc a) = true ->
        Pool.in_flight (Pool.attempt_pc b) = true ->
        Pool.attempt_name a = Pool.attempt_name b ->
        deleted (Pool.attempt_name a) = false -> p = q)
  /\ ((forall name, deleted name = false) -> Pool.consistent s)
  /\ (forall name p, Pool.promises s !! name = Some p -> Pool.invoke cfg name s = (inr p, s))
  /\ (forall env h p att,
        Pool.attempts s !! p = Some att -> Pool.in_flight (Pool.attempt_pc att) = true ->
        exists a ev s',
          Pool.ask cfg env h (Pool.attempt_name att) (Pool.attempt_pc att) = Some (a, ev)
          /\ Pool.deliver cfg p a s = Some s'
          /\ Pool.reachable cfg deleted s')
  /\ (forall p att a,
        Pool.attempts s !! p = Some att -> Pool.awaited (Pool.attempt_pc att) a = true ->
        exists s', Pool.deliver cfg p a s = Some s')
  /\ (forall p o,
        Pool.outcome s p = Some o ->
        (forall q a s', Pool.deliver cfg q a s = Some s' -> Pool.outcome s' p = Some o)
        /\ (forall name, Pool.outcome (Pool.invoke cfg name s).2 p = Some o))
  /\ (forall p att a e,
        Pool.attempts s !! p = Some att ->
        (Pool.attempt_pc att = Pool.AwaitList /\ a = Pool.Listed (inl e))
        \/ (Pool.attempt_pc att = Pool.AwaitCreate /\ a = Pool.Created (inl e))
        \/ (Pool.attempt_pc att = Pool.AwaitSleep (maxAttempts - 1) /\ a = Pool.Woke
            /\ e = timed_out (Pool.attempt_name att)) ->
        exists s', Pool.deliver cfg p a s = Some s'
                   /\ Pool.outcome s' p = Some (inl e)
                   /\ Pool.promises s' !! Pool.attempt_name att = None)
  /\ (forall p a s' e,
        Pool.deliver cfg p a s = Some s' -> Pool.outcome s' p = Some (inl e) ->
        exists att,
          Pool.attempts s !! p = Some att
          /\ Pool.promises s' !! Pool.attempt_name att = None
          /\ length (Pool.attempts s') <> p
          /\ Pool.invoke cfg (Pool.attempt_name att) s'
             = (inr (length (Pool.attempts s')),
                {| Pool.promises :=
                     <[Pool.attempt_name att := length (Pool.attempts s')]> (Pool.promises s');
                   Pool.attempts :=
                     Pool.attempts s'
                     ++ [{| Pool.attempt_name := Pool.attempt_name att;
                            Pool.attempt_pc := Pool.AwaitList |}];
                   Pool.issued :=
                     Pool.issued s' ++ [(length (Pool.attempts s'), Pool.CallList)] |})).
Proof.
  intros Hcl Hreach.
  destruct (reachable_sound cfg Hcl deleted s Hreach) as [Hi Hii].
  split; [exact Hi|]. split; [exact Hii|].
  split; [|split; [|split; [|split; [|split; [|split; [|split]]]]]].
  - intros p q a b Ha Hb Hfa Hfb Hname Hdel.
    pose proof (Hii p a Ha Hfa Hdel) as Hp. rewrite Hname in Hdel.
    pose proof (Hii q b Hb Hfb Hdel) as Hq.
    rewrite Hname in Hp. congruence.
  - intros Hno. split; [exact Hi|]. intros p att Hp Hfl. apply Hii; auto.
  - intros name p. now apply invoke_cached.
  - intros env h p att Hp Hfl.
    destruct (ask_awaited cfg env h (Pool.attempt_name att) _ Hfl) as (a & ev & Hask & Haw).
    destruct (deliver_awaited cfg p att a s Hp Haw) as [s' Hd].
    exists a, ev, s'. split; [exact Hask|]. split; [exact Hd|].
    eapply Pool.reachable_deliver; eassumption.
  - intros p att a. apply deliver_awaited.
  - intros p o Ho. split.
    + intros q a s'. now apply outcome_stable.
    + intros name. now apply outcome_invoke.
  - intros p att a e Hp [Hcase|[Hcase|(Hpc & -> & ->)]].
    + destruct (deliver_failure cfg p att a e s Hp (or_introl Hcase)) as (s' & ? & ? & ? & _).
      eauto.
    + destruct (deliver_failure cfg p att a e s Hp (or_intror Hcase)) as (s' & ? & ? & ? & _).
      eauto.
    + now apply deliver_timeout.
  - intros p a s' e Hd Ho. unfold Pool.deliver in Hd.
    destruct (Pool.attempts s !! p) as [att|] eqn:Hp; [|discriminate].
    destruct (Pool.resume cfg (Pool.attempt_name att) (Pool.attempt_pc att) a)
      as [[pc' next]|] eqn:Hr; [|discriminate].
    injection Hd as <-. pose proof (lookup_lt_Some _ _ _ Hp) as Hlt.
    unfold Pool.outcome in Ho. cbn [Pool.attempts] in Ho.
    rewrite list_lookup_insert_eq in Ho by assumption. cbn in Ho.
    destruct pc'; try discriminate.
    exists att. split; [reflexivity|].
    assert (Hnone : delete (Pool.attempt_name att) (Pool.promises s)
                    !! Pool.attempt_name att = None) by apply lookup_delete_eq.
    split; [exact Hnone|].
    split; [cbn [Pool.attempts]; rewrite length_insert; lia|].
    rewrite (invoke_fresh cfg Hcl) by exact Hnone. reflexivity.
Qed.

Lemma ensureIndexReady_single_attempt_witness :
  has_client (PINECONE_API_KEY Scenario.config) = true
  /\ Pool.reachable Scenario.config Pool.any_name Scenario.one_attempt
  /\ Pool.promises Scenario.one_attempt !! "video-frames" = Some 0%nat
  /\ Pool.invoke Scenario.config "video-frames" Scenario.one_attempt
     = (inr 0%nat, Scenario.one_attempt)
  /\ exists s',
       Scenario.failed_attempt = Some s'
       /\ Pool.outcome s' 0 = Some (inl (Error "unreachable"))
       /\ Pool.promises s' !! "video-frames" = None
       /\ (Pool.invoke Scenario.config "video-frames" s').1 = inr 1%nat
       /\ Pool.issued (Pool.invoke Scenario.config "video-frames" s').2
          = [(0%nat, Pool.CallList); (1%nat, Pool.CallList)].
Proof.
  assert (Hr : Pool.reachable Scenario.config Pool.any_name Scenario.one_attempt)
    by (apply Pool.reachable_invoke, Pool.reachable_empty).
  pose proof (ensureIndexReady_single_attempt Scenario.config Pool.any_name
                Scenario.one_attempt eq_refl Hr)
    as (_ & _ & _ & _ & Hcached & _ & _ & _ & Hfail & Hretry).
  split; [reflexivity|]. split; [exact Hr|]. split; [reflexivity|].
  split; [exact (Hcached "video-frames" 0%nat eq_refl)|].
  destruct (Hfail 0%nat _ (Pool.Listed (inl (Error "unreachable"))) (Error "unreachable")
              eq_refl (or_introl (conj eq_refl eq_refl)))
    as (s' & Hd & Ho & Hnone).
  exists s'. split; [exact Hd|]. split; [exact Ho|]. split; [exact Hnone|].
  destruct (Hretry 0%nat _ s' _ Hd Ho) as (att & Hatt & _ & _ & Hinv).
  vm_compute in Hatt. injection Hatt as <-. cbn [Pool.attempt_name] in Hinv.
  rewrite Hinv. cbn [fst snd Pool.issued].
  vm_compute in Hd. injection Hd as <-. split; reflexivity.
Defined.

(** A failed listing evicts the attempt, and the next call starts attempt 1. *)
Example retry_after_failure :
  exists s', Scenario.failed_attempt = Some s'
             /\ Pool.outcome s' 0 = Some (inl (Error "unreachable"))
             /\ Pool.promises s' !! "video-frames" = None
             /\ (Pool.invoke Scenario.config "video-frames" s').1 = inr 1%nat
             /\ Pool.issued (Pool.invoke Scenario.config "video-frames" s').2
                = [(0%nat, Pool.CallList); (1%nat, Pool.CallList)].
Proof. eexists. split; [reflexivity|]. repeat split. Qed.

(** ** The two views of an attempt agree *)

Section Agreement.

Variable cfg : Config.
Variable env : Services.

Lemma run_settled (name : string) (fuel : nat) (r : Thrown + unit) (h : list Event) :
  Pool.run cfg env name fuel (Pool.settled r) h = (Pool.settled r, h).
Proof. destruct fuel, r; reflexivity. Qed.

(** The polling loop with [remaining] iterations left is the attempt at
    the head of the loop with counter [maxAttempts - remaining]. *)
Lemma run_poll (name : string) (remaining : nat) : forall (k fuel : nat) (st : State),
  k + remaining = maxAttempts -> 2 * remaining <= fuel ->
  Pool.run cfg env name fuel (Pool.loop_head name k).1 (trace st)
  = (Pool.settled (poll env name remaining st).1, trace (poll env name remaining st).2).
Proof.
  induction remaining as [|r IH]; intros k fuel st Hk Hfuel.
  - unfold Pool.loop_head. replace (k <? maxAttempts)%nat with false
      by (symmetry; apply Nat.ltb_ge; lia).
    cbn [fst poll]. apply (run_settled name fuel (inl (timed_out name))).
  - unfold Pool.loop_head. replace (k <? maxAttempts)%nat with true
      by (symmetry; apply Nat.ltb_lt; lia).
    cbn [fst poll]. rewrite run_bind. unfold try_, call.
    destruct fuel as [|[|fuel]]; [lia | lia |].
    cbn [Pool.run Pool.ask Pool.resume].
    destruct (is_ready (describeIndex env (trace st) name)) eqn:Hready.
    + cbn [fst snd]. apply (run_settled name (S fuel) (inr tt)).
    + cbn [Pool.run Pool.ask Pool.resume]. rewrite run_bind. unfold sleep.
      specialize (IH (S k) fuel
                     (record_event (EvSleep 2000)
                        (record_event
                           (EvDescribeIndex name (describeIndex env (trace st) name)) st))).
      cbn [record_event trace] in IH.
      destruct (Pool.loop_head name (S k)) as [pc' next]. cbn [fst] in IH.
      rewrite IH by lia. reflexivity.
Qed.

(** An attempt left to run alone ends where the [initializer] of the
    sequential reading ends, after the same calls. *)
Lemma run_initializer (name : string) (st : State) :
  Pool.run cfg env name (2 * maxAttempts + 2) Pool.AwaitList (trace st)
  = (Pool.settled (initializer cfg env name st).1, trace (initializer cfg env name st).2).
Proof.
  remember (initializer cfg env name st) as out eqn:Hout.
  unfold initializer in Hout. rewrite run_bind in Hout. unfold call at 1 in Hout.
  change (2 * maxAttempts + 2) with (S (S (2 * maxAttempts))).
  cbn [Pool.run Pool.ask Pool.resume].
  destruct (listIndexes env (trace st)) as [e|listing].
  { subst out. reflexivity. }
  rewrite run_bind in Hout.
  destruct (existsb (String.eqb name) (normalizeIndexList listing)).
  - rewrite run_ret in Hout. subst out.
    apply (run_poll name maxAttempts 0 (S (2 * maxAttempts))
             (record_event (EvListIndexes (inr listing)) st)); lia.
  - unfold call in Hout. cbn [Pool.run Pool.ask Pool.resume].
    cbn [record_event trace] in Hout.
    destruct (createIndex env _ (create_request cfg name)) as [e|[]].
    + subst out. reflexivity.
    + subst out.
      apply (run_poll name maxAttempts 0 (2 * maxAttempts)
               (record_event (EvCreateIndex (create_request cfg name) (inr tt))
                  (record_event (EvListIndexes (inr listing)) st))); lia.
Qed.

End Agreement.

(** ** The cache, one request at a time *)

Section Cache.

Variable cfg : Config.
Variable env : Services.
Hypothesis client : has_client (PINECONE_API_KEY cfg) = true.

(** A call that finds an entry returns its outcome and touches nothing. *)
Lemma ensureIndexReady_cached (name : string) (outcome : Thrown + unit) (st : State) :
  indexInitPromises st !! name = Some outcome ->
  ensureIndexReady cfg env name st = (outcome, st).
Proof using client.
  intros H. unfold ensureIndexReady, getPineconeClient. rewrite client.
  rewrite run_bind, run_ret, run_bind. unfold gets. now rewrite H.
Qed.

(** A call that finds no entry runs the initializer; the entry stays when it
    succeeds and is gone when it fails. *)
Lemma ensureIndexReady_fresh (name : string) (st : State) :
  indexInitPromises st !! name = None ->
  let out := ensureIndexReady cfg env name st in
  out.1 = (initializer cfg env name st).1
  /\ trace out.2 = trace (initializer cfg env name st).2
  /\ indexInitPromises out.2 !! name
     = match out.1 with
       | inl _ => None
       | inr _ => Some (inr tt)
       end.
Proof using client.
  intros H out. subst out. unfold ensureIndexReady, getPineconeClient. rewrite client.
  rewrite run_bind, run_ret, run_bind. unfold gets. rewrite H.
  rewrite run_bind. unfold try_.
  destruct (initializer cfg env name st) as [[e|[]] st1]; cbn.
  - repeat split. apply lookup_delete_eq.
  - repeat split. apply lookup_insert_eq.
Qed.

End Cache.

(** ** Worked examples *)

(** Two texts, two vectors of two components: returned in order, with two
    warnings about the dimension. *)
Example embedTexts_dimension_warning :
  let out := embedTexts Scenario.config Scenario.services ["a car"; "a dog"] Scenario.start in
  out.1 = inr [[1%Q; 2%Q]; [1%Q; 2%Q]]
  /\ map log_level (console out.2) = [LogWarn; LogWarn]
  /\ map log_text (console out.2)
     = [ "Gemini embedding dimension mismatch: expected 3072, received 2.";
         "Gemini embedding dimension mismatch: expected 3072, received 2." ].
Proof. repeat split. Qed.

(** The service has no vector for the second text: the call throws, after
    both requests were issued. *)
Example embedTexts_no_vector :
  let out := embedTexts Scenario.config Scenario.services ["a car"; ""] Scenario.start in
  out.1 = inl no_vector
  /\ trace out.2 = [EvEmbed "a car" (inr (Some [1%Q; 2%Q])); EvEmbed "" (inr None)].
Proof. repeat split. Qed.

(** A second readiness check for the same index makes no call. *)
Example ensureIndexReady_twice :
  let first := ensureIndexReady Scenario.config Scenario.services "video-frames" Scenario.start in
  let second := ensureIndexReady Scenario.config Scenario.services "video-frames" first.2 in
  first.1 = inr tt /\ second = (inr tt, first.2).
Proof. vm_compute. split; reflexivity. Qed.

(** * Further properties *)

(** ** The provisioning coordinator, one request at a time *)

Section Attempt.

Variable cfg : Config.
Variable env : Services.

(** The polling loop records events and changes nothing else. *)
Lemma poll_shape (name : string) (n : nat) : forall st, exists r evs,
  poll env name n st
  = (r, {| trace := trace st ++ evs; indexInitPromises := indexInitPromises st;
           console := console st |})
  /\ Forall (fun ev => View.is_poll_event name ev = true) evs.
Proof.
  induction n as [|n IH]; intros st; cbn [poll].
  - exists (inl (timed_out name)), []. rewrite app_nil_r. split; [now destruct st | constructor].
  - rewrite run_bind. unfold try_, call.
    assert (Hd : forall r, View.is_poll_event name (EvDescribeIndex name r) = true)
      by (intros r; apply String.eqb_refl).
    destruct (is_ready (describeIndex env (trace st) name)).
    + eexists _, [_]. split; [reflexivity|]. repeat constructor. apply Hd.
    + rewrite run_bind. unfold sleep.
      destruct (IH (record_event (EvSleep 2000)
                      (record_event (EvDescribeIndex name (describeIndex env (trace st) name))
                         st))) as (r & evs & Hrun & Hevs).
      exists r, ([EvDescribeIndex name (describeIndex env (trace st) name); EvSleep 2000] ++ evs).
      split.
      * rewrite Hrun. cbn. rewrite <- ?app_assoc. reflexivity.
      * repeat constructor; [apply Hd | exact Hevs].
Qed.

Lemma initializer_shape (name : string) (st : State) : exists r evs,
  initializer cfg env name st
  = (r, {| trace := trace st ++ evs; indexInitPromises := indexInitPromises st;
           console := console st |}).
Proof.
  unfold initializer. rewrite run_bind. unfold call at 1. cbn beta zeta.
  destruct (listIndexes env (trace st)) as [e|listing]; [eexists _, [_]; reflexivity|].
  rewrite run_bind.
  destruct (existsb (String.eqb name) (normalizeIndexList listing)).
  - rewrite run_ret.
    destruct (poll_shape name maxAttempts (record_event (EvListIndexes (inr listing)) st))
      as (r & evs & Hrun & _).
    exists r, (EvListIndexes (inr listing) :: evs). rewrite Hrun. cbn.
    rewrite <- ?app_assoc. reflexivity.
  - unfold call. cbn [record_event trace].
    destruct (createIndex env _ (create_request cfg name)) as [e|[]] eqn:Hcreate.
    { exists (inl e), [EvListIndexes (inr listing);
                       EvCreateIndex (create_request cfg name) (inl e)].
      unfold record_event. cbn. rewrite <- ?app_assoc. reflexivity. }
    destruct (poll_shape name maxAttempts
                (record_event (EvCreateIndex (create_request cfg name) (inr tt))
                   (record_event (EvListIndexes (inr listing)) st)))
      as (r & evs & Hrun & _).
    exists r, ([EvListIndexes (inr listing);
                EvCreateIndex (create_request cfg name) (inr tt)] ++ evs).
    cbn [record_event trace indexInitPromises console] in Hrun. rewrite Hrun. cbn.
    rewrite <- ?app_assoc. reflexivity.
Qed.

Lemma initializer_state (name : string) (st : State) :
  indexInitPromises (initializer cfg env name st).2 = indexInitPromises st
  /\ console (initializer cfg env name st).2 = console st.
Proof.
  destruct (initializer_shape name st) as (r & evs & ->). split; reflexivity.
Qed.

(** A call that finds no entry: the initializer runs, and the cache ends
    with the entry added on success and as it was on failure. *)
Lemma ensureIndexReady_run (name : string) (st : State) :
  has_client (PINECONE_API_KEY cfg) = true ->
  indexInitPromises st !! name = None ->
  let out := initializer cfg env name st in
  ensureIndexReady cfg env name st
  = (out.1,
     {| trace := trace out.2;
        indexInitPromises :=
          match out.1 with
          | inl _ => indexInitPromises st
          | inr _ => <[name := inr tt]> (indexInitPromises st)
          end;
        console := console st |}).
Proof.
  intros Hc Hnone out. subst out.
  unfold ensureIndexReady, getPineconeClient. rewrite Hc.
  rewrite run_bind, run_ret, run_bind. unfold gets. rewrite Hnone.
  rewrite run_bind. unfold try_.
  destruct (initializer_state name st) as [Hp Hcon].
  destruct (initializer cfg env name st) as [[e|[]] st1]; cbn [fst snd] in *.
  - rewrite run_bind. unfold set_promises, throw. cbn.
    rewrite Hp, Hcon, run_bind. cbn.
    rewrite delete_insert_eq, (delete_id _ _ Hnone). reflexivity.
  - rewrite run_bind. unfold set_promises. cbn. rewrite Hp, Hcon. reflexivity.
Qed.

(** When the index never reports ready, the loop gives up after exactly
    [n] rounds. *)
Lemma poll_never_ready (name : string) :
  (forall h, is_ready (describeIndex env h name) = false) ->
  forall n st, exists answers,
    length answers = n
    /\ poll env name n st
       = (inl (timed_out name),
          {| trace := trace st ++ flat_map (View.poll_round name) answers;
             indexInitPromises := indexInitPromises st;
             console := console st |}).
Proof.
  intros Hnever. induction n as [|n IH]; intros st; cbn [poll].
  - exists []. split; [reflexivity|]. cbn. rewrite app_nil_r. now destruct st.
  - rewrite run_bind. unfold try_, call. rewrite Hnever.
    rewrite run_bind. unfold sleep.
    destruct (IH (record_event (EvSleep 2000)
                    (record_event (EvDescribeIndex name (describeIndex env (trace st) name)) st)))
      as (answers & Hlen & Hrun).
    exists (describeIndex env (trace st) name :: answers). split; [cbn; lia|].
    rewrite Hrun. cbn. rewrite <- ?app_assoc. reflexivity.
Qed.

Lemma slept_rounds (name : string) (answers : list (Thrown + option IndexStatus)) :
  View.slept (flat_map (View.poll_round name) answers) = (2000 * Z.of_nat (length answers))%Z.
Proof.
  induction answers as [|a l IH]; [reflexivity|].
  change (View.slept (flat_map (View.poll_round name) (a :: l)))
    with (2000 + View.slept (flat_map (View.poll_round name) l))%Z.
  rewrite IH. cbn [length]. lia.
Qed.

End Attempt.

Lemma existsb_eqb_elem (name : string) (l : list string) :
  existsb (String.eqb name) l = true <-> name ∈ l.
Proof.
  rewrite existsb_exists, list_elem_of_In. split.
  - intros (x & Hin & Heq). apply String.eqb_eq in Heq. now subst.
  - intros Hin. exists name. split; [exact Hin | apply String.eqb_refl].
Qed.

(** A fresh attempt whose listing succeeded: the events before the loop,
    then the loop. *)
Lemma initializer_listed (cfg : Config) (env : Services) (name : string) (st : State)
    (listing : IndexListing) :
  listIndexes env (trace st) = inr listing ->
  let st1 := record_event (EvListIndexes (inr listing)) st in
  initializer cfg env name st
  = if existsb (String.eqb name) (normalizeIndexList listing)
    then poll env name maxAttempts st1
    else match createIndex env (trace st1) (create_request cfg name) with
         | inl e => (inl e, record_event (EvCreateIndex (create_request cfg name) (inl e)) st1)
         | inr _ => poll env name maxAttempts
                      (record_event (EvCreateIndex (create_request cfg name) (inr tt)) st1)
         end.
Proof.
  intros Hl st1. subst st1. unfold initializer. rewrite run_bind. unfold call at 1.
  cbn beta zeta. rewrite Hl. rewrite run_bind.
  destruct (existsb (String.eqb name) (normalizeIndexList listing)).
  - rewrite run_ret. reflexivity.
  - unfold call. cbn [record_event trace].
    destruct (createIndex env _ (create_request cfg name)) as [e|[]]; reflexivity.
Qed.

(** X1.  An index that never reports ready makes [ensureIndexReady] give up:
    with no cached entry, a listing that succeeds and creation that succeeds,
    the call throws the time-out error after exactly 150 rounds of
    [describeIndex] followed by a 2000 ms sleep (300 s in all), and the cache
    is left as it was, without an entry for the name. *)
Theorem ensureIndexReady_times_out (cfg : Config) (env : Services) (name : string)
    (st : State) (listing : IndexListing) :
  has_client (PINECONE_API_KEY cfg) = true ->
  indexInitPromises st !! name = None ->
  listIndexes env (trace st) = inr listing ->
  (forall h, createIndex env h (create_request cfg name) = inr tt) ->
  (forall h, is_ready (describeIndex env h name) = false) ->
  let out := ensureIndexReady cfg env name st in
  out.1 = inl (timed_out name)
  /\ indexInitPromises out.2 = indexInitPromises st
  /\ exists answers,
       length answers = 150%nat
       /\ Obs.new_events st out.2
          = View.attempt_prefix cfg name listing ++ flat_map (View.poll_round name) answers
       /\ View.slept (flat_map (View.poll_round name) answers) = 300000%Z.
Proof.
  intros Hc Hnone Hl Hcreate Hnever out. subst out.
  rewrite (ensureIndexReady_run cfg env name st Hc Hnone).
  rewrite (initializer_listed cfg env name st listing Hl).
  unfold View.attempt_prefix.
  destruct (existsb (String.eqb name) (normalizeIndexList listing)).
  - destruct (poll_never_ready env name Hnever maxAttempts
                (record_event (EvListIndexes (inr listing)) st)) as (answers & Hlen & ->).
    cbn [fst snd]. repeat split. exists answers. split; [exact Hlen|]. split.
    + apply new_events_app. cbn. rewrite <- ?app_assoc. reflexivity.
    + rewrite slept_rounds, Hlen. reflexivity.
  - rewrite Hcreate.
    destruct (poll_never_ready env name Hnever maxAttempts
                (record_event (EvCreateIndex (create_request cfg name) (inr tt))
                   (record_event (EvListIndexes (inr listing)) st)))
      as (answers & Hlen & ->).
    cbn [fst snd]. repeat split. exists answers. split; [exact Hlen|]. split.
    + apply new_events_app. cbn. rewrite <- ?app_assoc. reflexivity.
    + rewrite slept_rounds, Hlen. reflexivity.
Qed.

Lemma ensureIndexReady_times_out_witness :
  (ensureIndexReady Scenario.config Cases.never_ready "video-frames" Scenario.start).1
  = inl (timed_out "video-frames").
Proof.
  exact (proj1 (ensureIndexReady_times_out Scenario.config Cases.never_ready "video-frames"
                  Scenario.start _ eq_refl eq_refl eq_refl
                  (fun _ => eq_refl) (fun _ => eq_refl))).
Defined.

Lemma poll_no_create (name : string) (evs : list Event) :
  Forall (fun ev => View.is_poll_event name ev = true) evs ->
  Forall (fun ev => View.is_create ev = false) evs.
Proof.
  intros H. eapply Forall_impl; [exact H|]. intros [] Hev; try reflexivity; discriminate.
Qed.

(** X2.  A fresh attempt creates the index exactly when the listing does not
    name it.  When the normalised listing holds the name, the listing is
    followed by polling only; when it does not, the second call is one
    [createIndex] for that name with dimension 3072, metric cosine and the
    configured cloud and region (aws, us-east-1 by default), a rejected
    creation ends the attempt with that error, and no other creation is
    issued. *)
Theorem ensureIndexReady_creates_unlisted (cfg : Config) (env : Services) (name : string)
    (st : State) (listing : IndexListing) :
  has_client (PINECONE_API_KEY cfg) = true ->
  indexInitPromises st !! name = None ->
  listIndexes env (trace st) = inr listing ->
  let out := ensureIndexReady cfg env name st in
  let new := Obs.new_events st out.2 in
  let request := create_request cfg name in
  (name ∈ normalizeIndexList listing ->
     exists rest, new = EvListIndexes (inr listing) :: rest
                  /\ Forall (fun ev => View.is_poll_event name ev = true) rest)
  /\ (name ∉ normalizeIndexList listing ->
      exists r rest,
        new = EvListIndexes (inr listing) :: EvCreateIndex request r :: rest
        /\ r = createIndex env (trace st ++ [EvListIndexes (inr listing)]) request
        /\ Forall (fun ev => View.is_poll_event name ev = true) rest
        /\ (forall e, r = inl e -> rest = [] /\ out.1 = inl e))
  /\ Forall (fun ev => View.is_create ev = true -> ev = EvCreateIndex request
                         (createIndex env (trace st ++ [EvListIndexes (inr listing)]) request))
            new
  /\ create_name request = name
  /\ create_dimension request = 3072%Z
  /\ create_metric request = "cosine"
  /\ create_cloud request = default "aws" (PINECONE_CLOUD cfg)
  /\ create_region request = default "us-east-1" (PINECONE_REGION cfg).
Proof.
  intros Hc Hnone Hl out new request. subst out new request.
  rewrite (ensureIndexReady_run cfg env name st Hc Hnone).
  rewrite (initializer_listed cfg env name st listing Hl).
  cbn [fst snd trace].
  pose proof (existsb_eqb_elem name (normalizeIndexList listing)) as Hmem.
  destruct (existsb (String.eqb name) (normalizeIndexList listing)).
  - destruct (poll_shape env name maxAttempts (record_event (EvListIndexes (inr listing)) st))
      as (r & evs & -> & Hevs).
    cbn [fst snd trace record_event].
    rewrite (new_events_app st _ (EvListIndexes (inr listing) :: evs))
      by (cbn; rewrite <- ?app_assoc; reflexivity).
    split; [intros _; eauto|].
    split; [intros Hnot; exfalso; apply Hnot, Hmem; reflexivity|].
    split; [|repeat split].
    constructor; [intros [=]|].
    eapply Forall_impl; [exact (poll_no_create name evs Hevs)|].
    intros ev H1 H2. congruence.
  - cbn [record_event trace].
    destruct (createIndex env (trace st ++ [EvListIndexes (inr listing)])
                (create_request cfg name)) as [e|[]] eqn:Hcr.
    + cbn [fst snd trace record_event].
      rewrite (new_events_app st _ [EvListIndexes (inr listing);
                                    EvCreateIndex (create_request cfg name) (inl e)])
        by (cbn; rewrite <- ?app_assoc; reflexivity).
      split; [intros Hin; apply Hmem in Hin; discriminate|].
      split.
      { intros _. exists (inl e), []. split; [reflexivity|]. split; [reflexivity|].
        split; [constructor|]. intros e0 [= <-]. split; reflexivity. }
      split; [|repeat split].
      constructor; [intros [=]|]. constructor; [intros _; reflexivity | constructor].
    + destruct (poll_shape env name maxAttempts
                  (record_event (EvCreateIndex (create_request cfg name) (inr tt))
                     (record_event (EvListIndexes (inr listing)) st)))
        as (r & evs & -> & Hevs).
      cbn [fst snd trace record_event].
      rewrite (new_events_app st _ (EvListIndexes (inr listing)
                                      :: EvCreateIndex (create_request cfg name) (inr tt) :: evs))
        by (cbn; rewrite <- ?app_assoc; reflexivity).
      split; [intros Hin; apply Hmem in Hin; discriminate|].
      split; [intros _; exists (inr tt), evs; repeat split; [exact Hevs | discriminate..]|].
      split; [|repeat split].
      constructor; [intros [=]|]. constructor; [intros _; reflexivity|].
      eapply Forall_impl; [exact (poll_no_create name evs Hevs)|].
      intros ev H1 H2. congruence.
Qed.

Lemma ensureIndexReady_creates_unlisted_witness :
  let out := ensureIndexReady Scenario.config Cases.no_index "clip-7" Scenario.start in
  ("clip-7" ∉ normalizeIndexList (ListingArray []))
  /\ exists r rest,
       Obs.new_events Scenario.start out.2
       = EvListIndexes (inr (ListingArray []))
           :: EvCreateIndex (create_request Scenario.config "clip-7") r :: rest
       /\ r = inr tt.
Proof.
  assert (Hnot : "clip-7" ∉ normalizeIndexList (ListingArray [])) by apply not_elem_of_nil.
  split; [exact Hnot|].
  destruct (proj1 (proj2 (ensureIndexReady_creates_unlisted Scenario.config Cases.no_index
                            "clip-7" Scenario.start (ListingArray [])
                            eq_refl eq_refl eq_refl)) Hnot)
    as (r & rest & Hnew & Hr & _).
  exists r, rest. split; [exact Hnew | exact Hr].
Defined.

(** X3.  A readiness check that succeeded is never repeated: afterwards the
    cache maps the name to the fulfilled promise, and every later call for
    that name, in any state that still holds the cache entries and whatever
    the services would answer, returns at once without calling anything. *)
Theorem ensureIndexReady_success_cached (cfg : Config) (env : Services) (name : string)
    (st : State) :
  (ensureIndexReady cfg env name st).1 = inr tt ->
  let st' := (ensureIndexReady cfg env name st).2 in
  indexInitPromises st' !! name = Some (inr tt)
  /\ forall (env' : Services) (later : State),
       indexInitPromises st' ⊆ indexInitPromises later ->
       ensureIndexReady cfg env' name later = (inr tt, later).
Proof.
  intros Hok st'.
  assert (Hc : has_client (PINECONE_API_KEY cfg) = true).
  { unfold ensureIndexReady, getPineconeClient in Hok.
    destruct (has_client (PINECONE_API_KEY cfg)); [reflexivity | discriminate]. }
  assert (Hentry : indexInitPromises st' !! name = Some (inr tt)).
  { subst st'. destruct (indexInitPromises st !! name) as [outcome|] eqn:Hlook.
    - rewrite (ensureIndexReady_cached cfg env Hc name outcome st Hlook) in Hok |- *.
      cbn [fst snd] in *. now subst.
    - rewrite (ensureIndexReady_run cfg env name st Hc Hlook) in Hok |- *.
      cbn [fst snd indexInitPromises] in *. rewrite Hok. apply lookup_insert_eq. }
  split; [exact Hentry|].
  intros env' later Hsub.
  apply (ensureIndexReady_cached cfg env' Hc).
  eapply lookup_weaken; [exact Hentry | exact Hsub].
Qed.

Lemma ensureIndexReady_success_cached_witness :
  let first := ensureIndexReady Scenario.config Cases.no_index "clip-7" Scenario.start in
  first.1 = inr tt
  /\ ensureIndexReady Scenario.config Cases.unreachable "clip-7" first.2 = (inr tt, first.2).
Proof.
  split; [reflexivity|].
  exact (proj2 (ensureIndexReady_success_cached Scenario.config Cases.no_index "clip-7"
                  Scenario.start eq_refl) Cases.unreachable _ (reflexivity _)).
Defined.

Lemma initializer_head (cfg : Config) (env : Services) (name : string) (st : State) :
  exists r rest,
    initializer cfg env name st
    = (r, {| trace := trace st ++ EvListIndexes (listIndexes env (trace st)) :: rest;
             indexInitPromises := indexInitPromises st; console := console st |}).
Proof.
  destruct (listIndexes env (trace st)) as [e|listing] eqn:Hl.
  - unfold initializer. rewrite run_bind. unfold call at 1. cbn beta zeta. rewrite Hl.
    exists (inl e), []. reflexivity.
  - rewrite (initializer_listed cfg env name st listing Hl).
    destruct (existsb (String.eqb name) (normalizeIndexList listing)).
    + destruct (poll_shape env name maxAttempts (record_event (EvListIndexes (inr listing)) st))
        as (r & evs & -> & _).
      exists r, evs. cbn. rewrite <- ?app_assoc. reflexivity.
    + cbn [record_event trace].
      destruct (createIndex env _ (create_request cfg name)) as [e|[]].
      * eexists _, [_]. unfold record_event. cbn. rewrite <- ?app_assoc. reflexivity.
      * destruct (poll_shape env name maxAttempts
                    (record_event (EvCreateIndex (create_request cfg name) (inr tt))
                       (record_event (EvListIndexes (inr listing)) st)))
          as (r & evs & -> & _).
        exists r, (EvCreateIndex (create_request cfg name) (inr tt) :: evs).
        cbn. rewrite <- ?app_assoc. reflexivity.
Qed.

(** X4.  A failed attempt is not cached: when a call that found no entry
    throws, the cache and the console are as before the call, and the next
    call for the same name starts a new attempt by listing the indexes
    again. *)
Theorem ensureIndexReady_failure_retried (cfg : Config) (env : Services) (name : string)
    (st : State) (e : Thrown) :
  has_client (PINECONE_API_KEY cfg) = true ->
  indexInitPromises st !! name = None ->
  (ensureIndexReady cfg env name st).1 = inl e ->
  let st' := (ensureIndexReady cfg env name st).2 in
  indexInitPromises st' = indexInitPromises st
  /\ console st' = console st
  /\ forall env' : Services,
       head (Obs.new_events st' (ensureIndexReady cfg env' name st').2)
       = Some (EvListIndexes (listIndexes env' (trace st'))).
Proof.
  intros Hc Hnone Hfail st'. subst st'.
  rewrite (ensureIndexReady_run cfg env name st Hc Hnone) in Hfail |- *.
  cbn [fst snd] in *. rewrite Hfail. cbn [indexInitPromises console].
  split; [reflexivity|]. split; [reflexivity|].
  intros env'.
  set (st1 := {| trace := trace (initializer cfg env name st).2;
                 indexInitPromises := indexInitPromises st; console := console st |}).
  rewrite (ensureIndexReady_run cfg env' name st1 Hc Hnone). cbn [snd trace].
  destruct (initializer_head cfg env' name st1) as (r & rest & ->).
  cbn [snd trace].
  now rewrite (new_events_app st1 _ (EvListIndexes (listIndexes env' (trace st1)) :: rest)).
Qed.

Lemma ensureIndexReady_failure_retried_witness :
  let first := ensureIndexReady Scenario.config Cases.unreachable "clip-7" Scenario.start in
  first.1 = inl (Error "unreachable")
  /\ indexInitPromises first.2 = ∅
  /\ head (Obs.new_events first.2
             (ensureIndexReady Scenario.config Cases.no_index "clip-7" first.2).2)
     = Some (EvListIndexes (inr (ListingArray []))).
Proof.
  destruct (ensureIndexReady_failure_retried Scenario.config Cases.unreachable "clip-7"
              Scenario.start (Error "unreachable") eq_refl eq_refl eq_refl)
    as (Hcache & _ & Hretry).
  split; [reflexivity|]. split; [exact Hcache|]. exact (Hretry Cases.no_index).
Defined.

(** ** Requests that skip the readiness check *)

Section Quiet.

Variable cfg : Config.
Variable rt : JsRuntime.
Variable env : Services.

Lemma no_provisioning_refl (st : State) : View.no_provisioning st st.
Proof. split; [reflexivity|]. exists []. split; [now rewrite app_nil_r | constructor]. Qed.

Lemma no_provisioning_trans (st1 st2 st3 : State) :
  View.no_provisioning st1 st2 -> View.no_provisioning st2 st3 ->
  View.no_provisioning st1 st3.
Proof.
  intros (Hp1 & e1 & H1 & F1) (Hp2 & e2 & H2 & F2). split; [congruence|].
  exists (e1 ++ e2). split; [now rewrite H2, H1, app_assoc|].
  apply Forall_app; split; assumption.
Qed.

Lemma quiet_ret {A} (a : A) : View.quiet (mret a : M A).
Proof. intros st. apply no_provisioning_refl. Qed.

Lemma quiet_throw {A} (e : Thrown) : View.quiet (throw e : M A).
Proof. intros st. apply no_provisioning_refl. Qed.

Lemma quiet_await {A} (p : Thrown + A) : View.quiet (await p).
Proof. intros st. apply no_provisioning_refl. Qed.

Lemma quiet_bind {A B} (m : M A) (f : A -> M B) :
  View.quiet m -> (forall a, View.quiet (f a)) -> View.quiet (m ≫= f).
Proof.
  intros Hm Hf st. rewrite run_bind. specialize (Hm st).
  destruct (m st) as [[e|a] st1]; cbn [snd] in *; [exact Hm|].
  eapply no_provisioning_trans; [exact Hm | apply Hf].
Qed.

Lemma quiet_try {A} (m : M A) : View.quiet m -> View.quiet (try_ m).
Proof. intros Hm st. unfold try_. specialize (Hm st). now destruct (m st). Qed.

Lemma quiet_console_write (l : LogLevel) (text : string) (e : option Thrown) :
  View.quiet (console_write l text e).
Proof.
  intros st. split; [reflexivity|]. exists []. split; [cbn; now rewrite app_nil_r | constructor].
Qed.

Lemma quiet_call {A} (ask : list Event -> Thrown + A) (ev : Thrown + A -> Event) :
  (forall r, is_provisioning (ev r) = false) -> View.quiet (call ask ev).
Proof.
  intros Hev st. split; [reflexivity|]. exists [ev (ask (trace st))].
  split; [reflexivity|]. repeat constructor. apply Hev.
Qed.

Lemma quiet_mapM {A B} (f : A -> M B) (l : list A) :
  (forall a, View.quiet (f a)) -> View.quiet (mapM f l).
Proof.
  intros Hf. induction l as [|x l IH]; cbn [mapM]; [apply quiet_ret|].
  apply quiet_bind; [apply Hf|]. intros y.
  apply quiet_bind; [exact IH|]. intros ys. apply quiet_ret.
Qed.

Ltac quiet :=
  repeat first
    [ apply quiet_ret | apply quiet_throw | apply quiet_await | apply quiet_console_write
    | apply quiet_call; intros; reflexivity
    | apply quiet_try
    | apply quiet_bind; [|intros ?]
    | match goal with
      | |- View.quiet (if ?b then _ else _) => destruct b
      | |- View.quiet (match ?x with _ => _ end) => destruct x
      end ].

Lemma quiet_getPineconeClient : View.quiet (getPineconeClient cfg).
Proof. unfold getPineconeClient. quiet. Qed.

Lemma quiet_embedTexts (texts : list string) : View.quiet (embedTexts cfg env texts).
Proof.
  unfold embedTexts. destruct texts as [|t texts]; [apply quiet_throw|].
  apply quiet_bind; [unfold getEmbeddingModel; quiet|]. intros _.
  apply quiet_bind; [|intros; apply quiet_await].
  apply quiet_mapM. intros text. unfold embedOne, checkEmbeddingDimensions. quiet.
Qed.

Lemma quiet_ensure_skipped (payload : RoutePayload) (name : string) :
  truthy_flag (skipEnsure payload) = true ->
  View.quiet (ensure_unless_skipped cfg env payload name).
Proof. intros H. unfold ensure_unless_skipped. rewrite H. apply quiet_ret. Qed.

Lemma quiet_dispatch (payload : RoutePayload) :
  truthy_flag (skipEnsure payload) = true -> View.quiet (dispatch cfg rt env payload).
Proof.
  intros Hskip. unfold dispatch.
  destruct (action_is payload "ingest_final").
  { unfold post_ingest_final. rewrite Hskip.
    apply quiet_bind; [apply quiet_console_write|]. intros _.
    apply quiet_bind; [apply quiet_console_write|]. intros _.
    cbv zeta.
    match goal with |- View.quiet (match ?fs with _ => _ end) => destruct fs end;
      [apply quiet_ret|].
    apply quiet_bind; [apply quiet_embedTexts|]. intros embeddings.
    apply quiet_bind.
    { unfold add_summary. destruct (summary payload); [|apply quiet_ret].
      destruct (summary_given _); [|apply quiet_ret].
      apply quiet_bind; [apply quiet_embedTexts|]. intros; apply quiet_ret. }
    intros extra.
    apply quiet_bind.
    { unfold add_manifest. apply quiet_bind; [apply quiet_try, quiet_embedTexts|].
      intros [e|vs]; quiet. }
    intros extra'.
    apply quiet_bind; [apply quiet_getPineconeClient|]. intros _. quiet. }
  destruct (action_is payload "ingest").
  { unfold post_ingest.
    apply quiet_bind; [apply quiet_ensure_skipped, Hskip|]. intros _.
    destruct (frames payload) as [[|f fs]|]; try apply quiet_ret.
    apply quiet_bind; [apply quiet_embedTexts|]. intros embeddings.
    apply quiet_bind; [apply quiet_await|]. intros vectors.
    apply quiet_bind; [apply quiet_getPineconeClient|]. intros _. quiet. }
  destruct (action_is payload "query").
  { unfold post_query.
    apply quiet_bind; [apply quiet_ensure_skipped, Hskip|]. intros _.
    destruct (truthy_str (question payload)); [|apply quiet_ret].
    apply quiet_bind; [apply quiet_embedTexts|]. intros vs.
    destruct (head vs); [|apply quiet_throw].
    apply quiet_bind; [apply quiet_getPineconeClient|]. intros _. quiet. }
  destruct (action_is payload "analyze").
  { unfold post_analyze.
    apply quiet_bind; [apply quiet_ensure_skipped, Hskip|]. intros _.
    destruct (truthy_str (question payload)); [|apply quiet_ret].
    apply quiet_bind; [apply quiet_embedTexts|]. intros vs.
    apply quiet_bind; [apply quiet_getPineconeClient|]. intros _.
    cbv zeta. apply quiet_bind; [apply quiet_call; intros; reflexivity|]. intros result.
    apply quiet_bind; [unfold getGenerationModel; quiet|]. intros _.
    apply quiet_bind; [apply quiet_call; intros; reflexivity|]. intros resp.
    apply quiet_bind; [apply quiet_await|]. intros; apply quiet_ret. }
  destruct (action_is payload "overview"); [|apply quiet_ret].
  unfold post_overview.
  apply quiet_bind; [apply quiet_ensure_skipped, Hskip|]. intros _.
  apply quiet_bind.
  { unfold fetch_summary. apply quiet_bind.
    - apply quiet_try. apply quiet_bind; [apply quiet_getPineconeClient|]. intros _.
      apply quiet_call; intros; reflexivity.
    - intros [e|r]; apply quiet_ret. }
  intros summary.
  apply quiet_bind; [apply quiet_embedTexts|]. intros vs.
  apply quiet_bind; [apply quiet_getPineconeClient|]. intros _.
  cbv zeta. apply quiet_bind; [apply quiet_call; intros; reflexivity|]. intros; apply quiet_ret.
Qed.

End Quiet.

(** X5.  A request with [skipEnsure: true] never touches the provisioning
    services: whatever the action and whatever the services answer, [POST]
    issues no [listIndexes], [createIndex] or [describeIndex] call, never
    sleeps, and leaves the cache of readiness promises as it was. *)
Theorem skipEnsure_no_provisioning (cfg : Config) (rt : JsRuntime) (env : Services)
    (payload : RoutePayload) (st : State) :
  skipEnsure payload = Some true ->
  let st' := (POST cfg rt env payload st).2 in
  indexInitPromises st' = indexInitPromises st
  /\ Forall (fun ev => is_provisioning ev = false) (Obs.new_events st st').
Proof.
  intros Hskip st'.
  assert (H : View.no_provisioning st st').
  { subst st'. unfold POST.
    assert (Hq : View.quiet (requireClients cfg;; dispatch cfg rt env payload)).
    { apply quiet_bind.
      - unfold requireClients. intros s.
        destruct (has_client (PINECONE_API_KEY cfg)), (has_client (GOOGLE_API_KEY cfg));
          apply no_provisioning_refl.
      - intros _. apply quiet_dispatch. now rewrite Hskip. }
    specialize (Hq st).
    destruct ((requireClients cfg;; dispatch cfg rt env payload) st) as [[e|r] st1];
      exact Hq. }
  destruct H as (Hp & evs & Htrace & Fevs). split; [exact Hp|].
  now rewrite (new_events_app st st' evs Htrace).
Qed.

Lemma skipEnsure_no_provisioning_witness :
  let payload := Scenario.request "analyze" (Some true) None (Some "what happens?") None in
  let out := POST Scenario.config Scenario.runtime Scenario.services payload Scenario.start in
  indexInitPromises out.2 = ∅
  /\ Forall (fun ev => is_provisioning ev = false) (Obs.new_events Scenario.start out.2)
  /\ length (Obs.new_events Scenario.start out.2) = 3%nat.
Proof.
  destruct (skipEnsure_no_provisioning Scenario.config Scenario.runtime Scenario.services
              (Scenario.request "analyze" (Some true) None (Some "what happens?") None)
              Scenario.start eq_refl) as [Hcache Hnew].
  split; [exact Hcache|]. split; [exact Hnew | reflexivity].
Defined.

(** ** The [query] branch *)

Section Query.

Variable cfg : Config.
Variable rt : JsRuntime.
Variable env : Services.

Lemma post_query_run (payload : RoutePayload) (st : State) :
  Obs.clients_configured cfg = true ->
  truthy_str (question payload) = true ->
  let idx := resolveIndexName cfg (indexName payload) in
  let ns := getNamespace cfg (videoId payload) in
  let q := default "" (question payload) in
  let out1 := ensure_unless_skipped cfg env payload idx st in
  let st1 := out1.2 in
  let a := embedContent env (trace st1) q in
  let st2 := {| trace := trace st1 ++ [EvEmbed q a];
                indexInitPromises := indexInitPromises st1;
                console := console st1 ++ Obs.settled_warning (Obs.settle a) |} in
  post_query cfg env payload st =
    match out1.1 with
    | inl e => (inl e, st1)
    | inr _ =>
        match Obs.settle a with
        | inl e => (inl e, st2)
        | inr v =>
            let req := {| query_vector := Some v;
                          query_topK := Z.min (default 3%Z (topK payload)) 50;
                          includeMetadata := true |} in
            let result := query env (trace st2) idx ns req in
            let st3 := record_event (EvQuery idx ns req result) st2 in
            match result with
            | inl e => (inl e, st3)
            | inr res => (inr (json 200 (QueryBody (default [] res) idx)), st3)
            end
        end
    end.
Proof.
  intros Hcl Hq. destruct (has_clients cfg Hcl) as [Hp Hg].
  cbv zeta. unfold post_query. rewrite run_bind.
  destruct (ensure_unless_skipped _ _ _ _ _) as [[e|[]] st1]; cbn [fst snd]; [reflexivity|].
  rewrite Hq. rewrite run_bind, embedTexts_single by assumption.
  destruct (Obs.settle _) as [e|v]; [reflexivity|].
  cbn [head]. unfold getPineconeClient. rewrite Hp.
  rewrite run_bind, run_ret, run_bind. unfold call at 1.
  destruct (query env _ _ _ _) as [e|res]; reflexivity.
Qed.

Lemma POST_query (payload : RoutePayload) (st : State) :
  action payload = Some "query" ->
  Obs.clients_configured cfg = true ->
  POST cfg rt env payload st =
    match post_query cfg env payload st with
    | (inr response, st') => (response, st')
    | (inl e, st') => (json 500 (ErrorBody (message_of e)), st')
    end.
Proof.
  intros Ha Hcl. unfold POST. rewrite run_bind, requireClients_run by assumption.
  unfold dispatch, action_is. rewrite Ha. reflexivity.
Qed.

End Query.

(** X6.  When [query] answers with status 200, the request made, after the
    readiness check (nothing at all with [skipEnsure]), exactly one embedding
    call for the question and one similarity query in the namespace of the
    video, with the embedding as vector, metadata included and
    [topK = min(topK ?? 3, 50)], hence at most 50; the matches of the
    response are the matches the store returned, in the store's order. *)
Theorem query_returns_matches (cfg : Config) (rt : JsRuntime) (env : Services)
    (payload : RoutePayload) (st : State) (matches : list Match) (index : string) :
  action payload = Some "query" ->
  (POST cfg rt env payload st).1 = json 200 (QueryBody matches index) ->
  exists prov v req result,
    Obs.new_events st (POST cfg rt env payload st).2
    = prov ++ [ EvEmbed (default "" (question payload)) (inr (Some v));
                EvQuery index (getNamespace cfg (videoId payload)) req (inr result) ]
    /\ Forall (fun ev => is_provisioning ev = true) prov
    /\ (truthy_flag (skipEnsure payload) = true -> prov = [])
    /\ truthy_str (question payload) = true
    /\ index = resolveIndexName cfg (indexName payload)
    /\ v <> []
    /\ req = {| query_vector := Some v;
                query_topK := Z.min (default 3%Z (topK payload)) 50;
                includeMetadata := true |}
    /\ (query_topK req <= 50)%Z
    /\ matches = default [] result.
Proof.
  intros Ha Hresp.
  destruct (Obs.clients_configured cfg) eqn:Hcl.
  2:{ destruct (POST_no_clients cfg rt env payload st Hcl) as [e He].
      rewrite He in Hresp. absurd_response. }
  rewrite POST_query in * by assumption.
  destruct (truthy_str (question payload)) eqn:Hq.
  2:{ unfold post_query in Hresp. rewrite run_bind in Hresp.
      destruct (ensure_unless_skipped _ _ _ _ _) as [[e|[]] st1];
        cbn [fst snd] in Hresp; [absurd_response|].
      rewrite Hq in Hresp. absurd_response. }
  rewrite post_query_run in * by assumption. cbv zeta in *.
  pose proof (ensure_unless_skipped_only_provisioning cfg env payload
                (resolveIndexName cfg (indexName payload)) st) as (prov & Hprov & Fprov).
  pose proof (ensure_skipped cfg env payload
                (resolveIndexName cfg (indexName payload)) st) as Hskip.
  destruct (ensure_unless_skipped _ _ _ _ _) as [[e|[]] st1]; cbn [fst snd] in *;
    [absurd_response|].
  set (a := embedContent env (trace st1) (default "" (question payload))) in *.
  destruct (Obs.settle a) as [e|v] eqn:Hset; [absurd_response|].
  apply settle_inr in Hset as [Ha' Hv].
  match type of Hresp with context [query env ?h ?i ?n ?r] =>
    set (req := r) in *; destruct (query env h i n req) as [e|res]
  end; [absurd_response|].
  cbn [fst snd] in *. unfold json in Hresp. injection Hresp as Hm Hi.
  subst matches index.
  exists prov, v, req, res.
  split.
  { apply new_events_app. cbn [record_event trace]. rewrite Hprov, Ha'.
    now rewrite <- !app_assoc. }
  split; [exact Fprov|]. split.
  { intros Hs. specialize (Hskip Hs). injection Hskip as Hst. subst st1.
    apply (app_inv_head (trace st)). now rewrite app_nil_r. }
  repeat split; try assumption. subst req. cbn. lia.
Qed.

Lemma query_returns_matches_witness :
  let payload := Scenario.request "query" (Some true) None (Some "a red car") None in
  let out := POST Scenario.config Scenario.runtime Scenario.services payload Scenario.start in
  out.1 = json 200 (QueryBody Scenario.store_matches "video-frames")
  /\ exists prov v req result,
       Obs.new_events Scenario.start out.2
       = prov ++ [ EvEmbed "a red car" (inr (Some v));
                   EvQuery "video-frames" "video-42" req (inr result) ]
       /\ query_topK req = 3%Z
       /\ Scenario.store_matches = default [] result.
Proof.
  split; [reflexivity|].
  destruct (query_returns_matches Scenario.config Scenario.runtime Scenario.services
              (Scenario.request "query" (Some true) None (Some "a red car") None)
              Scenario.start Scenario.store_matches "video-frames" eq_refl eq_refl)
    as (prov & v & req & result & Hnew & _ & _ & _ & _ & _ & Hreq & _ & Hm).
  exists prov, v, req, result. split; [exact Hnew|]. split; [|exact Hm].
  rewrite Hreq. reflexivity.
Defined.

(** ** The [ingest] branch *)

Section Ingest.

Variable cfg : Config.
Variable rt : JsRuntime.
Variable env : Services.

(** With an embedding for every frame no vector is missing. *)
Lemma ingest_vectors_zip (vid : option JsId) (embeddings : list (list Q)) :
  forall (fs : list Frame) (i : nat),
    i + length fs <= length embeddings ->
    ingest_vectors cfg vid embeddings i fs
    = inr (zip_with (View.ingest_vector cfg vid) fs (drop i embeddings)).
Proof.
  induction fs as [|f fs IH]; intros i Hlen; cbn [ingest_vectors length] in *.
  - reflexivity.
  - destruct (embeddings !! i) as [embedding|] eqn:Hi.
    2:{ apply lookup_ge_None in Hi. lia. }
    rewrite IH by lia.
    rewrite (drop_S _ _ _ Hi). reflexivity.
Qed.

Lemma POST_ingest (payload : RoutePayload) (st : State) :
  action payload = Some "ingest" ->
  Obs.clients_configured cfg = true ->
  POST cfg rt env payload st =
    match post_ingest cfg env payload st with
    | (inr response, st') => (response, st')
    | (inl e, st') => (json 500 (ErrorBody (message_of e)), st')
    end.
Proof.
  intros Ha Hcl. unfold POST. rewrite run_bind, requireClients_run by assumption.
  unfold dispatch, action_is. rewrite Ha. reflexivity.
Qed.

End Ingest.

(** What a successful [ingest] did. *)
Lemma ingest_success (cfg : Config) (rt : JsRuntime) (env : Services)
    (payload : RoutePayload) (st : State)
    (n : nat) (ns idx : string) (incl : option bool) :
  action payload = Some "ingest" ->
  (POST cfg rt env payload st).1 = json 200 (IngestBody n ns idx incl) ->
  exists fs prov embeddings,
    frames payload = Some fs /\ fs <> []
    /\ length embeddings = length fs
    /\ Forall (fun v => v <> []) embeddings
    /\ Obs.new_events st (POST cfg rt env payload st).2
       = prov ++ zip_with View.embedded fs embeddings
           ++ [EvUpsert idx ns
                 (zip_with (View.ingest_vector cfg (videoId payload)) fs embeddings)
                 (inr tt)]
    /\ Forall (fun ev => is_provisioning ev = true) prov
    /\ n = length fs
    /\ ns = getNamespace cfg (videoId payload)
    /\ idx = resolveIndexName cfg (indexName payload)
    /\ incl = None.
Proof.
  intros Ha Hresp.
  destruct (Obs.clients_configured cfg) eqn:Hcl.
  2:{ destruct (POST_no_clients cfg rt env payload st Hcl) as [e He].
      rewrite He in Hresp. absurd_response. }
  destruct (has_clients cfg Hcl) as [Hp Hg].
  rewrite POST_ingest in * by assumption.
  remember (post_ingest cfg env payload st) as out eqn:Hout.
  unfold post_ingest in Hout. rewrite run_bind in Hout.
  pose proof (ensure_unless_skipped_only_provisioning cfg env payload
                (resolveIndexName cfg (indexName payload)) st) as (prov & Hprov & Fprov).
  destruct (ensure_unless_skipped _ _ _ _ _) as [[e|[]] st1]; cbn [fst snd] in *.
  { subst out. absurd_response. }
  destruct (frames payload) as [[|f fs]|] eqn:Hfs; try (subst out; absurd_response).
  set (all := f :: fs) in *.
  set (texts := map (fun frame => default "" (description frame)) all) in *.
  rewrite run_bind in Hout.
  rewrite (embedTexts_run cfg env texts st1) in Hout by (assumption || discriminate).
  cbv zeta in Hout.
  set (answers := Obs.embed_answers env (trace st1) texts) in *.
  destruct (promise_all (map Obs.settle answers)) as [e|embeddings] eqn:Hall.
  { subst out. absurd_response. }
  apply promise_all_inr in Hall. pose proof Hall as Hsettled.
  apply map_settle_inr in Hall as [Hans Hne].
  assert (Hlen : length embeddings = length all).
  { rewrite <- (length_map (fun v => inr (Some v) : Thrown + option (list Q)) embeddings).
    rewrite <- Hans. subst answers. rewrite embed_answers_length. subst texts.
    apply length_map. }
  rewrite run_bind in Hout. unfold await at 1 in Hout.
  rewrite (ingest_vectors_zip cfg (videoId payload) embeddings all 0) in Hout
    by (rewrite Hlen; apply Nat.le_refl).
  rewrite drop_0 in Hout.
  unfold getPineconeClient in Hout. rewrite Hp in Hout.
  rewrite run_bind, run_ret, run_bind in Hout. unfold call in Hout.
  cbn [trace] in Hout.
  match type of Hout with context [upsert env ?h ?i ?n ?v] =>
    destruct (upsert env h i n v) as [e|[]]
  end; [subst out; absurd_response|].
  rewrite run_ret in Hout.
  subst out. cbn [fst snd] in *. unfold json in Hresp.
  injection Hresp as Hn Hns Hidx Hincl. subst n ns idx incl.
  exists all, prov, embeddings.
  split; [reflexivity|]. split; [discriminate|]. split; [exact Hlen|]. split; [exact Hne|].
  split.
  { apply new_events_app. cbn [record_event trace]. rewrite Hprov, Hans.
    rewrite zip_with_embed_map. subst texts. rewrite zip_with_fmap_l.
    rewrite <- !app_assoc. reflexivity. }
  split; [exact Fprov|]. split.
  { change (length (zip_with (View.ingest_vector cfg (videoId payload)) all embeddings)
            = length all).
    rewrite length_zip_with. lia. }
  repeat split.
Qed.

(** Once [embedTexts] has returned there is an embedding for every frame,
    so no frame is without one when the vectors are built. *)
Lemma ingest_vectors_returned (cfg : Config) (env : Services) (vid : option JsId)
    (fs : list Frame) (st1 : State) (embeddings : list (list Q)) :
  (embedTexts cfg env (map (fun frame => default "" (description frame)) fs) st1).1
  = inr embeddings ->
  length embeddings = length fs
  /\ ingest_vectors cfg vid embeddings 0 fs
     = inr (zip_with (View.ingest_vector cfg vid) fs embeddings).
Proof.
  intros Hr.
  assert (Hlen : length embeddings = length fs).
  { destruct fs as [|f fs]; [discriminate|].
    destruct (has_client (GOOGLE_API_KEY cfg)) eqn:Hg.
    2:{ rewrite embedTexts_no_client in Hr by (assumption || discriminate). discriminate. }
    rewrite embedTexts_run in Hr by (assumption || discriminate). cbn [fst] in Hr.
    apply promise_all_inr, map_settle_inr in Hr as [Hans _].
    rewrite <- (length_map (fun v => inr (Some v) : Thrown + option (list Q)) embeddings).
    rewrite <- Hans, embed_answers_length. apply length_map. }
  split; [exact Hlen|].
  rewrite (ingest_vectors_zip cfg vid embeddings fs 0) by (rewrite Hlen; apply Nat.le_refl).
  now rewrite drop_0.
Qed.

(** How an [ingest] request with frames runs once the index is ready and
    the descriptions are embedded: the upsert is called and decides the
    response. *)
Lemma ingest_runs (cfg : Config) (rt : JsRuntime) (env : Services)
    (payload : RoutePayload) (st : State) (f : Frame) (fs : list Frame) :
  action payload = Some "ingest" ->
  Obs.clients_configured cfg = true ->
  frames payload = Some (f :: fs) ->
  let out := POST cfg rt env payload st in
  let idx := resolveIndexName cfg (indexName payload) in
  let ns := getNamespace cfg (videoId payload) in
  let ready := ensure_unless_skipped cfg env payload idx st in
  let embedded :=
    embedTexts cfg env (map (fun frame => default "" (description frame)) (f :: fs)) ready.2 in
  ready.1 = inr tt ->
  forall embeddings, embedded.1 = inr embeddings ->
    let vectors := zip_with (View.ingest_vector cfg (videoId payload)) (f :: fs) embeddings in
    let r := upsert env (trace embedded.2) idx ns vectors in
    trace out.2 = trace embedded.2 ++ [EvUpsert idx ns vectors r]
    /\ out.1 = match r with
               | inl e => json 500 (ErrorBody (message_of e))
               | inr _ => json 200 (IngestBody (length (f :: fs)) ns idx None)
               end.
Proof.
  intros Ha Hcl Hfs out idx ns ready embedded Hready embeddings Hemb vectors r.
  destruct (has_clients cfg Hcl) as [Hp Hg].
  destruct (ingest_vectors_returned cfg env (videoId payload) (f :: fs) ready.2 embeddings Hemb)
    as [Hlen Hvs].
  assert (Hn : length vectors = length (f :: fs)).
  { unfold vectors. rewrite length_zip_with. lia. }
  assert (Hout : post_ingest cfg env payload st
                 = (match r with
                    | inl e => inl e
                    | inr _ => inr (json 200 (IngestBody (length (f :: fs)) ns idx None))
                    end,
                    record_event (EvUpsert idx ns vectors r) embedded.2)).
  { unfold post_ingest. rewrite run_bind.
    change (ensure_unless_skipped cfg env payload (resolveIndexName cfg (indexName payload)) st)
      with ready.
    destruct ready as [r1 st1]. cbn [fst snd] in *. subst r1.
    rewrite Hfs. rewrite run_bind.
    change (embedTexts cfg env
              (map (fun frame => default "" (description frame)) (f :: fs)) st1)
      with embedded.
    destruct embedded as [r2 st2]. cbn [fst snd] in *. subst r2.
    rewrite run_bind. unfold await at 1. rewrite Hvs.
    unfold getPineconeClient. rewrite Hp.
    rewrite run_bind, run_ret, run_bind. unfold call.
    change (upsert env (trace st2) (resolveIndexName cfg (indexName payload))
              (getNamespace cfg (videoId payload))
              (zip_with (View.ingest_vector cfg (videoId payload)) (f :: fs) embeddings))
      with r.
    fold vectors. rewrite <- Hn.
    destruct r as [e|[]]; [reflexivity|]. rewrite run_ret. reflexivity. }
  subst out. rewrite POST_ingest by assumption. rewrite Hout.
  destruct r as [e|[]]; split; reflexivity.
Qed.

(** X7.  When [ingest] answers with status 200, the frames of the request are
    not empty, every description was embedded to a non-empty vector, and the
    last call is one upsert of exactly one vector per frame, in order, with
    id [namespace::frameId], the embedding as values and the frame's
    metadata; [upserted] is the number of frames and no summary or manifest
    vector is added.  In every run, whatever [embedTexts] returns for the
    descriptions has one embedding per frame, so building the vectors never
    throws the missing-embedding error; and with the clients configured and
    the index ready, once [embedTexts] has returned the upsert is called with
    these vectors and alone decides the response. *)
Theorem ingest_one_vector_per_frame (cfg : Config) (rt : JsRuntime) (env : Services)
    (payload : RoutePayload) (st : State) :
  action payload = Some "ingest" ->
  let out := POST cfg rt env payload st in
  (forall (n : nat) (ns idx : string) (incl : option bool),
     out.1 = json 200 (IngestBody n ns idx incl) ->
     exists fs prov embeddings,
       frames payload = Some fs /\ fs <> []
       /\ length embeddings = length fs
       /\ Forall (fun v => v <> []) embeddings
       /\ Obs.new_events st out.2
          = prov ++ zip_with View.embedded fs embeddings
              ++ [EvUpsert idx ns
                    (zip_with (View.ingest_vector cfg (videoId payload)) fs embeddings)
                    (inr tt)]
       /\ Forall (fun ev => is_provisioning ev = true) prov
       /\ n = length fs
       /\ ns = getNamespace cfg (videoId payload)
       /\ idx = resolveIndexName cfg (indexName payload)
       /\ incl = None)
  /\ (forall fs st1 embeddings,
        frames payload = Some fs ->
        (embedTexts cfg env (map (fun frame => default "" (description frame)) fs) st1).1
        = inr embeddings ->
        length embeddings = length fs
        /\ ingest_vectors cfg (videoId payload) embeddings 0 fs
           = inr (zip_with (View.ingest_vector cfg (videoId payload)) fs embeddings))
  /\ (Obs.clients_configured cfg = true ->
      forall f fs, frames payload = Some (f :: fs) ->
      let idx := resolveIndexName cfg (indexName payload) in
      let ns := getNamespace cfg (videoId payload) in
      let ready := ensure_unless_skipped cfg env payload idx st in
      let embedded :=
        embedTexts cfg env (map (fun frame => default "" (description frame)) (f :: fs))
          ready.2 in
      ready.1 = inr tt ->
      forall embeddings, embedded.1 = inr embeddings ->
        let vectors :=
          zip_with (View.ingest_vector cfg (videoId payload)) (f :: fs) embeddings in
        let r := upsert env (trace embedded.2) idx ns vectors in
        trace out.2 = trace embedded.2 ++ [EvUpsert idx ns vectors r]
        /\ out.1 = match r with
                   | inl e => json 500 (ErrorBody (message_of e))
                   | inr _ => json 200 (IngestBody (length (f :: fs)) ns idx None)
                   end).
Proof.
  intros Ha out. subst out. split; [|split].
  - intros n ns idx incl. now apply ingest_success.
  - intros fs st1 embeddings _. apply ingest_vectors_returned.
  - intros Hcl f fs Hfs. now apply ingest_runs.
Qed.

Lemma ingest_one_vector_per_frame_witness :
  let payload := Scenario.request "ingest" (Some true) (Some [Scenario.frame1]) None None in
  let out := POST Scenario.config Scenario.runtime Scenario.services payload Scenario.start in
  out.1 = json 200 (IngestBody 1 "video-42" "video-frames" None)
  /\ (exists fs prov embeddings,
        frames payload = Some fs
        /\ Obs.new_events Scenario.start out.2
           = prov ++ zip_with View.embedded fs embeddings
               ++ [EvUpsert "video-frames" "video-42"
                     (zip_with (View.ingest_vector Scenario.config (Some (IdNum 42))) fs
                        embeddings)
                     (inr tt)])
  /\ trace out.2
     = [EvEmbed "a car" (inr (Some [1%Q; 2%Q]));
        EvUpsert "video-frames" "video-42"
          [View.ingest_vector Scenario.config (Some (IdNum 42)) Scenario.frame1 [1%Q; 2%Q]]
          (inr tt)].
Proof.
  pose proof (ingest_one_vector_per_frame Scenario.config Scenario.runtime Scenario.services
                (Scenario.request "ingest" (Some true) (Some [Scenario.frame1]) None None)
                Scenario.start eq_refl) as (Hok & _ & Hrun).
  split; [reflexivity|]. split.
  - destruct (Hok 1 "video-42" "video-frames" None eq_refl)
      as (fs & prov & embeddings & Hfs & _ & _ & _ & Hnew & _).
    exists fs, prov, embeddings. split; [exact Hfs | exact Hnew].
  - exact (proj1 (Hrun eq_refl Scenario.frame1 [] eq_refl eq_refl [[1%Q; 2%Q]] eq_refl)).
Defined.

(** ** Status codes *)

Section Status.

Variable cfg : Config.
Variable rt : JsRuntime.
Variable env : Services.

Lemma answers_200_bind {A} (m : M A) (f : A -> M Response) :
  (forall a, View.answers_200 (f a)) -> View.answers_200 (m ≫= f).
Proof.
  intros Hf st. rewrite run_bind. destruct (m st) as [[e|a] st1]; [exact I | apply Hf].
Qed.

Lemma answers_200_ret (b : Body) : View.answers_200 (mret (json 200 b)).
Proof. intros st. reflexivity. Qed.

Lemma answers_200_throw (e : Thrown) : View.answers_200 (throw e).
Proof. intros st. exact I. Qed.

Lemma validates_answers_200 (m : M Response) : View.answers_200 m -> View.validates m.
Proof. intros H st response Hr. specialize (H st). rewrite Hr in H. now left. Qed.

Lemma validates_after {A} (m : M A) (f : A -> M Response) :
  (forall st, Obs.only_provisioning st (m st).2) ->
  (forall a, View.validates (f a)) -> View.validates (m ≫= f).
Proof.
  intros Hm Hf st response. rewrite run_bind. specialize (Hm st).
  destruct (m st) as [[e|a] st1]; cbn [fst snd] in *; [discriminate|].
  intros Hr. destruct (Hf a st1 response Hr) as [H200|(H400 & Hp & Hmsg)]; [now left|].
  right. split; [exact H400|]. split; [|exact Hmsg].
  eapply only_provisioning_trans; [exact Hm | exact Hp].
Qed.

Lemma validates_ret (message : string) :
  message ∈ View.rejections -> View.validates (mret (json 400 (ErrorBody message))).
Proof.
  intros Hin st response [= <-]. right. split; [reflexivity|].
  split; [apply only_provisioning_refl|].
  exists message. split; [reflexivity | exact Hin].
Qed.

Lemma only_provisioning_console (l : LogLevel) (text : string) (e : option Thrown)
    (st : State) :
  Obs.only_provisioning st (console_write l text e st).2.
Proof. exists []. split; [cbn; now rewrite app_nil_r | constructor]. Qed.

Ltac in_rejections := unfold View.rejections; set_solver.

Lemma validates_dispatch (payload : RoutePayload) : View.validates (dispatch cfg rt env payload).
Proof.
  unfold dispatch.
  destruct (action_is payload "ingest_final").
  { unfold post_ingest_final.
    apply validates_after; [intros; apply only_provisioning_console|]. intros _.
    apply validates_after.
    { intros st. destruct (truthy_flag (skipEnsure payload)).
      - apply only_provisioning_console.
      - rewrite run_bind. cbn [console_write fst snd].
        unfold console_write.
        match goal with |- Obs.only_provisioning st (ensureIndexReady cfg env ?n ?s).2 =>
          destruct (ensureIndexReady_only_provisioning cfg env n s) as (evs & He & Fe)
        end.
        exists evs. split; [exact He | exact Fe]. }
    intros _. cbv zeta.
    match goal with |- View.validates (match ?fs with _ => _ end) => destruct fs end.
    - apply validates_ret. in_rejections.
    - apply validates_answers_200.
      repeat (apply answers_200_bind; intros ?). apply answers_200_ret. }
  destruct (action_is payload "ingest").
  { unfold post_ingest.
    apply validates_after; [apply ensure_unless_skipped_only_provisioning|]. intros _.
    destruct (frames payload) as [[|f fs]|]; try (apply validates_ret; in_rejections).
    apply validates_answers_200.
    repeat (apply answers_200_bind; intros ?). apply answers_200_ret. }
  destruct (action_is payload "query").
  { unfold post_query.
    apply validates_after; [apply ensure_unless_skipped_only_provisioning|]. intros _.
    destruct (truthy_str (question payload)); [|apply validates_ret; in_rejections].
    apply validates_answers_200. apply answers_200_bind. intros vs.
    destruct (head vs); [|apply answers_200_throw].
    repeat (apply answers_200_bind; intros ?). apply answers_200_ret. }
  destruct (action_is payload "analyze").
  { unfold post_analyze.
    apply validates_after; [apply ensure_unless_skipped_only_provisioning|]. intros _.
    destruct (truthy_str (question payload)); [|apply validates_ret; in_rejections].
    apply validates_answers_200. cbv zeta.
    repeat (apply answers_200_bind; intros ?). apply answers_200_ret. }
  destruct (action_is payload "overview"); [|apply validates_ret; in_rejections].
  unfold post_overview.
  apply validates_after; [apply ensure_unless_skipped_only_provisioning|]. intros _.
  apply validates_answers_200. cbv zeta.
  repeat (apply answers_200_bind; intros ?). apply answers_200_ret.
Qed.

End Status.

(** The status codes of [POST] on an object. *)
Lemma POST_object_status (cfg : Config) (rt : JsRuntime) (env : Services)
    (payload : RoutePayload) (st : State) :
  let out := POST cfg rt env payload st in
  (status out.1 = 200%Z \/ status out.1 = 400%Z \/ status out.1 = 500%Z)
  /\ (status out.1 = 400%Z ->
      Forall (fun ev => is_provisioning ev = true) (Obs.new_events st out.2)
      /\ exists message, body out.1 = ErrorBody message /\ message ∈ View.rejections)
  /\ (status out.1 = 500%Z -> exists message, body out.1 = ErrorBody message)
  /\ (Obs.clients_configured cfg = true -> View.known_action payload = false ->
      out = (json 400 (ErrorBody "Unsupported action requested."), st)).
Proof.
  intros out.
  assert (Hcases :
    (exists e, out.1 = json 500 (ErrorBody (message_of e)))
    \/ (status out.1 = 200%Z
        \/ (status out.1 = 400%Z
            /\ Obs.only_provisioning st out.2
            /\ exists message, body out.1 = ErrorBody message
                               /\ message ∈ View.rejections))).
  { subst out. unfold POST.
    assert (Hreq : forall s, Obs.only_provisioning s (requireClients cfg s).2).
    { intros s. unfold requireClients.
      destruct (has_client (PINECONE_API_KEY cfg)), (has_client (GOOGLE_API_KEY cfg));
        apply only_provisioning_refl. }
    pose proof (validates_after (requireClients cfg) (fun _ => dispatch cfg rt env payload)
                  Hreq (fun _ => validates_dispatch cfg rt env payload) st) as H.
    destruct ((requireClients cfg;; dispatch cfg rt env payload) st) as [[e|response] st1].
    - left. exists e. reflexivity.
    - right. exact (H response eq_refl). }
  split.
  { destruct Hcases as [[e ->]|[H|[H _]]]; auto. }
  split.
  { intros H400. destruct Hcases as [[e He]|[H|(_ & Hp & Hmsg)]].
    - rewrite He in H400. discriminate.
    - rewrite H in H400. discriminate.
    - split; [apply only_provisioning_new, Hp | exact Hmsg]. }
  split.
  { intros H500. destruct Hcases as [[e ->]|[H|[H _]]].
    - eexists. reflexivity.
    - rewrite H in H500. discriminate.
    - rewrite H in H500. discriminate. }
  intros Hcl Hknown. subst out. unfold POST.
  rewrite run_bind, requireClients_run by assumption.
  unfold View.known_action in Hknown. unfold dispatch.
  destruct (action_is payload "ingest_final"); [discriminate|].
  destruct (action_is payload "ingest"); [discriminate|].
  destruct (action_is payload "query"); [discriminate|].
  destruct (action_is payload "analyze"); [discriminate|].
  destruct (action_is payload "overview"); [discriminate|]. reflexivity.
Qed.

(** X8.  [POST] answers with status 200, 400 or 500 only, whatever the body
    of the request.  A 400 response carries one of the five validation
    messages and follows nothing but provisioning calls: no text was embedded
    and the store was neither written nor queried.  A 500 response carries an
    error message.  With both clients configured: an object whose action is
    none of the five, and a boolean, number or string, are answered 400
    [Unsupported action requested.] without any call or change of state;
    the body [null] is answered 500 with the message of the [TypeError] that
    reading [payload.action] throws; a body that is not JSON is answered 500
    with the message of the rejection. *)
Theorem POST_status (cfg : Config) (rt : JsRuntime) (env : Services)
    (null_read : string) (request : RequestBody) (st : State) :
  let out := POST_request cfg rt env null_read request st in
  (status out.1 = 200%Z \/ status out.1 = 400%Z \/ status out.1 = 500%Z)
  /\ (status out.1 = 400%Z ->
      Forall (fun ev => is_provisioning ev = true) (Obs.new_events st out.2)
      /\ exists message, body out.1 = ErrorBody message /\ message ∈ View.rejections)
  /\ (status out.1 = 500%Z -> exists message, body out.1 = ErrorBody message)
  /\ (forall payload, request = BodyObject payload -> out = POST cfg rt env payload st)
  /\ (Obs.clients_configured cfg = true ->
      (forall payload,
         request = BodyObject payload -> View.known_action payload = false ->
         out = (json 400 (ErrorBody "Unsupported action requested."), st))
      /\ (request = BodyScalar ->
          out = (json 400 (ErrorBody "Unsupported action requested."), st))
      /\ (request = BodyNull -> out = (json 500 (ErrorBody null_read), st))
      /\ (forall e, request = BodyUnreadable e ->
                    out = (json 500 (ErrorBody (message_of e)), st))).
Proof.
  intros out.
  assert (Hobj : forall payload, POST_request cfg rt env null_read (BodyObject payload) st
                                 = POST cfg rt env payload st) by reflexivity.
  assert (Hscalar : POST_request cfg rt env null_read BodyScalar st
                    = POST cfg rt env no_fields st) by reflexivity.
  assert (Hthrown : forall e r,
             (r = BodyUnreadable e \/ (r = BodyNull /\ e = Error null_read)) ->
             exists e', POST_request cfg rt env null_read r st
                        = (json 500 (ErrorBody (message_of e')), st)
                        /\ (Obs.clients_configured cfg = true -> e' = e)).
  { intros e r Hr. unfold POST_request. rewrite run_bind.
    destruct (Obs.clients_configured cfg) eqn:Hcl.
    - rewrite requireClients_run by assumption. exists e.
      destruct Hr as [->|[-> ->]]; split; reflexivity.
    - destruct (requireClients_fail cfg st Hcl) as [e' ->]. exists e'.
      split; [reflexivity | discriminate]. }
  assert (Hfail : forall e r,
             (r = BodyUnreadable e \/ (r = BodyNull /\ e = Error null_read)) ->
             request = r ->
             (status out.1 = 200%Z \/ status out.1 = 400%Z \/ status out.1 = 500%Z)
             /\ (status out.1 = 400%Z ->
                 Forall (fun ev => is_provisioning ev = true) (Obs.new_events st out.2)
                 /\ exists message, body out.1 = ErrorBody message
                                    /\ message ∈ View.rejections)
             /\ (status out.1 = 500%Z -> exists message, body out.1 = ErrorBody message)).
  { intros e r Hr ->. destruct (Hthrown e r Hr) as (e' & Hout & _).
    subst out. rewrite Hout. cbn. split; [auto|]. split; [discriminate | eauto]. }
  assert (Hthree :
    (status out.1 = 200%Z \/ status out.1 = 400%Z \/ status out.1 = 500%Z)
    /\ (status out.1 = 400%Z ->
        Forall (fun ev => is_provisioning ev = true) (Obs.new_events st out.2)
        /\ exists message, body out.1 = ErrorBody message /\ message ∈ View.rejections)
    /\ (status out.1 = 500%Z -> exists message, body out.1 = ErrorBody message)).
  { destruct request as [e| | |payload] eqn:Hreq.
    - apply (Hfail e (BodyUnreadable e)); auto.
    - apply (Hfail (Error null_read) BodyNull); auto.
    - subst out. rewrite Hscalar.
      destruct (POST_object_status cfg rt env no_fields st) as (H1 & H2 & H3 & _). auto.
    - subst out. rewrite Hobj.
      destruct (POST_object_status cfg rt env payload st) as (H1 & H2 & H3 & _). auto. }
  destruct Hthree as (H1 & H2 & H3).
  split; [exact H1|]. split; [exact H2|]. split; [exact H3|].
  split; [intros payload ->; apply Hobj|].
  intros Hcl. split; [|split; [|split]].
  - intros payload -> Hknown. subst out. rewrite Hobj.
    now apply (POST_object_status cfg rt env payload st).
  - intros ->. subst out. rewrite Hscalar.
    now apply (POST_object_status cfg rt env no_fields st).
  - intros ->. destruct (Hthrown (Error null_read) BodyNull) as (e' & Hout & He); [auto|].
    subst out. rewrite Hout, (He Hcl). reflexivity.
  - intros e ->. destruct (Hthrown e (BodyUnreadable e)) as (e' & Hout & He); [auto|].
    subst out. rewrite Hout, (He Hcl). reflexivity.
Qed.

(** ** The administration handlers *)

Section AdminProofs.

Variable cfg : Config.
Variable model : option string.
Variable env : Services.
Variable store : Admin.Store.

Lemma admin_bind {A B} (m : Admin.T A) (f : A -> Admin.T B) (s : Admin.St) :
  Admin.bind m f s =
    match m s with
    | (inl e, s') => (inl e, s')
    | (inr a, s') => f a s'
    end.
Proof. reflexivity. Qed.

Lemma lift_requireClients (s : Admin.St) :
  Obs.clients_configured cfg = true ->
  Admin.lift (requireClients cfg) s = (inr tt, s).
Proof.
  intros Hcl. unfold Admin.lift. rewrite requireClients_run by assumption. now destruct s.
Qed.

Lemma lift_getPineconeClient (s : Admin.St) :
  Obs.clients_configured cfg = true ->
  Admin.lift (getPineconeClient cfg) s = (inr tt, s).
Proof.
  intros Hcl. destruct (has_clients cfg Hcl) as [Hp _].
  unfold Admin.lift, getPineconeClient. rewrite Hp, run_ret. now destruct s.
Qed.

End AdminProofs.

(** X9.  [DELETE] with both clients configured.  Without an [indexName]
    parameter (absent or empty) it answers 400 and calls nothing.  Otherwise
    it makes one [deleteIndex] call for the sanitised name; when that
    succeeds the answer is 200, the cache entry of that name is deleted, so
    that the next readiness check for it lists the indexes again; when it
    fails the answer is 500, the error is printed, and the cache keeps all
    its entries. *)
Theorem DELETE_evicts_on_success (cfg : Config) (store : Admin.Store)
    (params : Admin.Params) (s : Admin.St) :
  Obs.clients_configured cfg = true ->
  let name := resolveIndexName cfg (IdStr <$> Admin.indexName_param params) in
  let r := Admin.deleteIndex store (trace (Admin.core s)) (Admin.calls s) name in
  let out := Admin.DELETE cfg store params s in
  if truthy_str (Admin.indexName_param params) then
    Admin.calls out.2 = Admin.calls s ++ [Admin.DeleteIndex name r]
    /\ trace (Admin.core out.2) = trace (Admin.core s)
    /\ match r with
       | inr _ =>
           out.1 = Admin.respond 200 (Admin.Deleted (Admin.deleted_message name) name)
           /\ indexInitPromises (Admin.core out.2)
              = delete name (indexInitPromises (Admin.core s))
           /\ Admin.errors out.2 = Admin.errors s
           /\ forall env : Services,
                head (Obs.new_events (Admin.core out.2)
                        (ensureIndexReady cfg env name (Admin.core out.2)).2)
                = Some (EvListIndexes (listIndexes env (trace (Admin.core s))))
       | inl e =>
           out.1 = Admin.respond 500 (Admin.Failure (message_of e))
           /\ indexInitPromises (Admin.core out.2) = indexInitPromises (Admin.core s)
           /\ Admin.errors out.2 = Admin.errors s ++ [("Delete index error:", e)]
       end
  else
    out = (Admin.respond 400 (Admin.Failure "indexName is required to delete an index"), s).
Proof.
  intros Hcl. cbv zeta. unfold Admin.DELETE, Admin.delete_index.
  rewrite admin_bind, lift_requireClients by assumption.
  destruct (truthy_str (Admin.indexName_param params)); [|reflexivity].
  rewrite admin_bind, lift_getPineconeClient by assumption.
  unfold Admin.bind, Admin.lift, Admin.ask, console_write, set_promises, Admin.ret.
  cbn [fst snd Admin.core Admin.calls Admin.errors trace indexInitPromises console].
  set (name := resolveIndexName cfg _).
  destruct (Admin.deleteIndex store _ _ name) as [e|[]].
  - cbn. repeat split.
  - do 5 (split; [reflexivity|]). intros env'. cbn [fst snd Admin.core].
    destruct (has_clients cfg Hcl) as [Hp _].
    match goal with |- context [ensureIndexReady cfg env' name ?st1] =>
      set (st1' := st1)
    end.
    rewrite (ensureIndexReady_run cfg env' name st1' Hp) by apply lookup_delete_eq.
    destruct (initializer_head cfg env' name st1') as (r' & rest & ->).
    cbn [snd trace fst].
    now rewrite (new_events_app st1' _ (EvListIndexes (listIndexes env' (trace st1')) :: rest)).
Qed.

Lemma DELETE_evicts_on_success_witness :
  let out := Admin.DELETE Scenario.config Cases.store (Cases.named "Video Frames")
               Cases.checked in
  indexInitPromises (Admin.core Cases.checked) !! "video-frames" = Some (inr tt)
  /\ Admin.calls out.2 = [Admin.DeleteIndex "video-frames" (inr tt)]
  /\ indexInitPromises (Admin.core out.2) !! "video-frames" = None.
Proof.
  pose proof (DELETE_evicts_on_success Scenario.config Cases.store
                (Cases.named "Video Frames") Cases.checked eq_refl) as H.
  cbv zeta in H. cbn [truthy_str Cases.named Admin.indexName_param] in H.
  change (negb ("Video Frames" =? "")%string) with true in H. cbv iota in H.
  destruct H as (Hcalls & _ & H).
  split; [reflexivity|]. split; [exact Hcalls|].
  change (Admin.deleteIndex Cases.store (trace (Admin.core Cases.checked))
            (Admin.calls Cases.checked)
            (resolveIndexName Scenario.config
               (IdStr <$> Admin.indexName_param (Cases.named "Video Frames"))))
    with (inr tt : Thrown + unit) in H.
  cbv iota in H. destruct H as (_ & Hcache & _). rewrite Hcache. reflexivity.
Defined.

(** A fresh attempt for a name that is not listed: the creation follows the
    listing. *)
Lemma ensureIndexReady_unlisted (cfg : Config) (env : Services) (name : string)
    (st : State) (listing : IndexListing) :
  has_client (PINECONE_API_KEY cfg) = true ->
  indexInitPromises st !! name = None ->
  listIndexes env (trace st) = inr listing ->
  name ∉ normalizeIndexList listing ->
  let out := ensureIndexReady cfg env name st in
  exists r rest,
    Obs.new_events st out.2
    = EvListIndexes (inr listing) :: EvCreateIndex (create_request cfg name) r :: rest
    /\ indexInitPromises out.2
       = match out.1 with
         | inl _ => indexInitPromises st
         | inr _ => <[name := inr tt]> (indexInitPromises st)
         end.
Proof.
  intros Hc Hnone Hl Hnot out. subst out.
  rewrite (ensureIndexReady_run cfg env name st Hc Hnone).
  rewrite (initializer_listed cfg env name st listing Hl).
  cbn [fst snd trace indexInitPromises].
  destruct (existsb (String.eqb name) (normalizeIndexList listing)) eqn:Hex.
  { exfalso. apply Hnot, existsb_eqb_elem, Hex. }
  cbn [record_event trace].
  destruct (createIndex env (trace st ++ [EvListIndexes (inr listing)])
              (create_request cfg name)) as [e|[]].
  - exists (inl e), []. split; [|reflexivity].
    apply new_events_app. cbn. rewrite <- ?app_assoc. reflexivity.
  - destruct (poll_shape env name maxAttempts
                (record_event (EvCreateIndex (create_request cfg name) (inr tt))
                   (record_event (EvListIndexes (inr listing)) st)))
      as (r & evs & -> & _).
    exists (inr tt), evs. split; [|reflexivity].
    apply new_events_app. cbn. rewrite <- ?app_assoc. reflexivity.
Qed.

(** X10.  The default [GET] (its [list] parameter is neither [indexes] nor
    [namespaces]) provisions: for a name that is not cached and that the
    listing does not hold, it issues [createIndex] for the sanitised name
    right after the listing.  It answers 200 with the index name, dimension
    3072 and the two model names once the index is ready, leaving the name
    cached, and 500 otherwise, leaving the cache as it was. *)
Theorem GET_probe_creates_missing (cfg : Config) (model : option string) (env : Services)
    (store : Admin.Store) (params : Admin.Params) (s : Admin.St) (listing : IndexListing) :
  Obs.clients_configured cfg = true ->
  Admin.list_param params <> Some "indexes" ->
  Admin.list_param params <> Some "namespaces" ->
  let name := resolveIndexName cfg (IdStr <$> Admin.indexName_param params) in
  indexInitPromises (Admin.core s) !! name = None ->
  listIndexes env (trace (Admin.core s)) = inr listing ->
  name ∉ normalizeIndexList listing ->
  let out := Admin.GET cfg model env store params s in
  (exists r rest,
     Obs.new_events (Admin.core s) (Admin.core out.2)
     = EvListIndexes (inr listing) :: EvCreateIndex (create_request cfg name) r :: rest)
  /\ Admin.calls out.2 = Admin.calls s
  /\ (Admin.code out.1 = 200%Z \/ Admin.code out.1 = 500%Z)
  /\ (Admin.code out.1 = 200%Z ->
      out.1 = Admin.respond 200
                (Admin.Probe name 3072 "gemini-embedding-001" (Admin.GENERATION_MODEL model))
      /\ indexInitPromises (Admin.core out.2) !! name = Some (inr tt))
  /\ (Admin.code out.1 = 500%Z ->
      indexInitPromises (Admin.core out.2) = indexInitPromises (Admin.core s)).
Proof.
  intros Hcl Hi Hn name Hnone Hl Hnot out. subst out.
  destruct (has_clients cfg Hcl) as [Hp _].
  unfold Admin.GET, Admin.get.
  rewrite admin_bind, lift_requireClients by assumption.
  assert (Hi' : Admin.is_param (Admin.list_param params) "indexes" = false).
  { unfold Admin.is_param. destruct (Admin.list_param params) as [l|]; [|reflexivity].
    apply String.eqb_neq. congruence. }
  assert (Hn' : Admin.is_param (Admin.list_param params) "namespaces" = false).
  { unfold Admin.is_param. destruct (Admin.list_param params) as [l|]; [|reflexivity].
    apply String.eqb_neq. congruence. }
  rewrite Hi', Hn'. fold name. rewrite admin_bind. unfold Admin.lift, Admin.ret.
  destruct (ensureIndexReady_unlisted cfg env name (Admin.core s) listing Hp Hnone Hl Hnot)
    as (r & rest & Hnew & Hcache).
  destruct (ensureIndexReady cfg env name (Admin.core s)) as [[e|[]] st1];
    cbn [fst snd Admin.core Admin.calls Admin.code Admin.respond] in *.
  - split; [eauto|]. split; [reflexivity|]. split; [now right|].
    split; [discriminate|]. intros _. exact Hcache.
  - split; [eauto|]. split; [reflexivity|]. split; [now left|].
    split; [|discriminate]. intros _. split; [reflexivity|].
    rewrite Hcache. apply lookup_insert_eq.
Qed.

Lemma GET_probe_creates_missing_witness :
  let out := Admin.GET Scenario.config None Cases.no_index Cases.store
               (Cases.named "Clip 7") Admin.start in
  Admin.code out.1 = 200%Z
  /\ out.1 = Admin.respond 200
               (Admin.Probe "clip-7" 3072 "gemini-embedding-001" "gemini-2.5-flash")
  /\ exists r rest,
       trace (Admin.core out.2)
       = EvListIndexes (inr (ListingArray []))
           :: EvCreateIndex (create_request Scenario.config "clip-7") r :: rest.
Proof.
  destruct (GET_probe_creates_missing Scenario.config None Cases.no_index Cases.store
              (Cases.named "Clip 7") Admin.start (ListingArray [])
              eq_refl ltac:(discriminate) ltac:(discriminate) eq_refl eq_refl
              ltac:(apply not_elem_of_nil))
    as (Hnew & _ & _ & H200 & _).
  split; [reflexivity|]. split; [exact (proj1 (H200 eq_refl))|]. exact Hnew.
Defined.

(** X11.  The two listings of [GET] only read.  [list=indexes] makes the one
    call [listIndexes] and answers with the normalised names;
    [list=namespaces] makes the one call [describeIndexStats] for the
    sanitised name and answers with the keys of its [namespaces] (none when
    the answer has no such field), or answers 400 without any call when
    [indexName] is absent or empty.  Neither creates an index, polls, or
    changes the cache. *)
Theorem GET_listing_never_provisions (cfg : Config) (model : option string) (env : Services)
    (store : Admin.Store) (params : Admin.Params) (s : Admin.St) :
  Obs.clients_configured cfg = true ->
  let requested := Admin.indexName_param params in
  let name := resolveIndexName cfg (IdStr <$> requested) in
  let listed := listIndexes env (trace (Admin.core s)) in
  let stats := Admin.describeIndexStats store (trace (Admin.core s)) (Admin.calls s) name in
  let out := Admin.GET cfg model env store params s in
  (Admin.list_param params = Some "indexes" ->
     out.1 = match listed with
             | inr listing => Admin.respond 200 (Admin.Indexes (normalizeIndexList listing))
             | inl e => Admin.respond 500 (Admin.Failure (message_of e))
             end
     /\ Obs.new_events (Admin.core s) (Admin.core out.2) = [EvListIndexes listed]
     /\ Admin.calls out.2 = Admin.calls s
     /\ indexInitPromises (Admin.core out.2) = indexInitPromises (Admin.core s))
  /\ (Admin.list_param params = Some "namespaces" ->
      Admin.core out.2 = Admin.core s
      /\ if truthy_str requested then
           out.1 = match stats with
                   | inr answer =>
                       Admin.respond 200
                         (Admin.Namespaces name
                            (default [] (answer ≫= Admin.stats_namespaces)))
                   | inl e => Admin.respond 500 (Admin.Failure (message_of e))
                   end
           /\ Admin.calls out.2 = Admin.calls s ++ [Admin.DescribeIndexStats name stats]
         else
           out = (Admin.respond 400 (Admin.Failure "indexName is required to list namespaces"),
                  s)).
Proof.
  intros Hcl. cbv zeta. unfold Admin.GET, Admin.get.
  rewrite admin_bind, lift_requireClients by assumption.
  split; intros ->; cbn [Admin.is_param String.eqb Ascii.eqb Bool.eqb].
  - rewrite admin_bind, lift_getPineconeClient by assumption.
    unfold Admin.bind, Admin.lift, Admin.ret, call.
    cbn [fst snd Admin.core Admin.calls Admin.errors trace indexInitPromises console].
    destruct (listIndexes env (trace (Admin.core s))) as [e|listing];
      cbn [fst snd Admin.core Admin.calls]; repeat split;
      apply new_events_app; reflexivity.
  - destruct (truthy_str (Admin.indexName_param params)).
    2:{ split; reflexivity. }
    rewrite admin_bind, lift_getPineconeClient by assumption.
    unfold Admin.bind, Admin.ask, Admin.ret.
    set (name := resolveIndexName cfg _).
    destruct (Admin.describeIndexStats store _ _ name) as [e|answer];
      cbn [fst snd Admin.core Admin.calls]; repeat split.
Qed.

Lemma GET_listing_never_provisions_witness :
  let out := Admin.GET Scenario.config None Cases.no_index Cases.store
               (Cases.listing_of "namespaces" (Some "Clip 7")) Admin.start in
  out.1 = Admin.respond 200 (Admin.Namespaces "clip-7" ["video-1"; "frames"])
  /\ Admin.core out.2 = Scenario.start.
Proof.
  destruct (proj2 (GET_listing_never_provisions Scenario.config None Cases.no_index
                     Cases.store (Cases.listing_of "namespaces" (Some "Clip 7"))
                     Admin.start eq_refl) eq_refl) as [Hcore H].
  split; [exact (proj1 H) | exact Hcore].
Defined.

(** X12.  When the Pinecone or the Google API key is missing or empty, [POST],
    [GET] and [DELETE] all answer 500 with the message of the missing client
    (the Pinecone one first) and call no service; [POST] and [GET] leave the
    state untouched and [DELETE] only prints the error. *)
Theorem handlers_require_clients (cfg : Config) (rt : JsRuntime) (model : option string)
    (env : Services) (store : Admin.Store) (payload : RoutePayload) (params : Admin.Params)
    (s : Admin.St) :
  Obs.clients_configured cfg = false ->
  let e := if has_client (PINECONE_API_KEY cfg) then missing_gemini else missing_pinecone in
  POST cfg rt env payload (Admin.core s)
  = (json 500 (ErrorBody (message_of e)), Admin.core s)
  /\ Admin.GET cfg model env store params s
     = (Admin.respond 500 (Admin.Failure (message_of e)), s)
  /\ Admin.DELETE cfg store params s
     = (Admin.respond 500 (Admin.Failure (message_of e)),
        Admin.console_error "Delete index error:" e s)
  /\ (PINECONE_API_KEY cfg = None \/ PINECONE_API_KEY cfg = Some ""
      \/ GOOGLE_API_KEY cfg = None \/ GOOGLE_API_KEY cfg = Some "").
Proof.
  intros Hcl e.
  assert (Hreq : forall st, requireClients cfg st = (inl e, st)).
  { intros st. subst e. unfold requireClients. unfold Obs.clients_configured in Hcl.
    destruct (has_client (PINECONE_API_KEY cfg)); [|reflexivity].
    destruct (has_client (GOOGLE_API_KEY cfg)); [discriminate | reflexivity]. }
  split; [unfold POST; now rewrite run_bind, Hreq|].
  split.
  { unfold Admin.GET, Admin.get. rewrite admin_bind. unfold Admin.lift.
    rewrite Hreq. now destruct s. }
  split.
  { unfold Admin.DELETE, Admin.delete_index. rewrite admin_bind. unfold Admin.lift.
    rewrite Hreq. now destruct s. }
  unfold Obs.clients_configured, has_client, truthy_str in Hcl.
  destruct (PINECONE_API_KEY cfg) as [p|]; [|now left].
  destruct (String.eqb_spec p ""); [subst; right; now left|].
  destruct (GOOGLE_API_KEY cfg) as [g|]; [|right; right; now left].
  destruct (String.eqb_spec g ""); [subst; now do 3 right | discriminate].
Qed.

Lemma handlers_require_clients_witness :
  POST Cases.no_keys Scenario.runtime Scenario.services Scenario.analyze_request Scenario.start
  = (json 500 (ErrorBody "Missing Pinecone client. Ensure PINECONE_API_KEY is set."),
     Scenario.start).
Proof.
  exact (proj1 (handlers_require_clients Cases.no_keys Scenario.runtime None
                  Scenario.services Cases.store Scenario.analyze_request
                  (Cases.named "clip") Admin.start eq_refl)).
Defined.

(** ** Deleting an index while it is being provisioned *)

(** X13.  Deleting an index while its readiness check is in flight breaks the
    sharing of attempts: once [DELETE] has removed the cache entry, the next
    [ensureIndexReady] for that name starts a second attempt (a second
    [listIndexes]) while the first keeps running, and when the first attempt
    later rejects, its handler deletes the cache entry of the second, which
    is still in flight. *)
Theorem eviction_allows_second_attempt (cfg : Config) (name : string) (s : Pool.t)
    (p : nat) (att : Pool.Attempt) :
  has_client (PINECONE_API_KEY cfg) = true ->
  Pool.consistent s ->
  Pool.promises s !! name = Some p ->
  Pool.attempts s !! p = Some att ->
  Pool.in_flight (Pool.attempt_pc att) = true ->
  let q := length (Pool.attempts s) in
  let s' := (Pool.invoke cfg name (Admin.evict name s)).2 in
  (Pool.invoke cfg name (Admin.evict name s)).1 = inr q
  /\ p <> q
  /\ Pool.attempts s' !! p = Some att
  /\ Pool.attempt_name att = name
  /\ Pool.attempts s' !! q = Some {| Pool.attempt_name := name; Pool.attempt_pc := Pool.AwaitList |}
  /\ Pool.issued s' = Pool.issued s ++ [(q, Pool.CallList)]
  /\ ~ Pool.consistent s'
  /\ forall (a : Pool.Answer) (s'' : Pool.t) (e : Thrown),
       Pool.deliver cfg p a s' = Some s'' ->
       Pool.outcome s'' p = Some (inl e) ->
       Pool.promises s'' !! name = None
       /\ Pool.attempts s'' !! q
          = Some {| Pool.attempt_name := name; Pool.attempt_pc := Pool.AwaitList |}.
Proof.
  intros Hc [Hcached Hflight] Hp Hatt Hin q s'.
  destruct (Hcached name p Hp) as (att' & Hatt' & Hname & _).
  rewrite Hatt in Hatt'. injection Hatt' as <-.
  assert (Hlt : p < q) by (apply lookup_lt_Some in Hatt; exact Hatt).
  assert (Hinv : Pool.invoke cfg name (Admin.evict name s)
                 = (inr q,
                    {| Pool.promises := <[name := q]> (delete name (Pool.promises s));
                       Pool.attempts := Pool.attempts s
                                          ++ [{| Pool.attempt_name := name;
                                                 Pool.attempt_pc := Pool.AwaitList |}];
                       Pool.issued := Pool.issued s ++ [(q, Pool.CallList)] |})).
  { unfold Pool.invoke. rewrite Hc. unfold Admin.evict at 1.
    cbn [Pool.promises]. rewrite lookup_delete_eq. reflexivity. }
  subst s'. rewrite Hinv. cbn [fst snd Pool.attempts Pool.issued Pool.promises].
  assert (Hp' : (Pool.attempts s ++ [{| Pool.attempt_name := name;
                                        Pool.attempt_pc := Pool.AwaitList |}]) !! p
                = Some att) by (rewrite lookup_app_l; assumption).
  assert (Hq' : (Pool.attempts s ++ [{| Pool.attempt_name := name;
                                        Pool.attempt_pc := Pool.AwaitList |}]) !! q
                = Some {| Pool.attempt_name := name; Pool.attempt_pc := Pool.AwaitList |}).
  { rewrite lookup_app_r by (subst q; lia). subst q. now rewrite Nat.sub_diag. }
  split; [reflexivity|]. split; [lia|]. split; [exact Hp'|]. split; [exact Hname|].
  split; [exact Hq'|]. split; [reflexivity|]. split.
  { intros [_ Hbad]. specialize (Hbad p att Hp' Hin). cbn [Pool.promises] in Hbad.
    rewrite Hname, lookup_insert_eq in Hbad. injection Hbad as Hbad. lia. }
  intros a s'' e Hdel Hout. unfold Pool.deliver in Hdel.
  cbn [Pool.attempts Pool.promises Pool.issued] in Hdel. rewrite Hp' in Hdel.
  destruct (Pool.resume cfg (Pool.attempt_name att) (Pool.attempt_pc att) a)
    as [[pc' next]|]; [|discriminate].
  injection Hdel as <-. unfold Pool.outcome in Hout.
  cbn [Pool.attempts Pool.promises] in *.
  rewrite list_lookup_insert_eq in Hout by (rewrite length_app; cbn; lia).
  cbn [Pool.attempt_pc] in Hout.
  destruct pc'; try discriminate. cbn [Pool.is_rejected].
  split.
  - rewrite Hname. apply lookup_delete_eq.
  - rewrite list_lookup_insert_ne by lia. exact Hq'.
Qed.

Lemma eviction_allows_second_attempt_witness :
  let s' := (Pool.invoke Scenario.config "video-frames"
               (Admin.evict "video-frames" Scenario.one_attempt)).2 in
  Pool.consistent Scenario.one_attempt
  /\ map Pool.attempt_name (Pool.attempts s') = ["video-frames"; "video-frames"]
  /\ map (fun a => Pool.in_flight (Pool.attempt_pc a)) (Pool.attempts s') = [true; true]
  /\ ~ Pool.consistent s'.
Proof.
  assert (Hcons : Pool.consistent Scenario.one_attempt).
  { apply (reachable_consistent Scenario.config eq_refl). apply Pool.reachable_invoke.
    apply Pool.reachable_empty. }
  split; [exact Hcons|]. split; [reflexivity|]. split; [reflexivity|].
  exact (proj1 (proj2 (proj2 (proj2 (proj2 (proj2 (proj2
           (eviction_allows_second_attempt Scenario.config "video-frames"
              Scenario.one_attempt 0 _ eq_refl Hcons eq_refl eq_refl eq_refl)))))))).
Defined.

(** ** Names that come back from the route *)

Lemma lower_in_class (c : ascii) : Chars.in_class c = true -> Chars.lower c = c.
Proof.
  intros H. destruct c as [[|] [|] [|] [|] [|] [|] [|] [|]];
    try reflexivity; vm_compute in H; discriminate H.
Qed.

Lemma toLowerCase_in_class (s : list ascii) :
  Forall (fun c => Chars.in_class c = true) s -> toLowerCase s = s.
Proof.
  induction 1 as [|c s Hc _ IH]; [reflexivity|].
  unfold toLowerCase in *. cbn [map]. now rewrite IH, lower_in_class.
Qed.

Lemma runs_app_alnum (w : list ascii) :
  Forall (fun c => Chars.is_alnum c = true) w ->
  forall cur rest, NameSpec.runs cur (w ++ rest) = NameSpec.runs (cur ++ w) rest.
Proof.
  induction 1 as [|c w Hc _ IH]; intros cur rest.
  - now rewrite app_nil_r.
  - cbn [app NameSpec.runs]. rewrite Hc, IH, <- app_assoc. reflexivity.
Qed.

Lemma runs_joined (ws : list (list ascii)) :
  Forall (fun w => w <> [] /\ Forall (fun c => Chars.is_alnum c = true) w) ws ->
  forall cur, cur <> [] ->
    NameSpec.runs cur (flat_map (fun w => Chars.dash :: w) ws) = cur :: ws.
Proof.
  induction 1 as [|w ws [Hne Hw] _ IH]; intros cur Hcur.
  - cbn. destruct cur; [contradiction | reflexivity].
  - cbn [flat_map app NameSpec.runs].
    change (Chars.is_alnum Chars.dash) with false. cbv iota.
    destruct cur as [|c0 cur0]; [contradiction|].
    rewrite (runs_app_alnum w Hw [] _). cbn [app]. now rewrite IH.
Qed.

Lemma runs_dash_joined (ws : list (list ascii)) :
  Forall (fun w => w <> [] /\ Forall (fun c => Chars.is_alnum c = true) w) ws ->
  NameSpec.runs [] (NameSpec.dash_joined ws) = ws.
Proof.
  intros H. destruct H as [|w ws [Hne Hw] Hws]; [reflexivity|].
  cbn [NameSpec.dash_joined]. rewrite (runs_app_alnum w Hw [] _). cbn [app].
  apply runs_joined; assumption.
Qed.

(** Cleaning a cleaned name changes nothing. *)
Lemma cleaned_fixed (candidate : string) :
  NameSpec.cleaned (string_of_list_ascii (NameSpec.cleaned candidate))
  = NameSpec.cleaned candidate.
Proof.
  unfold NameSpec.cleaned at 1. rewrite list_ascii_of_string_of_list_ascii.
  pose proof (runs_words (toLowerCase (list_ascii_of_string candidate)) []
                (Forall_nil_2 _)) as Hwords.
  unfold NameSpec.cleaned.
  rewrite toLowerCase_in_class
    by (apply dash_joined_in_class, runs_alnum; constructor).
  now rewrite runs_dash_joined.
Qed.

Lemma kept_whole_name (cfg : Config) (raw : option JsId) :
  View.kept_whole cfg raw = true ->
  let trimmed := sanitize_trimmed (candidate_of cfg raw) in
  trimmed <> [] /\ length trimmed <= 45
  /\ sanitizeIndexName cfg raw = string_of_list_ascii trimmed.
Proof.
  unfold View.kept_whole. cbv zeta. intros H. apply andb_prop in H as [Hne Hle].
  apply Nat.leb_le in Hle.
  assert (Hn : sanitize_trimmed (candidate_of cfg raw) <> []).
  { intros E. rewrite E in Hne. discriminate. }
  split; [exact Hn|]. split; [exact Hle|].
  unfold sanitizeIndexName.
  destruct (sanitize_trimmed (candidate_of cfg raw)) as [|c t] eqn:Ht; [contradiction|].
  rewrite list_ascii_of_string_of_list_ascii, take_ge by exact Hle. reflexivity.
Qed.

Lemma sanitize_fixed (cfg : Config) (raw : option JsId) :
  View.kept_whole cfg raw = true ->
  sanitizeIndexName cfg (Some (IdStr (sanitizeIndexName cfg raw))) = sanitizeIndexName cfg raw.
Proof.
  intros H. destruct (kept_whole_name cfg raw H) as (Hne & Hle & Hname).
  rewrite Hname. unfold sanitizeIndexName at 1. cbn [candidate_of].
  rewrite !sanitize_trimmed_cleaned in *. rewrite cleaned_fixed.
  destruct (NameSpec.cleaned (candidate_of cfg raw)) as [|c t] eqn:Ht; [contradiction|].
  rewrite list_ascii_of_string_of_list_ascii, take_ge by exact Hle. reflexivity.
Qed.

(** X14.  An index name that the route returns resolves to itself when it is
    sent back: if cleaning the requested name leaves something of at most 45
    characters, then [resolveIndexName] of the result is the result, which is
    not empty. *)
Theorem resolveIndexName_round_trip (cfg : Config) (raw : option JsId) :
  View.kept_whole cfg raw = true ->
  let name := resolveIndexName cfg raw in
  resolveIndexName cfg (Some (IdStr name)) = name
  /\ name <> ""
  /\ View.kept_whole cfg (Some (IdStr name)) = true.
Proof.
  intros H name. subst name. unfold resolveIndexName.
  destruct (kept_whole_name cfg raw H) as (Hne & Hle & Hname).
  split; [apply sanitize_fixed, H|]. split.
  - rewrite Hname. destruct (sanitize_trimmed (candidate_of cfg raw)); [contradiction|].
    discriminate.
  - unfold View.kept_whole. cbn [candidate_of]. rewrite Hname.
    rewrite !sanitize_trimmed_cleaned in *. rewrite cleaned_fixed.
    apply andb_true_intro. split; [|now apply Nat.leb_le].
    destruct (NameSpec.cleaned (candidate_of cfg raw)); [contradiction | reflexivity].
Qed.

Lemma resolveIndexName_round_trip_witness :
  View.kept_whole Scenario.config (Some (IdStr "My Video!!.mp4")) = true
  /\ resolveIndexName Scenario.config (Some (IdStr "My Video!!.mp4")) = "my-video-mp4"
  /\ resolveIndexName Scenario.config (Some (IdStr "my-video-mp4")) = "my-video-mp4".
Proof.
  split; [reflexivity|]. split; [reflexivity|].
  exact (proj1 (resolveIndexName_round_trip Scenario.config
                  (Some (IdStr "My Video!!.mp4")) eq_refl)).
Defined.


Example resolveIndexName_cut_not_fixed :
  let raw := Some (IdStr "a-recording-of-the-crossing-at-main-street-0 1") in
  let name := resolveIndexName Scenario.config raw in
  View.kept_whole Scenario.config raw = false
  /\ name = "a-recording-of-the-crossing-at-main-street-0-"
  /\ resolveIndexName Scenario.config (Some (IdStr name))
     = "a-recording-of-the-crossing-at-main-street-0".
Proof. vm_compute. repeat split. Qed.

Lemma video_prefix (name : string) :
  String.prefix "video-" ("video-" ++ name) = true
  /\ Pages.slice_from 6 ("video-" ++ name) = name.
Proof.
  split; [cbn; now destruct name|].
  unfold Pages.slice_from. cbn. apply string_of_list_ascii_of_string.
Qed.

(** X15.  The pages recover the video id from a namespace and the route maps
    it back: for a truthy video id whose cleaned form has at most 45
    characters, the id the explore page takes from the namespace
    [video-<id>] (and the overview page from its [namespace] parameter) is
    the cleaned id, and [getNamespace] of it is the namespace again.  The
    default namespace [frames] does not come back: the explore page turns it
    into the id [frames], hence [video-frames], and the overview page into
    the id [1], hence [video-1]. *)
Theorem namespace_round_trip (cfg : Config) (v : JsId) :
  truthy_id v = true ->
  View.kept_whole cfg (Some v) = true ->
  let ns := getNamespace cfg (Some v) in
  let chosen := Pages.select_namespace ns in
  chosen = sanitizeIndexName cfg (Some v)
  /\ getNamespace cfg (Some (IdStr chosen)) = ns
  /\ Pages.namespaceFromVideoId chosen = ns
  /\ Pages.initial_videoId None (Some ns) = chosen
  /\ getNamespace cfg (Some (IdStr (Pages.select_namespace DEFAULT_NAMESPACE)))
     = "video-frames"
  /\ getNamespace cfg (Some (IdStr (Pages.initial_videoId None (Some DEFAULT_NAMESPACE))))
     = "video-1".
Proof.
  intros Hv Hk ns chosen.
  pose proof (sanitize_fixed cfg (Some v) Hk) as Hfix.
  destruct (kept_whole_name cfg (Some v) Hk) as (Hne & _ & Hname).
  set (name := sanitizeIndexName cfg (Some v)) in *.
  assert (Hnz : negb (String.eqb name "") = true).
  { rewrite Hname. destruct (sanitize_trimmed (candidate_of cfg (Some v)));
      [contradiction | reflexivity]. }
  assert (Hns : ns = ("video-" ++ name)%string).
  { subst ns name. unfold getNamespace. now rewrite Hv. }
  clearbody ns.
  destruct (video_prefix name) as [Hpre Hslice].
  assert (Hchosen : chosen = name).
  { subst chosen. unfold Pages.select_namespace. now rewrite Hns, Hpre. }
  split; [exact Hchosen|]. rewrite Hchosen. split.
  { unfold getNamespace, truthy_id. rewrite Hnz, Hfix. now rewrite Hns. }
  split.
  { unfold Pages.namespaceFromVideoId. rewrite Hnz. now rewrite Hns. }
  split.
  { unfold Pages.initial_videoId, Pages.initial_namespace. cbn [truthy_str default].
    rewrite Hns. change (negb (String.eqb ("video-" ++ name) "")) with true.
    cbv iota. unfold id. rewrite Hpre. exact Hslice. }
  split; reflexivity.
Qed.

Lemma namespace_round_trip_witness :
  let ns := getNamespace Scenario.config (Some (IdStr "Clip 7")) in
  ns = "video-clip-7"
  /\ Pages.select_namespace ns = "clip-7"
  /\ getNamespace Scenario.config (Some (IdStr (Pages.select_namespace ns))) = ns.
Proof.
  destruct (namespace_round_trip Scenario.config (IdStr "Clip 7") eq_refl eq_refl)
    as (Hchosen & Hback & _).
  split; [reflexivity|]. split; [exact Hchosen | exact Hback].
Defined.

(** ** The frames of the overview page *)

(** A stable sort leaves an ascending list as it is. *)
Lemma js_sort_ascending {A} (key : A -> Q) (cmp : A -> A -> option Q) (l : list A) :
  (forall a b, cmp a b = Some (key a - key b)%Q) ->
  StronglySorted (Obs.key_le key) l -> js_sort cmp l = l.
Proof.
  intros Hcmp. induction 1 as [|x l Hs IH Hx]; [reflexivity|].
  unfold js_sort in *. cbn [foldr]. rewrite IH.
  destruct l as [|y l']; [reflexivity|]. cbn [sort_insert].
  apply Forall_cons in Hx as [Hxy _]. unfold Obs.key_le in Hxy.
  rewrite Hcmp. unfold cmp_positive.
  destruct (Qlt_le_dec 0 (key x - key y)) as [Hlt|_]; [|reflexivity].
  exfalso. apply (Qlt_not_le _ _ Hlt). rewrite <- (Qplus_opp_r (key y)).
  apply Qplus_le_compat; [exact Hxy | apply Qle_refl].
Qed.

Section PageFrames.

Variable rt : JsRuntime.

Lemma unique_frames_spec (frames : list OverviewFrame) : forall seen : gset string,
  Pages.unique_frames rt seen frames `sublist_of` frames
  /\ NoDup (map (Pages.frame_key rt) (Pages.unique_frames rt seen frames))
  /\ Forall (fun f => Pages.frame_key rt f ∉ seen) (Pages.unique_frames rt seen frames)
  /\ forall f, f ∈ frames ->
       Pages.frame_key rt f ∈ seen
       \/ exists g, g ∈ Pages.unique_frames rt seen frames
                    /\ Pages.frame_key rt g = Pages.frame_key rt f.
Proof.
  induction frames as [|frame rest IH]; intros seen; cbn [Pages.unique_frames].
  - split; [constructor|]. split; [constructor|]. split; [constructor|].
    intros f Hf. inversion Hf.
  - cbv zeta. destruct (bool_decide_reflect (Pages.frame_key rt frame ∈ seen)) as [Hin|Hnot].
    + destruct (IH seen) as (Hsub & Hnd & Hfresh & Hall).
      split; [now apply sublist_cons|]. split; [exact Hnd|]. split; [exact Hfresh|].
      intros f Hf. apply elem_of_cons in Hf as [->|Hf]; [now left | now apply Hall].
    + destruct (IH ({[Pages.frame_key rt frame]} ∪ seen)) as (Hsub & Hnd & Hfresh & Hall).
      split; [now apply sublist_skip|]. split.
      { cbn [map]. apply NoDup_cons. split; [|exact Hnd].
        intros Hk. apply list_elem_of_fmap in Hk as (g & Hkey & Hg).
        rewrite Forall_forall in Hfresh. apply (Hfresh g Hg). rewrite <- Hkey.
        apply elem_of_union_l, elem_of_singleton. reflexivity. }
      split.
      { constructor; [exact Hnot|]. eapply Forall_impl; [exact Hfresh|].
        intros g Hg Hs. apply Hg, elem_of_union_r, Hs. }
      intros f Hf. apply elem_of_cons in Hf as [->|Hf].
      * right. exists frame. split; [left | reflexivity].
      * destruct (Hall f Hf) as [Hseen|(g & Hg & Hkey)].
        -- apply elem_of_union in Hseen as [Hone|Hseen]; [|now left].
           apply elem_of_singleton in Hone. right. exists frame. split; [left | now symmetry].
        -- right. exists g. split; [now right | exact Hkey].
Qed.

End PageFrames.

(** X16.  The frames the overview page shows: one frame for every key
    [frame_id-timestamp-path] that occurs in the response and no key twice,
    each of them a frame of the response, in ascending order of the
    timestamp with a frame whose timestamp is not a number counted as
    [Number.MAX_VALUE]. *)
Theorem shown_frames_unique_sorted (rt : JsRuntime) (frames : list OverviewFrame) :
  let shown := Pages.shown_frames rt frames in
  NoDup (map (Pages.frame_key rt) shown)
  /\ (forall f, f ∈ shown -> f ∈ frames)
  /\ (forall f, f ∈ frames ->
        exists g, g ∈ shown /\ Pages.frame_key rt g = Pages.frame_key rt f)
  /\ StronglySorted (Obs.key_le Pages.sort_timestamp) shown
  /\ Permutation shown (Pages.unique_frames rt ∅ frames).
Proof.
  intros shown. subst shown. unfold Pages.shown_frames.
  destruct (unique_frames_spec rt frames ∅) as (Hsub & Hnd & _ & Hall).
  pose proof (js_sort_perm Pages.by_sort_timestamp (Pages.unique_frames rt ∅ frames)) as Hperm.
  split.
  { rewrite (Permutation_map (Pages.frame_key rt) Hperm). exact Hnd. }
  split.
  { intros f Hf. eapply elem_of_sublist; [|exact Hsub]. now rewrite <- Hperm. }
  split.
  { intros f Hf. destruct (Hall f Hf) as [Hseen|(g & Hg & Hkey)];
      [now apply not_elem_of_empty in Hseen|].
    exists g. split; [now rewrite Hperm | exact Hkey]. }
  split; [|exact Hperm].
  apply (js_sort_sorted Pages.sort_timestamp Pages.by_sort_timestamp (fun _ => True)).
  - reflexivity.
  - apply Forall_true. trivial.
Qed.

Lemma StronglySorted_sublist {A} (R : A -> A -> Prop) (l1 l2 : list A) :
  l1 `sublist_of` l2 -> StronglySorted R l2 -> StronglySorted R l1.
Proof.
  induction 1 as [|x l1 l2 Hsub IH|x l1 l2 Hsub IH]; intros Hs.
  - constructor.
  - apply StronglySorted_inv in Hs as [Hs Hx]. constructor; [now apply IH|].
    rewrite Forall_forall in *. intros y Hy. apply Hx. eapply elem_of_sublist; eassumption.
  - apply StronglySorted_inv in Hs as [Hs _]. now apply IH.
Qed.

Lemma sorted_numeric (l : list OverviewFrame) :
  Forall (fun f => is_number (of_timestamp f) = true) l ->
  StronglySorted (Obs.key_le Obs.frame_key) l ->
  StronglySorted (Obs.key_le Pages.sort_timestamp) l.
Proof.
  assert (Hkey : forall f, is_number (of_timestamp f) = true ->
                           Pages.sort_timestamp f = Obs.frame_key f).
  { intros f Hf. unfold Pages.sort_timestamp, Obs.frame_key.
    destruct (of_timestamp f) as [[q| | |]|]; try discriminate. reflexivity. }
  intros Hnum Hs. induction Hs as [|x l Hs IH Hx]; [constructor|].
  apply Forall_cons in Hnum as [Hn Hnum]. constructor; [now apply IH|].
  rewrite Forall_forall in *. intros y Hy. unfold Obs.key_le.
  rewrite (Hkey x Hn), (Hkey y (Hnum y Hy)). exact (Hx y Hy).
Qed.

(** X17.  On the frames that [overview] returns the sort of the overview page
    changes nothing: the page shows the frames of the response in the order
    of the response, with the repeated keys removed, all with a numeric
    timestamp and ascending. *)
Theorem overview_page_keeps_route_order (rt page_rt : JsRuntime) (matches : list Match) :
  let sent := overview_frames rt matches in
  let shown := Pages.shown_frames page_rt sent in
  shown = Pages.unique_frames page_rt ∅ sent
  /\ shown `sublist_of` sent
  /\ StronglySorted (Obs.key_le Obs.frame_key) shown
  /\ Forall (fun f => is_number (of_timestamp f) = true) shown.
Proof.
  intros sent shown.
  destruct (overview_frames_sorted rt matches) as (_ & Hsorted & Hin & _).
  fold sent in Hsorted, Hin.
  assert (Hnum : Forall (fun f => is_number (of_timestamp f) = true) sent).
  { apply Forall_forall. intros f Hf. apply list_elem_of_In, Hin in Hf. tauto. }
  destruct (unique_frames_spec page_rt sent ∅) as (Hsub & _).
  assert (Heq : shown = Pages.unique_frames page_rt ∅ sent).
  { subst shown. unfold Pages.shown_frames.
    apply (js_sort_ascending Pages.sort_timestamp); [reflexivity|].
    apply sorted_numeric.
    - rewrite Forall_forall in *. intros f Hf. apply Hnum.
      eapply elem_of_sublist; eassumption.
    - eapply StronglySorted_sublist; eassumption. }
  rewrite Heq. split; [reflexivity|]. split; [exact Hsub|]. split.
  - eapply StronglySorted_sublist; eassumption.
  - rewrite Forall_forall in *. intros f Hf. apply Hnum.
    eapply elem_of_sublist; eassumption.
Qed.

(** ** Listings *)

Lemma normalize_items_elem (items : list IndexItem) (name : string) :
  name ∈ normalize_items items <->
  name <> "" /\ exists item, item ∈ items /\ View.item_name item = Some name.
Proof.
  unfold normalize_items. rewrite list_elem_of_omap. split.
  - intros (item & Hin & Hname). fold (View.item_name item) in Hname.
    destruct (View.item_name item) as [n|] eqn:Hn; cbn [truthy_str] in Hname;
      [|discriminate].
    destruct (String.eqb_spec n ""); cbn [negb] in Hname; [discriminate|].
    injection Hname as <-. split; [assumption|]. exists item. split; assumption.
  - intros (Hne & item & Hin & Hname). exists item. split; [exact Hin|].
    fold (View.item_name item). rewrite Hname. cbn [truthy_str].
    destruct (String.eqb_spec name ""); [contradiction | reflexivity].
Qed.

(** X18.  [normalizeIndexList] returns, in order, the non-empty names of the
    entries of a listing, an entry being a string or an object with a
    [name]: a name is returned exactly when it is not empty and some entry
    carries it; entries without a name are dropped; a listing wrapped as
    [{ indexes: [...] }] gives the same names as the bare array; the test
    [indexes.some(...)] of the coordinator is membership in these names. *)
Theorem normalizeIndexList_names (listing : IndexListing) :
  (forall name, name ∈ normalizeIndexList listing <->
     name <> "" /\ exists item, item ∈ View.listed_items listing
                                /\ View.item_name item = Some name)
  /\ normalizeIndexList listing `sublist_of` omap View.item_name (View.listed_items listing)
  /\ length (normalizeIndexList listing) <= length (View.listed_items listing)
  /\ (forall items, normalizeIndexList (ListingObject (Some items))
                    = normalizeIndexList (ListingArray items))
  /\ (forall name, existsb (String.eqb name) (normalizeIndexList listing) = true
                   <-> name ∈ normalizeIndexList listing).
Proof.
  assert (Hsub : forall items, normalize_items items `sublist_of` omap View.item_name items).
  { induction items as [|item items IH]; [constructor|].
    change (normalize_items (item :: items))
      with (match (if truthy_str (View.item_name item) then View.item_name item else None)
            with Some n => n :: normalize_items items | None => normalize_items items end).
    change (omap View.item_name (item :: items))
      with (match View.item_name item
            with Some n => n :: omap View.item_name items
            | None => omap View.item_name items end).
    destruct (View.item_name item) as [n|]; cbn [truthy_str]; [|exact IH].
    destruct (negb (String.eqb n "")); [now apply sublist_skip | now apply sublist_cons]. }
  assert (Hlen : forall items, length (normalize_items items) <= length items).
  { induction items as [|item items IH]; [reflexivity|].
    change (normalize_items (item :: items))
      with (match (if truthy_str (View.item_name item) then View.item_name item else None)
            with Some n => n :: normalize_items items | None => normalize_items items end).
    destruct (if truthy_str (View.item_name item) then View.item_name item else None);
      cbn [length]; lia. }
  split.
  { intros name. destruct listing as [items|[items|]|]; cbn [normalizeIndexList View.listed_items];
      try apply normalize_items_elem;
      (split; [intros H; inversion H | intros (_ & item & H & _); inversion H]). }
  split.
  { destruct listing as [items|[items|]|]; cbn [normalizeIndexList View.listed_items];
      try apply Hsub; constructor. }
  split.
  { destruct listing as [items|[items|]|]; cbn [normalizeIndexList View.listed_items];
      try apply Hlen; cbn; lia. }
  split; [reflexivity|].
  intros name. rewrite existsb_exists, list_elem_of_In. split.
  - intros (x & Hin & Heq). apply String.eqb_eq in Heq. now subst.
  - intros Hin. exists name. split; [exact Hin | apply String.eqb_refl].
Qed.

(** ** What ingestion stores is what the overview reads *)

(** X19.  The summary that [ingest_final] stores is the summary [overview]
    reads: the summary vector has the id [overview] fetches, and when the
    fetch response holds its record (under [records], under [vectors] or at
    top level) the summary read is the stored text; as a match the summary
    record is not among the overview frames. *)
Theorem stored_summary_is_read (cfg : Config) (rt : JsRuntime) (videoId : option JsId)
    (text : string) (sumVec : option (list Q)) (response : FetchResponse) :
  let stored := summary_vector cfg videoId text sumVec in
  View.fetched response !! vector_id stored
  = Some {| fetched_metadata := Some (vector_metadata stored) |} ->
  vector_id stored = Obs.summary_id (getNamespace cfg videoId)
  /\ read_summary (vector_id stored) (Some response) = Some (JStr text)
  /\ overview_frames rt [View.as_match None stored] = [].
Proof.
  intros stored Hheld. split; [reflexivity|]. split.
  - unfold read_summary. cbn [mbind option_bind].
    fold (View.fetched response). rewrite Hheld. reflexivity.
  - reflexivity.
Qed.

Lemma stored_summary_is_read_witness :
  let stored := summary_vector Scenario.config (Some (IdNum 42)) "A car drives by."
                  (Some [1%Q; 2%Q]) in
  let response := {| fetch_records :=
                       Some {[ "video-42::summary"
                                 := {| fetched_metadata := Some (vector_metadata stored) |} ]};
                     fetch_vectors := None; fetch_own := ∅ |} in
  read_summary "video-42::summary" (Some response) = Some (JStr "A car drives by.").
Proof.
  exact (proj1 (proj2 (stored_summary_is_read Scenario.config Scenario.runtime
                         (Some (IdNum 42)) "A car drives by." (Some [1%Q; 2%Q])
                         {| fetch_records :=
                              Some {[ "video-42::summary"
                                        := {| fetched_metadata :=
                                                Some (vector_metadata
                                                        (summary_vector Scenario.config
                                                           (Some (IdNum 42)) "A car drives by."
                                                           (Some [1%Q; 2%Q]))) |} ]};
                            fetch_vectors := None; fetch_own := ∅ |}
                         eq_refl))).
Defined.

Lemma overview_frame_stored (cfg : Config) (payload : RoutePayload) (score : option Q)
    (frame : Frame) (embedding : option (list Q)) :
  overview_frame (View.as_match score (View.final_vector cfg payload frame embedding))
  = View.stored_frame cfg payload score frame.
Proof.
  unfold overview_frame, View.as_match, View.final_vector, View.stored_frame, frame_metadata.
  cbn [match_id match_score match_metadata vector_id vector_metadata mbind option_bind].
  destruct (description frame) as [d|], (filename_field (videoFilename payload)) as [n|];
    reflexivity.
Qed.

(** X20.  The frames that [ingest_final] stores are the frames [overview]
    shows: if the query returns the stored frame vectors together with the
    summary and manifest vectors, the frames of the response are exactly the
    stored frames (id, frame id, timestamp, description, path), one per
    frame and none for the summary or the manifest, in ascending order of
    the timestamp. *)
Theorem ingested_frames_in_overview (cfg : Config) (rt : JsRuntime) (payload : RoutePayload)
    (stored : list (Frame * option (list Q))) (text : string)
    (sumVec manVec : option (list Q)) (score : option Q) :
  let frames := map fst stored in
  let vectors := map (fun p => View.final_vector cfg payload p.1 p.2) stored in
  let extra := [ summary_vector cfg (videoId payload) text sumVec;
                 manifest_vector cfg (videoId payload) (videoFilename payload) frames manVec ] in
  let shown := overview_frames rt (map (View.as_match score) (vectors ++ extra)) in
  Permutation shown (map (View.stored_frame cfg payload score) frames)
  /\ length shown = length frames
  /\ StronglySorted (Obs.key_le Obs.frame_key) shown
  /\ map of_timestamp shown = map (fun f => Some (JNum (Obs.frame_key f))) shown.
Proof.
  intros frames vectors extra shown.
  assert (Hcand : List.filter (fun f => is_number (of_timestamp f))
                    (map overview_frame (map (View.as_match score) (vectors ++ extra)))
                  = map (View.stored_frame cfg payload score) frames).
  { subst vectors extra frames. rewrite !map_app, List.filter_app.
    replace (List.filter _ (map overview_frame (map (View.as_match score) [_; _]))) with
      (@nil OverviewFrame).
    2:{ cbn [map List.filter]. unfold overview_frame, View.as_match, manifest_vector,
          manifest_metadata, summary_vector.
        cbn [match_id match_score match_metadata vector_id vector_metadata mbind option_bind].
        destruct (filename_field (videoFilename payload)); reflexivity. }
    rewrite app_nil_r. induction stored as [|[f e] l IH]; [reflexivity|].
    cbn [map List.filter fst snd]. rewrite overview_frame_stored. cbn [of_timestamp
      View.stored_frame is_number]. now rewrite IH. }
  destruct (overview_frames_sorted rt (map (View.as_match score) (vectors ++ extra)))
    as (Hperm & Hsorted & Hin & _).
  fold shown in Hperm, Hsorted, Hin. rewrite Hcand in Hperm.
  split; [exact Hperm|]. split.
  { rewrite (Permutation_length Hperm). apply length_map. }
  split; [exact Hsorted|].
  apply map_ext_in. intros f Hf. apply Hin in Hf as [_ Hnum].
  unfold Obs.frame_key. destruct (of_timestamp f) as [[q| | |]|]; try discriminate.
  reflexivity.
Qed.

(** ** How a readiness check ends *)

Lemma poll_outcome (env : Services) (name : string) (n : nat) : forall st,
  exists answers,
    Forall (fun d => is_ready d = false) answers
    /\ ((exists d, is_ready d = true
                   /\ length answers < n
                   /\ poll env name n st
                      = (inr tt,
                         {| trace := trace st ++ flat_map (View.poll_round name) answers
                                       ++ [EvDescribeIndex name d];
                            indexInitPromises := indexInitPromises st;
                            console := console st |}))
        \/ (length answers = n
            /\ poll env name n st
               = (inl (timed_out name),
                  {| trace := trace st ++ flat_map (View.poll_round name) answers;
                     indexInitPromises := indexInitPromises st;
                     console := console st |}))).
Proof.
  induction n as [|n IH]; intros st; cbn [poll].
  - exists []. split; [constructor|]. right. split; [reflexivity|].
    cbn. rewrite app_nil_r. now destruct st.
  - rewrite run_bind. unfold try_, call.
    destruct (is_ready (describeIndex env (trace st) name)) eqn:Hready.
    + exists []. split; [constructor|]. left.
      exists (describeIndex env (trace st) name).
      split; [exact Hready|]. split; [cbn; lia | reflexivity].
    + rewrite run_bind. unfold sleep.
      destruct (IH (record_event (EvSleep 2000)
                      (record_event (EvDescribeIndex name (describeIndex env (trace st) name))
                         st))) as (answers & Hnot & Hcase).
      exists (describeIndex env (trace st) name :: answers).
      split; [constructor; assumption|].
      destruct Hcase as [(d & Hd & Hlen & Hrun)|(Hlen & Hrun)]; [left | right].
      * exists d. split; [exact Hd|]. split; [cbn; lia|].
        rewrite Hrun. cbn. rewrite <- ?app_assoc. reflexivity.
      * split; [cbn; lia|]. rewrite Hrun. cbn. rewrite <- ?app_assoc. reflexivity.
Qed.

Lemma initializer_unreachable (cfg : Config) (env : Services) (name : string) (st : State)
    (e : Thrown) :
  listIndexes env (trace st) = inl e ->
  initializer cfg env name st = (inl e, record_event (EvListIndexes (inl e)) st).
Proof.
  intros Hl. unfold initializer. rewrite run_bind. unfold call at 1. cbn beta zeta.
  now rewrite Hl.
Qed.

(** X21.  How a fresh readiness check ends.  It succeeds only right after a
    [describeIndex] answer that reports the index ready.  It fails only
    with the error of [listIndexes], with the error of [createIndex], or
    with the time-out error after 300 s of sleeping during which no answer
    reported ready: an error thrown by [describeIndex] is never passed on. *)
Theorem ensureIndexReady_outcomes (cfg : Config) (env : Services) (name : string)
    (st : State) :
  has_client (PINECONE_API_KEY cfg) = true ->
  indexInitPromises st !! name = None ->
  let out := ensureIndexReady cfg env name st in
  let new := Obs.new_events st out.2 in
  match out.1 with
  | inr _ =>
      exists d, last new = Some (EvDescribeIndex name d) /\ is_ready d = true
  | inl e =>
      new = [EvListIndexes (inl e)]
      \/ (exists listing,
            new = [EvListIndexes (inr listing); EvCreateIndex (create_request cfg name) (inl e)])
      \/ (e = timed_out name
          /\ View.slept new = 300000%Z
          /\ forall d, EvDescribeIndex name d ∈ new -> is_ready d = false)
  end.
Proof.
  intros Hc Hnone out new. subst new out.
  rewrite (ensureIndexReady_run cfg env name st Hc Hnone). cbn [fst snd].
  destruct (listIndexes env (trace st)) as [e|listing] eqn:Hl.
  { rewrite (initializer_unreachable cfg env name st e Hl).
    cbn [fst snd trace]. left. apply new_events_app. reflexivity. }
  rewrite (initializer_listed cfg env name st listing Hl).
  assert (Hpoll : forall pre st1,
            trace st1 = trace st ++ pre ->
            Forall (fun ev => is_provisioning ev = true) pre ->
            View.slept pre = 0%Z ->
            (forall d, EvDescribeIndex name d ∈ pre -> False) ->
            let r := poll env name maxAttempts st1 in
            match r.1 with
            | inr _ =>
                exists d, last (Obs.new_events st
                                  {| trace := trace r.2;
                                     indexInitPromises := <[name:=inr tt]> (indexInitPromises st);
                                     console := console st |})
                          = Some (EvDescribeIndex name d) /\ is_ready d = true
            | inl e =>
                e = timed_out name
                /\ View.slept (Obs.new_events st
                                 {| trace := trace r.2;
                                    indexInitPromises := indexInitPromises st;
                                    console := console st |}) = 300000%Z
                /\ forall d, EvDescribeIndex name d
                             ∈ Obs.new_events st
                                 {| trace := trace r.2;
                                    indexInitPromises := indexInitPromises st;
                                    console := console st |} -> is_ready d = false
            end).
  { intros pre st1 Htr Hprov Hslept Hnodesc r. subst r.
    destruct (poll_outcome env name maxAttempts st1)
      as (answers & Hnot & [(d & Hd & Hlen & ->)|(Hlen & ->)]); cbn [fst snd trace].
    - exists d. split; [|exact Hd].
      rewrite (new_events_app st _ (pre ++ flat_map (View.poll_round name) answers
                                      ++ [EvDescribeIndex name d]))
        by (cbn; rewrite Htr, <- ?app_assoc; reflexivity).
      rewrite !app_assoc. apply last_snoc.
    - rewrite (new_events_app st _ (pre ++ flat_map (View.poll_round name) answers))
        by (cbn; rewrite Htr, <- ?app_assoc; reflexivity).
      split; [reflexivity|]. split.
      + assert (Happ : forall a b, View.slept (a ++ b) = (View.slept a + View.slept b)%Z).
        { intros a b. induction a as [|x a IHa]; [reflexivity|].
          unfold View.slept in *. cbn [app foldr]. destruct x; rewrite ?IHa; lia. }
        rewrite Happ, Hslept, slept_rounds, Hlen. reflexivity.
      + intros d Hd. apply elem_of_app in Hd as [Hd|Hd]; [destruct (Hnodesc d Hd)|].
        clear -Hd Hnot. induction Hnot as [|a l Ha _ IH]; [inversion Hd|].
        cbn [flat_map View.poll_round app] in Hd.
        apply elem_of_cons in Hd as [[= <-]|Hd]; [exact Ha|].
        apply elem_of_cons in Hd as [[=]|Hd]. now apply IH. }
  destruct (existsb (String.eqb name) (normalizeIndexList listing)).
  - specialize (Hpoll [EvListIndexes (inr listing)]
                  (record_event (EvListIndexes (inr listing)) st) eq_refl
                  ltac:(repeat constructor) eq_refl).
    cbv zeta in Hpoll.
    destruct (poll env name maxAttempts _) as [[e|[]] st2]; cbn [fst snd] in *.
    + right. right. apply Hpoll. intros d Hd. apply list_elem_of_singleton in Hd. discriminate.
    + apply Hpoll. intros d Hd. apply list_elem_of_singleton in Hd. discriminate.
  - cbn [record_event trace].
    destruct (createIndex env (trace st ++ [EvListIndexes (inr listing)])
                (create_request cfg name)) as [e|[]].
    + cbn [fst snd trace record_event]. right. left. exists listing.
      apply new_events_app. cbn. rewrite <- ?app_assoc. reflexivity.
    + specialize (Hpoll [EvListIndexes (inr listing);
                         EvCreateIndex (create_request cfg name) (inr tt)]
                    (record_event (EvCreateIndex (create_request cfg name) (inr tt))
                       (record_event (EvListIndexes (inr listing)) st))
                    ltac:(cbn; rewrite <- ?app_assoc; reflexivity)
                    ltac:(repeat constructor) eq_refl).
      cbv zeta in Hpoll.
      assert (Hno : forall d, EvDescribeIndex name d
                              ∈ [EvListIndexes (inr listing);
                                 EvCreateIndex (create_request cfg name) (inr tt)] -> False).
      { intros d Hd. apply elem_of_cons in Hd as [[=]|Hd].
        apply list_elem_of_singleton in Hd. discriminate. }
      destruct (poll env name maxAttempts _) as [[e|[]] st2]; cbn [fst snd] in *.
      * right. right. apply Hpoll, Hno.
      * apply Hpoll, Hno.
Qed.

Lemma ensureIndexReady_outcomes_witness :
  let out := ensureIndexReady Scenario.config Cases.no_index "clip-7" Scenario.start in
  out.1 = inr tt
  /\ exists d, last (Obs.new_events Scenario.start out.2) = Some (EvDescribeIndex "clip-7" d)
               /\ is_ready d = true.
Proof.
  split; [reflexivity|].
  exact (ensureIndexReady_outcomes Scenario.config Cases.no_index "clip-7" Scenario.start
           eq_refl eq_refl).
Defined.

(** ** The actions that only read *)

Section ReadOnly.

Variable cfg : Config.
Variable rt : JsRuntime.
Variable env : Services.
Variable P : Event -> Prop.

Lemma emits_ret {A} (a : A) : View.emits P (mret a : M A).
Proof. intros st. exists []. split; [now rewrite app_nil_r | constructor]. Qed.

Lemma emits_throw {A} (e : Thrown) : View.emits P (throw e : M A).
Proof. intros st. exists []. split; [now rewrite app_nil_r | constructor]. Qed.

Lemma emits_await {A} (p : Thrown + A) : View.emits P (await p).
Proof. intros st. exists []. split; [now rewrite app_nil_r | constructor]. Qed.

Lemma emits_bind {A B} (m : M A) (f : A -> M B) :
  View.emits P m -> (forall a, View.emits P (f a)) -> View.emits P (m ≫= f).
Proof.
  intros Hm Hf st. rewrite run_bind. destruct (Hm st) as (e1 & H1 & F1).
  destruct (m st) as [[e|a] st1]; cbn [snd] in *; [eauto|].
  destruct (Hf a st1) as (e2 & H2 & F2). exists (e1 ++ e2).
  split; [now rewrite H2, H1, app_assoc|]. apply Forall_app; split; assumption.
Qed.

Lemma emits_try {A} (m : M A) : View.emits P m -> View.emits P (try_ m).
Proof. intros Hm st. unfold try_. specialize (Hm st). now destruct (m st). Qed.

Lemma emits_console (l : LogLevel) (text : string) (e : option Thrown) :
  View.emits P (console_write l text e).
Proof. intros st. exists []. split; [cbn; now rewrite app_nil_r | constructor]. Qed.

Lemma emits_call {A} (ask : list Event -> Thrown + A) (ev : Thrown + A -> Event) :
  (forall r, P (ev r)) -> View.emits P (call ask ev).
Proof.
  intros Hev st. exists [ev (ask (trace st))]. split; [reflexivity|].
  repeat constructor. apply Hev.
Qed.

Lemma emits_mapM {A B} (f : A -> M B) (l : list A) :
  (forall a, View.emits P (f a)) -> View.emits P (mapM f l).
Proof.
  intros Hf. induction l as [|x l IH]; cbn [mapM]; [apply emits_ret|].
  apply emits_bind; [apply Hf|]. intros y.
  apply emits_bind; [exact IH|]. intros ys. apply emits_ret.
Qed.

Lemma emits_client : View.emits P (getPineconeClient cfg).
Proof.
  unfold getPineconeClient.
  destruct (has_client (PINECONE_API_KEY cfg)); [apply emits_ret | apply emits_throw].
Qed.

Hypothesis provisioning : forall ev, is_provisioning ev = true -> P ev.
Hypothesis embedding : forall text r, P (EvEmbed text r).
Hypothesis fetching : forall index ns ids r, P (EvFetch index ns ids r).
Hypothesis generating : forall prompt r, P (EvGenerate prompt r).

Lemma emits_embedTexts (texts : list string) : View.emits P (embedTexts cfg env texts).
Proof using embedding.
  unfold embedTexts. destruct texts as [|t texts]; [apply emits_throw|].
  apply emits_bind.
  { unfold getEmbeddingModel.
    destruct (has_client (GOOGLE_API_KEY cfg)); [apply emits_ret | apply emits_throw]. }
  intros _. apply emits_bind; [|intros; apply emits_await].
  apply emits_mapM. intros text. unfold embedOne, checkEmbeddingDimensions.
  apply emits_bind; [apply emits_try, emits_call, embedding|].
  intros [e|[[|v values]|]]; try apply emits_ret.
  apply emits_bind; [|intros; apply emits_ret].
  destruct (bool_decide _); [apply emits_ret | apply emits_console].
Qed.

Lemma emits_ensure (payload : RoutePayload) (name : string) :
  View.emits P (ensure_unless_skipped cfg env payload name).
Proof using provisioning.
  intros st.
  destruct (ensure_unless_skipped_only_provisioning cfg env payload name st)
    as (evs & Htrace & Fevs).
  exists evs. split; [exact Htrace|]. eapply Forall_impl; [exact Fevs | exact provisioning].
Qed.

(** A reading action makes provisioning, embedding, fetch and generation
    calls, and similarity queries of one shape. *)
Lemma emits_reads (payload : RoutePayload) :
  (forall vector r,
     P (EvQuery (resolveIndexName cfg (indexName payload))
          (getNamespace cfg (videoId payload))
          {| query_vector := vector;
             query_topK := Z.min (default (View.topK_bounds payload).1 (topK payload))
                             (View.topK_bounds payload).2;
             includeMetadata := true |} r)) ->
  View.reads_only payload = true -> View.emits P (dispatch cfg rt env payload).
Proof using provisioning embedding fetching generating.
  intros Hquery Hread. unfold View.reads_only in Hread. unfold dispatch.
  unfold View.topK_bounds in Hquery.
  assert (Hfinal : action_is payload "ingest_final" = false).
  { unfold action_is in *. destruct (action payload) as [a|]; [|reflexivity].
    destruct (String.eqb_spec a "ingest_final"); [subst; discriminate | reflexivity]. }
  assert (Hingest : action_is payload "ingest" = false).
  { unfold action_is in *. destruct (action payload) as [a|]; [|reflexivity].
    destruct (String.eqb_spec a "ingest"); [subst; discriminate | reflexivity]. }
  assert (Hexcl : action_is payload "query" = true ->
                  action_is payload "analyze" = false /\ action_is payload "overview" = false).
  { unfold action_is. destruct (action payload) as [a|]; [|discriminate].
    intros Ha. apply String.eqb_eq in Ha. subst a. split; reflexivity. }
  assert (Hexcl' : action_is payload "analyze" = true -> action_is payload "overview" = false).
  { unfold action_is. destruct (action payload) as [a|]; [|discriminate].
    intros Ha. apply String.eqb_eq in Ha. subst a. reflexivity. }
  rewrite Hfinal, Hingest.
  destruct (action_is payload "query") eqn:Hq.
  { destruct (Hexcl eq_refl) as [Ha Ho]. rewrite Ha, Ho in Hquery. cbn [fst snd] in Hquery.
    unfold post_query.
    apply emits_bind; [apply emits_ensure|]. intros _.
    destruct (truthy_str (question payload)); [|apply emits_ret].
    apply emits_bind; [apply emits_embedTexts|]. intros vs.
    destruct (head vs); [|apply emits_throw].
    apply emits_bind; [apply emits_client|]. intros _. cbv zeta.
    apply emits_bind; [apply emits_call, Hquery|]. intros; apply emits_ret. }
  destruct (action_is payload "analyze") eqn:Ha.
  { rewrite (Hexcl' eq_refl) in Hquery. cbn [fst snd] in Hquery.
    unfold post_analyze.
    apply emits_bind; [apply emits_ensure|]. intros _.
    destruct (truthy_str (question payload)); [|apply emits_ret].
    apply emits_bind; [apply emits_embedTexts|]. intros vs.
    apply emits_bind; [apply emits_client|]. intros _.
    cbv zeta. apply emits_bind; [apply emits_call, Hquery|]. intros result.
    apply emits_bind.
    { unfold getGenerationModel.
      destruct (has_client (GOOGLE_API_KEY cfg)); [apply emits_ret | apply emits_throw]. }
    intros _.
    apply emits_bind; [apply emits_call, generating|]. intros resp.
    apply emits_bind; [apply emits_await|]. intros; apply emits_ret. }
  destruct (action_is payload "overview"); [|apply emits_ret].
  cbn [fst snd] in Hquery. unfold post_overview.
  apply emits_bind; [apply emits_ensure|]. intros _.
  apply emits_bind.
  { unfold fetch_summary. apply emits_bind.
    - apply emits_try. apply emits_bind; [apply emits_client|].
      intros _. apply emits_call, fetching.
    - intros [e|r]; apply emits_ret. }
  intros summary.
  apply emits_bind; [apply emits_embedTexts|]. intros vs.
  apply emits_bind; [apply emits_client|]. intros _.
  cbv zeta. apply emits_bind; [apply emits_call, Hquery|].
  intros; apply emits_ret.
Qed.

End ReadOnly.

(** What [POST] adds to the trace for a reading action. *)
Lemma POST_emits (cfg : Config) (rt : JsRuntime) (env : Services) (P : Event -> Prop)
    (payload : RoutePayload) (st : State) :
  View.emits P (dispatch cfg rt env payload) ->
  Forall P (Obs.new_events st (POST cfg rt env payload st).2).
Proof.
  intros Hd.
  assert (H : View.emits P (requireClients cfg;; dispatch cfg rt env payload)).
  { apply emits_bind; [|intros _; exact Hd]. unfold requireClients.
    destruct (has_client (PINECONE_API_KEY cfg)), (has_client (GOOGLE_API_KEY cfg));
      (apply emits_ret || apply emits_throw). }
  destruct (H st) as (evs & Htrace & Fevs).
  assert (Hst : trace (POST cfg rt env payload st).2 = trace st ++ evs).
  { unfold POST.
    destruct ((requireClients cfg;; dispatch cfg rt env payload) st) as [[e|r] st1];
      exact Htrace. }
  now rewrite (new_events_app _ _ _ Hst).
Qed.

(** X22.  The actions [query], [analyze] and [overview] never write to the
    store: whatever the services answer, no upsert call is among the calls
    of the request. *)
Theorem read_actions_never_upsert (cfg : Config) (rt : JsRuntime) (env : Services)
    (payload : RoutePayload) (st : State) :
  View.reads_only payload = true ->
  Forall (fun ev => Obs.is_upsert ev = false)
         (Obs.new_events st (POST cfg rt env payload st).2).
Proof.
  intros Hread. apply POST_emits. apply emits_reads; try exact Hread; try reflexivity.
  intros [] H; (reflexivity || discriminate).
Qed.

Lemma read_actions_never_upsert_witness :
  let out := POST Scenario.config Scenario.runtime Scenario.services
               Scenario.overview_request Scenario.start in
  status out.1 = 200%Z
  /\ Forall (fun ev => Obs.is_upsert ev = false) (Obs.new_events Scenario.start out.2).
Proof.
  split; [reflexivity|].
  exact (read_actions_never_upsert Scenario.config Scenario.runtime Scenario.services
           Scenario.overview_request Scenario.start eq_refl).
Defined.

(** X23.  Every similarity query of a reading action goes to the index and
    the namespace of the request, includes the metadata, and asks for
    [min(topK ?? d, cap)] matches, where the default and the cap are 3 and 50
    for [query], 10 and 50 for [analyze], 200 and 1000 for [overview]: never
    more than 50 matches, or 1000 for an overview. *)
Theorem similarity_queries_capped (cfg : Config) (rt : JsRuntime) (env : Services)
    (payload : RoutePayload) (st : State)
    (index ns : string) (req : QueryRequest) (r : Thrown + option (list Match)) :
  View.reads_only payload = true ->
  EvQuery index ns req r ∈ Obs.new_events st (POST cfg rt env payload st).2 ->
  let bounds := View.topK_bounds payload in
  index = resolveIndexName cfg (indexName payload)
  /\ ns = getNamespace cfg (videoId payload)
  /\ includeMetadata req = true
  /\ query_topK req = Z.min (default bounds.1 (topK payload)) bounds.2
  /\ (query_topK req <= bounds.2)%Z
  /\ (bounds.2 = 50%Z \/ action payload = Some "overview" /\ bounds.2 = 1000%Z).
Proof.
  intros Hread Hin bounds.
  pose (P := fun ev =>
          match ev with
          | EvQuery i n q _ =>
              i = resolveIndexName cfg (indexName payload)
              /\ n = getNamespace cfg (videoId payload)
              /\ includeMetadata q = true
              /\ query_topK q = Z.min (default bounds.1 (topK payload)) bounds.2
          | _ => True
          end).
  assert (HP : Forall P (Obs.new_events st (POST cfg rt env payload st).2)).
  { apply POST_emits. apply emits_reads; [| | | | |exact Hread]; subst P.
    - intros [] H; try exact I. discriminate.
    - intros; exact I.
    - intros; exact I.
    - intros; exact I.
    - intros vector r'. cbn [includeMetadata query_topK]. repeat split. }
  rewrite Forall_forall in HP. specialize (HP _ Hin). cbn in HP.
  destruct HP as (-> & -> & Hm & Hk). repeat split; try assumption.
  - rewrite Hk. apply Z.le_min_r.
  - subst bounds. unfold View.topK_bounds, action_is.
    destruct (action payload) as [a|]; [|now left].
    destruct (String.eqb_spec a "overview"); [subst; right; split; reflexivity|].
    destruct (String.eqb a "analyze"); now left.
Qed.

Lemma similarity_queries_capped_witness :
  let out := POST Scenario.config Scenario.runtime Scenario.services
               Scenario.overview_request Scenario.start in
  EvQuery "video-frames" "video-42" Scenario.probe_request (inr (Some Scenario.store_matches))
  ∈ Obs.new_events Scenario.start out.2
  /\ query_topK Scenario.probe_request = 200%Z
  /\ (query_topK Scenario.probe_request <= 1000)%Z.
Proof.
  assert (Hin : EvQuery "video-frames" "video-42" Scenario.probe_request
                  (inr (Some Scenario.store_matches))
                ∈ Obs.new_events Scenario.start
                    (POST Scenario.config Scenario.runtime Scenario.services
                       Scenario.overview_request Scenario.start).2).
  { vm_compute. do 4 right. left. }
  destruct (similarity_queries_capped Scenario.config Scenario.runtime Scenario.services
              Scenario.overview_request Scenario.start _ _ _ _ eq_refl Hin)
    as (_ & _ & _ & Hk & Hle & _).
  split; [exact Hin|]. split; [exact Hk | exact Hle].
Defined.

(** ** From the upload to the overview *)

(** The index and the namespace that a successful final ingestion reports. *)
Lemma ingest_final_reports (cfg : Config) (rt : JsRuntime) (env : Services)
    (payload : RoutePayload) (st : State) (n : nat) (ns idx : string) (incl : option bool) :
  action payload = Some "ingest_final" ->
  (POST cfg rt env payload st).1 = json 200 (IngestBody n ns idx incl) ->
  idx = Obs.final_index cfg payload /\ ns = getNamespace cfg (videoId payload).
Proof.
  intros Ha Hresp.
  destruct (Obs.clients_configured cfg) eqn:Hcl.
  2:{ destruct (POST_no_clients cfg rt env payload st Hcl) as [e He].
      rewrite He in Hresp. absurd_response. }
  rewrite (POST_ingest_final_out cfg rt env payload st Ha Hcl) in Hresp. cbn [fst] in Hresp.
  destruct (post_ingest_final_cases cfg env payload st Hcl)
    as (prov & rest & _ & _ & [[_ H400]|(embeddings & sum_events & ma & vectors & r & Hrest)]).
  - destruct (post_ingest_final cfg env payload st).1 as [e|response];
      [unfold json in Hresp; discriminate|].
    specialize (H400 response eq_refl). rewrite Hresp in H400. discriminate.
  - destruct Hrest as (_ & _ & _ & _ & _ & _ & _ & Hout). rewrite Hout in Hresp.
    destruct r as [e|[]]; [unfold json in Hresp; discriminate|].
    unfold json in Hresp. injection Hresp as _ Hns Hidx _. now subst.
Qed.

(** X24.  After an upload the overview page reads what was ingested.  When the
    final ingestion requested by the upload page answers 200 and the cleaned
    file name has at most 45 characters, the overview request that the page
    opened by the redirect sends (index of the response, video id 1,
    [skipEnsure]) resolves to the index and to the namespace [video-1] that
    the ingestion reported. *)
Theorem upload_then_overview (cfg : Config) (rt : JsRuntime) (env : Services) (st : State)
    (fileName videoFilename : option string) (records : list RustFrameRecord)
    (summary : option string) (n : nat) (ns idx : string) (incl : option bool) :
  View.kept_whole cfg (Some (IdStr (default "video" fileName))) = true ->
  let ingest := Pages.upload_payload fileName videoFilename records summary in
  (POST cfg rt env ingest st).1 = json 200 (IngestBody n ns idx incl) ->
  let overview := Pages.overview_payload (Pages.redirect_index idx)
                    (Pages.initial_videoId (Some Pages.redirect_videoId) None) in
  resolveIndexName cfg (indexName overview) = idx
  /\ getNamespace cfg (videoId overview) = ns
  /\ ns = "video-1"
  /\ skipEnsure overview = Some true.
Proof.
  intros Hk ingest Hresp overview.
  destruct (ingest_final_reports cfg rt env ingest st n ns idx incl eq_refl Hresp)
    as [Hidx Hns].
  unfold Obs.final_index in Hidx. cbn [ingest Pages.upload_payload indexName videoFile] in Hidx.
  cbn [fmap option_fmap option_map] in Hidx.
  destruct (kept_whole_name cfg _ Hk) as (Hne & _ & Hname).
  assert (Hnz : negb (String.eqb idx "") = true).
  { rewrite Hidx. unfold resolveIndexName. rewrite Hname.
    destruct (sanitize_trimmed _); [contradiction | reflexivity]. }
  split.
  { subst overview. cbn [Pages.overview_payload indexName]. unfold Pages.redirect_index.
    rewrite Hnz, Hidx. apply (sanitize_fixed cfg _ Hk). }
  split; [rewrite Hns; reflexivity|]. split; [rewrite Hns; reflexivity|]. reflexivity.
Qed.

Lemma upload_then_overview_witness :
  let ingest := Pages.upload_payload (Some "Demo Crash.mp4") (Some "demo.mp4")
                  [Cases.record1] (Some "A car drives by.") in
  let overview := Pages.overview_payload "demo-crash-mp4" "1" in
  (POST Scenario.config Scenario.runtime Scenario.services ingest Scenario.start).1
  = json 200 (IngestBody 2 "video-1" "demo-crash-mp4" (Some true))
  /\ resolveIndexName Scenario.config (indexName overview) = "demo-crash-mp4"
  /\ getNamespace Scenario.config (videoId overview) = "video-1".
Proof.
  destruct (upload_then_overview Scenario.config Scenario.runtime Scenario.services
              Scenario.start (Some "Demo Crash.mp4") (Some "demo.mp4") [Cases.record1]
              (Some "A car drives by.") 2 "video-1" "demo-crash-mp4" (Some true)
              eq_refl eq_refl) as (Hidx & Hns & _).
  split; [reflexivity|]. split; [exact Hidx | exact Hns].
Defined.
